(* ===== verification/_CoqProject ===== *)
-Q . S2P
Prelude.v
StreamLoop.v
XrCodec.v
BoundedBuffer.v
HmacAuth.v
Printf.v
Clock.v
RadioBackend.v
LorahamConfig.v
Binary64.v
XrRadioConfig.v
LorahamFraming.v
DaemonTransport.v
PosixTransport.v
Listener.v
LorahamBackend.v
BackendSteps.v
BackendFacts.v
BackendTraffic.v
ScriptedTransport.v
BackendProperties.v
FakeBackend.v
XrSession.v
XrServerSpec.v
XrSessionFacts.v
XrSessionProperties.v
XrClient.v
XrInterop.v
XrConnection.v
XrServer.v
Erasure.v
XrServerFacts.v
Deadlines.v
ScriptedSocket.v
XrServerProperties.v
RfLog.v
RadioLog.v
Cli.v
ProcessLog.v
Main.v
