(* ===== verification/Prelude.v ===== *)
(** * meshcom-loraham-bridge

    The program is one process with one event loop.  A firmware node connects
    over TCP and speaks XR protocol v1 (length-framed messages: handshake,
    optional one-way HMAC authentication, radio configuration, packets,
    keepalive); the bridge serves it from a radio backend, in production the
    local LoRaHAM daemon behind two Unix sockets (CONF: text commands, DATA:
    framed packets).  The correctness at stake: never claim a transmission the
    radio did not confirm, never send a packet twice, never lose track of who
    owns the packet in flight, whatever clients, kernel and daemon do.

<<
      main.cpp -- XrServer -- XrConnection -- XrSession -- RadioBackend
                  (event loop)  (socket)      (protocol)      |
                                                 FakeBackend / LorahamBackend
                                                                  |
                                                     DaemonTransport (POSIX)
>>

    ** Files, in the order of dependency, with the code each models

    - [Prelude]: record update, machine integers, byte strings, tactics, the
      hint database [bridge], shared lemmas.
    - [StreamLoop]: the pop/handle/push loop that [XrSession::feed] and the
      LoRaHAM backend share; it consumes a byte stream independently of how the
      stream was cut into reads.
    - [XrCodec] (module extradio): third_party/external_radio_protocol, the
      codec: constants, [validate], encoders, decoders, the bounded parser.
    - [BoundedBuffer]: util/bounded_buffer.h.   [HmacAuth]: auth/hmac_auth.
    - [Printf]: the printf conversions the code uses, with the binary64 division
      and rounding in front of %.<p>f.
    - [Clock]: util/clock.h, and the broken-down wall-clock time of both logs.
    - [RadioBackend]: backend/radio_backend.h; the abstract class is a type
      class, the calls on the sink are the events [rb_poll] returns, and
      [BackendInvariant] is what a client may rely on.
    - [LorahamConfig], [LorahamFraming]: backend/loraham/loraham_config,
      loraham_framing, loraham_protocol.h.
    - [Binary64]: IEEE double arithmetic with its rounding error; [XrRadioConfig]:
      [buildRadioConfig] of external_radio_protocol on it.
    - [DaemonTransport]: loraham_transport.h, the abstract class and its contract
      ([DaemonTransportLaws]).  [PosixTransport]: loraham_posix_transport, over
      the system calls ([Kernel], [KernelLaws]); it discharges that contract.
    - [Listener]: [XrServer::listen] over the same kernel.
    - [LorahamBackend]: loraham_backend, every operation.  [BackendSteps]: its
      atomic transitions; [BackendFacts]: its abstract state diagram, the
      simulation and the ownership invariant; [BackendTraffic]: transport and
      backend wrapped in recorders, for what crosses the DATA socket over several
      connections; [BackendProperties]: the theorems.
      [ScriptedTransport]: a scripted daemon for the witnesses.
    - [FakeBackend]: backend/fake_backend.
    - [XrSession]: xr/xr_session, every operation.  [XrServerSpec]: the server
      role of the protocol as an executable monitor of histories;
      [XrSessionFacts], [XrSessionProperties]: the session obeys it.
    - [XrClient]: the firmware's [Session] of external_radio_protocol;
      [XrInterop]: both ends connected.
    - [XrConnection], [XrServer]: xr/xr_connection, xr/xr_server (the event
      loop).  [Erasure]: a run over a wrapped transport or backend is the run
      over what is wrapped, so what recorders show holds of the real run.
      [Deadlines]: the deadlines of session and backend stay 64-bit numbers.
      [XrServerFacts], [XrServerProperties]: invariants of the loop for any
      backend and for the LoRaHAM backend.  [ScriptedSocket]: for witnesses.
    - [RfLog]: util/rflog; [RadioLog]: what the backend logs, on disk.
    - [Cli], [Main]: main.cpp, option parsing and start-up, where all parts are
      put together; [ProcessLog]: util/log, the usage text, the console.

    ** How the code is rendered

    A class is a record with the source's member names; a member function is a
    function on it with the same name.  An object that calls another one is
    paired with it in a world ([xr_session.world], [loraham_backend.world]),
    which also carries the history the specifications speak about: frames sent
    and received, calls on the backend, events for the sink with what the backend
    observed before them (a frame or a status of the daemon, a lost link, a
    deadline), lines for the RF log.  Nothing in the operations reads the
    history.  Integers are [Z] with
    the wrap-around of their width written out; buffers are lists of bytes with
    their capacity where the code has one.

    Time is an argument of the operations, one reading per call; an iteration of
    the event loop takes a reading for each call that reads the clock
    ([instants]).  What the operating
    system, OpenSSL and the daemon do is not in the repository: these are type
    classes ([Kernel], [NetKernel], [Socket], [DaemonTransport], [OpenSSL]) whose
    laws state documented behaviour (a count is at most what was offered, a new
    descriptor is not open, a closed one no longer is, a MAC is 32 bytes).  Each
    has a concrete instance on which the witnesses evaluate the code.

    ** Fuel

    Loops that are not structural run on fuel.  A send loop of the backend uses
    one more than the bytes that remain, which is always enough.  A receive loop,
    and the flush of a client connection (interrupted calls are repeated), use one
    more than the answers the socket can still give before it has nothing more
    ([in_pending], [conf_pending], ...).  The contract of the transport does not
    bound these: [backend_loops_terminate] shows, without such an assumption, that
    a receive loop is over unless every read filled its chunk; a daemon that
    fills the socket as fast as it is read would keep the code in the loop.  That
    a loop reads only what has arrived is a class of its own ([ArrivedInput],
    [KernelInput], [SocketFinite]); under it the fuel is enough
    ([model_fuel_enough], [connection_loops_terminate]).  No other theorem needs
    it.  The pop/
    push loop uses the number of bytes ([StreamLoop]).  The copy of the RF log
    uses its size and the interruptions ([copy_loop_complete]).  Decimal
    printing has 20 digits, enough for 64 bits.

    ** What the theorems show

    - Protocol: every session history is accepted by the monitor
      ([session_refines_server]); from it, the authentication and configuration
      gates, one honest result per request, finality of close, deadlines, intact
      output, independence of fragmentation.  The firmware's end resolves each
      packet at most once and only by its own result ([client_outcomes_honest]);
      the two ends together never run into a protocol error
      ([ends_interoperate]).
    - Backend: it follows the state diagram of its header, each step caused by
      what the backend observed ([backend_refines_diagram]); the bytes at the daemon agree with the owner
      of the packet ([daemon_ownership_bytes]); results at most once; Faulted is
      for ever; configuration and drain are settled by their deadlines.
    - Composition: the same for the event loop with connections that come and go
      ([server_sessions_correct], [bridge_ownership]), and for the process that
      [main] starts on the POSIX transport ([production_bridge]); over any number
      of connections to the daemon no packet crosses the DATA socket twice and
      none that was not accepted ([packets_at_most_once]: the recorders it speaks
      of erase to the run itself).  The loop wakes up in time for every deadline
      it can ever have ([timeout_never_oversleeps]); a signal ends it and leaves
      no descriptor open: listener, transport, every accepted client, RF log
      ([clean_exit]).
    - Transport and files: no descriptor leaks and no byte is lost or invented
      ([posix_transport_sound]); log lines stay in their buffer, say what
      happened and are retained ([rflog_line_exact], ...), down to the files
      after any run of the backend ([rf_log_files]).
    - Codecs and options: round trips and exact acceptance conditions; the
      firmware's conversion of its settings is the nearest Hz in spite of
      floating point ([built_config_nearest]).  A refused start has the exit code
      of the first reason in the order of the code, and says why
      ([main_exit_codes], [console_says_why]).

    ** Not modelled

    The log lines of session, backend and server ([logf] itself and the lines of
    [main] are); the installation of the signal handlers (what the handler does
    and when the loop reads its flag are); accessors for tests that return one
    member; the constants of loraham_protocol.h no code uses; the constant 20 ms
    pause of [try_accept] when descriptors are
    exhausted.  Another process may clear the RF log between two calls ([Clear]),
    not in the middle of one.  [localtime_r] is an argument: time zones are not
    in the repository. *)

From stdpp Require Export base list numbers strings.
From Stdlib Require Export ZArith Lia ZifyBool ZifyNat.

Global Set Warnings "-clear-no-such-hyp".

(** ** Notations and scopes *)

Declare Scope bridge_scope.
Delimit Scope bridge_scope with bridge.
Global Open Scope Z_scope.
Global Open Scope bridge_scope.

(** A byte buffer: a list of integers, each meant to be a [uint8_t]. *)
Abbreviation bytes := (list Z) (only parsing).

(** ** Record update

    The C++ classes mutate one field at a time.  [s <| f := v |>] is the
    record [s] with the field [f] replaced; the setter of a field is computed
    from the eta-expansion of its record, given once per record as an [Eta]
    instance. *)
Class Eta (R : Type) := eta : R -> R.
Class Setter {R T : Type} (proj : R -> T) := modify : (T -> T) -> R -> R.
Arguments modify {R T} proj {_} _ _ /.

Ltac derive_setter :=
  match goal with
  | |- @Setter ?R ?T ?proj =>
      let f := fresh "f" in
      let r := fresh "r" in
      intros f r;
      let e := constr:(_ : Eta R) in
      let body := eval hnf in (e r) in
      let h := eval pattern (proj r) in body in
      lazymatch h with
      | (fun _ => ?t) _ => fail "no such field"
      | ?g _ => let u := eval cbv beta in (g (f (proj r))) in exact u
      end
  end.

#[export] Hint Extern 1 (Setter _) => derive_setter : typeclass_instances.

Notation "s <| proj := v |>" := (modify proj (fun _ => v) s)
  (at level 1, left associativity, proj at level 9, v at level 200,
   format "s  <| proj  :=  v |>") : bridge_scope.

(** The setters do set (and leave the rest alone). *)
Record setter_example := { example_a : Z; example_b : bool }.
#[export] Instance eta_setter_example : Eta setter_example :=
  fun r => {| example_a := example_a r; example_b := example_b r |}.
Example setter_sets r v :
  r <| example_a := v |> = {| example_a := v; example_b := example_b r |}.
Proof. reflexivity. Qed.

(** ** Machine integers

    A [w]-bit integer is a [Z]; the conversions below write out the wrap-around
    of C++'s unsigned arithmetic and of its narrowing casts. *)
Definition u8 (x : Z) : Z := x mod 256.
Definition u16 (x : Z) : Z := x mod 65536.
Definition u32 (x : Z) : Z := x mod 4294967296.
Definition u64 (x : Z) : Z := x mod 18446744073709551616.
Definition s8 (x : Z) : Z := (x + 128) mod 256 - 128.
Definition s16 (x : Z) : Z := (x + 32768) mod 65536 - 32768.

Definition UINT64_MAX : Z := 18446744073709551615.

Definition is_u8 (x : Z) : Prop := 0 <= x < 256.
Definition is_u16 (x : Z) : Prop := 0 <= x < 65536.
Definition is_u32 (x : Z) : Prop := 0 <= x < 4294967296.
Definition is_u64 (x : Z) : Prop := 0 <= x < 18446744073709551616.
Definition is_s8 (x : Z) : Prop := -128 <= x < 128.
Definition is_s16 (x : Z) : Prop := -32768 <= x < 32768.

(** A buffer of genuine bytes. *)
Definition is_bytes (bs : bytes) : Prop := Forall is_u8 bs.

(** ** Buffers and strings *)

(** [p[i]]; reads past the end never happen in the modelled code (every read
    is behind a length test), the default is arbitrary. *)
Definition byte_at (p : bytes) (i : nat) : Z := nth i p 0.

(** The length of a buffer as an integer. *)
Definition zlen {A : Type} (l : list A) : Z := Z.of_nat (length l).

(** The bytes of a string literal ([std::string] and [char[]] are bytes). *)
Definition str (s : string) : bytes :=
  map (fun c => Z.of_N (Ascii.N_of_ascii c)) (String.list_ascii_of_string s).

Definition LF : Z := 10.
Definition CR : Z := 13.
Definition TAB : Z := 9.
Definition SP : Z := 32.

Fixpoint bytes_eqb (a b : bytes) : bool :=
  match a, b with
  | [], [] => true
  | x :: a', y :: b' => (x =? y) && bytes_eqb a' b'
  | _, _ => false
  end.

(** [s.compare(0, strlen(p), p) == 0]. *)
Definition starts_with (s p : bytes) : bool := bytes_eqb (take (length p) s) p.

(** [s.find(c)]: position of the first [c]. *)
Fixpoint find_byte (c : Z) (s : bytes) : option nat :=
  match s with
  | [] => None
  | x :: s' => if x =? c then Some 0%nat else option_map S (find_byte c s')
  end.

(** [s.find(key)]: position of the first occurrence of [key]. *)
Fixpoint find_sub (key s : bytes) : option nat :=
  if starts_with s key then Some 0%nat
  else match s with
       | [] => None
       | _ :: s' => option_map S (find_sub key s')
       end.

(** ** Automation *)

Create HintDb bridge discriminated.

(** Split the conditionals and matches of the goal, keeping the equations. *)
Ltac split_ifs :=
  repeat case_match; simplify_eq/=.

(** Turn a hypothesis on a conjunction of booleans into its conjuncts. *)
Ltac bool_hyps :=
  repeat match goal with
  | H : (_ && _) = true |- _ => apply andb_true_iff in H; destruct H
  | H : (_ || _) = false |- _ => apply orb_false_iff in H; destruct H
  | H : negb _ = true |- _ => apply negb_true_iff in H
  | H : negb _ = false |- _ => apply negb_false_iff in H
  end.

Ltac unfold_ints :=
  unfold is_u8, is_u16, is_u32, is_u64, is_s8, is_s16, u8, u16, u32, u64, s8, s16 in *.

(** Bounds and wrap-around goals on machine integers. *)
Ltac int_lia := unfold_ints; Z.div_mod_to_equations; lia.

(** ** Generic lemmas *)

Lemma u8_range x : is_u8 (u8 x).
Proof. int_lia. Qed.
Lemma u16_range x : is_u16 (u16 x).
Proof. int_lia. Qed.
Lemma u32_range x : is_u32 (u32 x).
Proof. int_lia. Qed.
Lemma u64_range x : is_u64 (u64 x).
Proof. int_lia. Qed.
Lemma s8_range x : is_s8 (s8 x).
Proof. int_lia. Qed.
Lemma s16_range x : is_s16 (s16 x).
Proof. int_lia. Qed.
#[export] Hint Resolve u8_range u16_range u32_range u64_range s8_range s16_range : bridge.

Lemma u8_id x : is_u8 x -> u8 x = x.
Proof. int_lia. Qed.
Lemma u16_id x : is_u16 x -> u16 x = x.
Proof. int_lia. Qed.
Lemma u32_id x : is_u32 x -> u32 x = x.
Proof. int_lia. Qed.
Lemma u64_id x : is_u64 x -> u64 x = x.
Proof. int_lia. Qed.

(** Reinterpreting a signed value as unsigned and back is the identity. *)
Lemma s8_u8 x : is_s8 x -> s8 (u8 x) = x.
Proof. int_lia. Qed.
Lemma s16_u16 x : is_s16 x -> s16 (u16 x) = x.
Proof. int_lia. Qed.
Lemma u8_s8 x : is_u8 x -> u8 (s8 x) = x.
Proof. int_lia. Qed.

Lemma shiftr_div x n : 0 <= n -> Z.shiftr x n = x / 2 ^ n.
Proof. intros; by apply Z.shiftr_div_pow2. Qed.

Lemma land_255 x : Z.land x 255 = x mod 256.
Proof. change 255 with (Z.ones 8). by rewrite Z.land_ones. Qed.

(** Disjoint bit fields: [|] is [+]. *)
Lemma lor_shiftl_add a b n :
  0 <= n -> 0 <= b < 2 ^ n -> Z.lor (Z.shiftl a n) b = a * 2 ^ n + b.
Proof.
  intros Hn Hb.
  assert (Hdisj : Z.land (Z.shiftl a n) b = 0).
  { apply Z.bits_inj'; intros i Hi. rewrite Z.land_spec, Z.bits_0.
    destruct (Z.ltb_spec i n); [by rewrite Z.shiftl_spec_low|].
    rewrite <- (Z.mod_small b (2 ^ n)) by lia.
    by rewrite Z.mod_pow2_bits_high, andb_false_r by lia. }
  rewrite <- Z.shiftl_mul_pow2 by done.
  by rewrite <- Z.lxor_lor, <- Z.add_nocarry_lxor.
Qed.

Lemma is_bytes_app a b : is_bytes (a ++ b) <-> is_bytes a /\ is_bytes b.
Proof. apply Forall_app. Qed.

Lemma is_bytes_take n a : is_bytes a -> is_bytes (take n a).
Proof. apply Forall_take. Qed.

Lemma is_bytes_drop n a : is_bytes a -> is_bytes (drop n a).
Proof. apply Forall_drop. Qed.

Lemma is_bytes_at a i : is_bytes a -> is_u8 (byte_at a i).
Proof.
  intros H. unfold byte_at. destruct (Nat.lt_ge_cases i (length a)).
  - eapply Forall_forall; [exact H|]. by apply list_elem_of_In, nth_In.
  - rewrite nth_overflow by done. unfold is_u8; lia.
Qed.
#[export] Hint Resolve is_bytes_take is_bytes_drop is_bytes_at : bridge.

Lemma byte_at_app_l a b i : (i < length a)%nat -> byte_at (a ++ b) i = byte_at a i.
Proof. intros. unfold byte_at. by apply app_nth1. Qed.

Lemma byte_at_drop a n i : byte_at (drop n a) i = byte_at a (n + i)%nat.
Proof.
  unfold byte_at. revert n. induction a as [|x a IH]; intros [|n]; simpl; try done.
  by destruct i.
Qed.

Lemma bytes_eqb_eq a b : bytes_eqb a b = true <-> a = b.
Proof.
  revert b. induction a as [|x a IH]; intros [|y b]; simpl; split; intros H; try done.
  - bool_hyps. apply IH in H0. f_equal; [lia | done].
  - injection H as -> ->. rewrite Z.eqb_refl. simpl. by apply IH.
Qed.

Lemma starts_with_app p s : starts_with (p ++ s) p = true.
Proof. unfold starts_with. rewrite take_app_length. by apply bytes_eqb_eq. Qed.

Lemma starts_with_spec s p :
  starts_with s p = true <-> exists s', s = p ++ s'.
Proof.
  split.
  - intros H%bytes_eqb_eq. exists (drop (length p) s).
    rewrite <- H at 1. by rewrite take_drop.
  - intros [s' ->]. apply starts_with_app.
Qed.

Lemma find_byte_Some c s i :
  find_byte c s = Some i ->
  (i < length s)%nat /\ s = take i s ++ c :: drop (S i) s /\ ~ In c (take i s).
Proof.
  revert i. induction s as [|x s IH]; simpl; intros i H; [done|].
  destruct (Z.eqb_spec x c) as [->|Hne].
  - injection H as <-. simpl. rewrite drop_0. repeat split; [lia | naive_solver].
  - destruct (find_byte c s) as [j|]; simpl in H; [|done]. injection H as <-.
    destruct (IH j eq_refl) as (Hlt & Heq & Hnin). simpl. repeat split.
    + lia.
    + by f_equal.
    + intros [->|Hin]; done.
Qed.

Lemma find_byte_None c s : find_byte c s = None <-> ~ In c s.
Proof.
  induction s as [|x s IH]; simpl; [naive_solver|].
  destruct (Z.eqb_spec x c) as [->|Hne]; [split; [done | intros []; by left]|].
  destruct (find_byte c s); simpl; split; intros Hs; try done.
  - destruct Hs. right. destruct (in_dec Z.eq_dec c s) as [|Hn]; [done|]. by apply IH in Hn.
  - intros [->|Hin]; [done|]. by apply IH in Hin.
Qed.

(** The first separator is found behind a prefix without it. *)
Lemma find_byte_app c a b : ~ In c a -> find_byte c (a ++ c :: b) = Some (length a).
Proof.
  induction a as [|x a IH]; simpl; intros H.
  - by rewrite Z.eqb_refl.
  - destruct (Z.eqb_spec x c); [by destruct H; left|]. rewrite IH; [done|].
    intros Hin. by destruct H; right.
Qed.

(** Fields cut at a separator they do not contain. *)
Lemma split_at_sep (c : Z) (a b x y : bytes) :
  ~ In c a -> ~ In c b -> a ++ c :: x = b ++ c :: y -> a = b /\ x = y.
Proof.
  intros Ha Hb E. pose proof (find_byte_app c a x Ha) as Fa.
  pose proof (find_byte_app c b y Hb) as Fb. rewrite E, Fb in Fa. injection Fa as Hl.
  apply app_inj_1 in E as [-> E]; [|done]. by injection E as ->.
Qed.

Lemma Forall_not_In (P : Z -> Prop) (c : Z) (l : bytes) : Forall P l -> ~ P c -> ~ In c l.
Proof. intros Hl Hc Hin. apply Hc. eapply List.Forall_forall; eauto. Qed.

(** Lists of known length, split into their elements. *)
Lemma length_S {A} (l : list A) n :
  length l = S n -> exists x l', l = x :: l' /\ length l' = n.
Proof. destruct l as [|x l']; simpl; intros H; [lia|]. exists x, l'. split; [done | lia]. Qed.

(** Replace a list of a known concrete length by its elements. *)
Ltac explode_list l :=
  repeat match goal with
  | H : length l = S _ |- _ =>
      let x := fresh "x" in
      let l' := fresh "l" in
      let Hl := fresh "Hlen" in
      destruct (length_S l _ H) as (x & l' & -> & Hl); clear H; explode_list l'
  | H : length l = 0%nat |- _ => apply nil_length_inv in H; subst l
  end.
