(* ===== verification/StreamLoop.v ===== *)
(** The bounded receive loop shared by the XR session
    (src/xr/xr_session.cpp, [XrSession::feed]) and by the LoRaHAM backend
    (src/backend/loraham/loraham_backend.cpp, the inner loops of
    [advance_operational] and [advance_drain]):

<<
      for (;;) {
        pop a frame;  got one -> handle it (and return if the owner stopped);
                      error   -> fail closed;
        if (off >= n) break;
        push the remaining bytes; none taken -> fail closed;
      }
>>

    [StreamCodec] states what a bounded parser promises to such a loop; the
    loop itself is [stream_loop].  The section then relates the loop to the
    unbounded reference [drains], which consumes the frames of a byte stream
    from its head: the loop always ends, its "no byte taken" branch is dead,
    and how the stream was cut into reads does not matter. *)

From stdpp Require Import relations.
From S2P Require Import Prelude.

(** What the head of a byte stream holds. *)
Inductive decoded (F : Type) :=
  | DNeed
  | DGot (f : F) (rest : bytes)
  | DErr.
Arguments DNeed {F}.
Arguments DGot {F} f rest.
Arguments DErr {F}.

Inductive pop_result (F : Type) := PopNeed | PopGot (f : F) | PopErr.
Arguments PopNeed {F}.
Arguments PopGot {F} f.
Arguments PopErr {F}.

(** A bounded parser: its operations as the loop uses them. *)
Class StreamCodec (P F : Type) := {
  sc_content : P -> bytes;
  sc_cap : nat;
  sc_decode : bytes -> decoded F;
  sc_pop : P -> pop_result F * P;
  sc_push : P -> bytes -> nat * P;
}.

(** What it promises. *)
Class StreamCodecLaws (P F : Type) `{StreamCodec P F} := {
  sc_pop_spec p :
    match sc_decode (sc_content p) with
    | DNeed => sc_pop p = (PopNeed, p)
    | DErr => sc_pop p = (PopErr, p)
    | DGot f r => exists p', sc_pop p = (PopGot f, p') /\ sc_content p' = r
    end;
  sc_push_spec p d took p' :
    sc_push p d = (took, p') ->
    took = Nat.min (length d) (sc_cap - length (sc_content p)) /\
    sc_content p' = sc_content p ++ take took d;
  sc_got_app b f r x : sc_decode b = DGot f r -> sc_decode (b ++ x) = DGot f (r ++ x);
  sc_got_shrinks b f r : sc_decode b = DGot f r -> (length r < length b)%nat;
  sc_err_app b x : sc_decode b = DErr -> sc_decode (b ++ x) = DErr;
  sc_need_below_cap b : sc_decode b = DNeed -> (length b < sc_cap)%nat;
}.

(** How a run of the loop ended: input drained, owner stopped, fail closed. *)
Inductive loop_end := Drained | Stopped | Failed.

#[export] Instance loop_end_eq_dec : EqDecision loop_end.
Proof. solve_decision. Defined.

Section Loop.
Context {P F : Type} `{SC : !StreamCodec P F}.
Context {O : Type} (handle : F -> O -> O) (stop : O -> bool).

(** Result: how it ended, the owner, the parser. *)
Fixpoint pump (fuel : nat) (h : O) (p : P) (rest : bytes) : loop_end * O * P :=
  match fuel with
  | 0%nat => (Failed, h, p)
  | S fuel =>
      match sc_pop p with
      | (PopGot f, p') =>
          let h' := handle f h in
          if stop h' then (Stopped, h', p') else pump fuel h' p' rest
      | (PopErr, p') => (Failed, h, p')
      | (PopNeed, p') =>
          match rest with
          | [] => (Drained, h, p')
          | _ :: _ =>
              let '(took, p'') := sc_push p' rest in
              if (took =? 0)%nat then (Failed, h, p'')
              else pump fuel h p'' (drop took rest)
          end
      end
  end.

Definition pump_measure (p : P) (rest : bytes) : nat :=
  S (length (sc_content p) + 2 * length rest).

Definition stream_loop (h : O) (p : P) (data : bytes) : loop_end * O * P :=
  pump (pump_measure p data) h p data.

(** The reference: consume the frames at the head of an unbounded stream. *)
Inductive drains : O -> bytes -> loop_end -> O -> bytes -> Prop :=
  | drains_need h b : sc_decode b = DNeed -> drains h b Drained h b
  | drains_err h b : sc_decode b = DErr -> drains h b Failed h b
  | drains_stop h b f r :
      sc_decode b = DGot f r -> stop (handle f h) = true ->
      drains h b Stopped (handle f h) r
  | drains_step h b f r e h' b' :
      sc_decode b = DGot f r -> stop (handle f h) = false ->
      drains (handle f h) r e h' b' -> drains h b e h' b'.

(** ** The reference is a total function of the stream *)

Lemma drains_det h b e1 h1 b1 e2 h2 b2 :
  drains h b e1 h1 b1 -> drains h b e2 h2 b2 -> e1 = e2 /\ h1 = h2 /\ b1 = b2.
Proof.
  intros D. revert e2 h2 b2.
  induction D; intros e2 h2 b2 D2; inversion D2; simplify_eq; try done; try congruence.
  - assert (f = f0 /\ r = b2) as [-> ->] by (split; congruence). done.
  - apply IHD. assert (f = f0 /\ r = r0) as [-> ->] by (split; congruence). done.
Qed.

Context `{SCL : !StreamCodecLaws P F}.

Lemma drains_total_len n h b :
  (length b <= n)%nat -> exists e h' b', drains h b e h' b'.
Proof.
  revert h b. induction n as [|n IH]; intros h b Hn;
    destruct (sc_decode b) as [|f r|] eqn:E;
    try (by eexists _, _, _; constructor);
    pose proof (sc_got_shrinks _ _ _ E); [lia|].
  destruct (stop (handle f h)) eqn:Hs.
  - eexists _, _, _. by eapply drains_stop.
  - destruct (IH (handle f h) r) as (e & h' & b' & D); [lia|].
    eexists _, _, _. by eapply drains_step.
Qed.

Lemma drains_total h b : exists e h' b', drains h b e h' b'.
Proof. by eapply drains_total_len. Qed.

(** ** More input behind the stream *)

Lemma drains_app h x e h' r y :
  drains h x e h' r -> e <> Drained -> drains h (x ++ y) e h' (r ++ y).
Proof.
  induction 1; intros Hne; try done.
  - constructor. by apply sc_err_app.
  - eapply drains_stop; [by apply sc_got_app | done].
  - eapply drains_step; [by apply sc_got_app | done | eauto].
Qed.

Lemma drains_app_drained h x h1 r y e h2 r2 :
  drains h x Drained h1 r -> drains h1 (r ++ y) e h2 r2 -> drains h (x ++ y) e h2 r2.
Proof.
  remember Drained as d eqn:Hd. induction 1; intros; simplify_eq; try done.
  eapply drains_step; [by apply sc_got_app | done | eauto].
Qed.

(** ** The loop implements the reference *)

Lemma pump_refines fuel h p rest e h' p' :
  (pump_measure p rest <= fuel)%nat ->
  pump fuel h p rest = (e, h', p') ->
  exists left,
    drains h (sc_content p ++ rest) e h' (sc_content p' ++ left) /\
    (e = Drained -> left = []).
Proof.
  unfold pump_measure. revert h p rest.
  induction fuel as [|fuel IH]; intros h p rest Hfuel Hrun; [lia|].
  simpl in Hrun. pose proof (sc_pop_spec p) as Hpop.
  destruct (sc_decode (sc_content p)) as [|f r|] eqn:E.
  - rewrite Hpop in Hrun. destruct rest as [|z rest].
    { simplify_eq. exists []. rewrite app_nil_r. split; [by constructor | done]. }
    destruct (sc_push p (z :: rest)) as [took p''] eqn:Epush.
    destruct (sc_push_spec _ _ _ _ Epush) as [Htook Hc].
    pose proof (sc_need_below_cap _ E) as Hcap.
    destruct (Nat.eqb_spec took 0) as [->|Hpos]; [cbn [length] in Htook; lia|].
    apply IH in Hrun as (left & D & Hd);
      [|rewrite Hc, length_app, length_take, length_drop; cbn [length] in *; lia].
    exists left. split; [|done]. rewrite Hc, <- app_assoc, take_drop in D. done.
  - destruct Hpop as (p1 & Hpop & Hc). rewrite Hpop in Hrun.
    pose proof (sc_got_shrinks _ _ _ E) as Hshr.
    pose proof (sc_got_app _ _ _ rest E) as E'.
    destruct (stop (handle f h)) eqn:Hs.
    { simplify_eq. exists rest. split; [|done]. by eapply drains_stop. }
    apply IH in Hrun as (left & D & Hd); [|rewrite Hc; lia].
    exists left. split; [|done]. rewrite Hc in D. by eapply drains_step.
  - rewrite Hpop in Hrun. simplify_eq. exists rest. split; [|done].
    constructor. by apply sc_err_app.
Qed.

Lemma stream_loop_refines h p d e h' p' :
  stream_loop h p d = (e, h', p') ->
  exists left,
    drains h (sc_content p ++ d) e h' (sc_content p' ++ left) /\
    (e = Drained -> left = []).
Proof. by apply pump_refines. Qed.

(** The fuel is enough: more of it does not change the run. *)
Lemma pump_fuel_enough fuel h p rest :
  (pump_measure p rest <= fuel)%nat -> pump fuel h p rest = stream_loop h p rest.
Proof.
  unfold stream_loop. remember (pump_measure p rest) as m eqn:Hm.
  assert (Hge : (pump_measure p rest <= m)%nat) by lia. clear Hm. revert fuel h p rest Hge.
  induction m as [|m IH]; intros fuel h p rest Hge Hf; [unfold pump_measure in *; lia|].
  destruct fuel as [|fuel]; [lia|]. simpl. pose proof (sc_pop_spec p) as Hpop.
  unfold pump_measure in *.
  destruct (sc_decode (sc_content p)) as [|f r|] eqn:E.
  - rewrite Hpop. destruct rest as [|z rest]; [done|].
    destruct (sc_push p (z :: rest)) as [took p''] eqn:Epush.
    destruct (sc_push_spec _ _ _ _ Epush) as [Htook Hc].
    destruct (Nat.eqb_spec took 0) as [->|Hpos]; [done|].
    apply IH; [|lia]. rewrite Hc, length_app, length_take, length_drop. cbn [length] in *; lia.
  - destruct Hpop as (p1 & Hpop & Hc). rewrite Hpop.
    pose proof (sc_got_shrinks _ _ _ E) as Hshr.
    destruct (stop (handle f h)); [done|]. apply IH; [rewrite Hc; lia | lia].
  - by rewrite Hpop.
Qed.

(** The loop never reports a failure of its own: [Failed] means that the
    stream holds a malformed frame after the frames already handled. *)
Lemma stream_loop_failed h p d h' p' :
  stream_loop h p d = (Failed, h', p') ->
  exists b, drains h (sc_content p ++ d) Failed h' b /\ sc_decode b = DErr.
Proof.
  intros Hrun. destruct (stream_loop_refines _ _ _ _ _ _ Hrun) as (left & D & _).
  eexists. split; [exact D|]. clear Hrun.
  remember Failed as e. revert Heqe. induction D; intros; try done; eauto.
Qed.

(** ** Fragmentation does not matter *)

Lemma stream_loop_app h p x y e1 h1 p1 :
  stream_loop h p x = (e1, h1, p1) ->
  forall e2 h2 p2, stream_loop h p (x ++ y) = (e2, h2, p2) ->
  if decide (e1 = Drained)
  then exists p2', stream_loop h1 p1 y = (e2, h2, p2') /\
                   (e2 = Drained -> sc_content p2' = sc_content p2)
  else e2 = e1 /\ h2 = h1.
Proof.
  intros H1 e2 h2 p2 H2.
  destruct (stream_loop_refines _ _ _ _ _ _ H1) as (l1 & D1 & L1).
  destruct (stream_loop_refines _ _ _ _ _ _ H2) as (l2 & D2 & L2).
  rewrite app_assoc in D2. case_decide as He.
  - subst e1. rewrite L1, app_nil_r in D1 by done.
    destruct (stream_loop h1 p1 y) as [[e3 h3] p3] eqn:H3.
    destruct (stream_loop_refines _ _ _ _ _ _ H3) as (l3 & D3 & L3).
    destruct (drains_det _ _ _ _ _ _ _ _ D2 (drains_app_drained _ _ _ _ _ _ _ _ D1 D3))
      as (-> & -> & Hb).
    exists p3. split; [done|]. intros ->.
    by rewrite L2, L3, !app_nil_r in Hb by done.
  - destruct (drains_det _ _ _ _ _ _ _ _ D2 (drains_app _ _ _ _ _ y D1 He))
      as (-> & -> & _). done.
Qed.

(** A run that was stopped was stopped by its owner. *)
Lemma stream_loop_stopped h p d h' p' :
  stream_loop h p d = (Stopped, h', p') -> stop h' = true.
Proof.
  intros Hrun. destruct (stream_loop_refines _ _ _ _ _ _ Hrun) as (left & D & _). clear Hrun.
  remember Stopped as e. revert Heqe. induction D; intros; try done; eauto.
Qed.

(** Preservation of an invariant of the owner by the handler. *)
Lemma stream_loop_invariant (Q : O -> Prop) h p d e h' p' :
  (forall f h, Q h -> Q (handle f h)) ->
  Q h -> stream_loop h p d = (e, h', p') -> Q h'.
Proof.
  intros Hstep Hq Hrun. destruct (stream_loop_refines _ _ _ _ _ _ Hrun) as (left & D & _).
  clear Hrun. induction D; eauto.
Qed.
(** A run is a sequence of handler steps: every frame is handled in a state
    where [Pre] holds, provided that the handler keeps [Pre] as long as it does
    not stop the loop. *)
Lemma stream_loop_steps (R : relation O) (Pre : O -> Prop) h p d e h' p' :
  (forall f h, Pre h -> R h (handle f h)) ->
  (forall f h, Pre h -> stop (handle f h) = false -> Pre (handle f h)) ->
  Pre h -> stream_loop h p d = (e, h', p') ->
  rtc R h h' /\ (e <> Stopped -> Pre h').
Proof.
  intros HR HPre Hpre Hrun.
  destruct (stream_loop_refines _ _ _ _ _ _ Hrun) as (left & D & _). clear Hrun.
  induction D as [| |h b f r Hdec Hstop|h b f r e h' b' Hdec Hstop D IH].
  - by split; [apply rtc_refl|].
  - by split; [apply rtc_refl|].
  - split; [by apply rtc_once, HR | done].
  - destruct IH as [IH1 IH2]; [by apply HPre|]. split; [|done].
    eapply rtc_l; [by apply HR | done].
Qed.
(** The same with typing: [Qb] holds of the bytes of the stream, [Qf] of the
    frames cut from it; a frame is only handled while the owner is not stopped. *)
Lemma stream_loop_typed (Qb : bytes -> Prop) (Qf : F -> Prop) (Q : O -> Prop) h p d e h' p' :
  (forall b f r, sc_decode b = DGot f r -> Qb b -> Qf f /\ Qb r) ->
  (forall f h, Qf f -> stop h = false -> Q h -> Q (handle f h)) ->
  stop h = false -> Qb (sc_content p ++ d) -> Q h ->
  stream_loop h p d = (e, h', p') ->
  Q h' /\ (e <> Stopped -> stop h' = false) /\ exists left, Qb (sc_content p' ++ left).
Proof.
  intros Hb Hstep Hs Hqb Hq Hrun.
  destruct (stream_loop_refines _ _ _ _ _ _ Hrun) as (left & D & _). clear Hrun.
  remember (sc_content p ++ d) as b eqn:Eb. remember (sc_content p' ++ left) as b' eqn:Eb'.
  clear Eb. assert (Q h' /\ (e <> Stopped -> stop h' = false) /\ Qb b') as (H1 & H2 & H3);
    [|subst b'; by eauto].
  clear Eb' left. induction D as [| |h b f r Hdec Hst|h b f r e h' b' Hdec Hst D IH].
  - done.
  - done.
  - destruct (Hb _ _ _ Hdec Hqb). split; [by apply Hstep|]. done.
  - destruct (Hb _ _ _ Hdec Hqb). apply IH; [done|done|by apply Hstep].
Qed.
End Loop.
