(* ===== verification/XrCodec.v ===== *)
(** XR external-radio protocol v1: the wire codec of
    third_party/external_radio_protocol (frames, strict validation, encoders,
    payload decoders, bounded streaming parser).

    A [Frame] holds its payload as the list of its [len] bytes (the C++ array
    [payload[kMaxPayload]] up to [len]); a [Parser] holds the [have] buffered
    bytes of [buf[kMaxFrame]].  A pointer argument that may be null is an
    [option].  An encoder that returns 0 is [None], one that writes [total]
    bytes is [Some] of these bytes. *)

From S2P Require Import Prelude.
From S2P Require Import StreamLoop.

Module extradio.

(** ** Wire constants and limits *)

Definition kMagic0 : Z := 88.
Definition kMagic1 : Z := 82.
Definition kVersion : Z := 1.
Definition kHeaderSize : nat := 8.
Definition kMaxLoraPayload : nat := 255.
Definition kMaxPayload : nat := 300.
Definition kMaxFrame : nat := kHeaderSize + kMaxPayload.

Definition MSG_HELLO : Z := 1.
Definition MSG_HELLO_ACK : Z := 2.
Definition MSG_AUTH_CHALLENGE : Z := 3.
Definition MSG_AUTH_RESPONSE : Z := 4.
Definition MSG_AUTH_RESULT : Z := 5.
Definition MSG_CONFIGURE : Z := 6.
Definition MSG_CONFIG_RESULT : Z := 7.
Definition MSG_RX_PACKET : Z := 8.
Definition MSG_TX_REQUEST : Z := 9.
Definition MSG_TX_RESULT : Z := 10.
Definition MSG_PING : Z := 11.
Definition MSG_PONG : Z := 12.
Definition MSG_ERROR : Z := 13.
Definition kMsgTypeMin : Z := MSG_HELLO.
Definition kMsgTypeMax : Z := MSG_ERROR.

Definition kAuthNonceSize : nat := 16.
Definition kAuthResponseSize : nat := 32.

Definition AUTH_OK : Z := 0.
Definition AUTH_FAIL : Z := 1.

Definition CFG_OK : Z := 0.
Definition CFG_UNSUPPORTED : Z := 1.
Definition CFG_INVALID : Z := 2.

Definition TXR_SUCCESS : Z := 0.
Definition TXR_CHANNEL_BUSY : Z := 1.
Definition TXR_TIMEOUT : Z := 2.
Definition TXR_RADIO_ERROR : Z := 3.
Definition kTxResultMax : Z := TXR_RADIO_ERROR.

Definition WERR_INTERNAL : Z := 3.
Definition kWireErrorMax : Z := WERR_INTERNAL.

Inductive ErrorCode :=
  | ERR_NONE | ERR_NULL_ARG | ERR_BAD_MAGIC | ERR_BAD_VERSION | ERR_BAD_LENGTH
  | ERR_UNKNOWN_TYPE | ERR_BAD_SEQ | ERR_BAD_FIELD | ERR_BAD_STATE | ERR_AUTH
  | ERR_CONFIG | ERR_REMOTE | ERR_TIMEOUT.

#[export] Instance ErrorCode_eq_dec : EqDecision ErrorCode.
Proof. solve_decision. Defined.

(** ** Big-endian helpers *)

Definition put16 (v : Z) : bytes := [u8 (Z.shiftr v 8); u8 (Z.land v 255)].
Definition put32 (v : Z) : bytes :=
  [u8 (Z.shiftr v 24); u8 (Z.shiftr v 16); u8 (Z.shiftr v 8); u8 (Z.land v 255)].
Definition get16 (p : bytes) : Z :=
  u16 (Z.lor (Z.shiftl (byte_at p 0) 8) (byte_at p 1)).
Definition get32 (p : bytes) : Z :=
  Z.lor (Z.lor (Z.lor (u32 (Z.shiftl (byte_at p 0) 24)) (u32 (Z.shiftl (byte_at p 1) 16)))
               (u32 (Z.shiftl (byte_at p 2) 8)))
        (byte_at p 3).

Definition isKnownType (t : Z) : bool := (kMsgTypeMin <=? t) && (t <=? kMsgTypeMax).
Definition isBool (v : Z) : bool := (v =? 0) || (v =? 1).

(** ** Radio configuration *)

Record RadioConfig := mkRadioConfig {
  freq_hz : Z;
  bw_hz : Z;
  sf : Z;
  cr_denom : Z;
  sync_word : Z;
  preamble : Z;
  tx_power_dbm : Z;
  crc : Z;
  ldro : Z
}.

#[export] Instance RadioConfig_eq_dec : EqDecision RadioConfig.
Proof. solve_decision. Defined.

(** The value ranges of the C++ field types. *)
Definition RadioConfig_typed (c : RadioConfig) : Prop :=
  is_u32 (freq_hz c) /\ is_u32 (bw_hz c) /\ is_u8 (sf c) /\ is_u8 (cr_denom c) /\
  is_u16 (sync_word c) /\ is_u16 (preamble c) /\ is_s8 (tx_power_dbm c) /\
  is_u8 (crc c) /\ is_u8 (ldro c).

Definition kConfigPayloadSize : nat := 4 + 4 + 1 + 1 + 2 + 2 + 1 + 1 + 1.

Definition configEqual (a b : RadioConfig) : bool :=
  (freq_hz a =? freq_hz b) && (bw_hz a =? bw_hz b) && (sf a =? sf b) &&
  (cr_denom a =? cr_denom b) && (sync_word a =? sync_word b) &&
  (preamble a =? preamble b) && (tx_power_dbm a =? tx_power_dbm b) &&
  (crc a =? crc b) && (ldro a =? ldro b).

Definition radioConfigValid (c : RadioConfig) : bool := isBool (crc c) && isBool (ldro c).

Definition packConfig (cfg : RadioConfig) : bytes :=
  put32 (freq_hz cfg) ++ put32 (bw_hz cfg) ++
  [sf cfg] ++ [cr_denom cfg] ++
  put16 (sync_word cfg) ++ put16 (preamble cfg) ++
  [u8 (tx_power_dbm cfg)] ++ [crc cfg] ++ [ldro cfg].

Definition unpackConfig (p : bytes) : option RadioConfig :=
  if negb (isBool (byte_at p 15)) || negb (isBool (byte_at p 16)) then None
  else Some {|
    freq_hz := get32 (drop 0 p);
    bw_hz := get32 (drop 4 p);
    sf := byte_at p 8;
    cr_denom := byte_at p 9;
    sync_word := get16 (drop 10 p);
    preamble := get16 (drop 12 p);
    tx_power_dbm := s8 (byte_at p 14);
    crc := byte_at p 15;
    ldro := byte_at p 16
  |}.

(** ** Frames *)

Record Frame := mkFrame { type : Z; seq : Z; payload : bytes }.

Definition len (f : Frame) : nat := length (payload f).

(** A frame the C++ type can hold. *)
Definition Frame_typed (f : Frame) : Prop :=
  is_u8 (type f) /\ is_u16 (seq f) /\ is_bytes (payload f) /\ (len f <= kMaxPayload)%nat.

Definition validate (f : Frame) : ErrorCode :=
  if negb (isKnownType (type f)) then ERR_UNKNOWN_TYPE else
  let isTx := (type f =? MSG_TX_REQUEST) || (type f =? MSG_TX_RESULT) in
  if (if isTx then seq f =? 0 else negb (seq f =? 0)) then ERR_BAD_SEQ else
  if (type f =? MSG_HELLO) || (type f =? MSG_HELLO_ACK) then
    if negb (len f =? 1)%nat then ERR_BAD_LENGTH else
    if negb (byte_at (payload f) 0 =? kVersion) then ERR_BAD_VERSION else ERR_NONE
  else if type f =? MSG_AUTH_CHALLENGE then
    if (len f =? kAuthNonceSize)%nat then ERR_NONE else ERR_BAD_LENGTH
  else if type f =? MSG_AUTH_RESPONSE then
    if (len f =? kAuthResponseSize)%nat then ERR_NONE else ERR_BAD_LENGTH
  else if type f =? MSG_AUTH_RESULT then
    if negb (len f =? 1)%nat then ERR_BAD_LENGTH else
    if negb (byte_at (payload f) 0 =? AUTH_OK) && negb (byte_at (payload f) 0 =? AUTH_FAIL)
    then ERR_BAD_FIELD else ERR_NONE
  else if type f =? MSG_CONFIGURE then
    if negb (len f =? kConfigPayloadSize)%nat then ERR_BAD_LENGTH else
    if negb (isBool (byte_at (payload f) 15)) || negb (isBool (byte_at (payload f) 16))
    then ERR_BAD_FIELD else ERR_NONE
  else if type f =? MSG_CONFIG_RESULT then
    if (len f =? 1)%nat then
      if negb (byte_at (payload f) 0 =? CFG_OK) then ERR_NONE else ERR_BAD_LENGTH
    else if (len f =? 1 + kConfigPayloadSize)%nat then
      if negb (byte_at (payload f) 0 =? CFG_OK) then ERR_BAD_FIELD else
      if negb (isBool (byte_at (payload f) 16)) || negb (isBool (byte_at (payload f) 17))
      then ERR_BAD_FIELD else ERR_NONE
    else ERR_BAD_LENGTH
  else if type f =? MSG_RX_PACKET then
    if (len f <? 6)%nat then ERR_BAD_LENGTH else
    let dlen := get16 (drop 4 (payload f)) in
    if Z.of_nat kMaxLoraPayload <? dlen then ERR_BAD_LENGTH else
    if negb (Z.of_nat (len f) =? u16 (6 + dlen)) then ERR_BAD_LENGTH else ERR_NONE
  else if type f =? MSG_TX_REQUEST then
    if (len f <=? kMaxLoraPayload)%nat then ERR_NONE else ERR_BAD_LENGTH
  else if type f =? MSG_TX_RESULT then
    if negb (len f =? 1)%nat then ERR_BAD_LENGTH else
    if kTxResultMax <? byte_at (payload f) 0 then ERR_BAD_FIELD else ERR_NONE
  else if (type f =? MSG_PING) || (type f =? MSG_PONG) then
    if (len f =? 0)%nat then ERR_NONE else ERR_BAD_LENGTH
  else if type f =? MSG_ERROR then
    if negb (len f =? 1)%nat then ERR_BAD_LENGTH else
    if kWireErrorMax <? byte_at (payload f) 0 then ERR_BAD_FIELD else ERR_NONE
  else ERR_UNKNOWN_TYPE.

(** ** Encoding *)

(** [out] is the destination: [None] for a null pointer, else its capacity. *)
Definition encode (out : option nat) (ty sq : Z) (pl : option bytes) (n : nat)
    : option bytes :=
  match out with
  | None => None
  | Some out_cap =>
      if (kMaxPayload <? n)%nat then None else
      if (0 <? n)%nat && (match pl with None => true | Some _ => false end) then None else
      let total := (kHeaderSize + n)%nat in
      if (out_cap <? total)%nat then None else
      Some ([kMagic0; kMagic1; kVersion; ty] ++ put16 (Z.of_nat n) ++ put16 sq ++
            take n (default [] pl))
  end.

Definition encodeHello (out : option nat) : option bytes :=
  encode out MSG_HELLO 0 (Some [kVersion]) 1.

Definition encodeAuthResponse (out : option nat) (hmac32 : option bytes) : option bytes :=
  match hmac32 with
  | None => None
  | Some h => encode out MSG_AUTH_RESPONSE 0 (Some h) kAuthResponseSize
  end.

Definition encodeConfigure (out : option nat) (cfg : RadioConfig) : option bytes :=
  if negb (radioConfigValid cfg) then None else
  encode out MSG_CONFIGURE 0 (Some (packConfig cfg)) kConfigPayloadSize.

Definition encodeTxRequest (out : option nat) (sq : Z) (data : option bytes) (n : nat)
    : option bytes :=
  if sq =? 0 then None else
  if (kMaxLoraPayload <? n)%nat then None else
  if (0 <? n)%nat && (match data with None => true | Some _ => false end) then None else
  encode out MSG_TX_REQUEST sq data n.

Definition encodePong (out : option nat) : option bytes :=
  encode out MSG_PONG 0 None 0.

(** ** Payload decoders *)

Definition decodeConfig (f : Frame) : option RadioConfig :=
  if negb (type f =? MSG_CONFIGURE) || negb (len f =? kConfigPayloadSize)%nat then None
  else unpackConfig (payload f).

Record RxPacket := mkRxPacket { rssi : Z; snr : Z; data : bytes }.

Definition decodeRxPacket (f : Frame) : option RxPacket :=
  if negb (type f =? MSG_RX_PACKET) || (len f <? 6)%nat then None else
  let dlen := get16 (drop 4 (payload f)) in
  if Z.of_nat kMaxLoraPayload <? dlen then None else
  if negb (Z.of_nat (len f) =? u16 (6 + dlen)) then None else
  Some {| rssi := s16 (get16 (drop 0 (payload f)));
          snr := s16 (get16 (drop 2 (payload f)));
          data := take (Z.to_nat dlen) (drop 6 (payload f)) |}.

Definition rssiCentiToDbm (rssi_centi_dbm : Z) : Z := s16 (Z.quot rssi_centi_dbm 100).

Definition snrCentiToDb (snr_centi_db : Z) : Z :=
  let v := Z.quot snr_centi_db 100 in
  let v := if 127 <? v then 127 else v in
  let v := if v <? -128 then -128 else v in
  s8 v.

Definition rxPayloadAcceptable (n : Z) : bool :=
  (0 <? n) && (n <=? Z.of_nat kMaxLoraPayload).

Definition decodeConfigEcho (f : Frame) : option RadioConfig :=
  if negb (type f =? MSG_CONFIG_RESULT) then None else
  if negb (len f =? 1 + kConfigPayloadSize)%nat then None else
  if negb (byte_at (payload f) 0 =? CFG_OK) then None else
  unpackConfig (drop 1 (payload f)).

(** ** Bounded streaming parser *)

Inductive PopResult := POP_NEED_MORE | POP_GOT_FRAME (f : Frame) | POP_ERROR (err : ErrorCode).

Inductive ParserPushStatus :=
  PARSER_PUSH_OK | PARSER_PUSH_NEED_DRAIN | PARSER_PUSH_INVALID_INPUT.

Record Parser := mkParser { buf : bytes }.

Definition have (p : Parser) : nat := length (buf p).

Definition Parser_wf (p : Parser) : Prop := (have p <= kMaxFrame)%nat /\ is_bytes (buf p).

Definition parserReset (p : Parser) : Parser := {| buf := [] |}.

(** [d], [n] are the C++ pointer and length; returns the status, the number of
    consumed bytes and the new parser. *)
Definition parserPush (p : Parser) (d : option bytes) (n : nat)
    : ParserPushStatus * nat * Parser :=
  if (n =? 0)%nat then (PARSER_PUSH_OK, 0%nat, p) else
  match d with
  | None => (PARSER_PUSH_INVALID_INPUT, 0%nat, p)
  | Some d =>
      let space := (kMaxFrame - have p)%nat in
      let tk := if (n <? space)%nat then n else space in
      let p' := if (tk =? 0)%nat then p else {| buf := buf p ++ take tk d |} in
      ((if (tk =? n)%nat then PARSER_PUSH_OK else PARSER_PUSH_NEED_DRAIN), tk, p')
  end.

Definition parserPop (p : Parser) : PopResult * Parser :=
  if (have p <? kHeaderSize)%nat then (POP_NEED_MORE, p) else
  if negb (byte_at (buf p) 0 =? kMagic0) || negb (byte_at (buf p) 1 =? kMagic1)
  then (POP_ERROR ERR_BAD_MAGIC, p) else
  if negb (byte_at (buf p) 2 =? kVersion) then (POP_ERROR ERR_BAD_VERSION, p) else
  if negb (isKnownType (byte_at (buf p) 3)) then (POP_ERROR ERR_UNKNOWN_TYPE, p) else
  let n := get16 (drop 4 (buf p)) in
  if Z.of_nat kMaxPayload <? n then (POP_ERROR ERR_BAD_LENGTH, p) else
  let total := (kHeaderSize + Z.to_nat n)%nat in
  if (have p <? total)%nat then (POP_NEED_MORE, p) else
  (POP_GOT_FRAME {| type := byte_at (buf p) 3;
                    seq := get16 (drop 6 (buf p));
                    payload := take (Z.to_nat n) (drop kHeaderSize (buf p)) |},
   {| buf := drop total (buf p) |}).

(** The head of an unbounded XR byte stream, as [parserPop] sees it. *)
Definition decode_head (b : bytes) : decoded Frame :=
  match parserPop {| buf := b |} with
  | (POP_NEED_MORE, _) => DNeed
  | (POP_GOT_FRAME f, p') => DGot f (buf p')
  | (POP_ERROR _, _) => DErr
  end.

(** The parser as the receive loop of [XrSession::feed] uses it. *)
#[export] Instance xr_stream : StreamCodec Parser Frame := {|
  sc_content := buf;
  sc_cap := kMaxFrame;
  sc_decode := decode_head;
  sc_pop p := match parserPop p with
              | (POP_NEED_MORE, p') => (PopNeed, p')
              | (POP_GOT_FRAME f, p') => (PopGot f, p')
              | (POP_ERROR _, p') => (PopErr, p')
              end;
  sc_push p d := let '(_, took, p') := parserPush p (Some d) (length d) in (took, p');
|}.

(** ** Byte-order lemmas *)

Lemma put16_eq v : put16 v = [(v / 256) mod 256; v mod 256].
Proof.
  unfold put16, u8. rewrite land_255, shiftr_div, Z.mod_mod by lia. done.
Qed.

Lemma put32_eq v :
  put32 v = [(v / 16777216) mod 256; (v / 65536) mod 256; (v / 256) mod 256; v mod 256].
Proof.
  unfold put32, u8. rewrite land_255, !shiftr_div, Z.mod_mod by lia. done.
Qed.

Lemma get16_cons a b r : is_u8 a -> is_u8 b -> get16 (a :: b :: r) = a * 256 + b.
Proof.
  intros Ha Hb. unfold get16, byte_at; simpl.
  rewrite lor_shiftl_add by (unfold_ints; lia). int_lia.
Qed.

Lemma get32_cons a b c d r :
  is_u8 a -> is_u8 b -> is_u8 c -> is_u8 d ->
  get32 (a :: b :: c :: d :: r) = a * 16777216 + b * 65536 + c * 256 + d.
Proof.
  intros Ha Hb Hc Hd. unfold get32, byte_at; simpl.
  rewrite !Z.shiftl_mul_pow2 by lia. unfold u32.
  rewrite !Z.mod_small by (unfold_ints; lia).
  replace (a * 2 ^ 24) with (Z.shiftl a 24) by (by rewrite Z.shiftl_mul_pow2).
  rewrite (lor_shiftl_add a (b * 2 ^ 16) 24) by (unfold_ints; lia).
  replace (a * 2 ^ 24 + b * 2 ^ 16) with (Z.shiftl (a * 256 + b) 16)
    by (rewrite Z.shiftl_mul_pow2; lia).
  rewrite (lor_shiftl_add _ (c * 2 ^ 8) 16) by (unfold_ints; lia).
  replace ((a * 256 + b) * 2 ^ 16 + c * 2 ^ 8) with (Z.shiftl (a * 65536 + b * 256 + c) 8)
    by (rewrite Z.shiftl_mul_pow2; lia).
  rewrite lor_shiftl_add by (unfold_ints; lia). lia.
Qed.

Lemma get16_put16 v r : is_u16 v -> get16 (put16 v ++ r) = v.
Proof.
  intros Hv. rewrite put16_eq. simpl. rewrite get16_cons; int_lia.
Qed.

Lemma get32_put32 v r : is_u32 v -> get32 (put32 v ++ r) = v.
Proof.
  intros Hv. rewrite put32_eq. simpl. rewrite get32_cons; int_lia.
Qed.

Lemma get16_range p : is_u16 (get16 p).
Proof. apply u16_range. Qed.

Lemma put16_bytes v : is_bytes (put16 v).
Proof. repeat constructor; apply u8_range. Qed.

Lemma put32_bytes v : is_bytes (put32 v).
Proof. repeat constructor; apply u8_range. Qed.
#[export] Hint Resolve get16_range put16_bytes put32_bytes : bridge.

Lemma get16_app p r : (2 <= length p)%nat -> get16 (p ++ r) = get16 p.
Proof. intros. unfold get16. by rewrite !byte_at_app_l by lia. Qed.

(** ** Configurations on the wire *)

Lemma configEqual_eq a b : configEqual a b = true <-> a = b.
Proof.
  destruct a, b. unfold configEqual; simpl. split.
  - intros. bool_hyps. f_equal; lia.
  - intros [= -> -> -> -> -> -> -> -> ->]. by rewrite !Z.eqb_refl.
Qed.

Lemma packConfig_length c : length (packConfig c) = kConfigPayloadSize.
Proof. done. Qed.

Lemma packConfig_bytes c : RadioConfig_typed c -> is_bytes (packConfig c).
Proof.
  intros (?&?&?&?&?&?&?&?&?). unfold packConfig.
  repeat (apply is_bytes_app; split); auto with bridge;
    repeat constructor; auto using u8_range; unfold_ints; lia.
Qed.

Lemma isBool_spec v : isBool v = true <-> v = 0 \/ v = 1.
Proof. unfold isBool. lia. Qed.

Lemma unpack_pack_app c r :
  RadioConfig_typed c -> radioConfigValid c = true -> unpackConfig (packConfig c ++ r) = Some c.
Proof.
  intros (Hf&Hb&Hs&Hc&Hw&Hp&Ht&_&_) Hv. unfold radioConfigValid in Hv. bool_hyps.
  unfold unpackConfig, packConfig, put32, put16.
  cbn [app byte_at nth drop]. rewrite H, H0. cbn [negb orb].
  pose proof (get32_put32 (freq_hz c) [] Hf) as E1. pose proof (get32_put32 (bw_hz c) [] Hb) as E2.
  pose proof (get16_put16 (sync_word c) [] Hw) as E3.
  pose proof (get16_put16 (preamble c) [] Hp) as E4.
  unfold get32, get16, put32, put16, byte_at in *. cbn [app nth drop] in *.
  rewrite E1, E2, E3, E4, s8_u8 by done. by destruct c.
Qed.

Lemma unpackConfig_typed p c :
  is_bytes p -> unpackConfig p = Some c -> RadioConfig_typed c /\ radioConfigValid c = true.
Proof.
  intros Hb. unfold unpackConfig. case_match eqn:E; [done|]. intros [= <-].
  bool_hyps. unfold RadioConfig_typed, radioConfigValid; simpl. rewrite H, H0.
  split; [|done].
  assert (forall q, is_bytes q -> is_u32 (get32 q)) as G.
  { intros q Hq. pose proof (is_bytes_at q 0 Hq). pose proof (is_bytes_at q 1 Hq).
    pose proof (is_bytes_at q 2 Hq). pose proof (is_bytes_at q 3 Hq).
    change (get32 q) with (get32 [byte_at q 0; byte_at q 1; byte_at q 2; byte_at q 3]).
    rewrite get32_cons by done. int_lia. }
  repeat split; auto with bridge; try apply G; try apply get16_range; try apply s8_range;
    auto with bridge; apply is_bytes_at; auto.
Qed.

(** ** The parser and the head of the stream *)

Lemma decode_head_short b : (length b < kHeaderSize)%nat -> decode_head b = DNeed.
Proof.
  intros Hl. unfold decode_head, parserPop, have; simpl.
  by rewrite (proj2 (Nat.ltb_lt _ _) Hl).
Qed.

(** What the parser checks of a complete header, and what it then waits for. *)
Lemma decode_head_long b :
  (kHeaderSize <= length b)%nat ->
  decode_head b =
    if negb (byte_at b 0 =? kMagic0) || negb (byte_at b 1 =? kMagic1) ||
       negb (byte_at b 2 =? kVersion) || negb (isKnownType (byte_at b 3)) ||
       (Z.of_nat kMaxPayload <? get16 (drop 4 b))
    then DErr
    else
      let n := Z.to_nat (get16 (drop 4 b)) in
      if (length b <? kHeaderSize + n)%nat then DNeed
      else DGot {| type := byte_at b 3; seq := get16 (drop 6 b);
                   payload := take n (drop kHeaderSize b) |}
                (drop (kHeaderSize + n) b).
Proof.
  intros Hl. unfold decode_head, parserPop, have. cbn [buf].
  rewrite (proj2 (Nat.ltb_ge _ _) Hl).
  destruct (negb (byte_at b 0 =? kMagic0) || negb (byte_at b 1 =? kMagic1)); [done|].
  destruct (negb (byte_at b 2 =? kVersion)); [done|].
  destruct (negb (isKnownType (byte_at b 3))); [done|].
  destruct (Z.of_nat kMaxPayload <? get16 (drop 4 b)); [done|].
  cbn zeta. by destruct (length b <? kHeaderSize + _)%nat.
Qed.

Lemma header_app b x :
  (kHeaderSize <= length b)%nat ->
  byte_at (b ++ x) 0 = byte_at b 0 /\ byte_at (b ++ x) 1 = byte_at b 1 /\
  byte_at (b ++ x) 2 = byte_at b 2 /\ byte_at (b ++ x) 3 = byte_at b 3 /\
  get16 (drop 4 (b ++ x)) = get16 (drop 4 b) /\ get16 (drop 6 (b ++ x)) = get16 (drop 6 b).
Proof.
  unfold kHeaderSize. intros Hl. rewrite !byte_at_app_l by lia.
  rewrite !drop_app_le by lia. rewrite !get16_app by (rewrite length_drop; lia). done.
Qed.

Lemma decode_head_got_inv b f r :
  decode_head b = DGot f r ->
  exists n, (n <= kMaxPayload)%nat /\ (kHeaderSize + n <= length b)%nat /\
    r = drop (kHeaderSize + n) b /\ payload f = take n (drop kHeaderSize b) /\
    type f = byte_at b 3 /\ seq f = get16 (drop 6 b) /\ isKnownType (type f) = true.
Proof.
  intros E. destruct (Nat.lt_ge_cases (length b) kHeaderSize) as [Hl|Hl].
  { by rewrite decode_head_short in E. }
  rewrite decode_head_long in E by done. case_match eqn:Ec; [done|]. cbn zeta in E.
  case_match eqn:El; [done|]. injection E as <- <-. bool_hyps.
  eexists; repeat split; try done; cbn [type] in *; lia.
Qed.

#[export] Instance xr_stream_laws : StreamCodecLaws Parser Frame.
Proof.
  constructor; cbn [sc_content sc_cap sc_decode sc_pop sc_push xr_stream].
  - intros [b]. unfold decode_head. cbn [buf].
    destruct (parserPop _) as [[|f|e] p'] eqn:E; [| by exists p' |];
      unfold parserPop in E; repeat (case_match; simplify_eq/=; try done).
  - intros [b] d took p'. unfold parserPush, have. cbn [buf].
    destruct (Nat.eqb_spec (length d) 0) as [Hd|Hd].
    { intros [= <- <-]. rewrite take_0, app_nil_r. split; [lia | done]. }
    assert (Htk : (if (length d <? kMaxFrame - length b)%nat then length d
                   else kMaxFrame - length b)%nat = Nat.min (length d) (kMaxFrame - length b))
      by (case_match; lia).
    rewrite Htk. destruct (Nat.eqb_spec (Nat.min (length d) (kMaxFrame - length b)) 0) as [E|E];
      intros [= <- <-]; [rewrite E, take_0, app_nil_r|]; done.
  - intros b f r x E. assert (Hl : (kHeaderSize <= length b)%nat).
    { destruct (decode_head_got_inv _ _ _ E) as (n & ? & ? & _). lia. }
    destruct (header_app b x Hl) as (E0 & E1 & E2 & E3 & E4 & E6).
    rewrite decode_head_long in E |- * by (rewrite ?length_app; lia).
    rewrite E0, E1, E2, E3, E4, E6. case_match; [done|]. cbn zeta in *.
    case_match eqn:El; [done|]. injection E as <- <-.
    rewrite (proj2 (Nat.ltb_ge _ _)) by (rewrite length_app; lia).
    rewrite !drop_app_le by lia. by rewrite take_app_le by (rewrite length_drop; lia).
  - intros b f r E. destruct (decode_head_got_inv _ _ _ E) as (n & ? & ? & -> & _).
    rewrite length_drop. unfold kHeaderSize in *. lia.
  - intros b x E. assert (Hl : (kHeaderSize <= length b)%nat).
    { destruct (Nat.lt_ge_cases (length b) kHeaderSize); [|done].
      by rewrite decode_head_short in E. }
    destruct (header_app b x Hl) as (E0 & E1 & E2 & E3 & E4 & E6).
    rewrite decode_head_long in E |- * by (rewrite ?length_app; lia).
    rewrite E0, E1, E2, E3, E4. case_match; [done|]. cbn zeta in *. by case_match.
  - intros b E. destruct (Nat.lt_ge_cases (length b) kHeaderSize) as [Hl|Hl].
    { unfold kMaxFrame. lia. }
    rewrite decode_head_long in E by done. case_match eqn:Ec; [done|]. cbn zeta in E.
    case_match eqn:El; [|done]. bool_hyps. unfold kMaxFrame, kHeaderSize in *. lia.
Qed.

(** ** Encoded frames *)

Lemma encode_Some out_cap ty sq pl n bs :
  encode (Some out_cap) ty sq pl n = Some bs ->
  bs = [kMagic0; kMagic1; kVersion; ty] ++ put16 (Z.of_nat n) ++ put16 sq ++
       take n (default [] pl) /\
  (n <= kMaxPayload)%nat /\ (kHeaderSize + n <= out_cap)%nat.
Proof.
  unfold encode. destruct (kMaxPayload <? n)%nat eqn:E1; [done|].
  case_match; [done|]. destruct (out_cap <? kHeaderSize + n)%nat eqn:E2; [done|].
  intros [= <-]. split; [done|]. lia.
Qed.

(** An encoded frame at the head of a stream is decoded back, whatever follows. *)
Lemma decode_encoded ty sq (pl rest : bytes) :
  isKnownType ty = true -> is_u16 sq -> (length pl <= kMaxPayload)%nat ->
  decode_head (([kMagic0; kMagic1; kVersion; ty] ++ put16 (zlen pl) ++ put16 sq ++ pl) ++ rest)
  = DGot {| type := ty; seq := sq; payload := pl |} rest.
Proof.
  intros Ht Hs Hl. unfold zlen.
  assert (Hn : is_u16 (Z.of_nat (length pl))) by (unfold kMaxPayload in *; unfold_ints; lia).
  rewrite <- !app_assoc.
  pose proof (get16_put16 _ (put16 sq ++ pl ++ rest) Hn) as G4.
  pose proof (get16_put16 _ (pl ++ rest) Hs) as G6.
  set (A := put16 (Z.of_nat (length pl))) in *.
  set (B := put16 sq) in *.
  assert (HA : exists a b, A = [a; b]) by (unfold A, put16; eauto).
  assert (HB : exists a b, B = [a; b]) by (unfold B, put16; eauto).
  destruct HA as (a1 & a2 & ->), HB as (b1 & b2 & ->). cbn [app] in *.
  rewrite decode_head_long by (cbn [length]; unfold kHeaderSize; lia).
  cbn [drop byte_at nth]. rewrite G4, G6, Ht, !Z.eqb_refl. cbn [negb orb].
  rewrite (proj2 (Z.ltb_ge _ _)) by lia. cbn zeta. rewrite Nat2Z.id.
  rewrite (proj2 (Nat.ltb_ge _ _)) by (cbn [length]; rewrite length_app; unfold kHeaderSize; lia).
  unfold kHeaderSize. cbn [drop Nat.add].
  by rewrite drop_0, take_app_length, drop_app_length.
Qed.

(** ** The wire language of protocol v1, message by message *)

Inductive message : Frame -> Prop :=
  | msg_hello t : t = MSG_HELLO \/ t = MSG_HELLO_ACK -> message (mkFrame t 0 [kVersion])
  | msg_auth_challenge nonce :
      length nonce = kAuthNonceSize -> message (mkFrame MSG_AUTH_CHALLENGE 0 nonce)
  | msg_auth_response h :
      length h = kAuthResponseSize -> message (mkFrame MSG_AUTH_RESPONSE 0 h)
  | msg_auth_result c :
      c = AUTH_OK \/ c = AUTH_FAIL -> message (mkFrame MSG_AUTH_RESULT 0 [c])
  | msg_configure cfg :
      RadioConfig_typed cfg -> radioConfigValid cfg = true ->
      message (mkFrame MSG_CONFIGURE 0 (packConfig cfg))
  | msg_config_failure c : c <> CFG_OK -> message (mkFrame MSG_CONFIG_RESULT 0 [c])
  | msg_config_echo cfg :
      RadioConfig_typed cfg -> radioConfigValid cfg = true ->
      message (mkFrame MSG_CONFIG_RESULT 0 (CFG_OK :: packConfig cfg))
  | msg_rx_packet r s (d : bytes) :
      (length d <= kMaxLoraPayload)%nat ->
      message (mkFrame MSG_RX_PACKET 0 (put16 r ++ put16 s ++ put16 (zlen d) ++ d))
  | msg_tx_request sq (d : bytes) :
      sq <> 0 -> (length d <= kMaxLoraPayload)%nat -> message (mkFrame MSG_TX_REQUEST sq d)
  | msg_tx_result sq c :
      sq <> 0 -> c <= kTxResultMax -> message (mkFrame MSG_TX_RESULT sq [c])
  | msg_ping t : t = MSG_PING \/ t = MSG_PONG -> message (mkFrame t 0 [])
  | msg_error c : c <= kWireErrorMax -> message (mkFrame MSG_ERROR 0 [c]).

Lemma put16_get16 a b r : is_u8 a -> is_u8 b -> put16 (get16 (a :: b :: r)) = [a; b].
Proof.
  intros Ha Hb. rewrite get16_cons, put16_eq by done. repeat f_equal; int_lia.
Qed.

Lemma put32_get32 a b c d r :
  is_u8 a -> is_u8 b -> is_u8 c -> is_u8 d ->
  put32 (get32 (a :: b :: c :: d :: r)) = [a; b; c; d].
Proof.
  intros. rewrite get32_cons, put32_eq by done. repeat f_equal; int_lia.
Qed.

(** Decoding a configuration blob loses nothing. *)
Lemma pack_unpack p c :
  is_bytes p -> length p = kConfigPayloadSize -> unpackConfig p = Some c -> packConfig c = p.
Proof.
  intros Hb Hl. unfold unpackConfig. case_match eqn:Eb; [done|]. intros [= <-].
  change kConfigPayloadSize with 17%nat in Hl. clear Eb.
  explode_list p. repeat (apply Forall_cons in Hb as [? Hb]).
  unfold packConfig. cbn [freq_hz bw_hz sf cr_denom sync_word preamble tx_power_dbm crc ldro].
  cbn [drop byte_at nth]. rewrite !put32_get32, !put16_get16, u8_s8 by done. done.
Qed.
#[export] Hint Resolve packConfig_length : bridge.

(** Case analysis on the type byte: [solve_types] refutes the impossible
    combinations of type tests. *)
Ltac unfold_types :=
  unfold isKnownType, kMsgTypeMin, kMsgTypeMax, MSG_HELLO, MSG_HELLO_ACK, MSG_AUTH_CHALLENGE,
    MSG_AUTH_RESPONSE, MSG_AUTH_RESULT, MSG_CONFIGURE, MSG_CONFIG_RESULT, MSG_RX_PACKET,
    MSG_TX_REQUEST, MSG_TX_RESULT, MSG_PING, MSG_PONG, MSG_ERROR in *.

Lemma validate_rx_packet pl :
  validate (mkFrame MSG_RX_PACKET 0 pl) =
    if (length pl <? 6)%nat then ERR_BAD_LENGTH else
    if Z.of_nat kMaxLoraPayload <? get16 (drop 4 pl) then ERR_BAD_LENGTH else
    if negb (Z.of_nat (length pl) =? u16 (6 + get16 (drop 4 pl))) then ERR_BAD_LENGTH
    else ERR_NONE.
Proof. reflexivity. Qed.

Lemma rx_payload_shape r s (d : bytes) :
  (length d <= kMaxLoraPayload)%nat ->
  let pl := put16 r ++ put16 s ++ put16 (zlen d) ++ d in
  length pl = (6 + length d)%nat /\ get16 (drop 4 pl) = zlen d /\ drop 6 pl = d.
Proof.
  intros Hd. cbn zeta. split; [by rewrite !length_app|]. split; [|done].
  change (get16 (put16 (zlen d) ++ d) = zlen d). apply get16_put16.
  unfold zlen, kMaxLoraPayload in *; unfold_ints; lia.
Qed.

Lemma message_validate f : message f -> validate f = ERR_NONE.
Proof.
  destruct 1 as [t [-> | ->] | nonce Hn | h Hh | c [-> | ->] | cfg Ht Hv | c Hc | cfg Ht Hv
    | r s d Hd | sq d Hs Hd | sq c Hs Hc | t [-> | ->] | c Hc];
    unfold validate, len; cbn [type seq payload]; try done.
  - cbn. by rewrite Hn.
  - cbn. by rewrite Hh.
  - unfold radioConfigValid in Hv. bool_hyps. unfold packConfig, put32, put16; cbn [app length byte_at nth].
    cbn -[isBool]. by rewrite H, H0.
  - cbn. unfold CFG_OK in Hc. by destruct c.
  - unfold radioConfigValid in Hv. bool_hyps. unfold packConfig, put32, put16; cbn [app length byte_at nth].
    cbn -[isBool]. by rewrite H, H0.
  - change (validate (mkFrame MSG_RX_PACKET 0 (put16 r ++ put16 s ++ put16 (zlen d) ++ d))
            = ERR_NONE).
    rewrite validate_rx_packet. destruct (rx_payload_shape r s d Hd) as (El & Eg & _).
    rewrite El, Eg. unfold zlen, kMaxLoraPayload in *.
    rewrite u16_id by (unfold_ints; lia). repeat (case_match; try done); lia.
  - rewrite (proj2 (Z.eqb_neq _ _) Hs). cbn -[Nat.leb kMaxLoraPayload].
    by rewrite (proj2 (Nat.leb_le _ _)) by done.
  - rewrite (proj2 (Z.eqb_neq _ _) Hs). cbn -[Z.ltb]. by rewrite (proj2 (Z.ltb_ge _ _)) by done.
  - cbn -[Z.ltb]. by rewrite (proj2 (Z.ltb_ge _ _)) by done.
Qed.

Lemma isKnownType_cases t :
  isKnownType t = true ->
  t = MSG_HELLO \/ t = MSG_HELLO_ACK \/ t = MSG_AUTH_CHALLENGE \/ t = MSG_AUTH_RESPONSE \/
  t = MSG_AUTH_RESULT \/ t = MSG_CONFIGURE \/ t = MSG_CONFIG_RESULT \/ t = MSG_RX_PACKET \/
  t = MSG_TX_REQUEST \/ t = MSG_TX_RESULT \/ t = MSG_PING \/ t = MSG_PONG \/ t = MSG_ERROR.
Proof. unfold_types. lia. Qed.

Lemma length_1_eq (l : bytes) : length l = 1%nat -> l = [byte_at l 0].
Proof. intros H. explode_list l. done. Qed.

Lemma unpackConfig_bool p :
  negb (isBool (byte_at p 15)) || negb (isBool (byte_at p 16)) = false ->
  exists c, unpackConfig p = Some c.
Proof. intros H. unfold unpackConfig. rewrite H. eauto. Qed.

(** A configuration blob with boolean flags is a packed configuration. *)
Lemma config_blob p :
  is_bytes p -> length p = kConfigPayloadSize ->
  negb (isBool (byte_at p 15)) || negb (isBool (byte_at p 16)) = false ->
  exists c, p = packConfig c /\ RadioConfig_typed c /\ radioConfigValid c = true.
Proof.
  intros Hb Hl He. destruct (unpackConfig_bool p He) as (c & Hc).
  exists c. rewrite (pack_unpack p c) by done. by destruct (unpackConfig_typed p c).
Qed.

Lemma rx_blob pl :
  is_bytes pl -> (6 <= length pl)%nat ->
  zlen pl = 6 + get16 (drop 4 pl) -> get16 (drop 4 pl) <= Z.of_nat kMaxLoraPayload ->
  exists r s d, pl = put16 r ++ put16 s ++ put16 (zlen d) ++ d /\
                (length d <= kMaxLoraPayload)%nat.
Proof.
  intros Hb Hl Hz Hg. unfold zlen in *.
  destruct pl as [|a [|b [|c [|d [|e [|f pl]]]]]]; cbn [length] in Hl; try lia.
  repeat (apply Forall_cons in Hb as [? Hb]). cbn [drop length] in *. rewrite ?drop_0 in *.
  exists (get16 [a; b]), (get16 [c; d]), pl. rewrite !put16_get16 by done.
  assert (E : Z.of_nat (length pl) = get16 (e :: f :: pl)) by lia.
  unfold zlen. rewrite E, put16_get16 by done. split; [done | lia].
Qed.

Lemma validate_message f : Frame_typed f -> validate f = ERR_NONE -> message f.
Proof.
  destruct f as [t sq pl]. intros (Ht & Hs & Hb & Hl) Hv. unfold len in *. cbn [type seq payload] in *.
  destruct (isKnownType t) eqn:Hk; [|unfold validate in Hv; cbn [type] in Hv; by rewrite Hk in Hv].
  assert (Hsq : ((t =? MSG_TX_REQUEST) || (t =? MSG_TX_RESULT) = false -> sq = 0)).
  { intros E. unfold validate in Hv. cbn [type seq] in Hv. rewrite Hk, E in Hv. cbn [negb] in Hv.
    by destruct (Z.eqb_spec sq 0). }
  assert (Hsq' : ((t =? MSG_TX_REQUEST) || (t =? MSG_TX_RESULT) = true -> sq <> 0)).
  { intros E. unfold validate in Hv. cbn [type seq] in Hv. rewrite Hk, E in Hv. cbn [negb] in Hv.
    by destruct (Z.eqb_spec sq 0). }
  destruct (isKnownType_cases t Hk) as [->|[->|[->|[->|[->|[->|[->|[->|[->|[->|[->|[->| ->]]]]]]]]]]]];
    try (rewrite (Hsq eq_refl) in *; clear Hsq).
  all: try (rewrite validate_rx_packet in Hv).
  all: try (unfold validate, len in Hv; cbn [type seq payload] in Hv;
    cbn -[isBool byte_at Nat.eqb Nat.leb kMaxLoraPayload kConfigPayloadSize Z.ltb Z.eqb] in Hv).
  all: repeat match type of Hv with
    | (if negb ?b then _ else _) = _ => destruct b eqn:?; cbn [negb] in Hv; [|try done]
    | (if ?b then _ else _) = _ => destruct b eqn:?; try done
    end.
  all: try done.
  all: try (assert (Hone : length pl = 1%nat) by lia; rewrite (length_1_eq pl Hone) in *;
            change (byte_at [byte_at pl 0] 0) with (byte_at pl 0) in * ).
  - replace (byte_at pl 0) with kVersion by lia. apply msg_hello. auto.
  - replace (byte_at pl 0) with kVersion by lia. apply msg_hello. auto.
  - apply msg_auth_challenge. lia.
  - apply msg_auth_response. lia.
  - apply msg_auth_result. unfold AUTH_OK, AUTH_FAIL in *. lia.
  - destruct (config_blob pl) as (c & -> & ? & ?); [done | lia | done |]. by apply msg_configure.
  - apply msg_config_failure. lia.
  - destruct pl as [|c0 pl]; [done|]. apply Forall_cons in Hb as [_ Hb].
    change (byte_at (c0 :: pl) 16) with (byte_at pl 15) in *.
    change (byte_at (c0 :: pl) 17) with (byte_at pl 16) in *.
    change (byte_at (c0 :: pl) 0) with c0 in *. replace c0 with CFG_OK by lia.
    destruct (config_blob pl) as (c & -> & ? & ?); [done | cbn [length] in *; lia | done |].
    by apply msg_config_echo.
  - pose proof (get16_range (drop 4 pl)).
    rewrite u16_id in * by (unfold kMaxLoraPayload in *; unfold_ints; lia).
    destruct (rx_blob pl) as (r & s & d & -> & ?); [done | lia | unfold zlen; lia | lia |].
    by apply msg_rx_packet.
  - apply msg_tx_request; [by apply Hsq' | lia].
  - apply msg_tx_result; [by apply Hsq' | lia].
  - rewrite (nil_length_inv pl) by lia. apply msg_ping. auto.
  - rewrite (nil_length_inv pl) by lia. apply msg_ping. auto.
  - apply msg_error. lia.
Qed.

Lemma parserPop_got b f r :
  decode_head b = DGot f r -> parserPop {| buf := b |} = (POP_GOT_FRAME f, {| buf := r |}).
Proof.
  unfold decode_head. destruct (parserPop _) as [[|f'|e] [b']] eqn:E; try done.
  by intros [= -> <-].
Qed.

Lemma encode_frame out_cap f :
  Frame_typed f -> (kHeaderSize + len f <= out_cap)%nat ->
  encode (Some out_cap) (type f) (seq f) (Some (payload f)) (len f) =
  Some ([kMagic0; kMagic1; kVersion; type f] ++ put16 (zlen (payload f)) ++
        put16 (seq f) ++ payload f).
Proof.
  intros (_ & _ & _ & Hl) Hcap. unfold encode. rewrite andb_false_r.
  rewrite (proj2 (Nat.ltb_ge _ _) Hl), (proj2 (Nat.ltb_ge _ _) Hcap). cbn [default].
  by rewrite take_ge.
Qed.

(** * Properties *)

(** C25. Framing round trip: a frame of a known type that fits the destination
    is encoded into [kHeaderSize + len] bytes, and a parser whose buffer starts
    with these bytes yields exactly that frame and keeps whatever followed. *)
Theorem encode_pop_roundtrip (f : Frame) (out_cap : nat) (rest : bytes) :
  isKnownType (type f) = true -> Frame_typed f -> (kHeaderSize + len f <= out_cap)%nat ->
  exists bs,
    encode (Some out_cap) (type f) (seq f) (Some (payload f)) (len f) = Some bs /\
    length bs = (kHeaderSize + len f)%nat /\
    parserPop {| buf := bs ++ rest |} = (POP_GOT_FRAME f, {| buf := rest |}).
Proof.
  intros Hk Hf Hcap. eexists. split; [by apply encode_frame|].
  split; [by rewrite !length_app|]. apply parserPop_got.
  destruct Hf as (_ & Hs & _ & Hl). rewrite decode_encoded by done. by destruct f.
Qed.

Lemma encode_pop_roundtrip_witness :
  exists bs, encode (Some kMaxFrame) MSG_TX_REQUEST 7 (Some [1; 2; 3]) 3 = Some bs /\
    length bs = 11%nat /\
    parserPop {| buf := bs ++ [9; 9] |} =
      (POP_GOT_FRAME (mkFrame MSG_TX_REQUEST 7 [1; 2; 3]), {| buf := [9; 9] |}).
Proof.
  apply (encode_pop_roundtrip (mkFrame MSG_TX_REQUEST 7 [1; 2; 3]) kMaxFrame [9; 9]).
  - reflexivity.
  - unfold Frame_typed, len, kMaxPayload. cbn [type seq payload length].
    unfold MSG_TX_REQUEST. unfold_ints. repeat split; try lia.
    repeat constructor; unfold is_u8; lia.
  - unfold len, kMaxFrame, kHeaderSize, kMaxPayload. cbn [payload length]. lia.
Defined.

(** C26. Strict validation is exact: on the frames the C++ type can hold,
    [validate] answers [ERR_NONE] precisely for the messages of protocol v1 --
    per-type length, sequence rule, version byte, boolean flags, known codes,
    consistent inner RX length -- and for nothing else. *)
Theorem validate_iff_message (f : Frame) :
  Frame_typed f -> validate f = ERR_NONE <-> message f.
Proof. intros Hf. split; [by apply validate_message | apply message_validate]. Qed.

Lemma validate_iff_message_witness :
  validate (mkFrame MSG_PONG 0 []) = ERR_NONE <-> message (mkFrame MSG_PONG 0 []).
Proof.
  apply (validate_iff_message (mkFrame MSG_PONG 0 [])).
  unfold Frame_typed, len, kMaxPayload, MSG_PONG. cbn [type seq payload length].
  unfold_ints. repeat split; try lia. constructor.
Defined.

(** C27. A configuration request survives the wire: the firmware's CONFIGURE
    frame for a valid configuration, parsed and validated by the bridge,
    decodes to the very same configuration, field by field, including the
    negative powers carried in an unsigned byte; for an invalid one -- a flag
    that is neither 0 nor 1 -- nothing is encoded, whatever the buffer. *)
Theorem configure_roundtrip (cfg : RadioConfig) (rest : bytes) :
  RadioConfig_typed cfg ->
  if decide ((crc cfg = 0 \/ crc cfg = 1) /\ (ldro cfg = 0 \/ ldro cfg = 1)) then
    exists bs f,
      encodeConfigure (Some kMaxFrame) cfg = Some bs /\
      parserPop {| buf := bs ++ rest |} = (POP_GOT_FRAME f, {| buf := rest |}) /\
      validate f = ERR_NONE /\ decodeConfig f = Some cfg
  else forall out, encodeConfigure out cfg = None.
Proof.
  intros Ht. assert (Hval : radioConfigValid cfg = bool_decide
    ((crc cfg = 0 \/ crc cfg = 1) /\ (ldro cfg = 0 \/ ldro cfg = 1)))
    by (unfold radioConfigValid, isBool; apply eq_true_iff_eq; rewrite bool_decide_eq_true; lia).
  destruct (decide (_ /\ _)) as [Hd|Hd]; [|intros out; unfold encodeConfigure; rewrite Hval; by rewrite bool_decide_eq_false_2].
  assert (Hv : radioConfigValid cfg = true) by (rewrite Hval; by apply bool_decide_eq_true_2).
  pose (f := mkFrame MSG_CONFIGURE 0 (packConfig cfg)).
  assert (Hf : Frame_typed f).
  { unfold f, Frame_typed, len; cbn [type seq payload]. rewrite packConfig_length.
    unfold MSG_CONFIGURE, kMaxPayload, kConfigPayloadSize. unfold_ints.
    repeat split; try lia. by apply packConfig_bytes. }
  exists ([kMagic0; kMagic1; kVersion; type f] ++ put16 (zlen (payload f)) ++
          put16 (seq f) ++ payload f), f.
  split; [|split; [|split]].
  - unfold encodeConfigure. rewrite Hv. cbn [negb].
    apply (encode_frame kMaxFrame f Hf). cbv. lia.
  - apply parserPop_got. destruct Hf as (_ & Hs & _ & Hl). by rewrite decode_encoded.
  - by apply message_validate, msg_configure.
  - unfold decodeConfig, f, len. cbn [type payload]. rewrite packConfig_length. cbn [negb orb].
    rewrite <- (app_nil_r (packConfig cfg)). by apply unpack_pack_app.
Qed.

Lemma configure_roundtrip_witness :
  (exists bs f,
    encodeConfigure (Some kMaxFrame) (mkRadioConfig 433175000 250000 11 6 43 8 (-3) 1 0) = Some bs /\
    parserPop {| buf := bs ++ [] |} = (POP_GOT_FRAME f, {| buf := [] |}) /\
    validate f = ERR_NONE /\
    decodeConfig f = Some (mkRadioConfig 433175000 250000 11 6 43 8 (-3) 1 0)) /\
  (forall out, encodeConfigure out (mkRadioConfig 433175000 250000 11 6 43 8 (-3) 2 0) = None).
Proof.
  split.
  - apply (configure_roundtrip (mkRadioConfig 433175000 250000 11 6 43 8 (-3) 1 0) []).
    unfold RadioConfig_typed. cbn. unfold_ints. lia.
  - apply (configure_roundtrip (mkRadioConfig 433175000 250000 11 6 43 8 (-3) 2 0) []).
    unfold RadioConfig_typed. cbn. unfold_ints. lia.
Defined.

(** The bounded parser never wedges: a parser that asks for more bytes has
    room, so the next push of a non-empty read consumes at least one byte and
    the buffer never exceeds one maximum frame. *)
Theorem parser_progress (p p' p'' : Parser) (d : bytes) (st : ParserPushStatus) (took : nat) :
  Parser_wf p -> parserPop p = (POP_NEED_MORE, p') -> d <> [] ->
  parserPush p' (Some d) (length d) = (st, took, p'') ->
  (0 < took <= length d)%nat /\ (have p'' <= kMaxFrame)%nat /\
  buf p'' = buf p ++ take took d.
Proof.
  intros [Hcap _] Hpop Hd Hpush.
  pose proof (sc_pop_spec p) as Hs. cbn [sc_decode sc_content sc_pop xr_stream] in Hs.
  unfold decode_head in Hs. destruct p as [b]. cbn [buf] in *. rewrite Hpop in Hs.
  injection Hs as ->.
  assert (Hdec : decode_head b = DNeed) by (unfold decode_head; by rewrite Hpop).
  pose proof (sc_need_below_cap (P := Parser) b Hdec) as Hlt. cbn [sc_cap xr_stream] in Hlt.
  assert (Hp : sc_push {| buf := b |} d = (took, p'')).
  { cbn [sc_push xr_stream]. by rewrite Hpush. }
  destruct (sc_push_spec _ _ _ _ Hp) as [Htk Hc]. cbn [sc_content sc_cap xr_stream buf] in *.
  assert ((0 < length d)%nat) by (destruct d; cbn [length]; [done | lia]).
  split; [lia|]. split; [|done]. unfold have. rewrite Hc, length_app, length_take. lia.
Qed.

Lemma parser_progress_witness :
  (0 < 2 <= length [kVersion; MSG_PONG])%nat /\
  (have {| buf := [kMagic0; kMagic1; kVersion; MSG_PONG] |} <= kMaxFrame)%nat /\
  buf {| buf := [kMagic0; kMagic1; kVersion; MSG_PONG] |} =
    buf {| buf := [kMagic0; kMagic1] |} ++ take 2 [kVersion; MSG_PONG].
Proof.
  apply (parser_progress {| buf := [kMagic0; kMagic1] |} {| buf := [kMagic0; kMagic1] |}
           {| buf := [kMagic0; kMagic1; kVersion; MSG_PONG] |} [kVersion; MSG_PONG] PARSER_PUSH_OK 2).
  - split; [cbv; lia|]. repeat constructor; unfold_ints; unfold kMagic0, kMagic1; lia.
  - reflexivity.
  - discriminate.
  - reflexivity.
Defined.

End extradio.
