(* ===== verification/BoundedBuffer.v ===== *)
(** The bounded outbound queue of src/util/bounded_buffer.h.

    [std::vector<uint8_t>] is its elements and its capacity; growth follows
    libstdc++ ([_M_check_len]: the size plus the larger of the size and the
    number of inserted elements).  The abstract specification is a bounded FIFO
    of bytes: the unsent bytes, and the limit on their number. *)

From S2P Require Import Prelude.

Module bounded_buffer.

(** ** [std::vector<uint8_t>] *)

Record vec := mkVec { elems : bytes; vcapacity : nat }.

#[export] Instance eta_vec : Eta vec :=
  fun v => {| elems := elems v; vcapacity := vcapacity v |}.

Definition vec_empty : vec := {| elems := []; vcapacity := 0 |}.

(** [v.insert(v.end(), d, d + len)]. *)
Definition vec_insert_end (v : vec) (d : bytes) : vec :=
  let sz := length (elems v) in
  {| elems := elems v ++ d;
     vcapacity := if (length d <=? vcapacity v - sz)%nat then vcapacity v
                  else (sz + Nat.max sz (length d))%nat |}.

(** [v.reserve(n)]. *)
Definition vec_reserve (v : vec) (n : nat) : vec :=
  if (vcapacity v <? n)%nat then v <| vcapacity := n |> else v.

(** [v.clear()]: the storage is kept. *)
Definition vec_clear (v : vec) : vec := v <| elems := [] |>.

(** ** [BoundedBuffer] *)

Record BoundedBuffer := mkBoundedBuffer { cap_ : nat; buf_ : vec; head_ : nat }.

#[export] Instance eta_BoundedBuffer : Eta BoundedBuffer :=
  fun b => {| cap_ := cap_ b; buf_ := buf_ b; head_ := head_ b |}.

Definition make (cap : nat) : BoundedBuffer :=
  {| cap_ := cap; buf_ := vec_empty; head_ := 0 |}.

Definition capacity (b : BoundedBuffer) : nat := cap_ b.
Definition size (b : BoundedBuffer) : nat := (length (elems (buf_ b)) - head_ b)%nat.
Definition empty (b : BoundedBuffer) : bool := (size b =? 0)%nat.

Definition compact_if_needed (b : BoundedBuffer) (incoming : nat) : BoundedBuffer :=
  if (head_ b =? 0)%nat then b else
  let live := size b in
  if (live <=? head_ b)%nat || (vcapacity (buf_ b) <? head_ b + incoming + live)%nat then
    let next := vec_reserve vec_empty (live + incoming) in
    let next := vec_insert_end next (drop (head_ b) (elems (buf_ b))) in
    b <| buf_ := next |> <| head_ := 0%nat |>
  else b.

Definition append (b : BoundedBuffer) (d : bytes) : bool * BoundedBuffer :=
  if (length d =? 0)%nat then (true, b) else
  if (cap_ b <? size b + length d)%nat then (false, b) else
  let b := compact_if_needed b (length d) in
  (true, b <| buf_ := vec_insert_end (buf_ b) d |>).

(** [data()] .. [data() + size()]: the unsent bytes. *)
Definition data (b : BoundedBuffer) : bytes := drop (head_ b) (elems (buf_ b)).

Definition clear (b : BoundedBuffer) : BoundedBuffer :=
  b <| buf_ := vec_clear (buf_ b) |> <| head_ := 0%nat |>.

Definition consume (b : BoundedBuffer) (n : nat) : BoundedBuffer :=
  if (size b <=? n)%nat then clear b else b <| head_ := (head_ b + n)%nat |>.

(** ** Abstract specification: a FIFO of at most [cap] bytes *)

Module fifo.

Record t := mk { limit : nat; queue : bytes }.

Definition enqueue (q : t) (d : bytes) : bool * t :=
  if (length (queue q ++ d) <=? limit q)%nat
  then (true, mk (limit q) (queue q ++ d)) else (false, q).
Definition dequeue (q : t) (n : nat) : t := mk (limit q) (drop n (queue q)).
Definition reset (q : t) : t := mk (limit q) [].

End fifo.

Definition abs (b : BoundedBuffer) : fifo.t := fifo.mk (cap_ b) (data b).

(** The operations of the buffer, as a client may interleave them. *)
Inductive op := OpAppend (d : bytes) | OpConsume (n : nat) | OpClear.

(** One operation: the buffer, and whether it was accepted. *)
Definition run_op (o : op) (b : BoundedBuffer) : bool * BoundedBuffer :=
  match o with
  | OpAppend d => append b d
  | OpConsume n => (true, consume b n)
  | OpClear => (true, clear b)
  end.

Definition spec_op (o : op) (q : fifo.t) : bool * fifo.t :=
  match o with
  | OpAppend d => fifo.enqueue q d
  | OpConsume n => (true, fifo.dequeue q n)
  | OpClear => (true, fifo.reset q)
  end.

Fixpoint run {S : Type} (step : op -> S -> bool * S) (os : list op) (s : S)
    : list bool * S :=
  match os with
  | [] => ([], s)
  | o :: os =>
      let '(r, s) := step o s in
      let '(rs, s) := run step os s in (r :: rs, s)
  end.

(** ** Invariant *)

Definition wf (b : BoundedBuffer) : Prop :=
  (head_ b <= length (elems (buf_ b)))%nat /\
  (length (elems (buf_ b)) <= vcapacity (buf_ b))%nat /\
  (size b <= cap_ b)%nat /\
  (vcapacity (buf_ b) <= 2 * cap_ b)%nat.

Lemma wf_make cap : wf (make cap).
Proof. unfold wf, make, size; simpl. lia. Qed.

Lemma size_data b : size b = length (data b).
Proof. unfold size, data. by rewrite length_drop. Qed.

Lemma compact_spec b n :
  wf b -> (size b + n <= cap_ b)%nat ->
  let b' := compact_if_needed b n in
  wf b' /\ data b' = data b /\ cap_ b' = cap_ b /\
  (head_ b' = 0%nat \/ (length (elems (buf_ b')) + n <= vcapacity (buf_ b'))%nat).
Proof.
  intros (H1 & H2 & H3 & H4) Hn. unfold compact_if_needed.
  destruct (Nat.eqb_spec (head_ b) 0) as [E|E]; [by split_and!; auto|].
  case_match eqn:Hc.
  - unfold vec_reserve, vec_insert_end, wf, size, data, vec_empty in *; simpl in *.
    rewrite ?drop_0, ?length_drop in *.
    repeat case_match; simpl in *; repeat split; auto; rewrite ?length_drop; lia.
  - repeat split; auto. right. apply orb_false_iff in Hc as [Hc1 Hc2].
    unfold size in *. lia.
Qed.

Lemma append_spec b d :
  wf b -> let '(r, b') := append b d in
  wf b' /\ fifo.enqueue (abs b) d = (r, abs b').
Proof.
  intros Hwf. unfold append, fifo.enqueue, abs; simpl. rewrite length_app, <- size_data.
  pose proof Hwf as (H1 & H2 & H3 & H4).
  destruct (Nat.eqb_spec (length d) 0) as [E|E].
  { split; [done|]. apply nil_length_inv in E as ->. rewrite app_nil_r.
    rewrite (proj2 (Nat.leb_le _ _)) by (simpl; lia). done. }
  destruct (Nat.ltb_spec (cap_ b) (size b + length d)).
  { split; [done|]. by rewrite (proj2 (Nat.leb_gt _ _)). }
  destruct (compact_spec b (length d) Hwf) as (Hw & Hd & Hc & Hh); [lia|].
  rewrite (proj2 (Nat.leb_le _ _)) by lia.
  set (c := compact_if_needed b (length d)) in *. destruct Hw as (W1 & W2 & W3 & W4).
  assert (Hsz : size c = size b) by (by rewrite !size_data, Hd).
  unfold wf, size, data, vec_insert_end in *; simpl. rewrite length_app. split.
  - repeat split; try case_match; lia.
  - rewrite drop_app_le by done. by rewrite Hd, Hc.
Qed.

Lemma consume_spec b n : wf b -> wf (consume b n) /\ abs (consume b n) = fifo.dequeue (abs b) n.
Proof.
  intros (H1 & H2 & H3 & H4). unfold consume, fifo.dequeue, abs; simpl.
  destruct (Nat.leb_spec (size b) n).
  - unfold wf, size, data, vec_clear in *; simpl. rewrite (drop_ge (drop _ _)) by (rewrite length_drop; lia).
    repeat split; lia.
  - unfold wf, size, data in *; simpl. rewrite drop_drop. repeat split; lia.
Qed.

Lemma clear_spec b : wf b -> wf (clear b) /\ abs (clear b) = fifo.reset (abs b).
Proof.
  intros (H1 & H2 & H3 & H4). unfold clear, fifo.reset, abs, wf, size, data, vec_clear; simpl.
  repeat split; lia.
Qed.

Lemma run_op_refines o b :
  wf b -> let '(r, b') := run_op o b in wf b' /\ spec_op o (abs b) = (r, abs b').
Proof.
  intros Hw. destruct o as [d|n|]; simpl.
  - pose proof (append_spec b d Hw) as H. by destruct (append b d).
  - destruct (consume_spec b n Hw) as [? ->]. done.
  - destruct (clear_spec b Hw) as [? ->]. done.
Qed.

Lemma run_refines os b rs b' :
  wf b -> run run_op os b = (rs, b') -> wf b' /\ run spec_op os (abs b) = (rs, abs b').
Proof.
  revert b rs. induction os as [|o os IH]; simpl; intros b rs Hw E; [by simplify_eq|].
  pose proof (run_op_refines o b Hw) as Ho. destruct (run_op o b) as [r b1].
  destruct Ho as [Hw1 ->]. destruct (run run_op os b1) as [rs' b2] eqn:E2. simplify_eq.
  destruct (IH b1 rs' Hw1 E2) as [? ->]. done.
Qed.

Lemma spec_run_limit os q rs q' : run spec_op os q = (rs, q') -> fifo.limit q' = fifo.limit q.
Proof.
  revert q rs. induction os as [|o os IH]; simpl; intros q rs E; [by simplify_eq|].
  destruct (spec_op o q) as [r q1] eqn:E1. destruct (run spec_op os q1) as [rs1 q2] eqn:E2.
  simplify_eq. rewrite (IH _ _ E2).
  destruct o; simpl in E1; unfold fifo.enqueue in E1; try case_match; by simplify_eq.
Qed.

(** Sequences of appends only, for clients that just enqueue. *)
Lemma append_true b d b' :
  wf b -> append b d = (true, b') -> wf b' /\ data b' = data b ++ d /\ cap_ b' = cap_ b.
Proof.
  intros Hw E. pose proof (append_spec b d Hw) as H. rewrite E in H. destruct H as [Hw' H].
  unfold fifo.enqueue, abs in H. simpl in H. case_match; [|done].
  injection H as Hc Hd. by rewrite Hc, Hd.
Qed.

Lemma append_false b d b' :
  wf b -> append b d = (false, b') -> b' = b /\ (cap_ b < length (data b) + length d)%nat.
Proof.
  intros Hw. unfold append. case_match; [done|]. rewrite <- size_data.
  case_match eqn:E; [|done]. intros [= <-]. split; [done | lia].
Qed.

(** * Properties *)

(** C34. Functional refinement: from an empty buffer, any interleaving of
    appends, partial consumptions and clears is answered exactly as a FIFO of
    at most [cap] bytes answers it (an append is refused, and changes nothing,
    precisely when it would exceed the limit), the unsent bytes are the FIFO's
    content in order, and compaction keeps the storage within [2 * cap]. *)
Theorem bounded_buffer_refines_fifo (cap : nat) (os : list op) (rs : list bool)
    (b : BoundedBuffer) :
  run run_op os (make cap) = (rs, b) ->
  run spec_op os (fifo.mk cap []) = (rs, fifo.mk cap (data b)) /\
  size b = length (data b) /\ (size b <= cap)%nat /\
  (length (elems (buf_ b)) <= 2 * cap)%nat /\ (vcapacity (buf_ b) <= 2 * cap)%nat.
Proof.
  intros E. destruct (run_refines os (make cap) rs b (wf_make cap) E) as ((W1 & W2 & W3 & W4) & R).
  pose proof (spec_run_limit _ _ _ _ R) as Hc. unfold abs in *. simpl in *.
  rewrite Hc in *. split; [done|]. split; [apply size_data|]. lia.
Qed.

Lemma bounded_buffer_refines_fifo_witness :
  run spec_op [OpAppend [1; 2; 3]; OpConsume 2; OpAppend [4; 5]; OpAppend [6; 7]]
    (fifo.mk 4 []) =
  ([true; true; true; false], fifo.mk 4 [3; 4; 5]).
Proof.
  refine (proj1 (bounded_buffer_refines_fifo 4
    [OpAppend [1; 2; 3]; OpConsume 2; OpAppend [4; 5]; OpAppend [6; 7]]
    [true; true; true; false] {| cap_ := 4; buf_ := mkVec [3; 4; 5] 3; head_ := 0 |} _)).
  reflexivity.
Defined.

End bounded_buffer.
