(* ===== verification/HmacAuth.v ===== *)
(** One-way connection authentication: src/auth/hmac_auth.{h,cpp}.

    OpenSSL is not part of the repository: [HMAC] and [CRYPTO_memcmp] are the
    fields of the class [OpenSSL], with the documented behaviour the code
    relies on in [OpenSSLLaws].  [RAND_bytes] is the argument of [random_nonce]:
    the bytes it produced, or [None] when it failed.

    A password file is what [fopen]/[fread]/[ferror] show of it: its bytes, and
    whether reading it ended in an error. *)

From S2P Require Import Prelude.
From S2P Require Import XrCodec.
Import extradio.

Module auth.

(** ** OpenSSL libcrypto *)

Class OpenSSL := {
  (** [HMAC(EVP_sha256(), key, msg)]: [None] for a null result, else the digest. *)
  HMAC : bytes -> bytes -> option bytes;
  (** [CRYPTO_memcmp(a, b, n)]. *)
  CRYPTO_memcmp : bytes -> bytes -> nat -> Z;
}.

Class OpenSSLLaws `{!OpenSSL} := {
  (** Zero exactly when the first [n] bytes agree. *)
  CRYPTO_memcmp_spec a b n : CRYPTO_memcmp a b n = 0 <-> take n a = take n b;
  (** A digest is made of bytes. *)
  HMAC_bytes key msg d : HMAC key msg = Some d -> is_bytes d;
}.

(** ** Configuration *)

Record AuthConfig := mkAuthConfig { password_ : bytes }.

Definition open_mode : AuthConfig := {| password_ := [] |}.

Definition from_password_bytes (key : option bytes) : AuthConfig :=
  match key with
  | Some k => if (length k =? 0)%nat then open_mode else {| password_ := k |}
  | None => open_mode
  end.

Definition password_configured (c : AuthConfig) : bool :=
  negb (length (password_ c) =? 0)%nat.

(** What the C library shows of a file. *)
Record file := mkFile { content : bytes; read_error : bool }.

Definition kMaxPasswordFileBytes : nat := 4096.
Definition kChunk : nat := 512.

Inductive password_error := CannotOpen | TooLarge | ReadError | Empty.

(** The [fread] loop: [None] when the size cap is exceeded.  Each round takes
    at least one byte of [rest], so [S (length rest)] rounds are enough. *)
Fixpoint read_chunks (fuel : nat) (data rest : bytes) : option bytes :=
  match fuel with
  | O => Some data
  | S fuel =>
      let chunk := take kChunk rest in
      if (length chunk =? 0)%nat then Some data else
      if (kMaxPasswordFileBytes <? length data + length chunk)%nat then None else
      read_chunks fuel (data ++ chunk) (drop kChunk rest)
  end.

(** [v.back()] and [v.pop_back()]. *)
Definition back (d : bytes) : Z := List.last d 0.
Definition pop_back (d : bytes) : bytes := take (length d - 1) d.

(** Strip one trailing LF or CRLF. *)
Definition strip_newline (d : bytes) : bytes :=
  if negb (length d =? 0)%nat && (back d =? LF) then
    let d := pop_back d in
    if negb (length d =? 0)%nat && (back d =? CR) then pop_back d else d
  else d.

(** [None] for the file is a failed [fopen]; the result is the error, or the
    configuration stored through [out]. *)
Definition from_password_file (f : option file) : password_error + AuthConfig :=
  match f with
  | None => inl CannotOpen
  | Some f =>
      match read_chunks (S (length (content f))) [] (content f) with
      | None => inl TooLarge
      | Some data =>
          if read_error f then inl ReadError else
          let data := strip_newline data in
          if (length data =? 0)%nat then inl Empty
          else inr {| password_ := data |}
      end
  end.

(** ** Challenge and response *)

(** [rand] is the outcome of [RAND_bytes] for [kAuthNonceSize] bytes. *)
Definition random_nonce (rand : option bytes) : option bytes := rand.

Section Crypto.
Context `{!OpenSSL}.

Definition hmac_sha256 (key msg : bytes) : option bytes :=
  match HMAC key msg with
  | None => None
  | Some out => if (length out =? kAuthResponseSize)%nat then Some out else None
  end.

Definition verify_auth_response (cfg : AuthConfig) (nonce : bytes) (response : option bytes)
    : bool :=
  if negb (password_configured cfg) then false else
  match response with
  | None => false
  | Some response =>
      if negb (length response =? kAuthResponseSize)%nat then false else
      match hmac_sha256 (password_ cfg) nonce with
      | None => false
      | Some expected => CRYPTO_memcmp expected response kAuthResponseSize =? 0
      end
  end.

Context `{!OpenSSLLaws}.

Lemma verify_auth_response_true cfg nonce r :
  verify_auth_response cfg nonce (Some r) = true <->
  password_configured cfg = true /\ length r = kAuthResponseSize /\
  HMAC (password_ cfg) nonce = Some r.
Proof.
  unfold verify_auth_response, hmac_sha256.
  destruct (password_configured cfg); cbn [negb]; [|naive_solver].
  destruct (Nat.eqb_spec (length r) kAuthResponseSize) as [El|El]; cbn [negb]; [|naive_solver].
  destruct (HMAC (password_ cfg) nonce) as [d|]; [|naive_solver].
  destruct (Nat.eqb_spec (length d) kAuthResponseSize) as [Ed|Ed].
  - rewrite Z.eqb_eq, CRYPTO_memcmp_spec, !take_ge by lia. naive_solver.
  - split; [done|]. intros (_ & _ & [= ->]). done.
Qed.

End Crypto.

(** ** The password file *)

Lemma read_chunks_spec fuel d rest :
  (length rest < fuel)%nat -> (length d <= kMaxPasswordFileBytes)%nat ->
  read_chunks fuel d rest =
    if (kMaxPasswordFileBytes <? length d + length rest)%nat then None else Some (d ++ rest).
Proof.
  revert d rest. induction fuel as [|fuel IH]; intros d rest Hf Hd; [lia|].
  cbn [read_chunks]. rewrite length_take. unfold kChunk in *.
  destruct (Nat.eqb_spec (Nat.min 512 (length rest)) 0) as [E|E].
  { assert (rest = []) as -> by (apply nil_length_inv; lia). cbn [length].
    rewrite (proj2 (Nat.ltb_ge _ _)) by lia. by rewrite app_nil_r. }
  destruct (Nat.ltb_spec kMaxPasswordFileBytes (length d + Nat.min 512 (length rest))).
  { by rewrite (proj2 (Nat.ltb_lt _ _)) by lia. }
  rewrite IH by (rewrite ?length_app, ?length_take, ?length_drop; lia).
  rewrite length_app, length_take, length_drop, <- app_assoc, take_drop.
  replace (length d + Nat.min 512 (length rest) + (length rest - 512))%nat
    with (length d + length rest)%nat by lia. done.
Qed.

(** What stripping one line end means. *)
Definition ends_with (c : Z) (d : bytes) : Prop := exists d', d = d' ++ [c].

Inductive stripped : bytes -> bytes -> Prop :=
  | stripped_crlf p : stripped (p ++ [CR; LF]) p
  | stripped_lf p : ~ ends_with CR p -> stripped (p ++ [LF]) p
  | stripped_none p : ~ ends_with LF p -> stripped p p.

Lemma back_snoc d x : back (d ++ [x]) = x.
Proof. apply last_last. Qed.

Lemma pop_back_snoc d x : pop_back (d ++ [x]) = d.
Proof.
  unfold pop_back. rewrite length_app. cbn [length].
  replace (length d + 1 - 1)%nat with (length d) by lia. by rewrite take_app_length.
Qed.

Lemma snoc_nonempty (d : bytes) x : negb (length (d ++ [x]) =? 0)%nat = true.
Proof. rewrite length_app. cbn [length]. by rewrite Nat.add_comm. Qed.

Lemma ends_with_snoc c d x : ends_with c (d ++ [x]) <-> x = c.
Proof.
  split; [|intros ->; by exists d]. intros [d' E]. by apply app_inj_tail in E as [_ ->].
Qed.

Lemma strip_newline_stripped d : stripped d (strip_newline d).
Proof.
  unfold strip_newline. destruct d as [|x d _] using rev_ind.
  { apply stripped_none. by intros [[|] ?]. }
  rewrite snoc_nonempty, back_snoc, pop_back_snoc. cbn [andb].
  destruct (Z.eqb_spec x LF) as [->|Hx]; [|by apply stripped_none; rewrite ends_with_snoc].
  destruct d as [|y d _] using rev_ind.
  { apply stripped_lf. by intros [[|] ?]. }
  rewrite snoc_nonempty, back_snoc, pop_back_snoc. cbn [andb].
  destruct (Z.eqb_spec y CR) as [->|Hy].
  - rewrite <- app_assoc. apply stripped_crlf.
  - apply stripped_lf. by rewrite ends_with_snoc.
Qed.

Lemma stripped_det d p q : stripped d p -> stripped d q -> p = q.
Proof.
  assert (Hcl : forall r s : bytes, r ++ [CR; LF] = s ++ [LF] -> s = r ++ [CR]).
  { intros r s E. change [CR; LF] with ([CR] ++ [LF]) in E. rewrite app_assoc in E.
    by apply app_inj_tail in E as [-> _]. }
  intros H1 H2. destruct H1 as [p|p Hp|p Hp];
    inversion H2 as [q' E E'|q' Hq E E'|q' Hq E E']; subst q'; try subst q; try done.
  - by apply app_inv_tail in E.
  - symmetry in E. apply Hcl in E. destruct Hq. by exists p.
  - destruct Hq. exists (p ++ [CR]). by rewrite <- app_assoc.
  - apply Hcl in E. destruct Hp. by exists q.
  - by apply app_inj_tail in E as [-> _].
  - destruct Hq. by exists p.
  - destruct Hp. exists (q ++ [CR]). rewrite <- app_assoc. cbn [app]. congruence.
  - destruct Hp. by exists q.
Qed.

(** * Properties *)

(** C29. Authentication soundness and completeness: the bridge accepts a response
    exactly when a password is configured and the response is the 32-byte HMAC
    of the challenge nonce under that password; in particular nothing is ever
    accepted in open mode, after a crypto failure, or at a wrong length. *)
Theorem verify_auth_response_iff `{!OpenSSL, !OpenSSLLaws} (cfg : AuthConfig) (nonce : bytes)
    (response : option bytes) :
  verify_auth_response cfg nonce response = true <->
  exists r, response = Some r /\ password_configured cfg = true /\
            length r = kAuthResponseSize /\ HMAC (password_ cfg) nonce = Some r.
Proof.
  destruct response as [r|].
  - rewrite verify_auth_response_true. naive_solver.
  - unfold verify_auth_response. destruct (password_configured cfg); naive_solver.
Qed.

(** A toy libcrypto, for concrete runs: the digest repeats a checksum. *)
Definition checksum (key msg : bytes) : Z := u8 (fold_left Z.add (key ++ msg) 0).
#[local] Instance toy_openssl : OpenSSL := {|
  HMAC key msg := Some (replicate kAuthResponseSize (checksum key msg));
  CRYPTO_memcmp a b n := if bytes_eqb (take n a) (take n b) then 0 else 1;
|}.
#[local] Instance toy_openssl_laws : OpenSSLLaws.
Proof.
  constructor; cbn [HMAC CRYPTO_memcmp toy_openssl].
  - intros a b n. rewrite <- bytes_eqb_eq. case_match; split; done.
  - intros key msg d [= <-]. repeat (constructor; [apply u8_range|]). constructor.
Defined.

Lemma verify_auth_response_iff_witness :
  verify_auth_response {| password_ := [7; 8] |} [1] (Some (replicate 32 16)) = true <->
  exists r, Some (replicate 32 16) = Some r /\
            password_configured {| password_ := [7; 8] |} = true /\
            length r = kAuthResponseSize /\
            HMAC [7; 8] [1] = Some r.
Proof. apply (verify_auth_response_iff {| password_ := [7; 8] |} [1] (Some (replicate 32 16))). Defined.

(** C30. The password file: exactly a readable file of at most 4096 bytes whose
    content, less one trailing LF or CRLF, is not empty configures a password,
    and the password is that content; an oversized file is rejected before a
    read error is looked at. *)
Theorem from_password_file_spec (f : file) :
  (forall cfg, from_password_file (Some f) = inr cfg <->
     (length (content f) <= kMaxPasswordFileBytes)%nat /\ read_error f = false /\
     stripped (content f) (password_ cfg) /\ password_ cfg <> []) /\
  (from_password_file (Some f) = inl TooLarge <->
     (kMaxPasswordFileBytes < length (content f))%nat).
Proof.
  unfold from_password_file. rewrite read_chunks_spec by (unfold kMaxPasswordFileBytes; cbn; lia).
  cbn [length Nat.add app].
  destruct (Nat.ltb_spec kMaxPasswordFileBytes (length (content f))) as [Hl|Hl].
  { split; [|done]. intros cfg. split; [done|]. lia. }
  destruct (read_error f); [split; [intros cfg|]; split; try done; naive_solver lia|].
  pose proof (strip_newline_stripped (content f)) as Hs.
  destruct (Nat.eqb_spec (length (strip_newline (content f))) 0) as [E|E].
  - apply nil_length_inv in E. rewrite E in Hs. split; [|split; [done | lia]].
    intros cfg. split; [done|]. intros (_ & _ & Hs' & Hne).
    by rewrite (stripped_det _ _ _ Hs' Hs) in Hne.
  - split; [|split; [done | lia]]. intros [pw]. split.
    + intros [= <-]. repeat split; try done. cbn [password_]. intros Hn. by rewrite Hn in E.
    + intros (_ & _ & Hs' & _). cbn [password_] in Hs'. by rewrite (stripped_det _ _ _ Hs' Hs).
Qed.

End auth.
