(* ===== verification/Printf.v ===== *)
(** The pieces of the C library's formatted output the bridge uses: the
    conversions %u, %zu, %d, %02X and %.<p>f, and the binary64 division that
    feeds %.<p>f (src/backend/loraham/loraham_config.cpp,
    src/util/rflog.cpp, src/backend/loraham/loraham_posix_transport.cpp).

    A positive binary64 value is [m * 2^(-k)].  [f64_div] is the correctly
    rounded (nearest, ties to even) quotient of two positive integers exactly
    representable in binary64, in the normal range; [fmt_fixed] prints a value
    with a fixed number of decimals, exactly rounded in the same mode. *)

From S2P Require Import Prelude.

Module printf.

(** ** Integers *)

(** Decimal digits, most significant first; 20 digits hold any 64-bit value. *)
Fixpoint dec_digits (fuel : nat) (n : Z) (acc : bytes) : bytes :=
  match fuel with
  | O => acc
  | S fuel =>
      let acc := (48 + n mod 10) :: acc in
      if n / 10 =? 0 then acc else dec_digits fuel (n / 10) acc
  end.

(** %u, %zu of an unsigned value. *)
Definition fmt_u (n : Z) : bytes := dec_digits 20 n [].

(** %d. *)
Definition fmt_d (n : Z) : bytes := if n <? 0 then 45 :: fmt_u (- n) else fmt_u n.

(** %02X of an unsigned value below 256. *)
Definition hex_upper (d : Z) : Z := if d <? 10 then 48 + d else 55 + d.
Definition fmt_02X (n : Z) : bytes := [hex_upper (n / 16); hex_upper (n mod 16)].

(** Exactly [w] digits of [n], with leading zeros. *)
Fixpoint fmt_pad (w : nat) (n : Z) : bytes :=
  match w with
  | O => []
  | S w => fmt_pad w (n / 10) ++ [48 + n mod 10]
  end.

(** ** Rounding to nearest, ties to even *)

Definition rne (a b : Z) : Z :=
  let q := a / b in
  let r := a mod b in
  if 2 * r <? b then q
  else if b <? 2 * r then q + 1
  else if Z.even q then q else q + 1.

(** [a / b] in binary64, as [(m, k)] standing for [m * 2^(-k)], for the operands
    the bridge divides ([k >= 0] there). *)
Definition f64_div (a b : Z) : Z * Z :=
  if a =? 0 then (0, 0) else
  let k0 := 52 - (Z.log2 a - Z.log2 b) in
  let k := if a * 2 ^ k0 / b <? 2 ^ 52 then k0 + 1 else k0 in
  (rne (a * 2 ^ k) b, k).

(** %.<p>f of [m * 2^(-k)], non-negative. *)
Definition fmt_fixed (p : nat) (v : Z * Z) : bytes :=
  let '(m, k) := v in
  let scale := 10 ^ Z.of_nat p in
  let n := rne (m * scale) (2 ^ k) in
  fmt_u (n / scale) ++ [46] ++ fmt_pad p (n mod scale).

(** %.<p>f of the quotient of an integer by a positive integer. *)
Definition fmt_fixed_quot (p : nat) (a b : Z) : bytes :=
  if a <? 0 then 45 :: fmt_fixed p (f64_div (- a) b) else fmt_fixed p (f64_div a b).

(** ** Lemmas *)

Lemma rne_exact a b : 0 < b -> rne (a * b) b = a.
Proof.
  intros Hb. unfold rne. rewrite Z.div_mul, Z.mod_mul by lia.
  by rewrite (proj2 (Z.ltb_lt _ _)) by lia.
Qed.

Lemma rne_close a b : 0 < b -> - b <= 2 * (rne a b * b - a) <= b.
Proof.
  intros Hb. unfold rne. pose proof (Z.div_mod a b ltac:(lia)) as E.
  pose proof (Z.mod_pos_bound a b Hb). repeat case_match; nia.
Qed.

(** A value within less than one half of an integer rounds to it. *)
Lemma rne_unique a b n : 0 < b -> - b < 2 * (a - n * b) < b -> rne a b = n.
Proof. intros Hb H. pose proof (rne_close a b Hb). nia. Qed.

(** Rounding an integer quotient to a binary64 with at least [k] fraction bits
    and printing it with as many decimals as the divisor has zeros gives the
    integer back: the two roundings cancel. *)
Lemma fixed_round_trip a s k :
  0 < s -> s < 2 ^ k -> 0 <= k ->
  rne (rne (a * 2 ^ k) s * s) (2 ^ k) = a.
Proof.
  intros Hs Hk Hk0. assert (0 < 2 ^ k) by lia.
  pose proof (rne_close (a * 2 ^ k) s Hs). apply rne_unique; [done|]. nia.
Qed.

Lemma f64_div_exponent a b k0 :
  0 < a -> 0 < b -> Z.log2 a - Z.log2 b <= k0 -> exists k, f64_div a b = (rne (a * 2 ^ k) b, k) /\ 52 - k0 <= k.
Proof.
  intros Ha Hb Hl. unfold f64_div. rewrite (proj2 (Z.eqb_neq _ _)) by lia.
  eexists. split; [done|]. case_match; lia.
Qed.

(** The decimal expansion the code sends: an integer number of [10^-p] units. *)
Lemma fmt_fixed_quot_exact (p : nat) a :
  0 <= a < 2 ^ 32 -> (p <= 6)%nat ->
  fmt_fixed_quot p a (10 ^ Z.of_nat p) =
  fmt_u (a / 10 ^ Z.of_nat p) ++ [46] ++ fmt_pad p (a mod 10 ^ Z.of_nat p).
Proof.
  intros Ha Hp. unfold fmt_fixed_quot. rewrite (proj2 (Z.ltb_ge _ _)) by lia.
  assert (Hs : 0 < 10 ^ Z.of_nat p <= 10 ^ 6).
  { split; [lia|]. apply Z.pow_le_mono_r; lia. }
  change (10 ^ 6) with 1000000 in Hs.
  destruct (Z.eq_dec a 0) as [->|Hn].
  { unfold f64_div, fmt_fixed. cbn [Z.eqb]. rewrite Z.mul_0_l.
    replace (rne 0 (2 ^ 0)) with 0 by done. done. }
  destruct (f64_div_exponent a (10 ^ Z.of_nat p) 31) as (k & -> & Hk); [lia | lia | |].
  { pose proof (Z.log2_nonneg (10 ^ Z.of_nat p)).
    assert (Z.log2 a < 32) by (apply Z.log2_lt_pow2; lia). lia. }
  unfold fmt_fixed. rewrite fixed_round_trip; [done | lia | | lia].
  apply Z.lt_le_trans with (2 ^ 21); [lia|]. apply Z.pow_le_mono_r; lia.
Qed.

(** Every character printed is a digit. *)
Definition is_digit (c : Z) : Prop := 48 <= c <= 57.

Lemma dec_digits_digits fuel n acc :
  Forall is_digit acc -> Forall is_digit (dec_digits fuel n acc).
Proof.
  revert n acc. induction fuel as [|fuel IH]; intros n acc Ha; [done|]. cbn [dec_digits].
  assert (is_digit (48 + n mod 10)) by (unfold is_digit; Z.div_mod_to_equations; lia).
  case_match; [by constructor|]. apply IH. by constructor.
Qed.

Lemma fmt_u_digits n : Forall is_digit (fmt_u n).
Proof. apply dec_digits_digits. constructor. Qed.

Lemma dec_digits_length fuel n acc : (length (dec_digits fuel n acc) <= fuel + length acc)%nat.
Proof.
  revert n acc. induction fuel as [|fuel IH]; intros n acc; cbn [dec_digits]; [lia|].
  case_match; [cbn [length]; lia|]. etransitivity; [apply IH|]. cbn [length]. lia.
Qed.

(** The number of digits of a bounded value. *)
Lemma dec_digits_bound fuel n acc w :
  0 <= n < 10 ^ Z.of_nat w -> (0 < w)%nat ->
  (length (dec_digits fuel n acc) <= w + length acc)%nat.
Proof.
  revert n acc w. induction fuel as [|fuel IH]; intros n acc w Hn Hw; cbn [dec_digits]; [lia|].
  case_match eqn:E; [cbn [length]; lia|].
  destruct w as [|[|w]]; [lia| |].
  - exfalso. change (10 ^ Z.of_nat 1) with 10 in Hn. Z.div_mod_to_equations; lia.
  - etransitivity; [apply (IH _ _ (S w)); [|lia]|cbn [length]; lia].
    rewrite (Nat2Z.inj_succ (S w)), Z.pow_succ_r in Hn by lia.
    split; [Z.div_mod_to_equations; lia|]. apply Z.div_lt_upper_bound; lia.
Qed.

Lemma fmt_u_bound n w : 0 <= n < 10 ^ Z.of_nat w -> (0 < w)%nat -> (length (fmt_u n) <= w)%nat.
Proof.
  intros Hn Hw. unfold fmt_u. pose proof (dec_digits_bound 20 n [] w Hn Hw).
  cbn [length] in *. lia.
Qed.

Lemma fmt_pad_length w n : length (fmt_pad w n) = w.
Proof.
  revert n. induction w as [|w IH]; intros n; [done|].
  cbn [fmt_pad]. rewrite length_app, IH. cbn [length]. lia.
Qed.

Lemma fmt_pad_digits w n : Forall is_digit (fmt_pad w n).
Proof.
  revert n. induction w as [|w IH]; intros n; cbn [fmt_pad]; [constructor|].
  apply Forall_app. split; [apply IH|]. repeat constructor; Z.div_mod_to_equations; lia.
Qed.

Lemma fmt_pad_inj w a b :
  0 <= a < 10 ^ Z.of_nat w -> 0 <= b < 10 ^ Z.of_nat w -> fmt_pad w a = fmt_pad w b -> a = b.
Proof.
  revert a b. induction w as [|w IH]; intros a b Ha Hb E.
  { change (10 ^ Z.of_nat 0) with 1 in *. lia. }
  rewrite Nat2Z.inj_succ, Z.pow_succ_r in Ha, Hb by lia. cbn [fmt_pad] in E.
  apply app_inj_tail in E as [E1 E2]. apply IH in E1; [Z.div_mod_to_equations; lia | |];
    (split; [Z.div_mod_to_equations; lia | apply Z.div_lt_upper_bound; lia]).
Qed.

(** Reading a decimal number back. *)
Definition dec_value (ds : bytes) : Z := fold_left (fun v c => v * 10 + (c - 48)) ds 0.

Lemma dec_value_app a b : dec_value (a ++ b) = fold_left (fun v c => v * 10 + (c - 48)) b (dec_value a).
Proof. apply fold_left_app. Qed.

Lemma dec_value_digits fuel n acc :
  0 <= n < 10 ^ Z.of_nat fuel ->
  dec_value (dec_digits fuel n acc) = fold_left (fun v c => v * 10 + (c - 48)) acc n.
Proof.
  revert n acc. induction fuel as [|fuel IH]; intros n acc Hn.
  { change (10 ^ Z.of_nat 0) with 1 in Hn. replace n with 0 by lia. done. }
  cbn [dec_digits]. rewrite Nat2Z.inj_succ, Z.pow_succ_r in Hn by lia.
  case_match eqn:E.
  - unfold dec_value. cbn [fold_left]. f_equal. Z.div_mod_to_equations; lia.
  - rewrite IH by (split; [Z.div_mod_to_equations; lia | apply Z.div_lt_upper_bound; lia]).
    cbn [fold_left]. f_equal. Z.div_mod_to_equations; lia.
Qed.

Lemma dec_value_fmt_u n : is_u64 n -> dec_value (fmt_u n) = n.
Proof. intros Hn. unfold fmt_u. rewrite dec_value_digits; [done|]. unfold_ints. lia. Qed.

Lemma fmt_u_inj a b : is_u64 a -> is_u64 b -> fmt_u a = fmt_u b -> a = b.
Proof.
  intros Ha Hb E. rewrite <- (dec_value_fmt_u a), <- (dec_value_fmt_u b) by done. by rewrite E.
Qed.

End printf.
