(* ===== verification/Clock.v ===== *)
(** The clocks: the monotonic millisecond clock every deadline is measured with
    (src/util/clock.h), and the broken-down wall-clock time both logs print
    ([gmtime_r], [localtime_r] and [strftime] in src/util/rflog.cpp and
    src/util/log.cpp).

    A [SteadyClock] is what [steady_clock] has counted, nanoseconds in a signed
    64-bit integer; a [ManualClock] is its one field.  The interface is a class
    with the one promise the header makes, that readings never go backwards. *)

From S2P Require Import Prelude.
From S2P Require Import Printf.

Module clock.
Import printf.

(** ** The monotonic clock *)

(** [later c c']: the clock may be in state [c'] after [c]. *)
Class Clock (C : Type) := {
  now_ms : C -> Z;
  later : C -> C -> Prop
}.

Class ClockLaws C `{!Clock C} := {
  now_ms_u64 c : is_u64 (now_ms c);
  now_ms_monotone c c' : later c c' -> now_ms c <= now_ms c'
}.

(** The count of [steady_clock], non-negative on the hosts the bridge runs on. *)
Record SteadyClock := mkSteadyClock { steady_ns : Z; steady_range : 0 <= steady_ns < 2 ^ 63 }.

Definition steady_now_ms (c : SteadyClock) : Z := u64 (Z.quot (steady_ns c) 1000000).

#[export] Instance steady_clock : Clock SteadyClock := {|
  now_ms := steady_now_ms;
  later c c' := steady_ns c <= steady_ns c'
|}.

Record ManualClock := mkManualClock { now_ : Z }.

Definition manual_make (start_ms : Z) : ManualClock := mkManualClock (u64 start_ms).
Definition manual_now_ms (c : ManualClock) : Z := now_ c.
Definition advance (delta_ms : Z) (c : ManualClock) : ManualClock := mkManualClock (u64 (now_ c + delta_ms)).
Definition set (ms : Z) (c : ManualClock) : ManualClock := mkManualClock (u64 ms).

Lemma steady_quot c : steady_now_ms c = steady_ns c / 1000000.
Proof.
  destruct c as [ns Hns]. unfold steady_now_ms, u64. cbn [steady_ns].
  rewrite Z.quot_div_nonneg by lia. apply Z.mod_small. Z.div_mod_to_equations. lia.
Qed.

#[export] Instance steady_clock_laws : ClockLaws SteadyClock.
Proof.
  split.
  - intros [ns Hns]. apply Z.mod_pos_bound. lia.
  - intros c c' H. cbn [now_ms steady_clock]. rewrite !steady_quot. by apply Z.div_le_mono.
Qed.

(** A reading leaves room: no deadline within the next 290 million years
    wraps. *)
Lemma steady_no_wrap c t : 0 <= t < 2 ^ 63 -> u64 (steady_now_ms c + t) = steady_now_ms c + t.
Proof.
  intros Ht. rewrite steady_quot. apply Z.mod_small. pose proof (steady_range c).
  Z.div_mod_to_equations. lia.
Qed.

(** A test clock moves forward by what it is advanced, as long as it does not
    wrap. *)
Lemma advance_now d c :
  is_u64 (now_ c) -> 0 <= d -> now_ c + d < 2 ^ 64 -> manual_now_ms (advance d c) = manual_now_ms c + d.
Proof. intros Hc Hd Hw. unfold manual_now_ms, advance. cbn [now_]. unfold_ints. apply Z.mod_small. lia. Qed.

(** ** Wall-clock time *)

(** Year, month and day of a day number, by [gmtime_r]: years are counted from
    March so that the leap day is the last one. *)
Definition civil_of_days (d : Z) : Z * Z * Z :=
  let z := d + 719468 in
  let era := z / 146097 in
  let doe := z mod 146097 in
  let yoe := (doe - doe / 1460 + doe / 36524 - doe / 146096) / 365 in
  let doy := doe - (365 * yoe + yoe / 4 - yoe / 100) in
  let mp := (5 * doy + 2) / 153 in
  let day := doy - (153 * mp + 2) / 5 + 1 in
  let month := if mp <? 10 then mp + 3 else mp - 9 in
  (yoe + era * 400 + (if month <=? 2 then 1 else 0), month, day).

(** [%Y-%m-%dT%H:%M:%S] for years 0 to 9999. *)
Definition strftime_iso (sec : Z) : bytes :=
  let '(y, m, d) := civil_of_days (sec / 86400) in
  let t := sec mod 86400 in
  fmt_u y ++ str "-" ++ fmt_pad 2 m ++ str "-" ++ fmt_pad 2 d ++ str "T" ++
  fmt_pad 2 (t / 3600) ++ str ":" ++ fmt_pad 2 (t / 60 mod 60) ++ str ":" ++ fmt_pad 2 (t mod 60).

(** The day number of a date: the reference the other direction is compared
    with. *)
Definition days_of_civil (y m d : Z) : Z :=
  let y' := if m <=? 2 then y - 1 else y in
  let mp := if m <=? 2 then m + 9 else m - 3 in
  let doy := (153 * mp + 2) / 5 + d - 1 in
  365 * y' + y' / 4 - y' / 100 + y' / 400 + doy - 719468.

(** The year of the 400-year cycle, and the day of the year counted from March. *)
Lemma cycle_bounds doe :
  0 <= doe < 146097 ->
  let yoe := (doe - doe / 1460 + doe / 36524 - doe / 146096) / 365 in
  0 <= yoe < 400 /\ 0 <= doe - (365 * yoe + yoe / 4 - yoe / 100) <= 365.
Proof.
  intros H yoe. subst yoe.
  split; [Z.div_mod_to_equations; lia|].
  split; Z.div_mod_to_equations; lia.
Qed.

(** Broken-down time is the inverse of counting days. *)
Lemma civil_of_days_spec n :
  let '(y, m, d) := civil_of_days n in days_of_civil y m d = n /\ 1 <= m <= 12 /\ 1 <= d <= 31.
Proof.
  unfold civil_of_days, days_of_civil.
  pose proof (Z.div_mod (n + 719468) 146097 ltac:(lia)) as Hz.
  pose proof (Z.mod_pos_bound (n + 719468) 146097 ltac:(lia)) as Hdoe.
  pose proof (cycle_bounds _ Hdoe) as Hc. cbv zeta in Hc.
  set (era := (n + 719468) / 146097) in *. set (doe := (n + 719468) mod 146097) in *.
  set (yoe := (doe - doe / 1460 + doe / 36524 - doe / 146096) / 365) in *. destruct Hc as [Hy Hd].
  set (doy := doe - (365 * yoe + yoe / 4 - yoe / 100)) in *.
  clearbody era yoe. assert (Hmp : 0 <= (5 * doy + 2) / 153 <= 11) by (Z.div_mod_to_equations; lia).
  set (mp := (5 * doy + 2) / 153) in *.
  assert (Hday : 1 <= doy - (153 * mp + 2) / 5 + 1 <= 31) by (subst mp; Z.div_mod_to_equations; lia).
  set (s := (153 * mp + 2) / 5) in *.
  assert (Hm : 1 <= (if mp <? 10 then mp + 3 else mp - 9) <= 12) by (case_match; lia).
  split; [|lia].
  assert (Hmp' : (if (if mp <? 10 then mp + 3 else mp - 9) <=? 2 then (if mp <? 10 then mp + 3 else mp - 9) + 9
     else (if mp <? 10 then mp + 3 else mp - 9) - 3) = mp) by (repeat case_match; lia).
  rewrite Hmp'. fold s.
  replace (if _ <=? 2 then _ - 1 else _) with (yoe + era * 400) by (repeat case_match; lia).
  replace ((yoe + era * 400) / 4) with (yoe / 4 + era * 100) by (Z.div_mod_to_equations; lia).
  replace ((yoe + era * 400) / 100) with (yoe / 100 + era * 4) by (Z.div_mod_to_equations; lia).
  replace ((yoe + era * 400) / 400) with era by (Z.div_mod_to_equations; lia).
  subst doy. lia.
Qed.

Lemma civil_year n : 0 <= n < 2 ^ 40 -> 0 <= (civil_of_days n).1.1 < 10 ^ 10.
Proof.
  intros Hn. unfold civil_of_days. cbn [fst].
  pose proof (Z.mod_pos_bound (n + 719468) 146097 ltac:(lia)) as Hdoe.
  destruct (cycle_bounds _ Hdoe) as [Hy _]. cbv zeta in Hy.
  set (yoe := _ / 365) in *. clearbody yoe.
  assert (0 <= (n + 719468) / 146097 < 2 ^ 23) by (Z.div_mod_to_equations; lia).
  case_match; lia.
Qed.

Lemma pad_app w a b x y :
  0 <= a < 10 ^ Z.of_nat w -> 0 <= b < 10 ^ Z.of_nat w ->
  fmt_pad w a ++ x = fmt_pad w b ++ y -> a = b /\ x = y.
Proof.
  intros Ha Hb E. apply app_inj_1 in E as [E ->]; [|by rewrite !fmt_pad_length].
  by apply fmt_pad_inj in E.
Qed.

(** A printed time determines the second. *)
Lemma strftime_iso_inj a b x y :
  0 <= a < 2 ^ 55 -> 0 <= b < 2 ^ 55 -> strftime_iso a ++ x = strftime_iso b ++ y -> a = b /\ x = y.
Proof.
  intros Ha Hb. unfold strftime_iso.
  pose proof (civil_of_days_spec (a / 86400)) as Ca. pose proof (civil_of_days_spec (b / 86400)) as Cb.
  pose proof (civil_year (a / 86400) ltac:(Z.div_mod_to_equations; lia)) as Ya.
  pose proof (civil_year (b / 86400) ltac:(Z.div_mod_to_equations; lia)) as Yb.
  destruct (civil_of_days (a / 86400)) as [[ya ma] da], (civil_of_days (b / 86400)) as [[yb mb] db].
  cbn [fst] in *. destruct Ca as (Ea & Hma & Hda), Cb as (Eb & Hmb & Hdb).
  rewrite <- !app_assoc. intros E. apply (split_at_sep 45) in E as [E1%fmt_u_inj E];
    [|unfold_ints; lia|unfold_ints; lia|by eapply Forall_not_In; [apply fmt_u_digits|unfold is_digit; lia]..].
  repeat match type of E with
  | fmt_pad _ _ ++ _ = _ => apply pad_app in E as [? E]; [|Z.div_mod_to_equations; lia..]
  | str _ ++ _ = _ => apply app_inv_head in E
  end.
  split; [|done]. subst. Z.div_mod_to_equations; lia.
Qed.

(** ... and fits the buffers of both logs. *)
Lemma strftime_iso_length a : 0 <= a < 2 ^ 55 -> (length (strftime_iso a) <= 25)%nat.
Proof.
  intros Ha. unfold strftime_iso.
  pose proof (civil_year (a / 86400) ltac:(Z.div_mod_to_equations; lia)) as Ya.
  destruct (civil_of_days (a / 86400)) as [[y m] d]. cbn [fst] in Ya.
  pose proof (fmt_u_bound y 10 ltac:(done) ltac:(lia)).
  rewrite !length_app, !fmt_pad_length. cbv [str map String.list_ascii_of_string]. cbn [length]. lia.
Qed.

Lemma strftime_iso_printable a : Forall (fun c => 32 < c) (strftime_iso a).
Proof.
  unfold strftime_iso. destruct (civil_of_days (a / 86400)) as [[y m] d].
  assert (Hd : forall l, Forall is_digit l -> Forall (fun c => 32 < c) l).
  { intros l Hl. eapply Forall_impl; [exact Hl|]. unfold is_digit. lia. }
  repeat (apply Forall_app; split); auto using fmt_u_digits, fmt_pad_digits; repeat constructor; lia.
Qed.
End clock.
