(* ===== verification/RadioBackend.v ===== *)
(** The radio backend abstraction: src/backend/radio_backend.h.

    A backend is a state of type [B] with the operations of the abstract class
    [RadioBackend].  Asynchronous events go to the sink: the callbacks of
    [BackendSink] never call back into the backend, so [rb_poll] returns the
    events it delivered, in order, and the owner applies them to the session.
    Time is the value of the injected clock at the call ([now]). *)

From S2P Require Import Prelude.
From S2P Require Import XrCodec.

Module radio_backend.
Import extradio.

Inductive TxOutcome := Success | ChannelBusy | Timeout | RadioError.

#[export] Instance TxOutcome_eq_dec : EqDecision TxOutcome.
Proof. solve_decision. Defined.

Record RxEvent := mkRxEvent { rssi_cdbm : Z; snr_cdb : Z; rx_data : bytes }.

Record ConfigureResult := mkConfigureResult { applied : bool; effective : RadioConfig }.

(** The calls a backend makes on its [BackendSink]. *)
Inductive SinkEvent :=
  | on_rx (rx : RxEvent)
  | on_tx_complete (outcome : TxOutcome)
  | on_backend_failure
  | on_configure_complete (op_token : Z) (res : ConfigureResult).

Class RadioBackend (B : Type) := {
  (** [set_sink(&session)] / [set_sink(nullptr)]. *)
  rb_set_sink : bool -> B -> B;
  (** The operation token, 0 when rejected. *)
  rb_begin_configure : Z -> RadioConfig -> B -> Z * B;
  rb_start : B -> B;
  rb_stop : B -> B;
  rb_ready : B -> bool;
  rb_next_deadline_ms : B -> Z;
  rb_submit_tx : bytes -> B -> bool * B;
  rb_abandon_pending_tx : Z -> B -> B;
  rb_poll : Z -> B -> B * list SinkEvent;
}.

(** What the session relies on, from the comments of the abstract class. *)
Class RadioBackendLaws (B : Type) `{!RadioBackend B} := {
  (** No packet is accepted for transmission unless the backend is ready. *)
  rb_submit_ready d b b' : rb_submit_tx d b = (true, b') -> rb_ready b = true;
  (** A backend with no sink delivers nothing. *)
  rb_no_sink now b : (rb_poll now (rb_set_sink false b)).2 = [];
}.

(** A predicate every operation of a backend keeps: what its owner may rely on
    whatever calls it makes, in whatever order. *)
Class BackendInvariant {B : Type} `{!RadioBackend B} (P : B -> Prop) := {
  inv_set_sink on b : P b -> P (rb_set_sink on b);
  inv_begin_configure now cfg b : P b -> P (rb_begin_configure now cfg b).2;
  inv_start b : P b -> P (rb_start b);
  inv_stop b : P b -> P (rb_stop b);
  inv_submit_tx d b : P b -> P (rb_submit_tx d b).2;
  inv_abandon_pending_tx now b : P b -> P (rb_abandon_pending_tx now b);
  inv_poll now b : P b -> P (rb_poll now b).1;
}.

(** A map between backends that every operation commutes with: the owner cannot
    tell a backend from its image. *)
Class BackendMorphism {B1 B2 : Type} `{!RadioBackend B1} `{!RadioBackend B2} (f : B1 -> B2) := {
  mor_set_sink on b : rb_set_sink on (f b) = f (rb_set_sink on b);
  mor_begin_configure now cfg b :
    rb_begin_configure now cfg (f b) = prod_map id f (rb_begin_configure now cfg b);
  mor_start b : rb_start (f b) = f (rb_start b);
  mor_stop b : rb_stop (f b) = f (rb_stop b);
  mor_ready b : rb_ready (f b) = rb_ready b;
  mor_next_deadline_ms b : rb_next_deadline_ms (f b) = rb_next_deadline_ms b;
  mor_submit_tx d b : rb_submit_tx d (f b) = prod_map id f (rb_submit_tx d b);
  mor_abandon_pending_tx now b : rb_abandon_pending_tx now (f b) = f (rb_abandon_pending_tx now b);
  mor_poll now b : rb_poll now (f b) = prod_map f id (rb_poll now b);
}.

End radio_backend.
