(* ===== verification/LorahamConfig.v ===== *)
(** Translation of an XR configuration into a LoRaHAM daemon CONF command:
    src/backend/loraham/loraham_config.{h,cpp}.

    Strings are their bytes.  [std::snprintf] into [buf[256]] writes the
    formatted text when it is shorter than 256 bytes. *)

From S2P Require Import Prelude.
From S2P Require Import XrCodec.
From S2P Require Import Printf.
Import extradio printf.

Module loraham_config.

Inductive Band := Band433 | Band868.

#[export] Instance Band_eq_dec : EqDecision Band.
Proof. solve_decision. Defined.

Inductive ConfigError :=
  | Ok | FrequencyOutOfBand | BandwidthUnsupported | SpreadingFactor | CodingRate
  | SyncWord | Preamble | Power | Crc | Ldro.

#[export] Instance ConfigError_eq_dec : EqDecision ConfigError.
Proof. solve_decision. Defined.

Definition k433Lo : Z := 137000000.
Definition k433Hi : Z := 525000000.
Definition k868Lo : Z := 779000000.
Definition k868Hi : Z := 960000000.

Definition kBwTable : list (Z * bytes) := [
  (7800, str "7.8");
  (10400, str "10.4");
  (15600, str "15.6");
  (20800, str "20.8");
  (31250, str "31.25");
  (41700, str "41.7");
  (62500, str "62.5");
  (125000, str "125");
  (250000, str "250");
  (500000, str "500")
].

Definition config_error_name (e : ConfigError) : string :=
  match e with
  | Ok => "OK"
  | FrequencyOutOfBand => "FREQUENCY_OUT_OF_BAND"
  | BandwidthUnsupported => "BANDWIDTH_UNSUPPORTED"
  | SpreadingFactor => "SPREADING_FACTOR"
  | CodingRate => "CODING_RATE"
  | SyncWord => "SYNC_WORD"
  | Preamble => "PREAMBLE"
  | Power => "POWER"
  | Crc => "CRC"
  | Ldro => "LDRO"
  end.

Definition select_band (freq : Z) : option Band :=
  if (k433Lo <=? freq) && (freq <=? k433Hi) then Some Band433 else
  if (k868Lo <=? freq) && (freq <=? k868Hi) then Some Band868 else
  None.

Definition bandwidth_token (bw : Z) : option bytes :=
  option_map snd (List.find (fun m => fst m =? bw) kBwTable).

(** The error, and the selected band (meaningful on [Ok]). *)
Definition validate_config (cfg : RadioConfig) : ConfigError * option Band :=
  match select_band (freq_hz cfg) with
  | None => (FrequencyOutOfBand, None)
  | Some band =>
      match bandwidth_token (bw_hz cfg) with
      | None => (BandwidthUnsupported, None)
      | Some _ =>
          if (sf cfg <? 7) || (12 <? sf cfg) then (SpreadingFactor, None) else
          if (cr_denom cfg <? 5) || (8 <? cr_denom cfg) then (CodingRate, None) else
          if 255 <? sync_word cfg then (SyncWord, None) else
          if preamble cfg <? 6 then (Preamble, None) else
          if (tx_power_dbm cfg <? 0) || (20 <? tx_power_dbm cfg) then (Power, None) else
          if 1 <? crc cfg then (Crc, None) else
          if 1 <? ldro cfg then (Ldro, None) else
          (Ok, Some band)
      end
  end.

(** The text [snprintf] formats. *)
Definition set_command_text (cfg : RadioConfig) (bw : bytes) : bytes :=
  str "SET MODE=LORA FREQ=" ++ fmt_fixed_quot 6 (freq_hz cfg) 1000000 ++
  str " BW=" ++ bw ++
  str " SF=" ++ fmt_u (sf cfg) ++
  str " CR=" ++ fmt_u (cr_denom cfg) ++
  str " CRC=" ++ fmt_u (crc cfg) ++
  str " PREAMBLE=" ++ fmt_u (preamble cfg) ++
  str " SYNC=0x" ++ fmt_02X (Z.land (sync_word cfg) 255) ++
  str " LDRO=" ++ fmt_u (ldro cfg) ++
  str " POWER=" ++ fmt_d (tx_power_dbm cfg) ++ [LF].

Definition kSetBuf : nat := 256.

Definition build_set_command (cfg : RadioConfig) : option bytes :=
  if negb (bool_decide (fst (validate_config cfg) = Ok)) then None else
  let bw := default [] (bandwidth_token (bw_hz cfg)) in
  let text := set_command_text cfg bw in
  if (kSetBuf <=? length text)%nat then None else Some text.

(** ** What the daemon accepts *)

Definition daemon_limits (cfg : RadioConfig) (b : Band) : Prop :=
  match b with
  | Band433 => k433Lo <= freq_hz cfg <= k433Hi
  | Band868 => k868Lo <= freq_hz cfg <= k868Hi
  end /\
  In (bw_hz cfg) (map fst kBwTable) /\
  7 <= sf cfg <= 12 /\ 5 <= cr_denom cfg <= 8 /\ sync_word cfg <= 255 /\
  6 <= preamble cfg /\ 0 <= tx_power_dbm cfg <= 20 /\ crc cfg <= 1 /\ ldro cfg <= 1.

Lemma bandwidth_token_Some bw tok :
  bandwidth_token bw = Some tok <-> In (bw, tok) kBwTable.
Proof.
  unfold bandwidth_token. split.
  - destruct (List.find _ kBwTable) as [[hz t]|] eqn:E; [|done]. intros [= <-].
    apply find_some in E as [Hin He]. simpl in He. by replace bw with hz by lia.
  - unfold kBwTable. intros Hin. repeat destruct Hin as [[= <- <-]|Hin]; done.
Qed.

Lemma bandwidth_token_dom bw :
  (exists tok, bandwidth_token bw = Some tok) <-> In bw (map fst kBwTable).
Proof.
  rewrite in_map_iff. split.
  - intros [tok H%bandwidth_token_Some]. by exists (bw, tok).
  - intros [[hz tok] [<- H]]. exists tok. by apply bandwidth_token_Some.
Qed.

Lemma select_band_Some f b :
  select_band f = Some b <->
  match b with
  | Band433 => k433Lo <= f <= k433Hi
  | Band868 => k868Lo <= f <= k868Hi
  end.
Proof.
  unfold select_band, k433Lo, k433Hi, k868Lo, k868Hi.
  destruct b; repeat case_match; split; intros; try done; lia.
Qed.

Lemma validate_config_Ok cfg b :
  validate_config cfg = (Ok, Some b) <-> daemon_limits cfg b.
Proof.
  unfold validate_config, daemon_limits. rewrite <- bandwidth_token_dom, <- select_band_Some.
  destruct (select_band (freq_hz cfg)) as [b'|]; [|naive_solver].
  destruct (bandwidth_token (bw_hz cfg)) as [tok|]; [|naive_solver].
  repeat case_match; split; intros H'; try done; try (simplify_eq; naive_solver lia);
    destruct H' as (? & _ & ?); lia.
Qed.

Lemma validate_config_fst cfg :
  fst (validate_config cfg) = Ok <-> exists b, daemon_limits cfg b.
Proof.
  split.
  - intros H. destruct (validate_config cfg) as [e ob] eqn:E. simpl in H. subst e.
    destruct ob as [b|]; [exists b; by apply validate_config_Ok|].
    unfold validate_config in E. repeat case_match; done.
  - intros [b H%validate_config_Ok]. by rewrite H.
Qed.

(** ** The command text *)

(** Characters of a field value: no blank, no line end. *)
Definition field_char (c : Z) : Prop := 33 <= c <= 126.
Definition is_field_char (c : Z) : bool := (33 <=? c) && (c <=? 126).

Lemma digit_field l : Forall is_digit l -> Forall field_char l.
Proof. intros H. eapply Forall_impl; [exact H|]. unfold is_digit, field_char. lia. Qed.

Lemma fmt_u_field n : Forall field_char (fmt_u n).
Proof. apply digit_field, fmt_u_digits. Qed.

Lemma fmt_pad_field w n : Forall field_char (fmt_pad w n).
Proof. apply digit_field, fmt_pad_digits. Qed.

Lemma fmt_02X_field n : 0 <= n < 256 -> Forall field_char (fmt_02X n).
Proof.
  intros Hn. unfold fmt_02X, hex_upper, field_char.
  repeat constructor; case_match; Z.div_mod_to_equations; lia.
Qed.

Lemma token_field bw tok : bandwidth_token bw = Some tok -> Forall field_char tok.
Proof.
  rewrite bandwidth_token_Some. intros Hin.
  assert (Hall : forallb (fun m => forallb is_field_char (snd m)) kBwTable = true) by done.
  rewrite forallb_forall in Hall. apply List.Forall_forall. intros c Hc.
  specialize (Hall _ Hin). rewrite forallb_forall in Hall. specialize (Hall c Hc).
  unfold is_field_char in Hall. unfold field_char. lia.
Qed.

Lemma token_length bw tok : bandwidth_token bw = Some tok -> (length tok <= 5)%nat.
Proof.
  rewrite bandwidth_token_Some. unfold kBwTable. intros Hin.
  repeat destruct Hin as [[= <- <-]|Hin]; try done; cbv; lia.
Qed.

Lemma token_inj bw1 bw2 tok :
  bandwidth_token bw1 = Some tok -> bandwidth_token bw2 = Some tok -> bw1 = bw2.
Proof.
  rewrite !bandwidth_token_Some. unfold kBwTable. intros H1 H2.
  repeat destruct H1 as [[= <- <-]|H1]; try done;
    repeat destruct H2 as [[= <-]|H2]; done.
Qed.
#[export] Hint Resolve fmt_u_field fmt_pad_field fmt_02X_field : bridge.

(** The frequency field: the carrier in MHz to the last Hz. *)
Definition freq_field (f : Z) : bytes := fmt_u (f / 1000000) ++ [46] ++ fmt_pad 6 (f mod 1000000).

Lemma freq_field_ok f : is_u32 f -> fmt_fixed_quot 6 f 1000000 = freq_field f.
Proof. intros Hf. apply (fmt_fixed_quot_exact 6 f); [unfold_ints; lia | lia]. Qed.

Lemma freq_field_chars f : Forall field_char (freq_field f).
Proof.
  unfold freq_field. apply Forall_app; split; [apply fmt_u_field|].
  apply Forall_cons; split; [unfold field_char; lia | apply fmt_pad_field].
Qed.

Lemma freq_field_inj f g : is_u32 f -> is_u32 g -> freq_field f = freq_field g -> f = g.
Proof.
  intros Hf Hg E. unfold freq_field in E.
  apply split_at_sep in E as [E1 E2];
    [| eapply Forall_not_In; [apply fmt_u_digits | unfold is_digit; lia]..].
  apply fmt_u_inj in E1; [|int_lia..].
  apply fmt_pad_inj in E2; [|change (10 ^ Z.of_nat 6) with 1000000; apply Z.mod_pos_bound; lia..].
  Z.div_mod_to_equations; lia.
Qed.

Lemma fmt_02X_inj a b : 0 <= a < 256 -> 0 <= b < 256 -> fmt_02X a = fmt_02X b -> a = b.
Proof.
  intros Ha Hb. unfold fmt_02X, hex_upper. intros [= E1 E2].
  repeat case_match; Z.div_mod_to_equations; lia.
Qed.

Lemma build_set_command_text cfg b :
  daemon_limits cfg b ->
  exists tok, bandwidth_token (bw_hz cfg) = Some tok /\
    build_set_command cfg =
      if (kSetBuf <=? length (set_command_text cfg tok))%nat then None
      else Some (set_command_text cfg tok).
Proof.
  intros Hl. pose proof Hl as (_ & Hbw & _). apply bandwidth_token_dom in Hbw as [tok Ht].
  exists tok. split; [done|]. unfold build_set_command.
  rewrite bool_decide_eq_true_2 by (apply validate_config_fst; eauto). cbn [negb].
  by rewrite Ht.
Qed.

(** Typed configurations within the limits have small fields. *)
Lemma set_command_text_length cfg b tok :
  RadioConfig_typed cfg -> daemon_limits cfg b -> bandwidth_token (bw_hz cfg) = Some tok ->
  (length (set_command_text cfg tok) <= 118)%nat.
Proof.
  intros (Hf & Hb & Hs & Hc & Hw & Hp & Ht & Hcr & Hl) (_ & _ & Ls & Lc & Lw & Lp & Lt & Lcr & Ll) Htok.
  unfold set_command_text. rewrite freq_field_ok by done. unfold freq_field.
  pose proof (token_length _ _ Htok).
  assert ((length (fmt_u (freq_hz cfg / 1000000)) <= 4)%nat)
    by (apply fmt_u_bound; [|lia]; change (10 ^ Z.of_nat 4) with 10000; int_lia).
  assert ((length (fmt_u (sf cfg)) <= 2)%nat)
    by (apply fmt_u_bound; [change (10 ^ Z.of_nat 2) with 100; lia | lia]).
  assert ((length (fmt_u (cr_denom cfg)) <= 1)%nat)
    by (apply fmt_u_bound; [change (10 ^ Z.of_nat 1) with 10; lia | lia]).
  assert ((length (fmt_u (crc cfg)) <= 1)%nat)
    by (apply fmt_u_bound; [change (10 ^ Z.of_nat 1) with 10; unfold_ints; lia | lia]).
  assert ((length (fmt_u (ldro cfg)) <= 1)%nat)
    by (apply fmt_u_bound; [change (10 ^ Z.of_nat 1) with 10; unfold_ints; lia | lia]).
  assert ((length (fmt_u (preamble cfg)) <= 5)%nat)
    by (apply fmt_u_bound; [change (10 ^ Z.of_nat 5) with 100000; unfold_ints; lia | lia]).
  assert ((length (fmt_d (tx_power_dbm cfg)) <= 2)%nat).
  { unfold fmt_d. rewrite (proj2 (Z.ltb_ge _ _)) by lia.
    apply fmt_u_bound; [change (10 ^ Z.of_nat 2) with 100; lia | lia]. }
  rewrite !length_app, fmt_pad_length.
  change (length (fmt_02X _)) with 2%nat. cbv [str map String.list_ascii_of_string].
  cbn [length]. lia.
Qed.

(** ** Round trip *)

(** The last field ends the line. *)
Lemma fmt_d_nonneg n : 0 <= n -> fmt_d n = fmt_u n.
Proof. intros Hn. unfold fmt_d. by rewrite (proj2 (Z.ltb_ge _ _)). Qed.

Lemma sync_land w : 0 <= w <= 255 -> Z.land w 255 = w.
Proof. intros H. rewrite land_255. apply Z.mod_small. lia. Qed.

(** Cut the next " NAME=value" off both sides of an equation of commands. *)
Ltac next_field H E :=
  match type of H with
  | ?a ++ str ?s ++ ?x = ?b ++ str ?s ++ ?y =>
      let r := eval cbv in (drop 1 (str s)) in
      change (a ++ SP :: r ++ x = b ++ SP :: r ++ y) in H;
      apply split_at_sep in H as [E H];
        [apply app_inv_head in H
        |eapply Forall_not_In; [eauto using freq_field_chars, token_field with bridge|unfold field_char, SP; lia]..]
  end.

Lemma set_command_text_inj c1 c2 b1 b2 t1 t2 :
  RadioConfig_typed c1 -> RadioConfig_typed c2 -> daemon_limits c1 b1 -> daemon_limits c2 b2 ->
  bandwidth_token (bw_hz c1) = Some t1 -> bandwidth_token (bw_hz c2) = Some t2 ->
  set_command_text c1 t1 = set_command_text c2 t2 -> c1 = c2.
Proof.
  intros (F1&B1&S1&C1&W1&P1&T1&K1&L1) (F2&B2&S2&C2&W2&P2&T2&K2&L2)
         (_&_&s1&cc1&w1&p1&t1'&k1&l1) (_&_&s2&cc2&w2&p2&t2'&k2&l2) H1 H2 E.
  unfold set_command_text in E. rewrite !freq_field_ok in E by done.
  rewrite !sync_land in E by (unfold_ints; lia). rewrite !fmt_d_nonneg in E by lia.
  apply app_inv_head in E.
  next_field E Ef. next_field E Eb. next_field E Es. next_field E Ec. next_field E Ek.
  next_field E Ep.
  assert (Forall field_char (fmt_02X (sync_word c1)))
    by (apply fmt_02X_field; unfold_ints; lia).
  assert (Forall field_char (fmt_02X (sync_word c2)))
    by (apply fmt_02X_field; unfold_ints; lia).
  next_field E Ew. next_field E El. apply app_inj_tail in E as [Et _].
  apply freq_field_inj in Ef; [|done..]. subst t2. pose proof (token_inj _ _ _ H1 H2).
  apply fmt_u_inj in Es, Ec, Ek, Ep, El, Et; [|unfold_ints; lia..].
  apply fmt_02X_inj in Ew; [|unfold_ints; lia..].
  destruct c1, c2; cbn [freq_hz bw_hz sf cr_denom sync_word preamble tx_power_dbm crc ldro] in *.
  congruence.
Qed.

(** * Properties *)

(** C31. Validation is exact: the bridge accepts a configuration and selects a
    band precisely when every field is within the daemon's limits for that band
    (frequency range, discrete bandwidth set, SF 7..12, CR 5..8, one-byte sync
    word, preamble at least 6, power 0..20 dBm, boolean flags); a frequency
    selects at most one band. *)
Theorem validate_config_exact (cfg : RadioConfig) :
  (forall b, validate_config cfg = (Ok, Some b) <-> daemon_limits cfg b) /\
  (forall b1 b2, daemon_limits cfg b1 -> daemon_limits cfg b2 -> b1 = b2).
Proof.
  split; [intros b; apply validate_config_Ok|].
  intros b1 b2 H1%validate_config_Ok H2%validate_config_Ok. congruence.
Qed.

(** C32. The SET command is faithful: for every configuration within the limits
    the command is built (the 256-byte buffer is never too small), and it
    determines the configuration -- two configurations with the same command
    are equal, down to the last Hz of the frequency, which is printed from a
    rounded binary64 quotient. *)
Theorem set_command_faithful (c1 c2 : RadioConfig) (b1 b2 : Band) :
  RadioConfig_typed c1 -> RadioConfig_typed c2 -> daemon_limits c1 b1 -> daemon_limits c2 b2 ->
  (exists cmd, build_set_command c1 = Some cmd /\ (length cmd <= 118)%nat) /\
  (build_set_command c1 = build_set_command c2 -> c1 = c2).
Proof.
  intros T1 T2 L1 L2.
  destruct (build_set_command_text c1 b1 L1) as (t1 & H1 & ->).
  destruct (build_set_command_text c2 b2 L2) as (t2 & H2 & ->).
  pose proof (set_command_text_length c1 b1 t1 T1 L1 H1).
  pose proof (set_command_text_length c2 b2 t2 T2 L2 H2).
  rewrite !(proj2 (Nat.leb_gt _ _)) by (unfold kSetBuf; lia).
  split; [by eexists|]. intros E. apply (inj Some) in E.
  exact (set_command_text_inj c1 c2 b1 b2 t1 t2 T1 T2 L1 L2 H1 H2 E).
Qed.

Definition cfg433 : RadioConfig := mkRadioConfig 433175000 250000 11 6 43 8 14 1 0.

Lemma set_command_faithful_witness :
  (exists cmd, build_set_command cfg433 = Some cmd /\ (length cmd <= 118)%nat) /\
  (build_set_command cfg433 = build_set_command cfg433 -> cfg433 = cfg433).
Proof.
  apply (set_command_faithful cfg433 cfg433 Band433 Band433);
    try (unfold RadioConfig_typed, cfg433; cbn; unfold_ints; lia);
    unfold daemon_limits, cfg433, k433Lo, k433Hi; cbn; lia.
Defined.

(** The text the daemon receives for the MeshCom 433 profile. *)
Example build_set_command_433 :
  build_set_command cfg433 =
  Some (str "SET MODE=LORA FREQ=433.175000 BW=250 SF=11 CR=6 CRC=1 PREAMBLE=8 SYNC=0x2B LDRO=0 POWER=14"
        ++ [LF]).
Proof. reflexivity. Qed.

End loraham_config.
