(* ===== verification/Binary64.v ===== *)
(** Binary64 arithmetic as the firmware's half of the protocol module uses it
    (third_party/external_radio_protocol/external_radio_protocol.cpp,
    [scaleToHz]): product, sum, [floor], on the Standard Library's
    specification of IEEE 754.

    The values are compared exactly, as integers in units of [2^-K] for a [K]
    large enough for the numbers at hand.  The result of the file is the
    standard model of rounding: an operation is off by at most one part in
    [2^53] of the exact result (and by less than the smallest normal number),
    or overflows. *)

From Stdlib Require Import SpecFloat.
From S2P Require Import Prelude.
From S2P Require Import Printf.

Module binary64.
Import printf.

Abbreviation double := spec_float (only parsing).

Definition f64_mul : double -> double -> double := SFmul 53 1024.
Definition f64_add : double -> double -> double := SFadd 53 1024.

(** A floating-point literal that is an integer. *)
Definition f64_of_Z (n : Z) : double := binary_normalize 53 1024 n 0 false.

Definition f64_half : double := S754_finite false 4503599627370496 (-53).

Definition isfinite (v : double) : bool :=
  match v with S754_finite _ _ _ | S754_zero _ => true | _ => false end.

(** [v <= 0.0]. *)
Definition nonpositive (v : double) : bool := SFleb v (S754_zero false).

(** [floor] of a finite value, which is an integer and a double. *)
Definition floor (v : double) : option Z :=
  match v with
  | S754_finite s m e =>
      let x := if s then - Zpos m else Zpos m in
      Some (if 0 <=? e then x * 2 ^ e else x / 2 ^ (- e))
  | S754_zero _ => Some 0
  | _ => None
  end.

(** ** Shifting right *)

(** Where [m] lies after [k] bits have been shifted out: [q] with the remainder
    classified by the two sticky bits. *)
Definition located (m P : Z) (x : shr_record) : Prop :=
  let q := shr_m x in
  let r := m - q * P in
  0 <= q /\ 0 <= r < P /\
  match loc_of_shr_record x with
  | loc_Exact => r = 0
  | loc_Inexact Lt => 0 < 2 * r < P
  | loc_Inexact Eq => 2 * r = P
  | loc_Inexact Gt => P < 2 * r
  end.

Lemma located_step m P x : 0 < P -> located m P x -> located m (2 * P) (shr_1 x).
Proof.
  intros HP. destruct x as [q r s]. unfold located. cbn [shr_m].
  destruct q as [|[q|q|]|q]; cbn [shr_1 shr_m];
    destruct r, s; cbn [orb loc_of_shr_record]; intros (Hq & Hr & Hl); (split; [lia|]); nia.
Qed.

Lemma iter_pos_nat {A} (f : A -> A) n x : SpecFloat.iter_pos f n x = Nat.iter (Pos.to_nat n) f x.
Proof.
  revert x. induction n as [n IH|n IH|]; intros x; cbn [SpecFloat.iter_pos].
  - rewrite !IH, Pos2Nat.inj_xI. rewrite <- Nat.iter_succ_r, <- Nat.iter_add. f_equal. lia.
  - rewrite !IH, Pos2Nat.inj_xO, <- Nat.iter_add. f_equal. lia.
  - done.
Qed.

Lemma located_iter m n :
  0 <= m -> located m (2 ^ Zpos n) (SpecFloat.iter_pos shr_1 n (Build_shr_record m false false)).
Proof.
  intros Hm. rewrite iter_pos_nat, <- (positive_nat_Z n). generalize (Pos.to_nat n) as k. clear n.
  induction k as [|k IH]; cbn [Nat.iter].
  - unfold located. cbn. lia.
  - rewrite Nat2Z.inj_succ, Z.pow_succ_r by lia. apply located_step; [lia|exact IH].
Qed.

Lemma located_rne m P x :
  0 < P -> located m P x -> round_nearest_even (shr_m x) (loc_of_shr_record x) = rne m P.
Proof.
  intros HP (Hq & Hr & Hl). unfold rne.
  assert (m / P = shr_m x) as -> by (symmetry; apply (Z.div_unique m P _ (m - shr_m x * P)); lia).
  assert (m mod P = m - shr_m x * P) as -> by (symmetry; apply (Z.mod_unique m P (shr_m x)); lia).
  destruct (loc_of_shr_record x) as [|[]]; cbn [round_nearest_even].
  - by rewrite (proj2 (Z.ltb_lt _ _)) by lia.
  - by rewrite (proj2 (Z.ltb_ge _ _)), (proj2 (Z.ltb_ge _ _)) by lia.
  - by rewrite (proj2 (Z.ltb_lt _ _)) by lia.
  - by rewrite (proj2 (Z.ltb_ge _ _)), (proj2 (Z.ltb_lt _ _)) by lia.
Qed.

Lemma shr_rne m e n : 0 <= m -> 0 <= n ->
  let '(x, e') := shr (Build_shr_record m false false) e n in
  e' = e + n /\ round_nearest_even (shr_m x) (loc_of_shr_record x) = rne m (2 ^ n).
Proof.
  intros Hm Hn. destruct n as [|n|n]; [|cbn [shr]|lia].
  - split; [lia|]. change (2 ^ 0) with 1. cbn [shr_m loc_of_shr_record round_nearest_even].
    pose proof (rne_exact m 1 ltac:(lia)) as E. by rewrite Z.mul_1_r in E.
  - split; [done|]. apply located_rne; [lia|]. by apply located_iter.
Qed.

(** ** Digits *)

Lemma digits2_log2 m : Zpos (digits2_pos m) = Z.log2 (Zpos m) + 1.
Proof.
  induction m as [m IH|m IH|]; cbn [digits2_pos]; [| |done].
  - rewrite Pos2Z.inj_succ, IH. change (Zpos m~1) with (2 * Zpos m + 1). rewrite Z.log2_succ_double by lia. lia.
  - rewrite Pos2Z.inj_succ, IH. change (Zpos m~0) with (2 * Zpos m). rewrite Z.log2_double by lia. lia.
Qed.

Lemma digits2_bounds m :
  2 ^ (Zpos (digits2_pos m) - 1) <= Zpos m < 2 ^ Zpos (digits2_pos m).
Proof.
  rewrite digits2_log2, Z.add_simpl_r, Z.add_1_r. apply Z.log2_spec. lia.
Qed.

(** ** Rounding *)

(** [v] is [N * 2^-K]. *)
Definition is_val (K : Z) (v : double) (N : Z) : Prop :=
  match v with
  | S754_zero _ => N = 0
  | S754_finite false m e => 0 <= e + K /\ N = Zpos m * 2 ^ (e + K)
  | _ => False
  end.

Definition f64_emin : Z := -1074.

Lemma fexp_eq x : fexp 53 1024 x = Z.max (x - 53) f64_emin.
Proof. done. Qed.

Lemma Zdigits2_pos q : 0 < q -> 2 ^ (Zdigits2 q - 1) <= q < 2 ^ Zdigits2 q.
Proof. destruct q as [|q|q]; [lia|intros _; apply digits2_bounds|lia]. Qed.

Lemma Zdigits2_le q n : 0 <= q <= 2 ^ n -> 0 <= n -> Zdigits2 q <= n + 1 /\ (q < 2 ^ n -> Zdigits2 q <= n).
Proof.
  intros Hq Hn. destruct (Z.eq_dec q 0) as [->|Hne]; [cbn; lia|].
  destruct (Zdigits2_pos q ltac:(lia)) as [Hl _]. split.
  - assert (Zdigits2 q - 1 < n + 1); [|lia]. apply (Z.pow_lt_mono_r_iff 2); [lia|lia|].
    rewrite Z.pow_add_r by lia. lia.
  - intros Hlt. assert (Zdigits2 q - 1 < n); [|lia]. apply (Z.pow_lt_mono_r_iff 2); lia.
Qed.

(** The second normalization only renormalizes: what it shifts out is zero. *)
Lemma renormalize K q e :
  0 <= q <= 2 ^ 53 -> f64_emin <= e -> 0 <= e + K ->
  let '(x, e') := shr_fexp 53 1024 q e loc_Exact in
  0 <= shr_m x /\ e <= e' <= e + 1 /\ q * 2 ^ (e + K) = shr_m x * 2 ^ (e' + K).
Proof.
  intros Hq He HK. destruct (Zdigits2_le q 53 Hq ltac:(lia)) as [Hd1 Hd2].
  unfold shr_fexp. rewrite fexp_eq. cbn [shr_record_of_loc].
  destruct (Z.eq_dec q (2 ^ 53)) as [->|Hne].
  - change (Zdigits2 (2 ^ 53)) with 54. replace (Z.max (54 + e - 53) f64_emin - e) with 1 by lia.
    cbn [shr SpecFloat.iter_pos]. change (shr_m (shr_1 _)) with (2 ^ 52).
    split; [lia|]. split; [lia|]. replace (e + 1 + K) with (Z.succ (e + K)) by lia.
    rewrite Z.pow_succ_r by lia. lia.
  - specialize (Hd2 ltac:(lia)).
    destruct (Z.max (Zdigits2 q + e - 53) f64_emin - e) as [|n|n] eqn:En; [|lia|];
      cbn [shr shr_m]; (split; [lia|]); split; lia.
Qed.

(** [v] is what rounding [X * 2^-K] may give: within one part in [2^53], or
    infinite when it is beyond the largest double. *)
Definition rounded (K X : Z) (v : double) : Prop :=
  exists N, 2 ^ 53 * Z.abs (N - X) <= X + 2 ^ (K - 1022) /\
    (is_val K v N \/ v = S754_infinity false /\ 2 ^ (K + 972) <= N).

Lemma rounded_of_mantissa K X x e :
  0 <= shr_m x -> 0 <= e + K ->
  2 ^ 53 * Z.abs (shr_m x * 2 ^ (e + K) - X) <= X + 2 ^ (K - 1022) -> 0 <= K ->
  rounded K X
    match shr_m x with
    | Z0 => S754_zero false
    | Zpos m => if e <=? 1024 - 53 then S754_finite false m e else S754_infinity false
    | _ => S754_nan
    end.
Proof.
  intros Hq He Hd HK. exists (shr_m x * 2 ^ (e + K)). split; [exact Hd|].
  destruct (shr_m x) as [|m|m]; [by left|..|lia]. case_match; [by left|].
  right. split; [done|]. apply Z.leb_gt in H.
  pose proof (Z.pow_le_mono_r 2 (K + 972) (e + K)). nia.
Qed.

(** The distance to the nearest multiple of [2^n], in units. *)
Lemma rne_distance m n u : 0 <= n -> 0 <= u -> 2 * Z.abs (rne m (2 ^ n) * 2 ^ n * u - m * u) <= 2 ^ n * u.
Proof. intros Hn Hu. pose proof (rne_close m (2 ^ n) ltac:(lia)). nia. Qed.

Lemma rne_le m n p : 0 <= m < 2 ^ p -> 0 <= n -> p <= 53 + n -> 0 <= rne m (2 ^ n) <= 2 ^ 53.
Proof.
  intros Hm Hn Hp. pose proof (rne_close m (2 ^ n) ltac:(lia)) as Hc.
  assert (2 ^ p <= 2 ^ 53 * 2 ^ n) by (rewrite <- Z.pow_add_r by lia; apply Z.pow_le_mono_r; lia).
  assert (0 < 2 ^ n) by lia. nia.
Qed.

(** A unit in the last place is at most one part in [2^52] of the value, or
    the smallest subnormal number. *)
Lemma ulp_small K m e :
  0 <= e + K -> 0 <= K - 1074 ->
  2 ^ 52 * 2 ^ (fexp 53 1024 (Zpos (digits2_pos m) + e) + K)
  <= Zpos m * 2 ^ (e + K) + 2 ^ (K - 1022).
Proof.
  intros He HK. rewrite fexp_eq, <- Z.pow_add_r by (unfold f64_emin; lia).
  destruct (digits2_bounds m) as [Hl _].
  destruct (Z.max_spec (Zpos (digits2_pos m) + e - 53) f64_emin) as [[_ ->]|[Hc ->]]; unfold f64_emin in *.
  - replace (52 + (-1074 + K)) with (K - 1022) by lia. lia.
  - replace (52 + (Zpos (digits2_pos m) + e - 53 + K)) with (Zpos (digits2_pos m) - 1 + (e + K)) by lia.
    rewrite Z.pow_add_r by lia.
    assert (0 < 2 ^ (e + K)) by lia. assert (0 < 2 ^ (K - 1022)) by lia. nia.
Qed.

(** Rounding an exact product or sum. *)
Lemma round_aux_rounded K m e :
  0 <= e + K -> 1074 <= K ->
  rounded K (Zpos m * 2 ^ (e + K)) (binary_round_aux 53 1024 false (Zpos m) e loc_Exact).
Proof.
  intros He HK. pose proof (ulp_small K m e He ltac:(lia)) as Hu. unfold binary_round_aux.
  destruct (digits2_bounds m) as [_ Hd].
  assert (Hfe : fexp 53 1024 (Zpos (digits2_pos m) + e) = Z.max (Zpos (digits2_pos m) + e - 53) f64_emin) by done.
  set (e1 := fexp 53 1024 (Zpos (digits2_pos m) + e)) in *.
  assert (exists q e', 0 <= q <= 2 ^ 53 /\ f64_emin <= e' /\ 0 <= e' + K /\
    2 ^ 53 * Z.abs (q * 2 ^ (e' + K) - Zpos m * 2 ^ (e + K)) <= Zpos m * 2 ^ (e + K) + 2 ^ (K - 1022) /\
    exists x, shr_fexp 53 1024 (Zpos m) e loc_Exact = (x, e') /\
      round_nearest_even (shr_m x) (loc_of_shr_record x) = q) as (q & e' & Hq & He' & HeK & Hdist & x & -> & ->).
  { unfold shr_fexp. cbn [shr_record_of_loc Zdigits2]. fold e1.
    destruct (Z_le_gt_dec (e1 - e) 0) as [Hn|Hn].
    - exists (Zpos m), e. repeat split; [lia| |unfold f64_emin in *; lia|lia| |].
      + apply Z.lt_le_incl, Z.lt_le_trans with (1 := Hd). apply Z.pow_le_mono_r; lia.
      + rewrite Z.sub_diag. assert (0 < 2 ^ (e + K)) by lia. assert (0 < 2 ^ (K - 1022)) by lia. nia.
      + exists (Build_shr_record (Zpos m) false false). split; [|done]. by destruct (e1 - e).
    - pose proof (shr_rne (Zpos m) e (e1 - e) ltac:(lia) ltac:(lia)) as Hs.
      destruct (shr _ e (e1 - e)) as [x e'']. destruct Hs as [-> Hr].
      exists (rne (Zpos m) (2 ^ (e1 - e))), (e + (e1 - e)).
      pose proof (rne_le (Zpos m) (e1 - e) (Zpos (digits2_pos m)) ltac:(lia) ltac:(lia) ltac:(lia)).
      repeat split; [lia|lia|lia|lia| |by exists x].
      pose proof (rne_distance (Zpos m) (e1 - e) (2 ^ (e + K)) ltac:(lia) ltac:(lia)) as Hdist.
      rewrite <- Z.mul_assoc in Hdist. rewrite <- Z.pow_add_r in Hdist by lia.
      replace (e1 - e + (e + K)) with (e1 + K) in Hdist by lia.
      replace (e + (e1 - e) + K) with (e1 + K) by lia. lia. }
  pose proof (renormalize K q e' Hq He' HeK) as Hr.
  destruct (shr_fexp 53 1024 q e' loc_Exact) as [y e'']. destruct Hr as (Hy & Hee & Heq).
  apply rounded_of_mantissa; [done|lia| |lia]. by rewrite <- Heq.
Qed.

Lemma iter_xO m d : Zpos (Pos.iter xO m d) = Zpos m * 2 ^ Zpos d.
Proof.
  induction d as [|d IH] using Pos.peano_ind; [cbn [Pos.iter]; lia|].
  rewrite Pos.iter_succ, Pos2Z.inj_succ, Z.pow_succ_r by lia. lia.
Qed.

(** Aligning to a smaller exponent keeps the value. *)
Lemma shl_align_value K m e e' :
  0 <= e + K -> 0 <= e' + K ->
  let '(m', e'') := shl_align m e e' in 0 <= e'' + K /\ Zpos m' * 2 ^ (e'' + K) = Zpos m * 2 ^ (e + K).
Proof.
  intros He He'. unfold shl_align. destruct (e' - e) as [|d|d] eqn:Ed; try done.
  split; [done|]. rewrite iter_xO, <- Z.mul_assoc, <- Z.pow_add_r by lia. do 2 f_equal. lia.
Qed.

Lemma shl_align_le K m e e' :
  e' <= e -> 0 <= e' + K -> Zpos (shl_align m e e').1 * 2 ^ (e' + K) = Zpos m * 2 ^ (e + K).
Proof.
  intros Hle He'. pose proof (shl_align_value K m e e' ltac:(lia) He') as H.
  unfold shl_align in *. destruct (e' - e) as [|d|d] eqn:Ed; [|lia|apply H].
  do 2 f_equal. lia.
Qed.

Lemma normalize_rounded K n e :
  0 < n -> 0 <= e + K -> 1074 <= K -> rounded K (n * 2 ^ (e + K)) (binary_normalize 53 1024 n e false).
Proof.
  intros Hn He HK. destruct n as [|m|m]; [lia|cbn [binary_normalize]; unfold binary_round|lia].
  pose proof (shl_align_value K m e (fexp 53 1024 (Zpos (digits2_pos m) + e)) He) as Ha.
  rewrite fexp_eq in *. unfold f64_emin in *. specialize (Ha ltac:(lia)).
  destruct (shl_align _ _ _) as [mz ez]. destruct Ha as [Hez <-]. by apply round_aux_rounded.
Qed.

(** ** The operations *)

(** The double is a positive finite number [m * 2^e]. *)
Lemma mul_rounded K m1 e1 m2 e2 :
  0 <= e1 + e2 + K -> 1074 <= K ->
  rounded K (Zpos m1 * Zpos m2 * 2 ^ (e1 + e2 + K)) (f64_mul (S754_finite false m1 e1) (S754_finite false m2 e2)).
Proof. intros. by apply (round_aux_rounded K (m1 * m2)). Qed.

Lemma add_rounded K v N m e :
  is_val K v N -> 0 <= e + K -> 1074 <= K ->
  rounded K (N + Zpos m * 2 ^ (e + K)) (f64_add v (S754_finite false m e)).
Proof.
  intros Hv He HK. destruct v as [s|s| |[] m' e']; try done; cbn [is_val] in Hv.
  - subst. cbn [f64_add SFadd]. exists (Zpos m * 2 ^ (e + K)). rewrite Z.add_0_l, Z.sub_diag.
    split; [|by left]. assert (0 < 2 ^ (e + K)) by lia. assert (0 < 2 ^ (K - 1022)) by lia. nia.
  - destruct Hv as [He' ->]. cbn [f64_add SFadd cond_Zopp].
    rewrite <- (shl_align_le K m e (Z.min e' e)), <- (shl_align_le K m' e' (Z.min e' e)) by lia.
    rewrite <- Z.mul_add_distr_r. apply normalize_rounded; lia.
Qed.

Lemma floor_val K v N : is_val K v N -> 0 <= K -> floor v = Some (N / 2 ^ K).
Proof.
  intros Hv HK. destruct v as [s|s| |[] m e]; try done; cbn [is_val] in Hv.
  - subst. cbn [floor]. by rewrite Z.div_0_l by lia.
  - destruct Hv as [He ->]. cbn [floor]. f_equal. case_match eqn:Hc.
    + apply Z.leb_le in Hc. rewrite Z.pow_add_r, Z.mul_assoc, Z.div_mul by lia. done.
    + apply Z.leb_gt in Hc. replace (2 ^ K) with (2 ^ (- e) * 2 ^ (e + K)).
      * by rewrite Z.div_mul_cancel_r by lia.
      * rewrite <- Z.pow_add_r by lia. f_equal. lia.
Qed.
End binary64.
