(* ===== verification/XrRadioConfig.v ===== *)
(** The firmware's normalization of its radio settings, the half of the
    protocol module that fills the configuration the bridge receives
    (third_party/external_radio_protocol/external_radio_protocol.cpp,
    [scaleToHz], [buildRadioConfig]).

    Frequencies arrive as doubles, in MHz and kHz; they are multiplied, rounded
    to the nearest Hz and range-checked.  The theorem compares the result with
    the exact product, in units of [2^-1200] Hz: a product of a double by
    [1000000] is an integer number of these. *)

From Stdlib Require Import SpecFloat.
From S2P Require Import Prelude.
From S2P Require Import XrCodec.
From S2P Require Import Printf.
From S2P Require Import LorahamConfig.
From S2P Require Import Binary64.

Module radio_config.
Import extradio printf binary64.

(** ** The conversion *)

Definition scaleToHz (value scale : double) : option Z :=
  if negb (isfinite value) || nonpositive value then None else
  let hz := f64_mul value scale in
  if negb (isfinite hz) then None else
  match floor (f64_add hz f64_half) with
  | None => None
  | Some rounded => if (rounded <? 1) || (4294967295 <? rounded) then None else Some (u32 rounded)
  end.

(** [int] parameters are integers; [false] with [out] untouched is [None]. *)
Definition buildRadioConfig (freq_mhz bw_khz : double)
    (sf cr_denom sync_word preamble_symbols tx_power_dbm : Z) (crc : bool) : option RadioConfig :=
  match scaleToHz freq_mhz (f64_of_Z 1000000) with
  | None => None
  | Some freq_hz =>
  match scaleToHz bw_khz (f64_of_Z 1000) with
  | None => None
  | Some bw_hz =>
  if (sf <? 6) || (12 <? sf) then None else
  if (cr_denom <? 5) || (8 <? cr_denom) then None else
  if (sync_word <? 0) || (65535 <? sync_word) then None else
  if (preamble_symbols <? 1) || (65535 <? preamble_symbols) then None else
  if (tx_power_dbm <? -128) || (127 <? tx_power_dbm) then None else
  let c := mkRadioConfig freq_hz bw_hz (u8 sf) (u8 cr_denom) (u16 sync_word) (u16 preamble_symbols)
             (s8 tx_power_dbm) (if crc then 1 else 0)
             (if u64 (bw_hz * 16) <? u64 (Z.shiftl 1 sf * 1000) then 1 else 0) in
  if negb (radioConfigValid c) then None else Some c
  end end.

(** ** The exact product *)

Definition one_hz : Z := 2 ^ 1200.

(** [v * scale] for a positive finite [v], in units of [2^-1200] Hz; 0 for the
    values that are none. *)
Definition hz_units (v : double) (scale : Z) : Z :=
  match v with
  | S754_finite false m e => Zpos m * scale * 2 ^ (e + 1200)
  | _ => 0
  end.

(** How far the exact product is from [n] Hz. *)
Definition hz_off (v : double) (scale n : Z) : Z := Z.abs (hz_units v scale - n * one_hz).

(** A literal [scale] of the source, with its exponent. *)
Definition literal (scale : Z) (m : positive) (e : Z) : Prop :=
  f64_of_Z scale = S754_finite false m e /\ -126 <= e <= 0 /\ Zpos m = scale * 2 ^ (- e).

Lemma literal_MHz : literal 1000000 8589934592000000 (-33).
Proof. by vm_compute. Qed.

Lemma literal_kHz : literal 1000 8796093022208000 (-43).
Proof. by vm_compute. Qed.

(** The exponent range of binary64; every valid double is within it. *)
Definition double_exponent (v : double) : Prop :=
  match v with S754_finite _ _ e => -1074 <= e | _ => True end.

Lemma valid_exponent v : valid_binary 53 1024 v = true -> double_exponent v.
Proof.
  destruct v as [| | |s m e]; try done. cbn [valid_binary double_exponent].
  unfold bounded, canonical_mantissa. rewrite fexp_eq. unfold f64_emin.
  intros [H%Z.eqb_eq _]%andb_prop. lia.
Qed.

(** ** The two roundings *)

(** The product and the sum, each off by its rounding, or infinite. *)
Lemma scale_steps v scale m e :
  literal scale m e -> double_exponent v -> 0 < scale -> 0 < hz_units v scale ->
  let hz := f64_mul v (f64_of_Z scale) in
  exists N, 2 ^ 53 * Z.abs (N - hz_units v scale) <= hz_units v scale + 2 ^ 178 /\
    (hz = S754_infinity false /\ 2 ^ 2172 <= N \/
     isfinite hz = true /\
     exists M, 2 ^ 53 * Z.abs (M - (N + 2 ^ 1199)) <= N + 2 ^ 1199 + 2 ^ 178 /\
       (floor (f64_add hz f64_half) = Some (M / one_hz) \/
        floor (f64_add hz f64_half) = None /\ 2 ^ 2172 <= M)).
Proof.
  intros (-> & He & Hm) Hv Hs Hpos. destruct v as [s|s| |[] vm ve]; try done.
  cbn [hz_units double_exponent] in *.
  destruct (mul_rounded 1200 vm ve m e ltac:(lia) ltac:(lia)) as (N & HN & Hhz).
  replace (Zpos vm * Zpos m * 2 ^ (ve + e + 1200)) with (Zpos vm * scale * 2 ^ (ve + 1200)) in HN.
  2: { replace (ve + 1200) with (- e + (ve + e + 1200)) by lia. rewrite Hm, Z.pow_add_r by lia. lia. }
  exists N. split; [exact HN|]. destruct Hhz as [Hhz|[-> HN2]]; [right|by left].
  split; [by destruct (f64_mul _ _)|].
  destruct (add_rounded 1200 _ N 4503599627370496 (-53) Hhz ltac:(lia) ltac:(lia)) as (M & HM & Hw).
  change (Zpos 4503599627370496 * 2 ^ (-53 + 1200)) with (2 ^ 1199) in HM.
  exists M. split; [exact HM|]. destruct Hw as [Hw|[Hw HM2]].
  - left. by apply (floor_val 1200).
  - right. by rewrite (Hw : f64_add _ f64_half = _).
Qed.

Lemma positive_guard v scale :
  double_exponent v -> 0 < scale ->
  negb (isfinite v) || nonpositive v = false <-> 0 < hz_units v scale.
Proof.
  intros Hv Hs. destruct v as [[]|[]| |[] m e]; cbn [hz_units isfinite]; try (split; done || lia).
  cbn [double_exponent] in Hv. split; [|done]. intros _. assert (0 < 2 ^ (e + 1200)) by lia. nia.
Qed.

(** Everything the arithmetic below needs of the powers of two. *)
Lemma one_hz_powers :
  0 < one_hz /\ one_hz = 2 * 2 ^ 1199 /\ 2 ^ 178 * 2 ^ 53 <= one_hz /\ one_hz * 2 ^ 60 <= 2 ^ 2172.
Proof. by vm_compute. Qed.

(** A product within a quarter of a Hz of a 32-bit number of Hz gives it. *)
Lemma scaleToHz_close v scale m e n :
  literal scale m e -> double_exponent v -> 0 < scale ->
  1 <= n <= 4294967295 -> 4 * hz_off v scale n <= one_hz ->
  scaleToHz v (f64_of_Z scale) = Some n.
Proof.
  intros Hl Hv Hs Hn Hoff. unfold hz_off in Hoff.
  pose proof one_hz_powers as (HU & HU2 & HU3 & HU4).
  assert (Hpos : 0 < hz_units v scale) by nia. unfold scaleToHz.
  rewrite (proj2 (positive_guard v scale Hv Hs) Hpos).
  destruct (scale_steps v scale m e Hl Hv Hs Hpos) as (N & HN & Hhz).
  assert (n * one_hz <= 4294967295 * one_hz) by nia. assert (one_hz <= n * one_hz) by nia.
  change (2 ^ 53) with 9007199254740992 in *. change (2 ^ 60) with 1152921504606846976 in *.
  revert Hhz HN Hoff Hpos HU HU2 HU3 HU4. cbv zeta. generalize (2 ^ 178) (2 ^ 1199) (2 ^ 2172).
  intros a b c Hhz. intros. destruct Hhz as [[-> HN2]|[-> (M & HM & Hf)]]; [lia|]. cbn [negb].
  destruct Hf as [->|[-> HM2]]; [|lia].
  assert (M / one_hz = n) as ->.
  { symmetry. apply (Z.div_unique M one_hz n (M - n * one_hz)); lia. }
  rewrite (proj2 (Z.ltb_ge _ _)), (proj2 (Z.ltb_ge _ _)) by lia. cbn [orb].
  f_equal. unfold u32. apply Z.mod_small. lia.
Qed.

(** What is returned is the exact product rounded to the nearest Hz, up to
    [2^-19] Hz. *)
Lemma scaleToHz_nearest v scale m e n :
  literal scale m e -> double_exponent v -> 0 < scale ->
  scaleToHz v (f64_of_Z scale) = Some n ->
  1 <= n <= 4294967295 /\ 524288 * hz_off v scale n <= 262145 * one_hz.
Proof.
  intros Hl Hv Hs. unfold scaleToHz, hz_off. pose proof one_hz_powers as (HU & HU2 & HU3 & HU4).
  case_match eqn:Hg; [done|]. apply (positive_guard v scale Hv Hs) in Hg.
  destruct (scale_steps v scale m e Hl Hv Hs Hg) as (N & HN & Hhz).
  change (2 ^ 53) with 9007199254740992 in *.
  revert Hhz HN Hg HU HU2 HU3. cbv zeta. generalize (2 ^ 178) (2 ^ 1199).
  intros a b Hhz. intros. destruct Hhz as [[Hi _]|[Hf (M & HM & Hw)]]; [by rewrite Hi in *|].
  rewrite Hf in *. cbn [negb] in *. destruct Hw as [Hw|[Hw _]]; rewrite Hw in *; [|done].
  case_match eqn:Hr; [done|]. apply orb_false_iff in Hr as [H1%Z.ltb_ge H2%Z.ltb_ge].
  simplify_eq. unfold u32. rewrite Z.mod_small by lia. split; [lia|].
  pose proof (Z.div_mod M one_hz ltac:(lia)) as Hd. pose proof (Z.mod_pos_bound M one_hz HU).
  pose proof (Z.mul_le_mono_nonneg_r _ _ one_hz ltac:(lia) H2).
  rewrite (Z.mul_comm one_hz) in Hd. lia.
Qed.

(** ** Built configurations *)

(** The integer settings the builder accepts. *)
Definition settings_ok (sf cr_denom sync_word preamble_symbols tx_power_dbm : Z) : Prop :=
  6 <= sf <= 12 /\ 5 <= cr_denom <= 8 /\ 0 <= sync_word <= 65535 /\
  1 <= preamble_symbols <= 65535 /\ -128 <= tx_power_dbm <= 127.

(** The configuration for these settings: the low-data-rate optimization is on
    when a symbol of [2^sf / bw] seconds lasts more than 16 ms. *)
Definition settings_config (freq bw sf cr_denom sync_word preamble_symbols tx_power_dbm : Z) (crc : bool)
    : RadioConfig :=
  mkRadioConfig freq bw sf cr_denom sync_word preamble_symbols tx_power_dbm
    (if crc then 1 else 0) (if 16 * bw <? 1000 * 2 ^ sf then 1 else 0).

Lemma settings_config_valid freq bw sf cr sync pre pw crc :
  1 <= freq <= 4294967295 -> 1 <= bw <= 4294967295 -> settings_ok sf cr sync pre pw ->
  RadioConfig_typed (settings_config freq bw sf cr sync pre pw crc) /\
  radioConfigValid (settings_config freq bw sf cr sync pre pw crc) = true.
Proof.
  intros Hf Hb (Hsf & Hcr & Hsw & Hp & Hpw). unfold settings_config, RadioConfig_typed, radioConfigValid.
  cbn [freq_hz bw_hz extradio.sf cr_denom sync_word preamble tx_power_dbm extradio.crc ldro].
  split; [unfold_ints; repeat split; try lia; repeat case_match; lia|]. by repeat case_match.
Qed.

Lemma buildRadioConfig_eq vf vb freq bw sf cr sync pre pw crc :
  scaleToHz vf (f64_of_Z 1000000) = Some freq -> scaleToHz vb (f64_of_Z 1000) = Some bw ->
  1 <= freq <= 4294967295 -> 1 <= bw <= 4294967295 ->
  (settings_ok sf cr sync pre pw ->
   buildRadioConfig vf vb sf cr sync pre pw crc = Some (settings_config freq bw sf cr sync pre pw crc)) /\
  (buildRadioConfig vf vb sf cr sync pre pw crc <> None -> settings_ok sf cr sync pre pw).
Proof.
  intros Ef Eb Hf Hb. unfold buildRadioConfig. rewrite Ef, Eb. split.
  - intros Hok. destruct (settings_config_valid freq bw sf cr sync pre pw crc Hf Hb Hok) as [_ Hv].
    destruct Hok as (Hsf & Hcr & Hsw & Hp & Hpw).
    repeat (rewrite (proj2 (Z.ltb_ge _ _)) by lia; cbn [orb]).
    assert (Hpow : 2 ^ 6 <= 2 ^ sf <= 2 ^ 12) by (split; apply Z.pow_le_mono_r; lia).
    unfold u8, u16, u64, s8. rewrite Z.shiftl_mul_pow2, !Z.mod_small by lia.
    replace (pw + 128 - 128) with pw by lia.
    rewrite (Z.mul_comm bw), (Z.mul_comm (1 * _)), (Z.mul_1_l (2 ^ sf)).
    fold (settings_config freq bw sf cr sync pre pw crc). by rewrite Hv.
  - intros Hn. unfold settings_ok. repeat case_match; bool_hyps; done || lia.
Qed.

(** A decimal number of MHz or kHz with a whole number [n] of Hz, read as the
    nearest double [n / 10^p]. *)
Definition f64_quot (n d : Z) : double :=
  match f64_div n d with
  | (Zpos m, k) => S754_finite false m (- k)
  | _ => S754_zero false
  end.

Lemma f64_quot_close n scale :
  1 <= n <= 4294967295 -> 1 <= scale <= 1000000 ->
  double_exponent (f64_quot n scale) /\ 4 * hz_off (f64_quot n scale) scale n <= one_hz.
Proof.
  intros Hn Hs. unfold f64_quot.
  assert (Hlog : 0 <= Z.log2 n < 32) by (split; [apply Z.log2_nonneg|apply Z.log2_lt_pow2; lia]).
  assert (Hlog' : 0 <= Z.log2 scale < 20) by (split; [apply Z.log2_nonneg|apply Z.log2_lt_pow2; lia]).
  assert (exists k, f64_div n scale = (rne (n * 2 ^ k) scale, k) /\ 21 <= k <= 73) as (k & -> & Hk).
  { unfold f64_div. rewrite (proj2 (Z.eqb_neq _ _)) by lia. eexists. split; [done|]. case_match; lia. }
  pose proof (rne_close (n * 2 ^ k) scale ltac:(lia)) as Hc.
  assert (H21 : 2 ^ 21 <= 2 ^ k) by (apply Z.pow_le_mono_r; lia).
  destruct (rne (n * 2 ^ k) scale) as [|m|m]; [nia| |nia]. split; [cbn; lia|].
  unfold hz_off, hz_units, one_hz. replace 1200 with (k + (- k + 1200)) at 2 3 by lia.
  rewrite !(Z.pow_add_r 2 k) by lia.
  assert (0 < 2 ^ (- k + 1200)) by lia. generalize dependent (2 ^ (- k + 1200)). intros. nia.
Qed.

(** Every whole number of Hz survives the detour through a decimal fraction of
    a MHz (or kHz) and its nearest double: 433.175 is 433175000 Hz, and the
    bandwidths 7.8, 10.4, 15.6, ... are exactly the bridge's table. *)
Lemma scaleToHz_quot n scale m e :
  literal scale m e -> 1 <= n <= 4294967295 -> 1 <= scale <= 1000000 ->
  scaleToHz (f64_quot n scale) (f64_of_Z scale) = Some n.
Proof.
  intros Hl Hn Hs. destruct (f64_quot_close n scale Hn Hs) as [He Hc].
  by apply (scaleToHz_close _ _ m e); [..|lia| |].
Qed.

(** The settings of every configuration the bridge accepts, written as decimal
    MHz and kHz, are normalized by the firmware to that configuration (its LDRO
    bit being the rule's). *)
Theorem settings_round_trip (c : RadioConfig) (b : loraham_config.Band) :
  RadioConfig_typed c -> loraham_config.daemon_limits c b ->
  ldro c = (if 16 * bw_hz c <? 1000 * 2 ^ sf c then 1 else 0) ->
  buildRadioConfig (f64_quot (freq_hz c) 1000000) (f64_quot (bw_hz c) 1000)
    (sf c) (cr_denom c) (sync_word c) (preamble c) (tx_power_dbm c) (crc c =? 1) = Some c.
Proof.
  intros (Tf & Tb & _ & _ & Ts & Tp & _ & Tc & _) (Hf & Hb & Hsf & Hcr & Hsw & Hp & Hpw & Hcrc & _) Hl.
  assert (Hf1 : 1 <= freq_hz c <= 4294967295).
  { unfold_ints. destruct b; unfold loraham_config.k433Lo, loraham_config.k868Lo in Hf; lia. }
  assert (Hb1 : 1 <= bw_hz c <= 4294967295).
  { split; [|unfold_ints; lia]. cbn in Hb. intuition lia. }
  destruct (buildRadioConfig_eq (f64_quot (freq_hz c) 1000000) (f64_quot (bw_hz c) 1000) (freq_hz c) (bw_hz c)
    (sf c) (cr_denom c) (sync_word c) (preamble c) (tx_power_dbm c) (crc c =? 1)) as [-> _].
  - by apply (scaleToHz_quot _ _ _ _ literal_MHz).
  - by apply (scaleToHz_quot _ _ _ _ literal_kHz).
  - done.
  - done.
  - f_equal. unfold settings_config. rewrite <- Hl. destruct c. cbn in *. f_equal.
    unfold_ints. destruct (Z.eqb_spec crc0 1); lia.
  - unfold settings_ok. unfold_ints. lia.
Qed.

(** C28. The firmware's configuration builder rounds to the nearest Hz and checks
    every range, in spite of two roundings in binary64.  What it builds has the
    settings it was given, unchanged and in their ranges, the LDRO bit of the
    16 ms rule, and frequencies within [1/2 + 2^-19] Hz of the exact products;
    and for settings in their ranges whose products are within a quarter of a
    Hz of positive 32-bit numbers of Hz it does build the configuration with
    exactly these. *)
Theorem built_config_nearest (vf vb : double) (sf cr sync pre pw : Z) (crc : bool) :
  valid_binary 53 1024 vf = true -> valid_binary 53 1024 vb = true ->
  (forall c, buildRadioConfig vf vb sf cr sync pre pw crc = Some c ->
    settings_ok sf cr sync pre pw /\
    c = settings_config (freq_hz c) (bw_hz c) sf cr sync pre pw crc /\
    RadioConfig_typed c /\ radioConfigValid c = true /\
    524288 * hz_off vf 1000000 (freq_hz c) <= 262145 * one_hz /\
    524288 * hz_off vb 1000 (bw_hz c) <= 262145 * one_hz) /\
  (forall freq bw, settings_ok sf cr sync pre pw ->
    1 <= freq <= 4294967295 -> 4 * hz_off vf 1000000 freq <= one_hz ->
    1 <= bw <= 4294967295 -> 4 * hz_off vb 1000 bw <= one_hz ->
    buildRadioConfig vf vb sf cr sync pre pw crc = Some (settings_config freq bw sf cr sync pre pw crc)).
Proof.
  intros Vf%valid_exponent Vb%valid_exponent. split.
  - intros c H. pose proof H as Hc. unfold buildRadioConfig in Hc.
    destruct (scaleToHz vf _) as [freq|] eqn:Ef; [|done]. destruct (scaleToHz vb _) as [bw|] eqn:Eb; [|done].
    destruct (scaleToHz_nearest _ _ _ _ _ literal_MHz Vf ltac:(lia) Ef) as [Hf Df].
    destruct (scaleToHz_nearest _ _ _ _ _ literal_kHz Vb ltac:(lia) Eb) as [Hb Db].
    destruct (buildRadioConfig_eq vf vb freq bw sf cr sync pre pw crc Ef Eb Hf Hb) as [Hsome Hok].
    specialize (Hok ltac:(congruence)). rewrite (Hsome Hok) in H. injection H as <-.
    destruct (settings_config_valid freq bw sf cr sync pre pw crc Hf Hb Hok) as [T V].
    exact (conj Hok (conj eq_refl (conj T (conj V (conj Df Db))))).
  - intros freq bw Hok Hf Df Hb Db.
    apply (buildRadioConfig_eq vf vb freq bw); [| |done..].
    + by apply (scaleToHz_close _ _ _ _ _ literal_MHz).
    + by apply (scaleToHz_close _ _ _ _ _ literal_kHz).
Qed.

(** 433.175 MHz, 250 kHz, SF 11: the settings of a MeshCom node. *)
Definition mhz_433_175 : double := f64_quot 433175000 1000000.
Definition khz_250 : double := f64_quot 250000 1000.

Lemma built_config_nearest_witness :
  buildRadioConfig mhz_433_175 khz_250 11 6 43 8 14 true
  = Some (mkRadioConfig 433175000 250000 11 6 43 8 14 1 0).
Proof.
  apply (proj2 (built_config_nearest mhz_433_175 khz_250 11 6 43 8 14 true eq_refl eq_refl) 433175000 250000);
    vm_compute; repeat split; discriminate.
Defined.

(** A half Hz rounds up, a frequency below half a Hz and one of [2^32] Hz are
    refused, and so is infinity; at 31.25 kHz SF 9 stays at 16.384 ms: on. *)
Example scale_boundaries :
  scaleToHz (f64_quot 15 10) (f64_of_Z 1) = Some 2 /\
  scaleToHz (f64_quot 4 10) (f64_of_Z 1) = None /\
  scaleToHz (f64_of_Z 4294967296) (f64_of_Z 1) = None /\
  scaleToHz (S754_infinity false) (f64_of_Z 1000) = None /\
  scaleToHz S754_nan (f64_of_Z 1000) = None /\
  option_map ldro (buildRadioConfig mhz_433_175 (f64_quot 31250 1000) 9 6 43 8 14 true) = Some 1 /\
  option_map ldro (buildRadioConfig mhz_433_175 (f64_quot 31250 1000) 8 6 43 8 14 true) = Some 0.
Proof. vm_compute. repeat split. Qed.
End radio_config.
