(* ===== verification/LorahamFraming.v ===== *)
(** The LoRaHAM daemon's framed DATA protocol (little-endian) and its status
    line: src/backend/loraham/loraham_framing.{h,cpp} and loraham_protocol.h.

    As in [XrCodec], a [Frame] holds its [len] payload bytes, a [Parser] its
    [have] buffered bytes, and an encoder that returns 0 is [None]. *)

From S2P Require Import Prelude.
From S2P Require Import StreamLoop.
From S2P Require Import RadioBackend.

Module loraham.
Import radio_backend.

Definition kFramedHeaderLen : nat := 3.
Definition kMaxRfPayload : nat := 255.
Definition kRxMetaLen : nat := 4.
Definition kRxPayloadMax : nat := kRxMetaLen + kMaxRfPayload.
Definition kRxFrameMax : nat := kFramedHeaderLen + kRxPayloadMax.

Definition FRAMED_RX_PACKET : Z := 1.
Definition FRAMED_TX_PACKET : Z := 2.
Definition FRAMED_ERROR : Z := 3.
Definition FRAMED_TX_RESULT : Z := 4.

Definition kTxResultPayloadLen : nat := 4.

Definition TX_STATUS_OK : Z := 0.
Definition TX_STATUS_BUSY : Z := 1.
Definition TX_STATUS_CHANNEL_BUSY : Z := 2.
Definition TX_STATUS_RADIO_NOT_READY : Z := 3.
Definition TX_STATUS_RADIO_ERROR : Z := 4.
Definition TX_STATUS_INVALID_PACKET : Z := 5.
Definition TX_STATUS_INVALID_BAND : Z := 6.

Definition put16le (v : Z) : bytes := [u8 (Z.land v 255); u8 (Z.shiftr v 8)].
Definition get16le (p : bytes) : Z :=
  u16 (Z.lor (byte_at p 0) (Z.shiftl (byte_at p 1) 8)).

(** ** Encoders *)

(** [out]: [None] for a null pointer, else the capacity; [rf]: the pointer. *)
Definition encode_tx_packet (out : option nat) (rf : option bytes) (rf_len : nat)
    : option bytes :=
  match out with
  | None => None
  | Some cap =>
      if (kMaxRfPayload <? rf_len)%nat then None else
      if (0 <? rf_len)%nat && (match rf with None => true | Some _ => false end) then None else
      let total := (kFramedHeaderLen + rf_len)%nat in
      if (cap <? total)%nat then None else
      Some ([FRAMED_TX_PACKET] ++ put16le (Z.of_nat rf_len) ++ take rf_len (default [] rf))
  end.

Definition encode_rx_packet (out : option nat) (rssi_cdbm snr_cdb : Z) (rf : option bytes)
    (rf_len : nat) : option bytes :=
  match out with
  | None => None
  | Some cap =>
      if (kMaxRfPayload <? rf_len)%nat then None else
      if (0 <? rf_len)%nat && (match rf with None => true | Some _ => false end) then None else
      let plen := (kRxMetaLen + rf_len)%nat in
      let total := (kFramedHeaderLen + plen)%nat in
      if (cap <? total)%nat then None else
      Some ([FRAMED_RX_PACKET] ++ put16le (Z.of_nat plen) ++ put16le (u16 rssi_cdbm) ++
            put16le (u16 snr_cdb) ++ take rf_len (default [] rf))
  end.

Definition encode_tx_result (out : option nat) (status flags sq : Z) : option bytes :=
  let total := (kFramedHeaderLen + kTxResultPayloadLen)%nat in
  match out with
  | None => None
  | Some cap =>
      if (cap <? total)%nat then None else
      Some ([FRAMED_TX_RESULT] ++ put16le (Z.of_nat kTxResultPayloadLen) ++
            [status; flags] ++ put16le sq)
  end.

(** ** Frames and the bounded streaming parser *)

Record Frame := mkFrame { type : Z; payload : bytes }.

Definition len (f : Frame) : nat := length (payload f).

Record Parser := mkParser { buf : bytes }.

Definition have (p : Parser) : nat := length (buf p).

Inductive PopResult := POP_NEED_MORE | POP_GOT_FRAME (f : Frame) | POP_ERROR.

Definition parser_reset (p : Parser) : Parser := {| buf := [] |}.

(** Returns the verdict, the number of consumed bytes and the parser. *)
Definition parser_push (p : Parser) (d : option bytes) (n : nat) : bool * nat * Parser :=
  if (n =? 0)%nat then (true, 0%nat, p) else
  match d with
  | None => (false, 0%nat, p)
  | Some d =>
      let space := (kRxFrameMax - have p)%nat in
      let tk := if (n <? space)%nat then n else space in
      if (tk =? 0)%nat then (true, 0%nat, p)
      else (true, tk, {| buf := buf p ++ take tk d |})
  end.

Definition parser_pop (p : Parser) : PopResult * Parser :=
  if (have p <? kFramedHeaderLen)%nat then (POP_NEED_MORE, p) else
  let ty := byte_at (buf p) 0 in
  let n := get16le (drop 1 (buf p)) in
  if negb (ty =? FRAMED_RX_PACKET) && negb (ty =? FRAMED_TX_RESULT) && negb (ty =? FRAMED_ERROR)
  then (POP_ERROR, p) else
  if Z.of_nat kRxPayloadMax <? n then (POP_ERROR, p) else
  let total := (kFramedHeaderLen + Z.to_nat n)%nat in
  if (have p <? total)%nat then (POP_NEED_MORE, p) else
  (POP_GOT_FRAME {| type := ty; payload := take (Z.to_nat n) (drop kFramedHeaderLen (buf p)) |},
   {| buf := drop total (buf p) |}).

(** ** Payload decoders *)

(** RSSI, SNR, RF bytes. *)
Definition decode_rx (f : Frame) : option (Z * Z * bytes) :=
  if negb (type f =? FRAMED_RX_PACKET) then None else
  if (len f <? kRxMetaLen)%nat then None else
  let n := (len f - kRxMetaLen)%nat in
  if (kMaxRfPayload <? n)%nat then None else
  Some (s16 (get16le (drop 0 (payload f))), s16 (get16le (drop 2 (payload f))),
        drop kRxMetaLen (payload f)).

(** Status, flags, daemon sequence. *)
Definition decode_tx_result (f : Frame) : option (Z * Z * Z) :=
  if negb (type f =? FRAMED_TX_RESULT) then None else
  if negb (len f =? kTxResultPayloadLen)%nat then None else
  Some (byte_at (payload f) 0, byte_at (payload f) 1, get16le (drop 2 (payload f))).

Definition map_tx_status (status : Z) : TxOutcome :=
  if status =? TX_STATUS_OK then Success
  else if status =? TX_STATUS_CHANNEL_BUSY then ChannelBusy
  else RadioError.

(** [line.find_first_of(" \t\r\n", v)] .. the value up to it. *)
Definition is_blank (c : Z) : bool := (c =? SP) || (c =? TAB) || (c =? CR) || (c =? LF).
Fixpoint take_word (s : bytes) : bytes :=
  match s with
  | [] => []
  | c :: s => if is_blank c then [] else c :: take_word s
  end.

Definition status_line_radio_ready (line : bytes) : bool :=
  let key := str "RADIO=" in
  match find_sub key line with
  | None => false
  | Some pos =>
      let v := (pos + length key)%nat in
      let value := take_word (drop v line) in
      bytes_eqb value (str "READY")
  end.

(** The head of an unbounded DATA byte stream, as [parser_pop] sees it. *)
Definition decode_head (b : bytes) : decoded Frame :=
  match parser_pop {| buf := b |} with
  | (POP_NEED_MORE, _) => DNeed
  | (POP_GOT_FRAME f, p') => DGot f (buf p')
  | (POP_ERROR, _) => DErr
  end.

(** The parser as the receive loops of [LorahamBackend] use it. *)
#[export] Instance data_stream : StreamCodec Parser Frame := {|
  sc_content := buf;
  sc_cap := kRxFrameMax;
  sc_decode := decode_head;
  sc_pop p := match parser_pop p with
              | (POP_NEED_MORE, p') => (PopNeed, p')
              | (POP_GOT_FRAME f, p') => (PopGot f, p')
              | (POP_ERROR, p') => (PopErr, p')
              end;
  sc_push p d := let '(_, took, p') := parser_push p (Some d) (length d) in (took, p');
|}.

(** ** Byte-order lemmas *)

Lemma put16le_eq v : put16le v = [v mod 256; (v / 256) mod 256].
Proof. unfold put16le, u8. rewrite land_255, shiftr_div, Z.mod_mod by lia. done. Qed.

Lemma get16le_cons a b r : is_u8 a -> is_u8 b -> get16le (a :: b :: r) = b * 256 + a.
Proof.
  intros Ha Hb. unfold get16le, byte_at; simpl. rewrite Z.lor_comm.
  rewrite lor_shiftl_add by (unfold_ints; lia). int_lia.
Qed.

Lemma get16le_put16le v r : is_u16 v -> get16le (put16le v ++ r) = v.
Proof. intros Hv. rewrite put16le_eq. simpl. rewrite get16le_cons; int_lia. Qed.

Lemma get16le_range p : is_u16 (get16le p).
Proof. apply u16_range. Qed.

Lemma get16le_app p r : (2 <= length p)%nat -> get16le (p ++ r) = get16le p.
Proof. intros. unfold get16le. by rewrite !byte_at_app_l by lia. Qed.

(** ** The parser and the head of the stream *)

Definition known_type (ty : Z) : bool :=
  (ty =? FRAMED_RX_PACKET) || (ty =? FRAMED_TX_RESULT) || (ty =? FRAMED_ERROR).

Lemma head_short b : (length b < kFramedHeaderLen)%nat -> decode_head b = DNeed.
Proof.
  intros Hl. unfold decode_head, parser_pop, have; simpl.
  by rewrite (proj2 (Nat.ltb_lt _ _) Hl).
Qed.

Lemma head_long b :
  (kFramedHeaderLen <= length b)%nat ->
  decode_head b =
    if negb (known_type (byte_at b 0)) || (Z.of_nat kRxPayloadMax <? get16le (drop 1 b))
    then DErr
    else
      let n := Z.to_nat (get16le (drop 1 b)) in
      if (length b <? kFramedHeaderLen + n)%nat then DNeed
      else DGot {| type := byte_at b 0; payload := take n (drop kFramedHeaderLen b) |}
                (drop (kFramedHeaderLen + n) b).
Proof.
  intros Hl. unfold decode_head, parser_pop, have, known_type. cbn [buf].
  rewrite (proj2 (Nat.ltb_ge _ _) Hl), !negb_orb. cbn zeta.
  destruct (negb (byte_at b 0 =? FRAMED_RX_PACKET) && negb (byte_at b 0 =? FRAMED_TX_RESULT) &&
            negb (byte_at b 0 =? FRAMED_ERROR)); [done|].
  destruct (Z.of_nat kRxPayloadMax <? get16le (drop 1 b)); [done|].
  by destruct (length b <? kFramedHeaderLen + _)%nat.
Qed.

Lemma head_app b x :
  (kFramedHeaderLen <= length b)%nat ->
  byte_at (b ++ x) 0 = byte_at b 0 /\ get16le (drop 1 (b ++ x)) = get16le (drop 1 b).
Proof.
  unfold kFramedHeaderLen. intros Hl. rewrite byte_at_app_l by lia.
  rewrite drop_app_le by lia. by rewrite get16le_app by (rewrite length_drop; lia).
Qed.

Lemma head_got_inv b f r :
  decode_head b = DGot f r ->
  exists n, (n <= kRxPayloadMax)%nat /\ (kFramedHeaderLen + n <= length b)%nat /\
    r = drop (kFramedHeaderLen + n) b /\ payload f = take n (drop kFramedHeaderLen b) /\
    known_type (type f) = true.
Proof.
  intros E. destruct (Nat.lt_ge_cases (length b) kFramedHeaderLen) as [Hl|Hl].
  { by rewrite head_short in E. }
  rewrite head_long in E by done. case_match eqn:Ec; [done|]. cbn zeta in E.
  case_match eqn:El; [done|]. injection E as <- <-. bool_hyps.
  eexists; repeat split; try done; lia.
Qed.

#[export] Instance data_stream_laws : StreamCodecLaws Parser Frame.
Proof.
  constructor; cbn [sc_content sc_cap sc_decode sc_pop sc_push data_stream].
  - intros [b]. unfold decode_head. cbn [buf].
    destruct (parser_pop _) as [[|f|] p'] eqn:E; [| by exists p' |];
      unfold parser_pop in E; repeat (case_match; simplify_eq/=; try done).
  - intros [b] d took p'. unfold parser_push, have. cbn [buf].
    destruct (Nat.eqb_spec (length d) 0) as [Hd|Hd].
    { intros [= <- <-]. rewrite take_0, app_nil_r. split; [lia | done]. }
    assert (Htk : (if (length d <? kRxFrameMax - length b)%nat then length d
                   else kRxFrameMax - length b)%nat
                  = Nat.min (length d) (kRxFrameMax - length b)) by (case_match; lia).
    rewrite Htk. destruct (Nat.eqb_spec (Nat.min (length d) (kRxFrameMax - length b)) 0) as [E|E];
      intros [= <- <-]; [rewrite take_0, app_nil_r|]; done.
  - intros b f r x E. assert (Hl : (kFramedHeaderLen <= length b)%nat).
    { destruct (head_got_inv _ _ _ E) as (n & ? & ? & _). lia. }
    destruct (head_app b x Hl) as (E0 & E1).
    rewrite head_long in E |- * by (rewrite ?length_app; lia).
    rewrite E0, E1. case_match; [done|]. cbn zeta in *.
    case_match eqn:El; [done|]. injection E as <- <-.
    rewrite (proj2 (Nat.ltb_ge _ _)) by (rewrite length_app; lia).
    rewrite !drop_app_le by lia. by rewrite take_app_le by (rewrite length_drop; lia).
  - intros b f r E. destruct (head_got_inv _ _ _ E) as (n & ? & ? & -> & _).
    rewrite length_drop. unfold kFramedHeaderLen in *. lia.
  - intros b x E. assert (Hl : (kFramedHeaderLen <= length b)%nat).
    { destruct (Nat.lt_ge_cases (length b) kFramedHeaderLen); [|done].
      by rewrite head_short in E. }
    destruct (head_app b x Hl) as (E0 & E1).
    rewrite head_long in E |- * by (rewrite ?length_app; lia).
    rewrite E0, E1. case_match; [done|]. cbn zeta in *. by case_match.
  - intros b E. destruct (Nat.lt_ge_cases (length b) kFramedHeaderLen) as [Hl|Hl].
    { unfold kRxFrameMax. lia. }
    rewrite head_long in E by done. case_match eqn:Ec; [done|]. cbn zeta in E.
    case_match eqn:El; [|done]. bool_hyps. unfold kRxFrameMax, kFramedHeaderLen in *. lia.
Qed.

Lemma parser_pop_got b f r :
  decode_head b = DGot f r -> parser_pop {| buf := b |} = (POP_GOT_FRAME f, {| buf := r |}).
Proof.
  unfold decode_head. destruct (parser_pop _) as [[|f'|] [b']] eqn:E; try done.
  by intros [= -> <-].
Qed.

(** A frame the daemon sends, at the head of the stream. *)
Lemma decode_daemon_frame ty (pl rest : bytes) :
  known_type ty = true -> (length pl <= kRxPayloadMax)%nat ->
  decode_head (([ty] ++ put16le (zlen pl) ++ pl) ++ rest) = DGot {| type := ty; payload := pl |} rest.
Proof.
  intros Ht Hl. unfold zlen.
  assert (Hn : is_u16 (Z.of_nat (length pl)))
    by (unfold kRxPayloadMax, kRxMetaLen, kMaxRfPayload in *; unfold_ints; lia).
  rewrite <- !app_assoc. pose proof (get16le_put16le _ (pl ++ rest) Hn) as G.
  assert (HA : exists a b, put16le (Z.of_nat (length pl)) = [a; b]) by (unfold put16le; eauto).
  destruct HA as (a & b & HA). rewrite HA in *. cbn [app] in *.
  rewrite head_long by (cbn [length]; unfold kFramedHeaderLen; lia).
  cbn [drop byte_at nth]. rewrite ?drop_0, G, Ht. cbn [negb orb].
  rewrite (proj2 (Z.ltb_ge _ _)) by lia. cbn zeta. rewrite Nat2Z.id.
  rewrite (proj2 (Nat.ltb_ge _ _))
    by (cbn [length]; rewrite length_app; unfold kFramedHeaderLen; lia).
  unfold kFramedHeaderLen. cbn [drop Nat.add].
  by rewrite drop_0, take_app_length, drop_app_length.
Qed.

(** * Properties *)

(** C33. DATA round trip: an RX packet and a TX result, as the daemon frames
    them, are popped from the stream as one frame each (whatever follows) and
    decoded to the same signed RSSI/SNR and RF bytes, respectively to the same
    status, flags and sequence. *)
Theorem daemon_frames_roundtrip (rssi snr status flags sq : Z) (rf rest : bytes) :
  is_s16 rssi -> is_s16 snr -> (length rf <= kMaxRfPayload)%nat -> is_u16 sq ->
  (exists bs f,
     encode_rx_packet (Some kRxFrameMax) rssi snr (Some rf) (length rf) = Some bs /\
     parser_pop {| buf := bs ++ rest |} = (POP_GOT_FRAME f, {| buf := rest |}) /\
     decode_rx f = Some (rssi, snr, rf)) /\
  (exists bs f,
     encode_tx_result (Some kRxFrameMax) status flags sq = Some bs /\
     parser_pop {| buf := bs ++ rest |} = (POP_GOT_FRAME f, {| buf := rest |}) /\
     decode_tx_result f = Some (status, flags, sq)).
Proof.
  intros Hr Hs Hl Hq. split.
  - pose (pl := put16le (u16 rssi) ++ put16le (u16 snr) ++ rf).
    assert (Hpl : length pl = (kRxMetaLen + length rf)%nat) by done.
    exists ([FRAMED_RX_PACKET] ++ put16le (zlen pl) ++ pl), {| type := FRAMED_RX_PACKET; payload := pl |}.
    split; [|split].
    + unfold encode_rx_packet. rewrite andb_false_r.
      rewrite (proj2 (Nat.ltb_ge _ _) Hl).
      rewrite (proj2 (Nat.ltb_ge _ _))
        by (unfold kRxFrameMax, kFramedHeaderLen, kRxPayloadMax, kRxMetaLen, kMaxRfPayload in *; lia).
      change (default [] (Some rf)) with rf. rewrite firstn_all. unfold zlen. by rewrite Hpl.
    + apply parser_pop_got, decode_daemon_frame; [done|].
      rewrite Hpl. unfold kRxPayloadMax. lia.
    + unfold decode_rx, len. cbn [type payload]. rewrite Hpl. cbn [Z.eqb negb].
      rewrite (proj2 (Nat.ltb_ge _ _)) by lia.
      replace (kRxMetaLen + length rf - kRxMetaLen)%nat with (length rf) by lia.
      rewrite (proj2 (Nat.ltb_ge _ _) Hl).
      change (drop 2 pl) with (put16le (u16 snr) ++ rf). rewrite drop_0.
      unfold pl at 1. rewrite !get16le_put16le, !s16_u16 by (try apply u16_range; done). done.
  - exists ([FRAMED_TX_RESULT] ++ put16le (zlen ([status; flags] ++ put16le sq)) ++
            ([status; flags] ++ put16le sq)),
      {| type := FRAMED_TX_RESULT; payload := [status; flags] ++ put16le sq |}.
    split; [done|]. split; [by apply parser_pop_got, decode_daemon_frame; [|cbv; lia]|].
    unfold decode_tx_result. cbn [type payload len length app Z.eqb negb].
    change (drop 2 (status :: flags :: put16le sq)) with (put16le sq ++ []).
    by rewrite get16le_put16le.
Qed.

Lemma daemon_frames_roundtrip_witness :
  (exists bs f,
     encode_rx_packet (Some kRxFrameMax) (-12050) (-275) (Some [1; 2]) 2 = Some bs /\
     parser_pop {| buf := bs ++ [7] |} = (POP_GOT_FRAME f, {| buf := [7] |}) /\
     decode_rx f = Some (-12050, -275, [1; 2])) /\
  (exists bs f,
     encode_tx_result (Some kRxFrameMax) TX_STATUS_OK 1 513 = Some bs /\
     parser_pop {| buf := bs ++ [7] |} = (POP_GOT_FRAME f, {| buf := [7] |}) /\
     decode_tx_result f = Some (TX_STATUS_OK, 1, 513)).
Proof.
  apply (daemon_frames_roundtrip (-12050) (-275) TX_STATUS_OK 1 513 [1; 2] [7]);
    unfold_ints; unfold kMaxRfPayload; cbn [length]; lia.
Defined.

End loraham.
