(* ===== verification/DaemonTransport.v ===== *)
(** The LoRaHAM daemon's two local sockets: src/backend/loraham/loraham_transport.h.

    A transport is a state of type [T] with the operations of the abstract
    class [DaemonTransport], every one of them non-blocking.  A read returns
    [RecvData] (a positive count), [RecvNone] (0: nothing available now) or
    [RecvErr] (negative: closed or failed); a send returns the accepted count,
    0 when the kernel buffer is full, or a negative value.

    [conf_pending] and [data_pending] are the fuel of the backend's receive
    loops: the number of reads the socket can answer with data before it has
    nothing more available.  The contract says nothing about them; that they do
    bound the reads is the separate class [ArrivedInput]. *)

From S2P Require Import Prelude.
From S2P Require Import LorahamConfig.

Module daemon_transport.
Import loraham_config.

Inductive ConnectState := CsConnecting | CsConnected | CsFailed.

#[export] Instance ConnectState_eq_dec : EqDecision ConnectState.
Proof. solve_decision. Defined.

Inductive recv_result := RecvErr | RecvNone | RecvData (d : bytes).

Class DaemonTransport (T : Type) := {
  begin_connect : Band -> T -> bool * T;
  poll_connect : T -> ConnectState * T;
  conf_send_some : bytes -> T -> Z * T;
  data_send_some : bytes -> T -> Z * T;
  conf_recv : nat -> T -> recv_result * T;
  data_recv : nat -> T -> recv_result * T;
  close : T -> T;
  conf_pending : T -> nat;
  data_pending : T -> nat;
  (** What the daemon has been given on the DATA socket of this connection. *)
  data_sent : T -> bytes;
}.

(** The contract stated in the comments of the abstract class. *)
Class DaemonTransportLaws (T : Type) `{!DaemonTransport T} := {
  conf_recv_data cap t d t' :
    conf_recv cap t = (RecvData d, t') ->
    d <> [] /\ (length d <= cap)%nat;
  data_recv_data cap t d t' :
    data_recv cap t = (RecvData d, t') ->
    d <> [] /\ (length d <= cap)%nat;
  data_send_spec d t w t' :
    data_send_some d t = (w, t') ->
    w <= zlen d /\ data_sent t' = data_sent t ++ take (Z.to_nat w) d;
  (** A connect replaces the connection; a refused one may leave it. *)
  begin_connect_fresh band t started t' :
    begin_connect band t = (started, t') ->
    data_sent t' = [] \/ (started = false /\ data_sent t' = data_sent t);
  data_sent_poll_connect t cs t' : poll_connect t = (cs, t') -> data_sent t' = data_sent t;
  data_sent_conf_send d t w t' : conf_send_some d t = (w, t') -> data_sent t' = data_sent t;
  data_sent_conf_recv cap t r t' : conf_recv cap t = (r, t') -> data_sent t' = data_sent t;
  data_sent_data_recv cap t r t' : data_recv cap t = (r, t') -> data_sent t' = data_sent t;
}.

(** During one call the backend reads what has arrived when it starts, which is
    finite: each read that returns data leaves fewer to come. *)
Class ArrivedInput (T : Type) `{!DaemonTransport T} := {
  conf_arrived cap t d t' :
    conf_recv cap t = (RecvData d, t') -> (conf_pending t' < conf_pending t)%nat;
  data_arrived cap t d t' :
    data_recv cap t = (RecvData d, t') -> (data_pending t' < data_pending t)%nat;
}.

(** A map between transports that every call commutes with. *)
Class TransportMorphism {T1 T2 : Type} `{!DaemonTransport T1} `{!DaemonTransport T2} (h : T1 -> T2) := {
  mor_begin_connect band t : begin_connect band (h t) = prod_map id h (begin_connect band t);
  mor_poll_connect t : poll_connect (h t) = prod_map id h (poll_connect t);
  mor_conf_send_some d t : conf_send_some d (h t) = prod_map id h (conf_send_some d t);
  mor_data_send_some d t : data_send_some d (h t) = prod_map id h (data_send_some d t);
  mor_conf_recv cap t : conf_recv cap (h t) = prod_map id h (conf_recv cap t);
  mor_data_recv cap t : data_recv cap (h t) = prod_map id h (data_recv cap t);
  mor_close t : close (h t) = h (close t);
  mor_conf_pending t : conf_pending (h t) = conf_pending t;
  mor_data_pending t : data_pending (h t) = data_pending t;
}.

(** A predicate every call keeps. *)
Class TransportInvariant {T : Type} `{!DaemonTransport T} (Q : T -> Prop) := {
  tinv_begin_connect band t : Q t -> Q (begin_connect band t).2;
  tinv_poll_connect t : Q t -> Q (poll_connect t).2;
  tinv_conf_send_some d t : Q t -> Q (conf_send_some d t).2;
  tinv_data_send_some d t : Q t -> Q (data_send_some d t).2;
  tinv_conf_recv cap t : Q t -> Q (conf_recv cap t).2;
  tinv_data_recv cap t : Q t -> Q (data_recv cap t).2;
  tinv_close t : Q t -> Q (close t);
}.

End daemon_transport.
