(* ===== verification/PosixTransport.v ===== *)
(** The production transport: src/backend/loraham/loraham_posix_transport.{h,cpp}.

    The kernel is a state of type [K] with the system calls the code makes, each
    answer classified by return value and [errno] as the code does, and three
    quantities no program can read but the laws of the calls speak about: the
    descriptors the process has open, what has been written to a descriptor,
    and how many more reads a descriptor can answer with data.

    [posix_laws] discharges the contract the LoRaHAM backend relies on
    ([DaemonTransportLaws]), so that every theorem about the backend and the
    bridge holds over this transport. *)

From stdpp Require Import gmap.
From S2P Require Import Prelude.
From S2P Require Import Printf.
From S2P Require Import LorahamConfig.
From S2P Require Import DaemonTransport.

Module posix_transport.
Import printf loraham_config daemon_transport.

(** ** The system calls *)

Inductive connect_answer := ConnDone | ConnInProgress | ConnRefused.
(** [poll] with a zero timeout: nothing ([<= 0]), an error event, writable. *)
Inductive poll_answer := PollNothing | PollError | PollWritable.
(** Again: EAGAIN, EWOULDBLOCK or EINTR. *)
Inductive send_answer := Sent (n : nat) | SendAgain | SendFail.
Inductive recv_answer := Got (d : bytes) | GotEof | RecvAgain | RecvFail.

Class Kernel (K : Type) := {
  (** [stat] succeeds and the file is a socket. *)
  sys_is_socket : bytes -> K -> bool;
  sys_socket : K -> option Z * K;
  (** [fcntl(fd, F_GETFL)], [fcntl(fd, F_SETFL, flags)]. *)
  sys_getfl : Z -> K -> option Z;
  sys_setfl : Z -> Z -> K -> bool * K;
  sys_connect : Z -> bytes -> K -> connect_answer * K;
  sys_poll_out : Z -> K -> poll_answer;
  (** [getsockopt(fd, SOL_SOCKET, SO_ERROR)]. *)
  sys_so_error : Z -> K -> option Z * K;
  sys_send : Z -> bytes -> K -> send_answer * K;
  sys_recv : Z -> nat -> K -> recv_answer * K;
  sys_close : Z -> K -> K;
  opened : K -> gset Z;
  written : Z -> K -> bytes;
  readable : Z -> K -> nat;
}.

(** A call that neither opens, closes nor writes. *)
Definition undisturbed {K} `{!Kernel K} (k k' : K) : Prop :=
  opened k' = opened k /\ forall fd, written fd k' = written fd k.

Class KernelLaws (K : Type) `{!Kernel K} := {
  sys_socket_spec k r k' :
    sys_socket k = (r, k') ->
    match r with
    | Some fd => 0 <= fd /\ (fd ∉ opened k) /\ (opened k' = {[ fd ]} ∪ opened k) /\ written fd k' = [] /\
                 forall fd', fd' <> fd -> written fd' k' = written fd' k
    | None => undisturbed k k'
    end;
  sys_setfl_spec fd fl k r k' : sys_setfl fd fl k = (r, k') -> undisturbed k k';
  sys_connect_spec fd p k r k' : sys_connect fd p k = (r, k') -> undisturbed k k';
  sys_so_error_spec fd k r k' : sys_so_error fd k = (r, k') -> undisturbed k k';
  sys_send_spec fd d k r k' :
    sys_send fd d k = (r, k') ->
    opened k' = opened k /\ (forall fd', fd' <> fd -> written fd' k' = written fd' k) /\
    match r with
    | Sent n => (n <= length d)%nat /\ written fd k' = written fd k ++ take n d
    | _ => written fd k' = written fd k
    end;
  sys_recv_spec fd cap k r k' :
    sys_recv fd cap k = (r, k') -> undisturbed k k' /\
    match r with
    | Got d => d <> [] /\ (length d <= cap)%nat
    | _ => True
    end;
  sys_close_spec fd k :
    opened (sys_close fd k) = opened k ∖ {[ fd ]} /\
    forall fd', fd' <> fd -> written fd' (sys_close fd k) = written fd' k;
}.

(** What has arrived on a descriptor by the time of a call is finite, and [recv]
    takes from it. *)
Class KernelInput (K : Type) `{!Kernel K} := {
  sys_recv_arrived fd cap k d k' :
    sys_recv fd cap k = (Got d, k') -> (readable fd k' < readable fd k)%nat;
}.

(** ** Paths *)

Definition kDataSocket433 : bytes := str "/tmp/lora433f.sock".
Definition kDataSocket868 : bytes := str "/tmp/lora868f.sock".
Definition kConfSocket433 : bytes := str "/tmp/loraconf433.sock".
Definition kConfSocket868 : bytes := str "/tmp/loraconf868.sock".

(** [sizeof(sockaddr_un::sun_path)]. *)
Definition kSunPath : nat := 108.

Record DaemonPaths := mkDaemonPaths {
  data433 : bytes;
  conf433 : bytes;
  data868 : bytes;
  conf868 : bytes
}.

#[export] Instance eta_DaemonPaths : Eta DaemonPaths :=
  fun p => {| data433 := data433 p; conf433 := conf433 p; data868 := data868 p; conf868 := conf868 p |}.

Definition socket_path_error (path : bytes) : bytes :=
  if (length path =? 0)%nat then str "is empty" else
  if (kSunPath <=? length path)%nat then
    str "is " ++ fmt_u (zlen path) ++ str " bytes; a socket path must be shorter than " ++
    fmt_u (Z.of_nat kSunPath) ++ str " bytes"
  else [].

(** [c_str()]: up to the first NUL. *)
Definition c_str (s : bytes) : bytes :=
  match find_byte 0 s with Some i => take i s | None => s end.

Definition O_NONBLOCK : Z := 2048.

Section Transport.
Context {K : Type} `{HK : !Kernel K}.

Definition loraham_sockpath (runp tmpp : bytes) (k : K) : bytes :=
  if sys_is_socket runp k then runp else tmpp.

Definition default_daemon_paths (k : K) : DaemonPaths := {|
  data433 := loraham_sockpath (str "/run/loraham/lora433f.sock") kDataSocket433 k;
  conf433 := loraham_sockpath (str "/run/loraham/loraconf433.sock") kConfSocket433 k;
  data868 := loraham_sockpath (str "/run/loraham/lora868f.sock") kDataSocket868 k;
  conf868 := loraham_sockpath (str "/run/loraham/loraconf868.sock") kConfSocket868 k
|}.

Definition instance_daemon_paths (data_socket conf_socket : bytes) (k : K) : DaemonPaths :=
  let p := default_daemon_paths k in
  if (length data_socket =? 0)%nat || (length conf_socket =? 0)%nat then p else
  p <| data433 := data_socket |> <| data868 := data_socket |>
    <| conf433 := conf_socket |> <| conf868 := conf_socket |>.

(** ** The object, with the kernel it runs on *)

Record PosixDaemonTransport := mkPosix {
  paths_ : DaemonPaths;
  data_fd_ : Z;
  conf_fd_ : Z;
  data_connecting_ : bool;
  conf_connecting_ : bool;
  kern : K
}.

#[export] Instance eta_Posix : Eta PosixDaemonTransport := fun p => {|
  paths_ := paths_ p;
  data_fd_ := data_fd_ p;
  conf_fd_ := conf_fd_ p;
  data_connecting_ := data_connecting_ p;
  conf_connecting_ := conf_connecting_ p;
  kern := kern p
|}.

Definition make (paths : DaemonPaths) (k : K) : PosixDaemonTransport :=
  mkPosix paths (-1) (-1) false false k.

Definition set_nonblocking (fd : Z) (k : K) : bool * K :=
  match sys_getfl fd k with
  | None => (false, k)
  | Some fl => sys_setfl fd (Z.lor fl O_NONBLOCK) k
  end.

(** The descriptor (-1 on a hard failure) and whether the connect is pending. *)
Definition unix_begin_connect (path : bytes) (k : K) : (Z * bool) * K :=
  if (length path =? 0)%nat || (kSunPath <=? length path)%nat then ((-1, false), k) else
  match sys_socket k with
  | (None, k) => ((-1, false), k)
  | (Some fd, k) =>
      match set_nonblocking fd k with
      | (false, k) => ((-1, false), sys_close fd k)
      | (true, k) =>
          match sys_connect fd (take (kSunPath - 1) (c_str path)) k with
          | (ConnDone, k) => ((fd, false), k)
          | (ConnInProgress, k) => ((fd, true), k)
          | (ConnRefused, k) => ((-1, false), sys_close fd k)
          end
      end
  end.

(** The state, and the new value of [*connecting]. *)
Definition check_one (fd : Z) (connecting : bool) (k : K) : (ConnectState * bool) * K :=
  if fd <? 0 then ((CsFailed, connecting), k) else
  if negb connecting then ((CsConnected, connecting), k) else
  match sys_poll_out fd k with
  | PollNothing => ((CsConnecting, connecting), k)
  | PollError => ((CsFailed, connecting), k)
  | PollWritable =>
      match sys_so_error fd k with
      | (None, k) => ((CsFailed, connecting), k)
      | (Some err, k) =>
          if negb (err =? 0) then ((CsFailed, connecting), k) else ((CsConnected, false), k)
      end
  end.

Definition send_some (fd : Z) (d : bytes) (k : K) : Z * K :=
  if fd <? 0 then (-1, k) else
  if (length d =? 0)%nat then (0, k) else
  match sys_send fd d k with
  | (Sent n, k) => (Z.of_nat n, k)
  | (SendAgain, k) => (0, k)
  | (SendFail, k) => (-1, k)
  end.

Definition recv_some (fd : Z) (cap : nat) (k : K) : recv_result * K :=
  if (fd <? 0) || (cap =? 0)%nat then (RecvErr, k) else
  match sys_recv fd cap k with
  | (Got d, k) => (RecvData d, k)
  | (GotEof, k) => (RecvErr, k)
  | (RecvAgain, k) => (RecvNone, k)
  | (RecvFail, k) => (RecvErr, k)
  end.

Definition close_fd (fd : Z) (k : K) : K := if 0 <=? fd then sys_close fd k else k.

Definition close (p : PosixDaemonTransport) : PosixDaemonTransport :=
  let k := close_fd (conf_fd_ p) (close_fd (data_fd_ p) (kern p)) in
  p <| data_fd_ := -1 |> <| conf_fd_ := -1 |> <| data_connecting_ := false |>
    <| conf_connecting_ := false |> <| kern := k |>.

Definition begin_connect (band : Band) (p : PosixDaemonTransport) : bool * PosixDaemonTransport :=
  let p := close p in
  let dpath := match band with Band433 => data433 (paths_ p) | Band868 => data868 (paths_ p) end in
  let cpath := match band with Band433 => conf433 (paths_ p) | Band868 => conf868 (paths_ p) end in
  let '((dfd, dc), k) := unix_begin_connect dpath (kern p) in
  let p := p <| data_connecting_ := dc |> <| kern := k |> in
  if dfd <? 0 then (false, p) else
  let '((cfd, cc), k) := unix_begin_connect cpath (kern p) in
  let p := p <| conf_connecting_ := cc |> <| kern := k |> in
  if cfd <? 0 then (false, p <| kern := sys_close dfd k |> <| data_connecting_ := false |>) else
  (true, p <| data_fd_ := dfd |> <| conf_fd_ := cfd |>).

Definition poll_connect (p : PosixDaemonTransport) : ConnectState * PosixDaemonTransport :=
  let '((d, dc), k) := check_one (data_fd_ p) (data_connecting_ p) (kern p) in
  let '((c, cc), k) := check_one (conf_fd_ p) (conf_connecting_ p) k in
  let p := p <| data_connecting_ := dc |> <| conf_connecting_ := cc |> <| kern := k |> in
  (match d, c with
   | CsFailed, _ | _, CsFailed => CsFailed
   | CsConnected, CsConnected => CsConnected
   | _, _ => CsConnecting
   end, p).

(** Run a call on the kernel. *)
Definition on_kernel {A : Type} (f : K -> A * K) (p : PosixDaemonTransport)
    : A * PosixDaemonTransport :=
  let '(r, k) := f (kern p) in (r, p <| kern := k |>).

Definition conf_send_some (d : bytes) (p : PosixDaemonTransport) :=
  on_kernel (send_some (conf_fd_ p) d) p.
Definition data_send_some (d : bytes) (p : PosixDaemonTransport) :=
  on_kernel (send_some (data_fd_ p) d) p.
Definition conf_recv (cap : nat) (p : PosixDaemonTransport) :=
  on_kernel (recv_some (conf_fd_ p) cap) p.
Definition data_recv (cap : nat) (p : PosixDaemonTransport) :=
  on_kernel (recv_some (data_fd_ p) cap) p.

(** ** Calls *)

Inductive op :=
  | OpBegin (band : Band) | OpPoll | OpConfSend (d : bytes) | OpDataSend (d : bytes)
  | OpConfRecv (cap : nat) | OpDataRecv (cap : nat) | OpClose.

(** [acc]: what [data_send_some] has reported as accepted since the last
    connect. *)
Definition do_op (o : op) (x : bytes * PosixDaemonTransport) : bytes * PosixDaemonTransport :=
  let '(acc, p) := x in
  match o with
  | OpBegin band => ([], (begin_connect band p).2)
  | OpPoll => (acc, (poll_connect p).2)
  | OpConfSend d => (acc, (conf_send_some d p).2)
  | OpDataSend d => let '(n, p) := data_send_some d p in (acc ++ take (Z.to_nat n) d, p)
  | OpConfRecv cap => (acc, (conf_recv cap p).2)
  | OpDataRecv cap => (acc, (data_recv cap p).2)
  | OpClose => ([], close p)
  end.

Definition do_ops (os : list op) (x : bytes * PosixDaemonTransport) := foldl (fun x o => do_op o x) x os.

(** ** Lemmas *)

Definition fd_set (fd : Z) : gset Z := if 0 <=? fd then {[ fd ]} else ∅.
(** The descriptors the object owns. *)
Definition owned (p : PosixDaemonTransport) : gset Z := fd_set (data_fd_ p) ∪ fd_set (conf_fd_ p).

Definition data_written (p : PosixDaemonTransport) : bytes :=
  if data_fd_ p <? 0 then [] else written (data_fd_ p) (kern p).

Definition distinct (p : PosixDaemonTransport) : Prop :=
  0 <= data_fd_ p -> data_fd_ p <> conf_fd_ p.

Section Laws.
Context `{HL : !KernelLaws K}.

Lemma undisturbed_refl k : undisturbed k k.
Proof. by split. Qed.

Lemma undisturbed_trans k1 k2 k3 : undisturbed k1 k2 -> undisturbed k2 k3 -> undisturbed k1 k3.
Proof. intros [H1 H2] [H3 H4]. split; [congruence|]. intros fd. by rewrite H4. Qed.

Lemma set_nonblocking_spec fd k r k' : set_nonblocking fd k = (r, k') -> undisturbed k k'.
Proof.
  unfold set_nonblocking. destruct (sys_getfl fd k); [apply sys_setfl_spec|].
  intros [= _ <-]. apply undisturbed_refl.
Qed.

Lemma check_one_spec fd c k r k' : check_one fd c k = (r, k') -> undisturbed k k'.
Proof.
  unfold check_one. case_match; [intros [= _ <-]; apply undisturbed_refl|].
  case_match; [intros [= _ <-]; apply undisturbed_refl|].
  destruct (sys_poll_out fd k); try (intros [= _ <-]; apply undisturbed_refl).
  destruct (sys_so_error fd k) as [[e|] k1] eqn:E; apply sys_so_error_spec in E;
    [destruct (negb (e =? 0))|]; by intros [= _ <-].
Qed.

(** A connect opens one new descriptor or none. *)
Inductive connect_spec (k : K) : Z -> K -> Prop :=
  | connect_none k' : opened k' = opened k ->
      (forall fd, fd ∈ opened k -> written fd k' = written fd k) -> connect_spec k (-1) k'
  | connect_some fd k' : 0 <= fd -> fd ∉ opened k -> opened k' = {[ fd ]} ∪ opened k ->
      written fd k' = [] -> (forall fd', fd' <> fd -> written fd' k' = written fd' k) ->
      connect_spec k fd k'.

Lemma connect_abandoned k fd k1 :
  0 <= fd -> fd ∉ opened k -> opened k1 = {[ fd ]} ∪ opened k ->
  (forall fd', fd' <> fd -> written fd' k1 = written fd' k) -> connect_spec k (-1) (sys_close fd k1).
Proof.
  intros H0 Hn Ho Hw. destruct (sys_close_spec fd k1) as [Hc Hcw]. apply connect_none.
  - rewrite Hc, Ho. set_solver.
  - intros fd' Hin. assert (fd' <> fd) by set_solver. by rewrite Hcw, Hw.
Qed.

Lemma unix_begin_connect_spec path k fd c k' :
  unix_begin_connect path k = ((fd, c), k') -> connect_spec k fd k'.
Proof.
  unfold unix_begin_connect. case_match; [intros [= <- _ <-]; by apply connect_none|].
  destruct (sys_socket k) as [[nfd|] k1] eqn:E1; apply sys_socket_spec in E1.
  2:{ intros [= <- _ <-]. destruct E1 as [H1 H2]. by apply connect_none. }
  destruct E1 as (H0 & Hn & Ho & He & Hw).
  destruct (set_nonblocking nfd k1) as [[] k2] eqn:E2; apply set_nonblocking_spec in E2 as [H2 H2'].
  2:{ intros [= <- _ <-]. apply (connect_abandoned k nfd); [done..|congruence|].
      intros fd' Hne. by rewrite H2', Hw. }
  destruct (sys_connect _ _ k2) as [a k3] eqn:E3. apply sys_connect_spec in E3 as [H3 H3'].
  assert (Hsome : connect_spec k nfd k3).
  { apply connect_some; [done..|congruence|by rewrite H3', H2'|].
    intros fd' Hne. by rewrite H3', H2', Hw. }
  destruct a; intros [= <- _ <-]; try done.
  apply (connect_abandoned k nfd); [done..|congruence|]. intros fd' Hne. by rewrite H3', H2', Hw.
Qed.

Lemma send_some_spec fd d k n k' :
  send_some fd d k = (n, k') ->
  opened k' = opened k /\ n <= zlen d /\ (forall fd', fd' <> fd -> written fd' k' = written fd' k) /\
  (0 <= fd -> written fd k' = written fd k ++ take (Z.to_nat n) d) /\ (fd < 0 -> n = -1).
Proof.
  unfold send_some. destruct (Z.ltb_spec fd 0).
  { intros [= <- <-]. split; [done|]. split; [unfold zlen; lia|]. split; [done|].
    split; [intros; lia|done]. }
  destruct (length d =? 0)%nat.
  { intros [= <- <-]. split; [done|]. split; [unfold zlen; lia|]. split; [done|].
    split; [by rewrite app_nil_r|lia]. }
  destruct (sys_send fd d k) as [a k1] eqn:E. apply sys_send_spec in E as (Ho & Hw & Ha).
  destruct a; intros [= <- <-]; (split; [done|]).
  - split; [unfold zlen; lia|]. split; [done|]. split; [|lia]. rewrite Nat2Z.id. by destruct Ha.
  - split; [unfold zlen; lia|]. split; [done|]. split; [|lia]. by rewrite app_nil_r.
  - split; [unfold zlen; lia|]. split; [done|]. split; [|lia]. by rewrite app_nil_r.
Qed.

Lemma recv_some_spec fd cap k r k' :
  recv_some fd cap k = (r, k') -> undisturbed k k' /\
  match r with
  | RecvData d => 0 <= fd /\ d <> [] /\ (length d <= cap)%nat
  | _ => True
  end.
Proof.
  unfold recv_some. destruct (Z.ltb_spec fd 0); [intros [= <- <-]; split; [apply undisturbed_refl|done]|].
  destruct (cap =? 0)%nat; [intros [= <- <-]; split; [apply undisturbed_refl|done]|].
  destruct (sys_recv fd cap k) as [a k1] eqn:E. apply sys_recv_spec in E as [Hu Ha].
  destruct a; intros [= <- <-]; by split.
Qed.
End Laws.

Section Invariant.
Context `{HL : !KernelLaws K}.

(** [S] are the descriptors that belong to the rest of the process. *)
Record posix_inv (S : gset Z) (x : bytes * PosixDaemonTransport) : Prop := {
  pi_distinct : distinct x.2;
  pi_opened : opened (kern x.2) = S ∪ owned x.2;
  pi_disjoint : owned x.2 ## S;
  pi_stream : data_written x.2 = x.1
}.

Lemma elem_fd_set fd x : x ∈ fd_set fd <-> x = fd /\ 0 <= fd.
Proof. unfold fd_set. destruct (Z.leb_spec 0 fd); set_solver by lia. Qed.

Lemma elem_owned x p :
  x ∈ owned p <-> (x = data_fd_ p /\ 0 <= data_fd_ p) \/ (x = conf_fd_ p /\ 0 <= conf_fd_ p).
Proof. unfold owned. rewrite elem_of_union, !elem_fd_set. done. Qed.

(** Calls that leave the descriptors alone. *)
Lemma posix_inv_kernel S acc acc' p p' :
  posix_inv S (acc, p) -> data_fd_ p' = data_fd_ p -> conf_fd_ p' = conf_fd_ p ->
  opened (kern p') = opened (kern p) -> data_written p' = acc' -> posix_inv S (acc', p').
Proof.
  intros [H1 H2 H3 H4] Hd Hc Ho Hw. unfold distinct, owned in *. simpl in *.
  split; simpl; try done; unfold distinct, owned; rewrite ?Hd, ?Hc, ?Ho; done.
Qed.

Lemma close_fd_opened fd k : opened (close_fd fd k) = opened k ∖ fd_set fd.
Proof.
  unfold close_fd, fd_set. destruct (Z.leb_spec 0 fd); [apply sys_close_spec|set_solver].
Qed.

Lemma posix_close_inv S acc p : posix_inv S (acc, p) -> posix_inv S ([], close p).
Proof.
  intros [H1 H2 H3 H4]. simpl in *. split; simpl.
  - intros H. simpl in H. lia.
  - rewrite !close_fd_opened, H2. unfold owned. simpl.
    assert (fd_set (-1) = ∅) as -> by done. set_solver.
  - unfold owned. simpl. assert (fd_set (-1) = ∅) as -> by done. set_solver.
  - done.
Qed.

Lemma posix_begin_inv S acc band p :
  posix_inv S (acc, p) -> posix_inv S ([], (begin_connect band p).2).
Proof.
  intros Hi. apply posix_close_inv in Hi as [_ H2 _ _]. cbn [snd] in H2. unfold begin_connect.
  set (p0 := close p) in *. set (dpath := match band with Band433 => _ | _ => _ end).
  set (cpath := match band with Band433 => conf433 _ | _ => _ end).
  assert (Hfd : data_fd_ p0 = -1 /\ conf_fd_ p0 = -1) by done. destruct Hfd as [Hd0 Hc0].
  assert (Hown : owned p0 = ∅) by (unfold owned; by rewrite Hd0, Hc0). rewrite Hown in H2.
  assert (Hempty : forall k dc cc, opened k = S ->
    posix_inv S ([], mkPosix (paths_ p0) (-1) (-1) dc cc k)).
  { intros k dc cc Hk. split; simpl; [intros H; simpl in H; lia| | |done].
    - rewrite Hk. unfold owned. simpl. set_solver.
    - unfold owned. simpl. set_solver. }
  destruct (unix_begin_connect dpath (kern p0)) as [[dfd dc] k1] eqn:E1.
  apply unix_begin_connect_spec in E1. destruct E1 as [k1 Ho1 _|dfd k1 H0 Hn Ho1 He1 Hw1].
  { apply Hempty. rewrite Ho1, H2. set_solver. }
  rewrite (proj2 (Z.ltb_ge _ _)) by lia. cbn [paths_ kern].
  change (kern (p0 <| data_connecting_ := dc |> <| kern := k1 |>)) with k1.
  destruct (unix_begin_connect cpath k1) as [[cfd cc] k2] eqn:E2.
  apply unix_begin_connect_spec in E2. destruct E2 as [k2 Ho2 _|cfd k2 H0' Hn' Ho2 He2 Hw2].
  { apply (Hempty (sys_close dfd k2) false cc). destruct (sys_close_spec dfd k2) as [-> _]. rewrite Ho2, Ho1, H2. set_solver. }
  rewrite (proj2 (Z.ltb_ge _ _)) by lia.
  assert (Hne : dfd <> cfd) by (intros ->; apply Hn'; rewrite Ho1; set_solver).
  split; simpl.
  - intros _. simpl. done.
  - rewrite Ho2, Ho1, H2. unfold owned, fd_set; simpl.
    rewrite !(proj2 (Z.leb_le _ _)) by lia. set_solver.
  - unfold owned, fd_set; simpl. rewrite !(proj2 (Z.leb_le _ _)) by lia.
    rewrite H2 in Hn. rewrite Ho1, H2 in Hn'. set_solver.
  - unfold data_written; simpl. rewrite (proj2 (Z.ltb_ge _ _)) by lia. by rewrite Hw2.
Qed.

Lemma data_written_undisturbed p k :
  undisturbed (kern p) k -> data_written (p <| kern := k |>) = data_written p.
Proof. intros [_ Hw]. unfold data_written; simpl. case_match; [done|]. apply Hw. Qed.

Lemma posix_op_inv S o x : posix_inv S x -> posix_inv S (do_op o x).
Proof.
  destruct x as [acc p]. intros Hi. pose proof Hi as [Hd Ho Hdj Hs]. simpl in Hd, Ho, Hs.
  destruct o as [band| |d|d|cap|cap|]; simpl.
  - by apply (posix_begin_inv S acc).
  - unfold poll_connect.
    destruct (check_one (data_fd_ p) _ _) as [[d dc] k1] eqn:E1. apply check_one_spec in E1.
    destruct (check_one (conf_fd_ p) _ _) as [[c cc] k2] eqn:E2. apply check_one_spec in E2.
    pose proof (undisturbed_trans _ _ _ E1 E2) as Hu.
    eapply posix_inv_kernel; [exact Hi|done|done|apply Hu|].
    by rewrite <- Hs, <- (data_written_undisturbed p k2 Hu).
  - unfold conf_send_some, on_kernel. destruct (send_some _ _ _) as [n k] eqn:E.
    apply send_some_spec in E as (Ho' & _ & Hw & _).
    eapply posix_inv_kernel; [exact Hi|done|done|done|]. rewrite <- Hs. unfold data_written; simpl.
    destruct (Z.ltb_spec (data_fd_ p) 0); [done|]. apply Hw. by apply Hd.
  - unfold data_send_some, on_kernel. destruct (send_some _ _ _) as [n k] eqn:E.
    apply send_some_spec in E as (Ho' & Hn & _ & Hw & Hneg).
    eapply posix_inv_kernel; [exact Hi|done|done|done|]. rewrite <- Hs. unfold data_written; simpl.
    destruct (Z.ltb_spec (data_fd_ p) 0) as [Hlt|]; [|by apply Hw]. by rewrite (Hneg Hlt).
  - unfold conf_recv, on_kernel. destruct (recv_some _ _ _) as [r k] eqn:E.
    apply recv_some_spec in E as [Hu _]. eapply posix_inv_kernel; [exact Hi|done|done|apply Hu|].
    rewrite <- Hs. exact (data_written_undisturbed p k Hu).
  - unfold data_recv, on_kernel. destruct (recv_some _ _ _) as [r k] eqn:E.
    apply recv_some_spec in E as [Hu _]. eapply posix_inv_kernel; [exact Hi|done|done|apply Hu|].
    rewrite <- Hs. exact (data_written_undisturbed p k Hu).
  - by apply (posix_close_inv S acc).
Qed.

Lemma posix_ops_inv S os x : posix_inv S x -> posix_inv S (do_ops os x).
Proof.
  revert x. induction os as [|o os IH]; intros x Hx; [done|]. apply IH. by apply posix_op_inv.
Qed.

Lemma posix_make_inv paths k : posix_inv (opened k) ([], make paths k).
Proof.
  split; simpl; [intros H; simpl in H; lia| | |done]; unfold owned; simpl; set_solver.
Qed.
End Invariant.

(** ** The contract *)

(** A transport whose descriptors are distinct, which every call keeps. *)
Definition posix : Type := { p : PosixDaemonTransport | distinct p }.

Section Contract.
Context `{HL : !KernelLaws K}.

Lemma distinct_kernel p k : distinct p -> distinct (p <| kern := k |>).
Proof. done. Qed.

Lemma distinct_on_kernel {A} (f : K -> A * K) p : distinct p -> distinct (on_kernel f p).2.
Proof. intros H. unfold on_kernel. by destruct (f (kern p)). Qed.

Lemma distinct_close p : distinct p -> distinct (close p).
Proof. intros _ H. simpl in H. lia. Qed.

Lemma distinct_poll p : distinct p -> distinct (poll_connect p).2.
Proof.
  intros H. unfold poll_connect. destruct (check_one (data_fd_ p) _ _) as [[] ?].
  by destruct (check_one (conf_fd_ p) _ _) as [[] ?].
Qed.

Lemma begin_connect_cases band p :
  distinct (begin_connect band p).2 /\ data_written (begin_connect band p).2 = [].
Proof.
  unfold begin_connect. set (p0 := close p). set (dpath := match band with Band433 => _ | _ => _ end).
  set (cpath := match band with Band433 => conf433 _ | _ => _ end).
  destruct (unix_begin_connect dpath (kern p0)) as [[dfd dc] k1] eqn:E1.
  apply unix_begin_connect_spec in E1. destruct E1 as [k1 _ _|dfd k1 H0 _ Ho1 He1 _].
  { split; [|done]. intros H. simpl in H. lia. }
  rewrite (proj2 (Z.ltb_ge _ _)) by lia.
  change (kern (p0 <| data_connecting_ := dc |> <| kern := k1 |>)) with k1.
  destruct (unix_begin_connect cpath k1) as [[cfd cc] k2] eqn:E2.
  apply unix_begin_connect_spec in E2. destruct E2 as [k2 _ _|cfd k2 H0' Hn' _ _ Hw2].
  { split; [|done]. intros H. simpl in H. lia. }
  rewrite (proj2 (Z.ltb_ge _ _)) by lia.
  assert (Hne : dfd <> cfd) by (intros ->; apply Hn'; rewrite Ho1; set_solver).
  split; [by intros _|]. unfold data_written; simpl.
  rewrite (proj2 (Z.ltb_ge _ _)) by lia. by rewrite Hw2.
Qed.

(** Lift a call to the subset. *)
Definition lift {A : Type} (f : PosixDaemonTransport -> A * PosixDaemonTransport)
    (Hf : forall p, distinct p -> distinct (f p).2) (t : posix) : A * posix :=
  ((f (proj1_sig t)).1, exist _ (f (proj1_sig t)).2 (Hf _ (proj2_sig t))).

#[export] Instance posix_daemon_transport : DaemonTransport posix := {|
  daemon_transport.begin_connect band :=
    lift (begin_connect band) (fun p _ => proj1 (begin_connect_cases band p));
  daemon_transport.poll_connect := lift poll_connect distinct_poll;
  daemon_transport.conf_send_some d := lift (conf_send_some d) (fun p => distinct_on_kernel _ p);
  daemon_transport.data_send_some d := lift (data_send_some d) (fun p => distinct_on_kernel _ p);
  daemon_transport.conf_recv cap := lift (conf_recv cap) (fun p => distinct_on_kernel _ p);
  daemon_transport.data_recv cap := lift (data_recv cap) (fun p => distinct_on_kernel _ p);
  daemon_transport.close t := exist _ (close (proj1_sig t)) (distinct_close _ (proj2_sig t));
  daemon_transport.conf_pending t := readable (conf_fd_ (proj1_sig t)) (kern (proj1_sig t));
  daemon_transport.data_pending t := readable (data_fd_ (proj1_sig t)) (kern (proj1_sig t));
  daemon_transport.data_sent t := data_written (proj1_sig t);
|}.

Lemma on_kernel_fds {A} (f : K -> A * K) p r p' :
  on_kernel f p = (r, p') -> data_fd_ p' = data_fd_ p /\ conf_fd_ p' = conf_fd_ p.
Proof. unfold on_kernel. destruct (f (kern p)). by intros [= _ <-]. Qed.

Lemma recv_law fd cap p d p' :
  on_kernel (recv_some fd cap) p = (RecvData d, p') ->
  d <> [] /\ (length d <= cap)%nat.
Proof.
  unfold on_kernel. destruct (recv_some fd cap (kern p)) as [r k] eqn:E.
  apply recv_some_spec in E as [_ Hr]. intros [= -> <-]. by destruct Hr as (_ & Hr).
Qed.

Lemma recv_written fd cap p r p' :
  on_kernel (recv_some fd cap) p = (r, p') -> data_written p' = data_written p.
Proof.
  unfold on_kernel. destruct (recv_some fd cap (kern p)) as [r0 k] eqn:E.
  apply recv_some_spec in E as [Hu _]. intros [= _ <-]. by apply (data_written_undisturbed p k).
Qed.

Lemma lift_eq {A} f Hf (t : posix) (r : A) t' :
  lift f Hf t = (r, t') -> f (proj1_sig t) = (r, proj1_sig t').
Proof. unfold lift. intros [= <- <-]. simpl. by destruct (f (proj1_sig t)). Qed.

#[export] Instance posix_laws : DaemonTransportLaws posix.
Proof.
  split.
  - intros cap t d t' E%lift_eq. by apply recv_law in E.
  - intros cap t d t' E%lift_eq. by apply recv_law in E.
  - intros d t w t' E%lift_eq. unfold data_send_some, on_kernel in E.
    destruct (send_some _ _ _) as [n k] eqn:Es. apply send_some_spec in Es as (_ & Hn & _ & Hw & Hneg).
    injection E as <- E. split; [done|]. simpl. rewrite <- E. unfold data_written; simpl.
    destruct (Z.ltb_spec (data_fd_ (proj1_sig t)) 0) as [Hlt|Hge]; [by rewrite (Hneg Hlt)|by apply Hw].
  - intros band t ok t' E%lift_eq. left. simpl.
    pose proof (proj2 (begin_connect_cases band (proj1_sig t))) as H. by rewrite E in H.
  - intros t cs t' E%lift_eq. simpl. unfold poll_connect in E.
    destruct (check_one (data_fd_ _) _ _) as [[d dc] k1] eqn:E1. apply check_one_spec in E1.
    destruct (check_one (conf_fd_ _) _ _) as [[c cc] k2] eqn:E2. apply check_one_spec in E2.
    pose proof (undisturbed_trans _ _ _ E1 E2) as Hu. injection E as _ <-.
    exact (data_written_undisturbed (proj1_sig t) k2 Hu).
  - intros d t w t' E%lift_eq. simpl. unfold conf_send_some, on_kernel in E.
    destruct (send_some _ _ _) as [n k] eqn:Es. apply send_some_spec in Es as (_ & _ & Hw & _).
    injection E as _ <-. unfold data_written; simpl.
    destruct (Z.ltb_spec (data_fd_ (proj1_sig t)) 0) as [|Hge]; [done|]. apply Hw.
    by apply (proj2_sig t).
  - intros cap t r t' E%lift_eq. by apply recv_written in E.
  - intros cap t r t' E%lift_eq. by apply recv_written in E.
Qed.

Lemma recv_arrived `{!KernelInput K} fd cap p d p' :
  on_kernel (recv_some fd cap) p = (RecvData d, p') -> (readable fd (kern p') < readable fd (kern p))%nat.
Proof.
  unfold on_kernel, recv_some. destruct (fd <? 0); [done|]. destruct (cap =? 0)%nat; [done|].
  destruct (sys_recv fd cap (kern p)) as [[] k] eqn:E; try done. intros [= -> <-]. by apply sys_recv_arrived in E.
Qed.

#[export] Instance posix_arrived `{!KernelInput K} : ArrivedInput posix.
Proof.
  split; intros cap t d t' E%lift_eq; destruct (on_kernel_fds _ _ _ _ E) as [Hd Hc]; simpl;
    rewrite ?Hd, ?Hc; by apply recv_arrived in E.
Qed.

(** The descriptors of the rest of the process, whatever the owner calls. *)
Definition beside (S : gset Z) (t : posix) : Prop := exists acc, posix_inv S (acc, proj1_sig t).

#[export] Instance beside_invariant S : TransportInvariant (beside S).
Proof.
  split; [intros band t [acc H]|intros t [acc H]|intros d t [acc H]|intros d t [acc H]|intros cap t [acc H]
         |intros cap t [acc H]|intros t [acc H]].
  - exact (ex_intro _ _ (posix_op_inv S (OpBegin band) _ H)).
  - exact (ex_intro _ _ (posix_op_inv S OpPoll _ H)).
  - exact (ex_intro _ _ (posix_op_inv S (OpConfSend d) _ H)).
  - pose proof (posix_op_inv S (OpDataSend d) _ H) as H'. cbn [do_op] in H'.
    unfold beside; cbn. destruct (data_send_some d (proj1_sig t)) as [n p]. by eexists.
  - exact (ex_intro _ _ (posix_op_inv S (OpConfRecv cap) _ H)).
  - exact (ex_intro _ _ (posix_op_inv S (OpDataRecv cap) _ H)).
  - exact (ex_intro _ _ (posix_op_inv S OpClose _ H)).
Qed.
End Contract.

(** A connect that is done: at once, or pending and now writable without error. *)
Definition established (fd : Z) (connecting : bool) (k k' : K) : Prop :=
  0 <= fd /\ if connecting then sys_poll_out fd k = PollWritable /\ sys_so_error fd k = (Some 0, k')
             else k' = k.

Lemma check_one_connected fd c k k' :
  established fd c k k' <-> (check_one fd c k).1.1 = CsConnected /\ (check_one fd c k).2 = k'.
Proof.
  unfold established, check_one. destruct (Z.ltb_spec fd 0); [naive_solver lia|].
  destruct c; simpl; [|naive_solver]. destruct (sys_poll_out fd k); simpl; try naive_solver.
  destruct (sys_so_error fd k) as [[e|] k1]; simpl; [|naive_solver].
  destruct (Z.eqb_spec e 0); simpl; naive_solver.
Qed.

Lemma check_one_stable fd c k cc k' : check_one fd c k = ((CsConnected, cc), k') -> cc = false /\ 0 <= fd.
Proof.
  unfold check_one. destruct (Z.ltb_spec fd 0); [done|]. destruct c; [|by intros [= <- <-]].
  cbn [negb]. destruct (sys_poll_out fd k); try done.
  destruct (sys_so_error fd k) as [[e|] k1]; [|done]. destruct (e =? 0); [|done]. by intros [= <- <-].
Qed.

(** * Properties *)

Section Properties.
Context `{HL : !KernelLaws K}.

(** C21. The transport leaks no descriptor and loses no byte: whatever the kernel
    answers and however the calls are ordered, the descriptors the process has
    open are those it had before and the (at most two, distinct) the transport
    holds, and after [close] exactly those it had before -- in particular a
    connect that fails half way leaves nothing open; and the bytes written to
    the DATA descriptor are exactly those [data_send_some] reported as accepted
    since the last connect, in order. *)
Theorem posix_transport_sound (paths : DaemonPaths) (k : K) (os : list op) :
  let '(accepted, p) := do_ops os ([], make paths k) in
  opened (kern p) = opened k ∪ owned p /\ owned p ## opened k /\ distinct p /\
  opened (kern (close p)) = opened k /\ data_written p = accepted.
Proof.
  pose proof (posix_make_inv paths k) as Hi. apply (posix_ops_inv _ os) in Hi.
  destruct (do_ops os ([], make paths k)) as [acc p]. pose proof Hi as [H1 H2 H3 H5].
  split; [done|]. split; [done|]. split; [done|]. split; [|exact H5].
  apply posix_close_inv in Hi as [_ H4 _ _].
  cbn [snd] in H4 |- *. etrans; [exact H4|]. unfold owned. simpl. set_solver.
Qed.

(** Connected means connected: [poll_connect] reports [Connected] exactly
    when both descriptors are open and each connect that was still in progress
    is, at its turn, writable with no error pending on the socket; it then stays
    reported without a further look at the sockets. *)
Theorem posix_connected_exact (p : PosixDaemonTransport) :
  ((poll_connect p).1 = CsConnected <->
   exists k1 k2, established (data_fd_ p) (data_connecting_ p) (kern p) k1 /\
                 established (conf_fd_ p) (conf_connecting_ p) k1 k2) /\
  ((poll_connect p).1 = CsConnected -> poll_connect (poll_connect p).2 = (CsConnected, (poll_connect p).2)).
Proof.
  unfold poll_connect.
  pose proof (check_one_connected (data_fd_ p) (data_connecting_ p) (kern p)) as Hd.
  destruct (check_one (data_fd_ p) _ _) as [[d dc] k1] eqn:E1.
  pose proof (check_one_connected (conf_fd_ p) (conf_connecting_ p) k1) as Hc.
  destruct (check_one (conf_fd_ p) _ k1) as [[c cc] k2] eqn:E2.
  cbn [fst snd] in *. split.
  - split.
    + intros H. destruct d, c; try done. exists k1, k2. split; [by apply Hd|by apply Hc].
    + intros (k1' & k2' & Hk1 & Hk2). apply Hd in Hk1 as [-> ->]. by apply Hc in Hk2 as [-> ->].
  - intros H. destruct d; [by destruct c| |done]. destruct c; [done| |done].
    apply check_one_stable in E1 as [-> H1]. apply check_one_stable in E2 as [-> H2].
    unfold check_one. simpl. by rewrite !(proj2 (Z.ltb_ge _ _)) by lia.
Qed.
End Properties.
End Transport.

(** ** Witnesses: a small kernel *)

Module posix_witnesses.

(** [answers] are the answers of the next connects (done when used up), [inq]
    the chunks of the next reads. *)
Record toy := mkToy {
  fds : list Z;
  contents : Z -> bytes;
  answers : list connect_answer;
  inq : list bytes
}.

Definition new_fd (k : toy) : Z := 1 + foldr Z.max 0 (fds k).

Definition toy_socket (k : toy) : option Z * toy :=
  let fd := new_fd k in
  (Some fd, mkToy (fd :: fds k) (fun x => if x =? fd then [] else contents k x) (answers k) (inq k)).

Definition toy_send (fd : Z) (d : bytes) (k : toy) : send_answer * toy :=
  let n := Nat.min 3 (length d) in
  (Sent n, mkToy (fds k) (fun x => if x =? fd then contents k fd ++ take n d else contents k x)
             (answers k) (inq k)).

Definition toy_recv (fd : Z) (cap : nat) (k : toy) : recv_answer * toy :=
  match inq k with
  | [] => (RecvAgain, k)
  | d :: rest =>
      (if (0 <? length d)%nat && (length d <=? cap)%nat then Got d else GotEof,
       mkToy (fds k) (contents k) (answers k) rest)
  end.

Definition toy_connect (fd : Z) (path : bytes) (k : toy) : connect_answer * toy :=
  match answers k with
  | [] => (ConnDone, k)
  | a :: rest => (a, mkToy (fds k) (contents k) rest (inq k))
  end.

#[export] Instance toy_kernel : Kernel toy := {|
  sys_is_socket _ _ := false;
  sys_socket := toy_socket;
  sys_getfl _ _ := Some 2;
  sys_setfl _ _ k := (true, k);
  sys_connect := toy_connect;
  sys_poll_out _ _ := PollWritable;
  sys_so_error _ k := (Some 0, k);
  sys_send := toy_send;
  sys_recv := toy_recv;
  sys_close fd k := mkToy (filter (fun x => x <> fd) (fds k)) (contents k) (answers k) (inq k);
  opened k := list_to_set (fds k);
  written fd k := contents k fd;
  readable _ k := length (inq k);
|}.

Lemma max_bound l x : x ∈ l -> x <= foldr Z.max 0 l.
Proof.
  induction l as [|y l IH]; [by intros ?%not_elem_of_nil|]. rewrite elem_of_cons; simpl.
  intros [->|H]; [lia|]. apply IH in H. lia.
Qed.

Lemma max_nonneg l : 0 <= foldr Z.max 0 l.
Proof. induction l; simpl; lia. Qed.

#[export] Instance toy_laws : KernelLaws toy.
Proof.
  split; simpl.
  - intros k r k' [= <- <-]. simpl. unfold new_fd. pose proof (max_nonneg (fds k)). split; [lia|].
    split; [|split; [done|split; [by rewrite Z.eqb_refl|]]].
    + rewrite elem_of_list_to_set. intros Hin%max_bound. lia.
    + intros fd' Hne. by rewrite (proj2 (Z.eqb_neq _ _)).
  - by intros fd fl k r k' [= _ <-].
  - unfold toy_connect. intros fd p k r k'. destruct (answers k); by intros [= _ <-].
  - by intros fd k r k' [= _ <-].
  - intros fd d k r k' [= <- <-]. simpl. split; [done|]. split.
    + intros fd' Hne. by rewrite (proj2 (Z.eqb_neq _ _)).
    + rewrite Z.eqb_refl. split; [apply (Nat.le_min_r 3)|done].
  - unfold toy_recv. intros fd cap k r k'. destruct (inq k) as [|d rest] eqn:E; [by intros [= <- <-]|].
    intros [= <- <-]. split; [done|].
    destruct ((0 <? length d)%nat && (length d <=? cap)%nat) eqn:El; [|done].
    apply andb_true_iff in El as [E1 E2]. simpl.
    split; [by destruct d|lia].
  - intros fd k. split; [|done]. simpl. apply set_eq. intros x.
    rewrite elem_of_difference, !elem_of_list_to_set, list_elem_of_filter, elem_of_singleton. naive_solver.
Qed.

#[export] Instance toy_input : KernelInput toy.
Proof.
  split. intros fd cap k d k'. cbn [sys_recv readable toy_kernel]. unfold toy_recv.
  destruct (inq k) as [|d0 rest]; [done|]. intros [= _ <-]. simpl. lia.
Qed.

Definition kernel : toy := mkToy [0; 1; 2] (fun _ => []) [ConnDone; ConnRefused; ConnInProgress] [[7; 8]].
Definition paths : DaemonPaths := default_daemon_paths kernel.
Definition calls : list op :=
  [OpBegin Band433; OpBegin Band868; OpPoll; OpDataSend [1; 2; 3; 4; 5]; OpDataSend [4; 5]; OpConfRecv 16].

(** The first connect fails half way, the second succeeds. *)
Lemma posix_transport_sound_witness :
  let p := (do_ops calls ([], make paths kernel)).2 in
  data_fd_ p = 3 /\ conf_fd_ p = 4 /\
  opened (kern (close p)) = opened kernel /\ data_written p = [1; 2; 3; 4; 5].
Proof.
  split; [vm_compute; reflexivity|]. split; [vm_compute; reflexivity|].
  pose proof (posix_transport_sound paths kernel calls) as H.
  destruct (do_ops calls ([], make paths kernel)) as [acc p] eqn:E. cbn [snd].
  destruct H as (_ & _ & _ & H1 & H2). split; [exact H1|]. rewrite H2.
  transitivity ((do_ops calls ([], make paths kernel)).1); [by rewrite E|]. vm_compute. reflexivity.
Defined.

Definition connecting : PosixDaemonTransport :=
  (begin_connect Band433 (make paths (mkToy [0; 1; 2] (fun _ => []) [ConnInProgress; ConnDone] []))).2.

Lemma posix_connected_exact_witness :
  data_connecting_ connecting = true /\ (poll_connect connecting).1 = CsConnected /\
  poll_connect (poll_connect connecting).2 = (CsConnected, (poll_connect connecting).2).
Proof.
  split; [vm_compute; reflexivity|]. split; [vm_compute; reflexivity|].
  apply (proj2 (posix_connected_exact connecting)). vm_compute. reflexivity.
Defined.
End posix_witnesses.
End posix_transport.
