(* ===== verification/Listener.v ===== *)
(** The listening socket of the bridge: [XrServer::listen] of
    src/xr/xr_server.{h,cpp}, over the kernel of [PosixTransport] with the calls
    that set up an IPv4 listener. *)

From stdpp Require Import gmap.
From S2P Require Import Prelude.
From S2P Require Import PosixTransport.

Module listener.
Import posix_transport.

Class NetKernel (K : Type) `{!Kernel K} := {
  sys_socket_inet : K -> option Z * K;
  (** [setsockopt(fd, SOL_SOCKET, SO_REUSEADDR)], its result ignored. *)
  sys_reuseaddr : Z -> K -> K;
  (** [inet_pton(AF_INET, ...)]. *)
  sys_inet_pton : bytes -> option Z;
  sys_bind : Z -> Z -> Z -> K -> bool * K;
  sys_listen : Z -> Z -> K -> bool * K;
  (** The port of [getsockname]. *)
  sys_getsockname : Z -> K -> option Z;
}.

Class NetKernelLaws (K : Type) `{!Kernel K} `{!NetKernel K} := {
  sys_socket_inet_spec k r k' :
    sys_socket_inet k = (r, k') ->
    match r with
    | Some fd => 0 <= fd /\ (fd ∉ opened k) /\ opened k' = {[ fd ]} ∪ opened k
    | None => opened k' = opened k
    end;
  sys_reuseaddr_spec fd k : opened (sys_reuseaddr fd k) = opened k;
  sys_bind_spec fd a p k : opened (sys_bind fd a p k).2 = opened k;
  sys_listen_spec fd n k : opened (sys_listen fd n k).2 = opened k;
  sys_getsockname_port fd k p : sys_getsockname fd k = Some p -> is_u16 p;
}.

Section Listen.
Context {K : Type} `{HK : !Kernel K} `{HN : !NetKernel K}.

(** [listen_fd_] and [bound_port_]. *)
Record Listener := mkListener { listen_fd_ : Z; bound_port_ : Z }.

Definition unbound : Listener := mkListener (-1) 0.

Definition kBacklog : Z := 4.

(** xr_server.cpp has its own copy of this helper. *)
Definition set_nonblocking (fd : Z) (k : K) : bool * K :=
  match sys_getfl fd k with
  | None => (false, k)
  | Some fl => sys_setfl fd (Z.lor fl O_NONBLOCK) k
  end.

(** The error message ([None]: success), the object and the kernel afterwards. *)
Definition listen (bind_addr : bytes) (port : Z) (l : Listener) (k : K)
    : option bytes * Listener * K :=
  match sys_socket_inet k with
  | (None, k) => (Some (str "socket() failed"), l, k)
  | (Some fd, k) =>
      let k := sys_reuseaddr fd k in
      match sys_inet_pton (c_str bind_addr) with
      | None => (Some (str "invalid bind address"), l, sys_close fd k)
      | Some addr =>
          let '(ok, k) := sys_bind fd addr port k in
          if negb ok then (Some (str "bind() failed"), l, sys_close fd k) else
          let '(ok, k) := sys_listen fd kBacklog k in
          if negb ok then (Some (str "listen() failed"), l, sys_close fd k) else
          let '(ok, k) := set_nonblocking fd k in
          if negb ok then (Some (str "fcntl(O_NONBLOCK) failed"), l, sys_close fd k) else
          (None,
           mkListener fd match sys_getsockname fd k with Some p => p | None => bound_port_ l end, k)
      end
  end.

(** The destructor's part: [if (listen_fd_ >= 0) ::close(listen_fd_)]. *)
Definition close_listener (l : Listener) (k : K) : K :=
  if 0 <=? listen_fd_ l then sys_close (listen_fd_ l) k else k.

(** ** A listener or nothing

    [listen] either opens exactly the descriptor it keeps, or leaves the object
    and the open descriptors as they were. *)
Context `{HL : !KernelLaws K} `{HNL : !NetKernelLaws K}.

Lemma closed_again fd k k' :
  fd ∉ opened k -> opened k' = {[ fd ]} ∪ opened k -> opened (sys_close fd k') = opened k.
Proof. intros Hn Ho. rewrite (proj1 (sys_close_spec fd k')), Ho. set_solver. Qed.

Lemma listen_spec bind_addr port l k err l' k' :
  listen bind_addr port l k = (err, l', k') ->
  match err with
  | Some why => l' = l /\ opened k' = opened k /\ why <> []
  | None => 0 <= listen_fd_ l' /\ (listen_fd_ l' ∉ opened k) /\ opened k' = {[ listen_fd_ l' ]} ∪ opened k /\
            (bound_port_ l' = bound_port_ l \/ is_u16 (bound_port_ l'))
  end.
Proof.
  unfold listen. destruct (sys_socket_inet k) as [[fd|] k0] eqn:Es; apply sys_socket_inet_spec in Es;
    [|by intros [= <- <- <-]].
  destruct Es as (H0 & Hn & Ho). rewrite <- (sys_reuseaddr_spec fd k0) in Ho.
  set (k1 := sys_reuseaddr fd k0) in *.
  destruct (sys_inet_pton _) as [addr|]; [|intros [= <- <- <-]; by rewrite (closed_again _ k)].
  pose proof (sys_bind_spec fd addr port k1) as Hb. destruct (sys_bind fd addr port k1) as [[] k2];
    cbn [negb snd] in *; rewrite <- Hb in Ho; [|intros [= <- <- <-]; by rewrite (closed_again _ k)].
  pose proof (sys_listen_spec fd kBacklog k2) as Hl. destruct (sys_listen fd kBacklog k2) as [[] k3];
    cbn [negb snd] in *; rewrite <- Hl in Ho; [|intros [= <- <- <-]; by rewrite (closed_again _ k)].
  destruct (set_nonblocking fd k3) as [ok k4] eqn:Enb. apply set_nonblocking_spec in Enb as [Hnb _].
  rewrite <- Hnb in Ho. destruct ok; cbn [negb]; [|intros [= <- <- <-]; by rewrite (closed_again _ k)].
  intros [= <- <- <-]. cbn. split; [done|]. split; [done|]. split; [done|].
  destruct (sys_getsockname fd k4) as [p|] eqn:Eg; [right; by eapply sys_getsockname_port|by left].
Qed.
End Listen.
End listener.
