(* ===== verification/LorahamBackend.v ===== *)
(** The LoRaHAM daemon adapter: src/backend/loraham/loraham_backend.{h,cpp}.

    [world] is the backend object together with what it acts on: the transport,
    the sink events delivered so far in the current call, and the calls made to
    the RF log (newest last).  Every method of the class is a function on
    worlds.  [rbuf_] is scratch space of one call and has no counterpart;
    [logf] lines are not modelled. *)

From S2P Require Import Prelude.
From S2P Require Import StreamLoop.
From S2P Require Import XrCodec.
From S2P Require Import RadioBackend.
From S2P Require Import LorahamConfig.
From S2P Require Import LorahamFraming.
From S2P Require Import DaemonTransport.

Module loraham_backend.
Import extradio radio_backend loraham_config loraham daemon_transport.

Inductive State :=
  | Disconnected | Connecting | Configuring | Ready | TxWriting | TxPending | Draining | Faulted.

#[export] Instance State_eq_dec : EqDecision State.
Proof. solve_decision. Defined.

Inductive TxFlush := Complete | Partial | FlushFailed.

Definition kReadChunk : nat := 512.
Definition kMaxConfLine : nat := 1024.

(** The outcome word of an RF log TX line. *)
Inductive tx_log_outcome := LogOk | LogUnconfirmed.

(** Calls of [rflog::rx] and [rflog::tx]. *)
Inductive rflog_call :=
  | rflog_rx (rssi snr : Z) (rf : bytes)
  | rflog_tx (outcome : tx_log_outcome) (rf : bytes).

Record LorahamBackend := mkLorahamBackend {
  config_timeout_ms_ : Z;
  drain_timeout_ms_ : Z;
  sink_ : bool;
  started_ : bool;
  state_ : State;
  config_token_ : Z;
  next_token_ : Z;
  config_deadline_at_ : Z;
  pending_cfg_ : RadioConfig;
  conf_out_ : bytes;
  conf_out_off_ : nat;
  awaiting_status_ : bool;
  conf_line_ : bytes;
  drain_deadline_at_ : Z;
  tx_out_ : bytes;
  tx_out_off_ : nat;
  tx_epoch_ : Z;
  pending_epoch_ : Z;
  parser_ : loraham.Parser
}.

#[export] Instance eta_LorahamBackend : Eta LorahamBackend := fun b => {|
  config_timeout_ms_ := config_timeout_ms_ b;
  drain_timeout_ms_ := drain_timeout_ms_ b;
  sink_ := sink_ b;
  started_ := started_ b;
  state_ := state_ b;
  config_token_ := config_token_ b;
  next_token_ := next_token_ b;
  config_deadline_at_ := config_deadline_at_ b;
  pending_cfg_ := pending_cfg_ b;
  conf_out_ := conf_out_ b;
  conf_out_off_ := conf_out_off_ b;
  awaiting_status_ := awaiting_status_ b;
  conf_line_ := conf_line_ b;
  drain_deadline_at_ := drain_deadline_at_ b;
  tx_out_ := tx_out_ b;
  tx_out_off_ := tx_out_off_ b;
  tx_epoch_ := tx_epoch_ b;
  pending_epoch_ := pending_epoch_ b;
  parser_ := parser_ b
|}.

Definition zero_config : RadioConfig := mkRadioConfig 0 0 0 0 0 0 0 0 0.

(** The constructor; the defaults are 2000 and 30000 ms. *)
Definition make (config_timeout_ms drain_timeout_ms : Z) : LorahamBackend := {|
  config_timeout_ms_ := config_timeout_ms;
  drain_timeout_ms_ := drain_timeout_ms;
  sink_ := false;
  started_ := false;
  state_ := Disconnected;
  config_token_ := 0;
  next_token_ := 0;
  config_deadline_at_ := 0;
  pending_cfg_ := zero_config;
  conf_out_ := [];
  conf_out_off_ := 0;
  awaiting_status_ := false;
  conf_line_ := [];
  drain_deadline_at_ := 0;
  tx_out_ := [];
  tx_out_off_ := 0;
  tx_epoch_ := 0;
  pending_epoch_ := 0;
  parser_ := loraham.mkParser []
|}.

(** ** CONF lines *)

Definition is_broadcast_line (s : bytes) : bool :=
  starts_with s (str "TX=") || starts_with s (str "CAD=") || starts_with s (str "RSSI=").

(** Trailing CR, blanks and tabs removed. *)
Definition is_trailing (c : Z) : bool := (c =? CR) || (c =? SP) || (c =? TAB).
Fixpoint rtrim (s : bytes) : bytes :=
  match s with
  | [] => []
  | c :: s => match rtrim s with
              | [] => if is_trailing c then [] else [c]
              | s' => c :: s'
              end
  end.

Inductive line_verdict := LineIgnored | LineFatal | LineStatus (ready : bool).

(** What [pump_conf] makes of one trimmed line. *)
Definition conf_line_verdict (awaiting_status : bool) (line : bytes) : line_verdict :=
  if (length line =? 0)%nat then LineIgnored else
  if is_broadcast_line line then LineIgnored else
  if awaiting_status && bytes_eqb line (str "OK") then LineIgnored else
  if awaiting_status && starts_with line (str "ERR") then LineFatal else
  if starts_with line (str "STATUS") then
    if negb awaiting_status then LineFatal
    else LineStatus (status_line_radio_ready line)
  else LineFatal.

(** The [while] over the complete lines of the reassembly buffer; each round
    removes at least the line end. *)
Fixpoint conf_lines (fuel : nat) (awaiting_status : bool) (buf : bytes) : line_verdict * bytes :=
  match fuel with
  | O => (LineIgnored, buf)
  | S fuel =>
      match find_byte LF buf with
      | None => (LineIgnored, buf)
      | Some nl =>
          let line := rtrim (take nl buf) in
          let buf := drop (nl + 1) buf in
          match conf_line_verdict awaiting_status line with
          | LineIgnored => conf_lines fuel awaiting_status buf
          | v => (v, buf)
          end
      end
  end.

(** ** The world of the backend *)

(** What the backend observes of the daemon and the clock: the link is lost or
    unusable (closed, failed, or breaking its protocol), a DATA frame arrived, a
    STATUS line arrived, the deadline has passed. *)
Inductive cause :=
  | LinkLost
  | FrameIn (f : loraham.Frame)
  | StatusIn (ready : bool)
  | Overdue.

(** The history of a call: observations, and what the sink is told, in order. *)
Inductive note := Saw (c : cause) | Told (e : SinkEvent).
Definition told (ns : list note) : list SinkEvent :=
  omap (fun n => match n with Told e => Some e | Saw _ => None end) ns.

Section Backend.
Context {T : Type} `{!DaemonTransport T}.

Record world := mkWorld {
  be : LorahamBackend;
  tr : T;
  ev : list note;
  rf : list rflog_call
}.

#[export] Instance eta_world : Eta world :=
  fun w => {| be := be w; tr := tr w; ev := ev w; rf := rf w |}.

Definition state (w : world) : State := state_ (be w).

(** Change the backend object. *)
Definition upd (f : LorahamBackend -> LorahamBackend) (w : world) : world :=
  w <| be := f (be w) |>.

(** [if (sink_) sink_->...]. *)
Definition deliver (e : SinkEvent) (w : world) : world :=
  if sink_ (be w) then w <| ev := ev w ++ [Told e] |> else w.

(** Record what the code has just observed; history only. *)
Definition saw (c : cause) (w : world) : world := w <| ev := ev w ++ [Saw c] |>.

Definition log_rf (c : rflog_call) (w : world) : world := w <| rf := rf w ++ [c] |>.

(** ** Settling the link *)

Definition reset_link_unconfigured (w : world) : world :=
  upd (fun b => b <| state_ := Disconnected |> <| parser_ := parser_reset (parser_ b) |>
                  <| conf_line_ := [] |> <| conf_out_ := [] |> <| conf_out_off_ := 0%nat |>
                  <| tx_out_ := [] |> <| tx_out_off_ := 0%nat |> <| awaiting_status_ := false |>)
      (w <| tr := close (tr w) |>).

Definition log_tx_outcome (outcome : tx_log_outcome) (w : world) : world :=
  if (length (tx_out_ (be w)) <=? kFramedHeaderLen)%nat then w
  else log_rf (rflog_tx outcome (drop kFramedHeaderLen (tx_out_ (be w)))) w.

Definition enter_fault (w : world) : world :=
  let w := log_tx_outcome LogUnconfirmed w in
  upd (fun b => b <| state_ := Faulted |> <| parser_ := parser_reset (parser_ b) |>
                  <| conf_line_ := [] |> <| conf_out_ := [] |> <| conf_out_off_ := 0%nat |>
                  <| tx_out_ := [] |> <| tx_out_off_ := 0%nat |> <| awaiting_status_ := false |>)
      (w <| tr := close (tr w) |>).

Definition resolve_drain (w : world) : world := reset_link_unconfigured w.

Definition handle_disconnect (w : world) : world :=
  match state w with
  | Draining => enter_fault w
  | TxPending => deliver on_backend_failure (enter_fault w)
  | _ => deliver on_backend_failure (reset_link_unconfigured w)
  end.

(** ** Configuration *)

Definition conf_commands (set_cmd : bytes) : bytes :=
  str "SET TXMODE=MANAGED" ++ [LF] ++
  str "SET TXQUEUE=1" ++ [LF] ++
  str "SET TXRESULT=1" ++ [LF] ++
  set_cmd ++
  str "GET STATUS" ++ [LF].

Definition begin_configure (now : Z) (requested : RadioConfig) (w : world) : Z * world :=
  match state w with
  | Faulted => (0, w)
  | Draining => (0, w)
  | Connecting | Configuring => (0, w)
  | TxWriting | TxPending => (0, w)
  | Disconnected | Ready =>
      match validate_config requested with
      | (Ok, Some band) =>
          match build_set_command requested with
          | None => (0, w)
          | Some set_cmd =>
              let '(started, t) := begin_connect band (tr w) in
              let w := w <| tr := t |> in
              if negb started then (0, w) else
              let token := u32 (next_token_ (be w) + 1) in
              (token,
               upd (fun b => b <| conf_out_ := conf_commands set_cmd |>
                               <| conf_out_off_ := 0%nat |>
                               <| awaiting_status_ := false |> <| conf_line_ := [] |>
                               <| parser_ := parser_reset (parser_ b) |>
                               <| pending_cfg_ := requested |> <| state_ := Connecting |>
                               <| config_deadline_at_ := u64 (now + config_timeout_ms_ b) |>
                               <| next_token_ := token |> <| config_token_ := token |>) w)
          end
      | _ => (0, w)
      end
  end.

Definition config_succeed (w : world) : world :=
  let w := upd (fun b => b <| state_ := Ready |> <| tx_epoch_ := u32 (tx_epoch_ b + 1) |>
                           <| conf_out_ := [] |> <| conf_out_off_ := 0%nat |>
                           <| awaiting_status_ := false |>) w in
  deliver (on_configure_complete (config_token_ (be w))
             {| applied := true; effective := pending_cfg_ (be w) |}) w.

Definition config_fail (w : world) : world :=
  let w := reset_link_unconfigured w in
  deliver (on_configure_complete (config_token_ (be w))
             {| applied := false; effective := zero_config |}) w.

(** The resumable write loop: [send] from offset [off]; each positive count
    moves the offset on, so [S (length out - off)] rounds are enough. *)
Fixpoint send_loop (fuel : nat) (send : bytes -> T -> Z * T) (out : bytes) (off : nat) (t : T)
    : TxFlush * nat * T :=
  match fuel with
  | O => (Partial, off, t)
  | S fuel =>
      if (length out <=? off)%nat then (Complete, off, t) else
      let '(n, t) := send (drop off out) t in
      if n <? 0 then (FlushFailed, off, t) else
      if n =? 0 then (Partial, off, t) else
      send_loop fuel send out (off + Z.to_nat n)%nat t
  end.

Definition send_all (send : bytes -> T -> Z * T) (out : bytes) (off : nat) (t : T)
    : TxFlush * nat * T := send_loop (S (length out - off)) send out off t.

(** The read loop of [pump_conf]: [None] when it returns false, else whether a
    status was seen and what it said; with the reassembly buffer left behind. *)
Fixpoint pump_conf_loop (fuel : nat) (awaiting_status : bool) (line : bytes) (t : T)
    : option (option bool) * bytes * T :=
  match fuel with
  | O => (Some None, line, t)
  | S fuel =>
      match conf_recv kReadChunk t with
      | (RecvErr, t) => (None, line, t)
      | (RecvNone, t) => (Some None, line, t)
      | (RecvData d, t) =>
          let line := line ++ d in
          if (kMaxConfLine <? length line)%nat then (None, line, t) else
          match conf_lines (S (length line)) awaiting_status line with
          | (LineFatal, line) => (None, line, t)
          | (LineStatus ready, line) => (Some (Some ready), line, t)
          | (LineIgnored, line) =>
              if (length d <? kReadChunk)%nat then (Some None, line, t)
              else pump_conf_loop fuel awaiting_status line t
          end
      end
  end.

Definition pump_conf (awaiting_status : bool) (w : world) : option (option bool) * world :=
  let '(r, line, t) :=
    pump_conf_loop (S (conf_pending (tr w))) awaiting_status (conf_line_ (be w)) (tr w) in
  (r, upd (fun b => b <| conf_line_ := line |>) (w <| tr := t |>)).

Definition advance_configure (w : world) : world :=
  let b := be w in
  let '(r, off, t) := send_all conf_send_some (conf_out_ b) (conf_out_off_ b) (tr w) in
  let w := upd (fun b => b <| conf_out_off_ := off |>) (w <| tr := t |>) in
  match r with
  | FlushFailed => config_fail (saw LinkLost w)
  | _ =>
      let w := if (length (conf_out_ (be w)) <=? conf_out_off_ (be w))%nat
               then upd (fun b => b <| awaiting_status_ := true |>) w else w in
      if negb (awaiting_status_ (be w)) then w else
      match pump_conf true w with
      | (None, w) => config_fail (saw LinkLost w)
      | (Some None, w) => w
      | (Some (Some true), w) => config_succeed (saw (StatusIn true) w)
      | (Some (Some false), w) => config_fail (saw (StatusIn false) w)
      end
  end.

Definition advance_connect (w : world) : world :=
  let '(cs, t) := poll_connect (tr w) in
  let w := w <| tr := t |> in
  match cs with
  | CsFailed => config_fail (saw LinkLost w)
  | CsConnecting => w
  | CsConnected => advance_configure (upd (fun b => b <| state_ := Configuring |>) w)
  end.

(** ** Transmission *)

Definition pump_tx_write (w : world) : TxFlush * world :=
  let '(r, off, t) := send_all data_send_some (tx_out_ (be w)) (tx_out_off_ (be w)) (tr w) in
  (r, upd (fun b => b <| tx_out_off_ := off |>) (w <| tr := t |>)).

Definition submit_tx (d : bytes) (w : world) : bool * world :=
  if negb (started_ (be w)) || negb (bool_decide (state w = Ready)) then (false, w) else
  if (length d =? 0)%nat || (kMaxRfPayload <? length d)%nat then (false, w) else
  match encode_tx_packet (Some (kFramedHeaderLen + kMaxRfPayload)%nat) (Some d) (length d) with
  | None => (false, w)
  | Some frame =>
      let w := upd (fun b => b <| tx_out_ := frame |> <| tx_out_off_ := 0%nat |>
                               <| tx_epoch_ := u32 (tx_epoch_ b + 1) |>
                               <| pending_epoch_ := u32 (tx_epoch_ b + 1) |>
                               <| state_ := TxWriting |>) w in
      match pump_tx_write w with
      | (FlushFailed, w) => (false, reset_link_unconfigured w)
      | (Complete, w) => (true, upd (fun b => b <| state_ := TxPending |>) w)
      | (Partial, w) => (true, w)
      end
  end.

Definition abandon_pending_tx (now : Z) (w : world) : world :=
  match state w with
  | TxPending =>
      upd (fun b => b <| state_ := Draining |>
                      <| drain_deadline_at_ := u64 (now + drain_timeout_ms_ b) |>) w
  | TxWriting => reset_link_unconfigured w
  | _ => w
  end.

(** ** Operation and recovery *)

(** Leaving [TxPending] with a terminal result: back to [Ready], and the result
    is delivered for the current transaction epoch only. *)
Definition finish_tx (o : TxOutcome) (w : world) : world :=
  let w := upd (fun b => b <| state_ := Ready |> <| tx_out_ := [] |> <| tx_out_off_ := 0%nat |>) w in
  if pending_epoch_ (be w) =? tx_epoch_ (be w) then deliver (on_tx_complete o) w else w.

Definition dispatch (f : loraham.Frame) (w : world) : world :=
  let w := saw (FrameIn f) w in
  if loraham.type f =? FRAMED_RX_PACKET then
    match decode_rx f with
    | None => w
    | Some (rssi, snr, rf) =>
        let w := log_rf (rflog_rx rssi snr rf) w in
        match state w with
        | Ready | TxWriting | TxPending =>
            deliver (on_rx {| rssi_cdbm := rssi; snr_cdb := snr; rx_data := rf |}) w
        | _ => w
        end
    end
  else if loraham.type f =? FRAMED_TX_RESULT then
    match decode_tx_result f with
    | None => w
    | Some (status, _, _) =>
        let w := if (status =? TX_STATUS_OK) &&
                    (bool_decide (state w = TxPending) || bool_decide (state w = Draining))
                 then log_tx_outcome LogOk w else w in
        match state w with
        | TxPending => finish_tx (map_tx_status status) w
        | Draining => resolve_drain w
        | _ => w
        end
    end
  else if loraham.type f =? FRAMED_ERROR then
    match state w with
    | TxPending => finish_tx RadioError w
    | Draining => resolve_drain w
    | _ => w
    end
  else w.

(** The DATA read loop of [advance_operational] and [advance_drain]; [stop]
    says when the frame just dispatched ends it.  The parser is taken out of
    the object for the inner loop; when a dispatched frame ends the loop it has
    torn the link down, which reset the parser. *)
Fixpoint data_loop (fuel : nat) (stop : world -> bool) (w : world) : world :=
  match fuel with
  | O => w
  | S fuel =>
      match data_recv kReadChunk (tr w) with
      | (RecvErr, t) => handle_disconnect (saw LinkLost (w <| tr := t |>))
      | (RecvNone, t) => w <| tr := t |>
      | (RecvData d, t) =>
          let p := parser_ (be w) in
          let w := upd (fun b => b <| parser_ := parser_reset p |>) (w <| tr := t |>) in
          match stream_loop dispatch stop w p d with
          | (Stopped, w, _) => w
          | (Failed, w, p) => handle_disconnect (saw LinkLost (upd (fun b => b <| parser_ := p |>) w))
          | (Drained, w, p) =>
              let w := upd (fun b => b <| parser_ := p |>) w in
              if (length d <? kReadChunk)%nat then w else data_loop fuel stop w
          end
      end
  end.

Definition torn_down (w : world) : bool :=
  match state w with Disconnected | Faulted | Draining => true | _ => false end.

Definition advance_operational (w : world) : world :=
  match pump_conf false w with
  | (None, w) => handle_disconnect (saw LinkLost w)
  | (Some _, w) =>
      let read w := data_loop (S (data_pending (tr w))) torn_down w in
      if bool_decide (state w = TxWriting) then
        match pump_tx_write w with
        | (FlushFailed, w) => deliver on_backend_failure (reset_link_unconfigured (saw LinkLost w))
        | (Complete, w) => read (upd (fun b => b <| state_ := TxPending |>) w)
        | (Partial, w) => read w
        end
      else read w
  end.

(** Lenient discard of CONF input. *)
Fixpoint drain_conf_loop (fuel : nat) (t : T) : T :=
  match fuel with
  | O => t
  | S fuel =>
      match conf_recv kReadChunk t with
      | (RecvData d, t) => if (length d <? kReadChunk)%nat then t else drain_conf_loop fuel t
      | (_, t) => t
      end
  end.

Definition drain_conf_input (w : world) : world :=
  w <| tr := drain_conf_loop (S (conf_pending (tr w))) (tr w) |>.

Definition drain_over (w : world) : bool := negb (bool_decide (state w = Draining)).

Definition advance_drain (now : Z) (w : world) : world :=
  if drain_deadline_at_ (be w) <=? now then enter_fault (saw Overdue w) else
  let w := drain_conf_input w in
  data_loop (S (data_pending (tr w))) drain_over w.

(** ** Lifecycle *)

Definition set_sink (on : bool) (w : world) : world := upd (fun b => b <| sink_ := on |>) w.
Definition start (w : world) : world := upd (fun b => b <| started_ := true |>) w.

Definition stop (w : world) : world :=
  match state w with
  | Draining | Faulted => upd (fun b => b <| started_ := false |>) w
  | _ => upd (fun b => b <| started_ := false |>) (reset_link_unconfigured w)
  end.

Definition ready (w : world) : bool := started_ (be w) && bool_decide (state w = Ready).

(** What the tests may ask. *)
Definition tx_in_flight (w : world) : bool :=
  match state w with TxWriting | TxPending | Draining => true | _ => false end.
Definition tx_writing (w : world) : bool := bool_decide (state w = TxWriting).
Definition draining (w : world) : bool := bool_decide (state w = Draining).
Definition faulted (w : world) : bool := bool_decide (state w = Faulted).
Definition configuring (w : world) : bool :=
  match state w with Connecting | Configuring => true | _ => false end.

Definition next_deadline_ms (w : world) : Z :=
  match state w with
  | Connecting | Configuring => config_deadline_at_ (be w)
  | Draining => drain_deadline_at_ (be w)
  | _ => UINT64_MAX
  end.

Definition poll (now : Z) (w : world) : world :=
  match state w with
  | Disconnected | Faulted => w
  | Connecting =>
      if config_deadline_at_ (be w) <=? now then config_fail (saw Overdue w) else advance_connect w
  | Configuring =>
      if config_deadline_at_ (be w) <=? now then config_fail (saw Overdue w) else advance_configure w
  | Ready | TxWriting | TxPending => advance_operational w
  | Draining => advance_drain now w
  end.

End Backend.

Arguments world T : clear implicits.
Arguments mkWorld {T}.

(** The backend behind the abstract class. *)
#[export] Instance loraham_radio_backend (T : Type) `{!DaemonTransport T}
  : RadioBackend (world T) := {|
  rb_set_sink := set_sink;
  rb_begin_configure := begin_configure;
  rb_start := start;
  rb_stop := stop;
  rb_ready := ready;
  rb_next_deadline_ms := next_deadline_ms;
  rb_submit_tx := submit_tx;
  rb_abandon_pending_tx := abandon_pending_tx;
  rb_poll now w := let w := poll now (w <| ev := [] |>) in (w, told (ev w));
|}.

End loraham_backend.
