(* ===== verification/BackendSteps.v ===== *)
(** The atomic transitions of the LoRaHAM backend.

    [poll] runs loops over sockets, lines and frames.  [tau] lists the atomic
    changes it can make to the world, with the conditions under which the code
    makes them; [poll_steps] shows that every [poll] is a sequence of them.
    Invariants are then proved once per transition.  The file also shows how the
    loops end: sends in as many rounds as bytes, receives as soon as a read does
    not fill its chunk. *)

From stdpp Require Import relations.
From S2P Require Import Prelude.
From S2P Require Import StreamLoop.
From S2P Require Import XrCodec.
From S2P Require Import RadioBackend.
From S2P Require Import LorahamConfig.
From S2P Require Import LorahamFraming.
From S2P Require Import DaemonTransport.
From S2P Require Import LorahamBackend.

Module backend_steps.
Import extradio radio_backend loraham_config loraham daemon_transport loraham_backend.

Definition operational (s : State) : bool :=
  match s with Ready | TxWriting | TxPending => true | _ => false end.

(** What ends a configuration without success. *)
Definition spoils (c : cause) : bool :=
  match c with LinkLost | StatusIn false | Overdue => true | _ => false end.

Section Steps.
Context {T : Type} `{HT : !DaemonTransport T} `{HL : !DaemonTransportLaws T}.

Abbreviation world := (world T).

(** A call on the transport other than a connect. *)
Inductive io : relation T :=
  | io_poll_connect t cs t' : poll_connect t = (cs, t') -> io t t'
  | io_conf_send d t n t' : conf_send_some d t = (n, t') -> io t t'
  | io_data_send d t n t' : data_send_some d t = (n, t') -> io t t'
  | io_conf_recv cap t r t' : conf_recv cap t = (r, t') -> io t t'
  | io_data_recv cap t r t' : data_recv cap t = (r, t') -> io t t'
  | io_close t : io t (close t).

Inductive tau : relation world :=
  | tau_io w t :
      rtc io (tr w) t -> data_sent t = data_sent (tr w) -> tau w (w <| tr := t |>)
  | tau_conf_line w l : tau w (upd (fun b => b <| conf_line_ := l |>) w)
  | tau_parser w p : tau w (upd (fun b => b <| parser_ := p |>) w)
  | tau_conf_off w n :
      state w = Configuring -> tau w (upd (fun b => b <| conf_out_off_ := n |>) w)
  | tau_awaiting w :
      state w = Configuring -> (length (conf_out_ (be w)) <= conf_out_off_ (be w))%nat ->
      tau w (upd (fun b => b <| awaiting_status_ := true |>) w)
  | tau_connected w :
      state w = Connecting -> tau w (upd (fun b => b <| state_ := Configuring |>) w)
  | tau_config_ok w :
      state w = Configuring -> awaiting_status_ (be w) = true ->
      tau w (config_succeed (saw (StatusIn true) w))
  | tau_config_fail w c :
      configuring w = true -> spoils c = true -> tau w (config_fail (saw c w))
  | tau_partial w off t :
      rtc io (tr w) t -> state w = TxWriting ->
      (tx_out_off_ (be w) <= off < length (tx_out_ (be w)))%nat ->
      data_sent t = data_sent (tr w) ++
                    take (off - tx_out_off_ (be w)) (drop (tx_out_off_ (be w)) (tx_out_ (be w))) ->
      tau w (upd (fun b => b <| tx_out_off_ := off |>) (w <| tr := t |>))
  | tau_complete w t :
      rtc io (tr w) t -> state w = TxWriting ->
      data_sent t = data_sent (tr w) ++ drop (tx_out_off_ (be w)) (tx_out_ (be w)) ->
      tau w (upd (fun b => b <| tx_out_off_ := length (tx_out_ b) |> <| state_ := TxPending |>)
               (w <| tr := t |>))
  | tau_write_failed w off t :
      rtc io (tr w) t -> state w = TxWriting ->
      (tx_out_off_ (be w) <= off < length (tx_out_ (be w)))%nat ->
      data_sent t = data_sent (tr w) ++
                    take (off - tx_out_off_ (be w)) (drop (tx_out_off_ (be w)) (tx_out_ (be w))) ->
      tau w (deliver on_backend_failure (reset_link_unconfigured (saw LinkLost (w <| tr := t |>))))
  | tau_dispatch w f :
      operational (state w) = true \/ state w = Draining -> tau w (dispatch f w)
  | tau_lost w :
      operational (state w) = true \/ state w = Draining -> tau w (handle_disconnect (saw LinkLost w))
  | tau_drain_timeout w : state w = Draining -> tau w (enter_fault (saw Overdue w)).

(** ** The write loop *)

Lemma send_loop_spec fuel out off t r off' t' :
  (length out - off < fuel)%nat -> (off <= length out)%nat ->
  send_loop fuel data_send_some out off t = (r, off', t') ->
  rtc io t t' /\ (off <= off' <= length out)%nat /\
  data_sent t' = data_sent t ++ take (off' - off) (drop off out) /\
  (r = Complete -> off' = length out) /\ (r <> Complete -> (off' < length out)%nat).
Proof.
  revert off t. induction fuel as [|fuel IH]; intros off t Hf Hoff E; [lia|]. simpl in E.
  destruct (Nat.leb_spec (length out) off).
  { simplify_eq. rewrite Nat.sub_diag, take_0, app_nil_r. split; [done|]. repeat split; [lia..|done]. }
  destruct (data_send_some (drop off out) t) as [n t1] eqn:Es.
  pose proof (io_data_send _ _ _ _ Es) as Hio.
  destruct (data_send_spec _ _ _ _ Es) as [Hn Hs].
  unfold zlen in Hn. rewrite length_drop in Hn.
  destruct (Z.ltb_spec n 0).
  { simplify_eq. rewrite Nat.sub_diag, take_0, app_nil_r. replace (Z.to_nat n) with 0%nat in Hs by lia.
    rewrite take_0, app_nil_r in Hs. split; [by apply rtc_once|]. repeat split; [lia | lia | done | done | done]. }
  destruct (Z.eqb_spec n 0) as [->|].
  { simplify_eq. rewrite Nat.sub_diag, take_0, app_nil_r. simpl in Hs. rewrite take_0, app_nil_r in Hs.
    split; [by apply rtc_once|]. repeat split; [lia | lia | done | done | done]. }
  apply IH in E as (Hios & H1 & H2 & H3 & H4); [|lia|lia]. split; [by eapply rtc_l|].
  repeat split; [lia | lia | | done | done].
  rewrite H2, Hs, <- app_assoc. f_equal.
  replace (off' - off)%nat with (Z.to_nat n + (off' - (off + Z.to_nat n)))%nat by lia.
  rewrite <- take_take_drop, drop_drop. done.
Qed.

Lemma pump_tx_write_spec w r w' :
  (tx_out_off_ (be w) <= length (tx_out_ (be w)))%nat ->
  pump_tx_write w = (r, w') ->
  exists off t,
    w' = upd (fun b => b <| tx_out_off_ := off |>) (w <| tr := t |>) /\ rtc io (tr w) t /\
    (tx_out_off_ (be w) <= off <= length (tx_out_ (be w)))%nat /\
    data_sent t = data_sent (tr w) ++
                  take (off - tx_out_off_ (be w)) (drop (tx_out_off_ (be w)) (tx_out_ (be w))) /\
    (r = Complete -> off = length (tx_out_ (be w))) /\
    (r <> Complete -> (off < length (tx_out_ (be w)))%nat).
Proof.
  intros Hoff. unfold pump_tx_write, send_all.
  destruct (send_loop _ _ _ _ _) as [[r' off] t] eqn:E. intros [= <- <-].
  apply send_loop_spec in E; [|lia|done]. exists off, t. naive_solver.
Qed.

(** Every round but the last moves the offset on: more fuel changes nothing. *)
Lemma send_loop_fuel send f1 f2 out off (t : T) :
  (length out - off < f1)%nat -> (length out - off < f2)%nat ->
  send_loop f1 send out off t = send_loop f2 send out off t.
Proof.
  revert f2 off t. induction f1 as [|f1 IH]; intros [|f2] off t H1 H2; try lia. simpl.
  destruct (Nat.leb_spec (length out) off); [done|].
  destruct (send (drop off out) t) as [n t1].
  destruct (Z.ltb_spec n 0); [done|]. destruct (Z.eqb_spec n 0); [done|].
  apply IH; lia.
Qed.

(** ** The receive loops

    A receive loop goes on only while each read fills the whole chunk.
    [floods recv n t]: the next [n] reads all do. *)
Fixpoint floods (recv : nat -> T -> recv_result * T) (n : nat) (t : T) : Prop :=
  match n with
  | O => True
  | S n => exists d t', recv kReadChunk t = (RecvData d, t') /\ (kReadChunk <= length d)%nat /\
             floods recv n t'
  end.

(** What has arrived bounds such a flood. *)
Lemma conf_flood_arrived `{!ArrivedInput T} n t : floods conf_recv n t -> (n <= conf_pending t)%nat.
Proof.
  revert t. induction n as [|n IH]; intros t; [lia|]. intros (d & t' & E & _ & H%IH).
  apply conf_arrived in E. lia.
Qed.
Lemma data_flood_arrived `{!ArrivedInput T} n t : floods data_recv n t -> (n <= data_pending t)%nat.
Proof.
  revert t. induction n as [|n IH]; intros t; [lia|]. intros (d & t' & E & _ & H%IH).
  apply data_arrived in E. lia.
Qed.

(** ** The CONF loop *)

Lemma conf_lines_fuel f1 f2 aw b :
  (length b < f1)%nat -> (length b < f2)%nat -> conf_lines f1 aw b = conf_lines f2 aw b.
Proof.
  revert f2 b. induction f1 as [|f1 IH]; intros [|f2] b H1 H2; try lia. simpl.
  destruct (find_byte LF b) as [nl|] eqn:E; [|done].
  apply find_byte_Some in E as (Hlt & _ & _).
  destruct (conf_line_verdict _ _); [|done..].
  apply IH; rewrite length_drop; lia.
Qed.

Lemma conf_lines_length f aw b v b' :
  conf_lines f aw b = (v, b') -> (length b' <= length b)%nat.
Proof.
  revert b. induction f as [|f IH]; simpl; intros b E; [by simplify_eq|].
  destruct (find_byte LF b) as [nl|]; [|by simplify_eq].
  assert (length (drop (nl + 1) b) <= length b)%nat by (rewrite length_drop; lia).
  destruct (conf_line_verdict _ _); [apply IH in E; lia | by simplify_eq | by simplify_eq].
Qed.

Lemma pump_conf_loop_ends n f aw l t :
  (n <= f)%nat -> pump_conf_loop f aw l t = pump_conf_loop n aw l t \/ floods conf_recv n t.
Proof.
  revert f l t. induction n as [|n IH]; intros [|f] l t Hf; try lia; [by right..|]. cbn [pump_conf_loop floods].
  destruct (conf_recv kReadChunk t) as [[| |d] t1]; [by left..|].
  case_match; [by left|]. destruct (conf_lines _ _ _) as [[] l1]; [|by left..].
  destruct (Nat.ltb_spec (length d) kReadChunk); [by left|].
  destruct (IH f l1 t1) as [->|]; [lia|by left|right; eauto].
Qed.

Lemma pump_conf_loop_data_sent f aw l t r l' t' :
  pump_conf_loop f aw l t = (r, l', t') -> rtc io t t' /\ data_sent t' = data_sent t.
Proof.
  revert l t. induction f as [|f IH]; cbn [pump_conf_loop]; intros l t E; [by simplify_eq|].
  destruct (conf_recv kReadChunk t) as [rr t1] eqn:Er.
  pose proof (data_sent_conf_recv _ _ _ _ Er) as Hd. apply io_conf_recv, rtc_once in Er.
  destruct rr as [| |d]; [by simplify_eq..|]. case_match; [by simplify_eq|].
  destruct (conf_lines _ _ _) as [[] l1]; [|by simplify_eq..].
  case_match; [by simplify_eq|]. apply IH in E as [Hio Hs]. split; [by etrans|congruence].
Qed.

Lemma pump_conf_steps aw w r w' :
  pump_conf aw w = (r, w') -> rtc tau w w' /\ exists l t,
    w' = upd (fun b => b <| conf_line_ := l |>) (w <| tr := t |>).
Proof.
  unfold pump_conf. destruct (pump_conf_loop _ _ _ _) as [[r' l] t] eqn:E. intros [= <- <-].
  apply pump_conf_loop_data_sent in E as [Hio E]. split; [|by eauto].
  eapply rtc_l; [by apply (tau_io w t)|]. apply rtc_once, tau_conf_line.
Qed.

Lemma drain_conf_loop_data_sent f t :
  rtc io t (drain_conf_loop f t) /\ data_sent (drain_conf_loop f t) = data_sent t.
Proof.
  revert t. induction f as [|f IH]; simpl; intros t; [done|].
  destruct (conf_recv kReadChunk t) as [rr t1] eqn:Er.
  pose proof (data_sent_conf_recv _ _ _ _ Er) as Hd. apply io_conf_recv, rtc_once in Er.
  destruct rr; try done. case_match; [done|]. destruct (IH t1) as [Hio Hs].
  split; [by etrans|congruence].
Qed.

Lemma drain_conf_loop_ends n f t :
  (n <= f)%nat -> drain_conf_loop f t = drain_conf_loop n t \/ floods conf_recv n t.
Proof.
  revert f t. induction n as [|n IH]; intros [|f] t Hf; try lia; [by right..|]. cbn [drain_conf_loop floods].
  destruct (conf_recv kReadChunk t) as [[| |d] t1]; [by left..|].
  destruct (Nat.ltb_spec (length d) kReadChunk); [by left|].
  destruct (IH f t1) as [->|]; [lia|by left|right; eauto].
Qed.

(** ** The DATA loop *)

Lemma dispatch_operational f w :
  operational (state w) = true -> operational (state (dispatch f w)) = true.
Proof.
  unfold dispatch, finish_tx, log_tx_outcome, deliver, log_rf, saw, state, upd.
  destruct (state_ (be w)) eqn:E; intros H; try done;
    repeat (case_match; simplify_eq/=; rewrite ?E in *); try done; congruence.
Qed.

(** A frame dispatched while draining leaves the drain going or ends it. *)
Lemma dispatch_draining f w :
  state w = Draining -> state (dispatch f w) = Draining \/ state (dispatch f w) = Disconnected.
Proof.
  unfold dispatch, resolve_drain, reset_link_unconfigured, log_tx_outcome, deliver, log_rf, saw, state, upd.
  intros E. simpl. rewrite E.
  repeat (case_match; simplify_eq/=; rewrite ?E in *); auto; congruence.
Qed.

(** Without a teardown the transport is left alone. *)
Lemma dispatch_tr f w :
  tr (dispatch f w) = tr w \/ (state w = Draining /\ state (dispatch f w) = Disconnected).
Proof.
  unfold dispatch, finish_tx, resolve_drain, reset_link_unconfigured, log_tx_outcome, deliver,
    log_rf, saw, state, upd.
  repeat (case_match; simplify_eq/=); auto.
Qed.

Section Loops.
Context (stop : world -> bool) (P : State -> Prop).
Context (P_active : forall s, P s -> operational s = true \/ s = Draining).
Context (P_dispatch : forall f w, P (state w) -> stop (dispatch f w) = false ->
           P (state (dispatch f w))).

Lemma data_loop_steps fuel w : P (state w) -> rtc tau w (data_loop fuel stop w).
Proof.
  revert w. induction fuel as [|fuel IH]; intros w HP; [apply rtc_refl|]. cbn [data_loop].
  destruct (data_recv kReadChunk (tr w)) as [r t] eqn:Er.
  pose proof (data_sent_data_recv _ _ _ _ Er) as Hd. apply io_data_recv, rtc_once in Er.
  eapply rtc_l; [by apply (tau_io w t)|].
  destruct r as [| |d]; [|apply rtc_refl|].
  { apply rtc_once, tau_lost. by apply P_active. }
  set (w1 := w <| tr := t |>). set (w2 := upd _ w1).
  assert (H2 : P (state w2)) by done.
  eapply rtc_l; [apply (tau_parser w1 (parser_reset (parser_ (be w))))|]. fold w2.
  destruct (stream_loop dispatch stop w2 (parser_ (be w)) d) as [[e w3] p] eqn:Es.
  apply (stream_loop_steps dispatch stop tau (fun w => P (state w))) in Es as [Hr H3];
    [|intros; apply tau_dispatch; by apply P_active | done | done].
  destruct e.
  - etrans; [exact Hr|].
    eapply rtc_l; [apply (tau_parser w3 p)|]. case_match; [apply rtc_refl|].
    apply IH. by apply H3.
  - done.
  - etrans; [exact Hr|].
    eapply rtc_l; [apply (tau_parser w3 p)|]. apply rtc_once, tau_lost.
    apply P_active. by apply H3.
Qed.

Context (P_stop : forall w, P (state w) -> forall f, state (dispatch f w) = Disconnected ->
           stop (dispatch f w) = true).

Lemma data_loop_ends n f w :
  P (state w) -> (n <= f)%nat ->
  data_loop f stop w = data_loop n stop w \/ floods data_recv n (tr w).
Proof.
  revert f w. induction n as [|n IH]; intros [|f] w HP Hf; try lia; [by right..|]. cbn [data_loop floods].
  destruct (data_recv kReadChunk (tr w)) as [[| |d] t] eqn:E; [by left..|].
  set (w2 := upd _ _).
  destruct (stream_loop dispatch stop w2 (parser_ (be w)) d) as [[e w3] p] eqn:Es.
  destruct e; [|by left..].
  assert (P (state w3) /\ tr w3 = t) as [HP3 Ht3].
  { apply (stream_loop_steps dispatch stop (fun _ _ => True)
      (fun w => P (state w) /\ tr w = t)) in Es as [_ Es]; [by apply Es | done | | done].
    intros f' w' [HP' Ht] Hs. split; [by apply P_dispatch|].
    destruct (dispatch_tr f' w') as [->|[_ Hdis]]; [done|].
    by rewrite (P_stop _ HP' f' Hdis) in Hs. }
  destruct (Nat.ltb_spec (length d) kReadChunk); [by left|].
  destruct (IH f (upd (fun b => b <| parser_ := p |>) w3)) as [->|Hfl]; [done|lia|by left|right].
  simpl in Hfl. rewrite Ht3 in Hfl. eauto.
Qed.
End Loops.

Lemma operational_loop_steps fuel w :
  operational (state w) = true -> rtc tau w (data_loop fuel torn_down w).
Proof.
  apply (data_loop_steps torn_down (fun s => operational s = true)); [by left|].
  intros. by apply dispatch_operational.
Qed.

Lemma drain_loop_steps fuel w :
  state w = Draining -> rtc tau w (data_loop fuel drain_over w).
Proof.
  apply (data_loop_steps drain_over (fun s => s = Draining)); [by right|].
  intros f w' _. unfold drain_over. intros Hs%negb_false_iff. by apply bool_decide_eq_true in Hs.
Qed.

Lemma operational_loop_ends n f w :
  operational (state w) = true -> (n <= f)%nat ->
  data_loop f torn_down w = data_loop n torn_down w \/ floods data_recv n (tr w).
Proof.
  apply (data_loop_ends torn_down (fun s => operational s = true)).
  - intros. by apply dispatch_operational.
  - intros w' _ f' Hd. unfold torn_down. by rewrite Hd.
Qed.

Lemma drain_loop_ends n f w :
  state w = Draining -> (n <= f)%nat ->
  data_loop f drain_over w = data_loop n drain_over w \/ floods data_recv n (tr w).
Proof.
  apply (data_loop_ends drain_over (fun s => s = Draining)).
  - intros f' w' _. unfold drain_over. intros Hs%negb_false_iff. by apply bool_decide_eq_true in Hs.
  - intros w' _ f' Hd. unfold drain_over. by rewrite Hd.
Qed.

(** ** Every [poll] is a sequence of transitions *)

Lemma conf_send_loop_data_sent fuel out off t r off' t' :
  send_loop fuel conf_send_some out off t = (r, off', t') ->
  rtc io t t' /\ data_sent t' = data_sent t.
Proof.
  revert off t. induction fuel as [|fuel IH]; simpl; intros off t E; [by simplify_eq|].
  case_match; [by simplify_eq|].
  destruct (conf_send_some (drop off out) t) as [n t1] eqn:Es.
  pose proof (data_sent_conf_send _ _ _ _ Es) as Hd. apply io_conf_send, rtc_once in Es.
  case_match; [by simplify_eq|]. case_match; [by simplify_eq|].
  apply IH in E as [Hio Hs]. split; [by etrans|congruence].
Qed.

Lemma advance_configure_steps w :
  state w = Configuring -> rtc tau w (advance_configure w).
Proof.
  intros Hst. unfold advance_configure, send_all.
  destruct (send_loop _ _ _ _ _) as [[r off] t] eqn:Es.
  apply conf_send_loop_data_sent in Es as [Hio Es].
  eapply rtc_l; [by apply (tau_io w t)|].
  eapply rtc_l; [by apply (tau_conf_off _ off)|].
  set (w1 := upd _ _). assert (H1 : state w1 = Configuring) by done.
  clearbody w1. clear Es. set (w2 := if (_ <=? _)%nat then _ else w1).
  assert (rtc tau w1 w2 /\ state w2 = Configuring) as [Hr2 H2].
  { subst w2. destruct (Nat.leb_spec (length (conf_out_ (be w1))) (conf_out_off_ (be w1)));
      [split; [|done]|by split; [apply rtc_refl|]].
    by apply rtc_once, tau_awaiting. }
  assert (Hmain : rtc tau w2 (
    if negb (awaiting_status_ (be w2)) then w2 else
    match pump_conf true w2 with
    | (None, w) => config_fail (saw LinkLost w)
    | (Some None, w) => w
    | (Some (Some true), w) => config_succeed (saw (StatusIn true) w)
    | (Some (Some false), w) => config_fail (saw (StatusIn false) w)
    end)).
  { destruct (awaiting_status_ (be w2)) eqn:Haw; [|apply rtc_refl]. simpl.
    destruct (pump_conf true w2) as [rr w3] eqn:Ep.
    destruct (pump_conf_steps _ _ _ _ Ep) as (Hr & l & t' & ->).
    destruct rr as [[[]|]|].
    - eapply rtc_r; [exact Hr|]. by apply tau_config_ok.
    - eapply rtc_r; [exact Hr|]. apply tau_config_fail; [|done]. unfold configuring, state in *; simpl. by rewrite H2.
    - done.
    - eapply rtc_r; [exact Hr|]. apply tau_config_fail; [|done]. unfold configuring, state in *; simpl. by rewrite H2. }
  destruct r; try (by etrans; [exact Hr2|]).
  apply rtc_once, tau_config_fail; [|done]. unfold configuring. by rewrite H1.
Qed.

Lemma advance_connect_steps w :
  state w = Connecting -> rtc tau w (advance_connect w).
Proof.
  intros Hst. unfold advance_connect. destruct (poll_connect (tr w)) as [cs t] eqn:Ep.
  pose proof (io_poll_connect _ _ _ Ep) as Hio%rtc_once. apply data_sent_poll_connect in Ep.
  eapply rtc_l; [by apply (tau_io w t)|].
  destruct cs; [apply rtc_refl| |].
  - eapply rtc_l; [by apply tau_connected|]. by apply advance_configure_steps.
  - apply rtc_once, tau_config_fail; [|done]. unfold configuring, state in *; simpl. by rewrite Hst.
Qed.

(** The frame in flight is not yet fully written exactly in [TxWriting]. *)
Definition writing_inv (w : world) : Prop :=
  state w = TxWriting -> (tx_out_off_ (be w) < length (tx_out_ (be w)))%nat.

Lemma pump_tx_write_steps w r w' :
  state w = TxWriting -> writing_inv w -> pump_tx_write w = (r, w') ->
  match r with
  | FlushFailed => tau w (deliver on_backend_failure (reset_link_unconfigured (saw LinkLost w')))
  | Complete => tau w (upd (fun b => b <| state_ := TxPending |>) w')
  | Partial => tau w w' /\ state w' = TxWriting
  end.
Proof.
  intros Hst Hw Hp. specialize (Hw Hst).
  apply pump_tx_write_spec in Hp as (off & t & -> & Hio & Hoff & Hs & Hc & Hpa); [|lia].
  destruct r.
  - rewrite Hc in * by done.
    rewrite take_ge in Hs by (rewrite length_drop; lia).
    by apply (tau_complete w t).
  - split; [|done]. apply tau_partial; [done | done | split; [lia | by apply Hpa] | done].
  - apply (tau_write_failed w off t); [done | done | split; [lia | by apply Hpa] | done].
Qed.

Lemma advance_operational_steps w :
  operational (state w) = true -> writing_inv w -> rtc tau w (advance_operational w).
Proof.
  intros Hop Hw. unfold advance_operational.
  destruct (pump_conf false w) as [r w1] eqn:Ep.
  destruct (pump_conf_steps _ _ _ _ Ep) as (Hr & l & t & E1).
  assert (Hs1 : state w1 = state w) by (by subst w1).
  assert (Hw1 : writing_inv w1) by (by subst w1). clear Ep E1.
  etrans; [exact Hr|]. destruct r as [r|].
  2:{ apply rtc_once, tau_lost. left. by rewrite Hs1. }
  case_bool_decide as Hst; [|apply operational_loop_steps; by rewrite Hs1].
  destruct (pump_tx_write w1) as [fl w2] eqn:Ew.
  apply pump_tx_write_steps in Ew; [|done|done]. destruct fl.
  - eapply rtc_l; [exact Ew|]. by apply operational_loop_steps.
  - destruct Ew as [Ew Hs2]. eapply rtc_l; [exact Ew|]. apply operational_loop_steps. by rewrite Hs2.
  - by apply rtc_once.
Qed.

Lemma poll_steps now w : writing_inv w -> rtc tau w (poll now w).
Proof.
  intros Hw. unfold poll. destruct (state w) eqn:Hst; try apply rtc_refl.
  - case_match; [apply rtc_once, tau_config_fail; [unfold configuring; by rewrite Hst|done] | by apply advance_connect_steps].
  - case_match; [apply rtc_once, tau_config_fail; [unfold configuring; by rewrite Hst|done] | by apply advance_configure_steps].
  - apply advance_operational_steps; [by rewrite Hst | done].
  - apply advance_operational_steps; [by rewrite Hst | done].
  - apply advance_operational_steps; [by rewrite Hst | done].
  - unfold advance_drain. case_match; [by apply rtc_once, tau_drain_timeout|].
    eapply rtc_l; [|by apply drain_loop_steps].
    apply tau_io; apply drain_conf_loop_data_sent.
Qed.
End Steps.
End backend_steps.
