(* ===== verification/BackendFacts.v ===== *)
(** What the LoRaHAM backend promises.

    The state diagram in the header of src/backend/loraham/loraham_backend.h is
    the abstract specification [diagram]; the backend refines it over every
    sequence of calls.  Along with the simulation runs an invariant that says
    who owns the packet in flight, in terms of the bytes the daemon was given.
    The witnesses use a scripted transport. *)

From stdpp Require Import relations.
From S2P Require Import Prelude.
From S2P Require Import StreamLoop.
From S2P Require Import XrCodec.
From S2P Require Import RadioBackend.
From S2P Require Import LorahamConfig.
From S2P Require Import LorahamFraming.
From S2P Require Import DaemonTransport.
From S2P Require Import LorahamBackend.
From S2P Require Import BackendSteps.

Module backend_facts.
Import extradio radio_backend loraham_config loraham daemon_transport loraham_backend
  backend_steps.

(** ** Calls and traces *)

(** The calls the owner of a backend can make. *)
Inductive call :=
  | CallSink (on : bool)
  | CallConfigure (now : Z) (cfg : RadioConfig)
  | CallStart
  | CallStop
  | CallSubmit (d : bytes)
  | CallAbandon (now : Z)
  | CallPoll (now : Z).

(** What is observed: the calls with their answers, and in a poll the causes it
    sees and the events it tells the sink, in order. *)
Inductive label :=
  | LSink (on : bool)
  | LConfigure (cfg : RadioConfig) (token : Z)
  | LStart
  | LStop
  | LSubmit (d : bytes) (accepted : bool)
  | LAbandon
  | LNote (n : note).

Section Traces.
Context {T : Type} `{HT : !DaemonTransport T}.

Definition do_call (c : call) (w : world T) : list label * world T :=
  let w := w <| ev := [] |> in
  match c with
  | CallSink on => ([LSink on], set_sink on w)
  | CallConfigure now cfg => let '(tok, w) := begin_configure now cfg w in ([LConfigure cfg tok], w)
  | CallStart => ([LStart], start w)
  | CallStop => ([LStop], stop w)
  | CallSubmit d => let '(ok, w) := submit_tx d w in ([LSubmit d ok], w)
  | CallAbandon now => ([LAbandon], abandon_pending_tx now w)
  | CallPoll now => let w := poll now w in (LNote <$> ev w, w)
  end.

Fixpoint do_calls (cs : list call) (w : world T) : list label * world T :=
  match cs with
  | [] => ([], w)
  | c :: cs =>
      let '(l, w) := do_call c w in
      let '(ls, w) := do_calls cs w in (l ++ ls, w)
  end.
End Traces.

(** ** The specification: the diagram of loraham_backend.h *)

Inductive ownership :=
  | Unconfigured
  | Settling (token : Z) (cfg : RadioConfig)
  | Operative
  | BridgeOwned (d : bytes)
  | DaemonOwned (d : bytes)
  | Clearing (d : bytes)
  | Dead.

(** What a DATA frame of the daemon says; the status codes are the daemon's. *)
Inductive daemon_msg := MsgRx (rx : RxEvent) | MsgOutcome (o : TxOutcome).

Definition status_outcome (status : Z) : TxOutcome :=
  match status with 0 => Success | 2 => ChannelBusy | _ => RadioError end.

Definition meaning (f : loraham.Frame) : option daemon_msg :=
  if loraham.type f =? FRAMED_RX_PACKET then
    '(rssi, snr, d) ← decode_rx f; Some (MsgRx {| rssi_cdbm := rssi; snr_cdb := snr; rx_data := d |})
  else if loraham.type f =? FRAMED_TX_RESULT then
    '(status, _, _) ← decode_tx_result f; Some (MsgOutcome (status_outcome status))
  else if loraham.type f =? FRAMED_ERROR then Some (MsgOutcome RadioError)
  else None.

(** The state of the diagram: whether a sink is set and the last token given;
    the owner of the packet. *)
Abbreviation dstate := ((bool * Z) * ownership)%type.

(** A cause is seen; an event is heard when a sink is attached. *)
Definition seen (c : cause) : label := LNote (Saw c).
Definition shown (s : bool * Z) (e : SinkEvent) : list label := if s.1 then [LNote (Told e)] else [].

Definition after_stop (o : ownership) : ownership :=
  match o with Clearing _ | Dead => o | _ => Unconfigured end.
Definition after_abandon (o : ownership) : ownership :=
  match o with DaemonOwned d => Clearing d | BridgeOwned _ => Unconfigured | _ => o end.
Definition receives (o : ownership) : bool :=
  match o with Operative | BridgeOwned _ | DaemonOwned _ => true | _ => false end.
Definition awaits (o : ownership) : bool :=
  match o with DaemonOwned _ | Clearing _ => true | _ => false end.

(** Frames without consequence for a linked backend. *)
Definition ignores (o : ownership) (f : loraham.Frame) : bool :=
  (receives o || awaits o) &&
  match meaning f with
  | Some (MsgRx _) => negb (receives o)
  | Some (MsgOutcome _) => negb (awaits o)
  | None => true
  end.

Inductive diagram : dstate -> list label -> dstate -> Prop :=
  | d_sink s o on : diagram (s, o) [LSink on] ((on, s.2), o)
  | d_start s o : diagram (s, o) [LStart] (s, o)
  | d_stop s o : diagram (s, o) [LStop] (s, after_stop o)
  | d_abandon s o : diagram (s, o) [LAbandon] (s, after_abandon o)
  | d_configure b n o cfg :
      o = Unconfigured \/ o = Operative -> fst (validate_config cfg) = Ok ->
      diagram ((b, n), o) [LConfigure cfg (u32 (n + 1))] ((b, u32 (n + 1)), Settling (u32 (n + 1)) cfg)
  | d_configure_refused s o cfg : diagram (s, o) [LConfigure cfg 0] (s, o)
  | d_submit s d :
      (1 <= length d <= kMaxRfPayload)%nat ->
      diagram (s, Operative) [LSubmit d true] (s, BridgeOwned d)
  | d_submit_refused s o d : diagram (s, o) [LSubmit d false] (s, o)
  | d_submit_lost s d : diagram (s, Operative) [LSubmit d false] (s, Unconfigured)
  | d_applied s tok cfg :
      diagram (s, Settling tok cfg)
        (seen (StatusIn true) ::
         shown s (on_configure_complete tok {| applied := true; effective := cfg |}))
        (s, Operative)
  | d_not_applied s tok cfg c :
      spoils c = true ->
      diagram (s, Settling tok cfg)
        (seen c :: shown s (on_configure_complete tok {| applied := false; effective := zero_config |}))
        (s, Unconfigured)
  | d_rx s o f rx :
      meaning f = Some (MsgRx rx) -> receives o = true ->
      diagram (s, o) (seen (FrameIn f) :: shown s (on_rx rx)) (s, o)
  | d_ignored s o f : ignores o f = true -> diagram (s, o) [seen (FrameIn f)] (s, o)
  | d_written s d : diagram (s, BridgeOwned d) [] (s, DaemonOwned d)
  | d_result s d f r :
      meaning f = Some (MsgOutcome r) ->
      diagram (s, DaemonOwned d) (seen (FrameIn f) :: shown s (on_tx_complete r)) (s, Operative)
  | d_cleared s d f r :
      meaning f = Some (MsgOutcome r) ->
      diagram (s, Clearing d) [seen (FrameIn f)] (s, Unconfigured)
  | d_lost s : diagram (s, Operative) (seen LinkLost :: shown s on_backend_failure) (s, Unconfigured)
  | d_lost_writing s d :
      diagram (s, BridgeOwned d) (seen LinkLost :: shown s on_backend_failure) (s, Unconfigured)
  | d_lost_owned s d : diagram (s, DaemonOwned d) (seen LinkLost :: shown s on_backend_failure) (s, Dead)
  | d_lost_clearing s d : diagram (s, Clearing d) [seen LinkLost] (s, Dead)
  | d_not_cleared s d : diagram (s, Clearing d) [seen Overdue] (s, Dead).

Inductive diagram_run : dstate -> list label -> dstate -> Prop :=
  | run_nil x : diagram_run x [] x
  | run_cons x l y ls z : diagram x l y -> diagram_run y ls z -> diagram_run x (l ++ ls) z.

Lemma run_once x l y : diagram x l y -> diagram_run x l y.
Proof. intros H. rewrite <- (app_nil_r l). eapply run_cons; [exact H | constructor]. Qed.

Lemma run_app x l1 y l2 z : diagram_run x l1 y -> diagram_run y l2 z -> diagram_run x (l1 ++ l2) z.
Proof.
  induction 1 as [|x l y' ls z' Hd Hr IH]; simpl; [done|]. intros H2.
  rewrite <- app_assoc. eapply run_cons; eauto.
Qed.

(** ** The invariant *)

(** The framed TX packet of a payload. *)
Definition tx_frame (d : bytes) : bytes := FRAMED_TX_PACKET :: put16le (zlen d) ++ d.

Definition tx_payload (d : bytes) : Prop := (1 <= length d <= kMaxRfPayload)%nat.

(** A byte stream of whole TX packets. *)
Definition framed (bs : bytes) : Prop :=
  exists ds, Forall tx_payload ds /\ bs = concat (tx_frame <$> ds).

Lemma framed_nil : framed [].
Proof. by exists []. Qed.

Lemma framed_app bs d : framed bs -> tx_payload d -> framed (bs ++ tx_frame d).
Proof.
  intros (ds & Hds & ->) Hd. exists (ds ++ [d]). split.
  - apply Forall_app. split; [done|]. by apply Forall_singleton.
  - rewrite fmap_app, concat_app. simpl. by rewrite app_nil_r.
Qed.

Lemma tx_frame_length d : length (tx_frame d) = (3 + length d)%nat.
Proof. done. Qed.

Lemma encode_tx_frame d :
  tx_payload d ->
  encode_tx_packet (Some (kFramedHeaderLen + kMaxRfPayload)%nat) (Some d) (length d) =
  Some (tx_frame d).
Proof.
  unfold tx_payload, encode_tx_packet, tx_frame. intros Hd.
  rewrite (proj2 (Nat.ltb_ge _ _)) by lia. rewrite andb_false_r.
  rewrite (proj2 (Nat.ltb_ge _ _)) by lia. simpl. by rewrite take_ge.
Qed.

Section Facts.
Context {T : Type} `{HT : !DaemonTransport T}.

Abbreviation world := (world T).

(** Who owns what, in terms of the backend's fields and the bytes given to the
    daemon on the current connection. *)
Definition owner_inv (w : world) : Prop :=
  let b := be w in
  let sent := data_sent (tr w) in
  match state w with
  | Disconnected | Faulted => tx_out_ b = []
  | Connecting | Configuring => tx_out_ b = [] /\ sent = []
  | Ready => tx_out_ b = [] /\ framed sent
  | TxWriting => exists d pre, tx_payload d /\ tx_out_ b = tx_frame d /\ framed pre /\
      (tx_out_off_ b < length (tx_out_ b))%nat /\
      sent = pre ++ take (tx_out_off_ b) (tx_frame d) /\ pending_epoch_ b = tx_epoch_ b
  | TxPending => exists d pre, tx_payload d /\ tx_out_ b = tx_frame d /\ framed pre /\
      sent = pre ++ tx_frame d /\ pending_epoch_ b = tx_epoch_ b
  | Draining => exists d pre, tx_payload d /\ tx_out_ b = tx_frame d /\ framed pre /\
      sent = pre ++ tx_frame d
  end.

(** The state of the diagram. *)
Definition payload_in_flight (w : world) : bytes := drop kFramedHeaderLen (tx_out_ (be w)).
Definition owner (w : world) : ownership :=
  match state w with
  | Disconnected => Unconfigured
  | Connecting | Configuring => Settling (config_token_ (be w)) (pending_cfg_ (be w))
  | Ready => Operative
  | TxWriting => BridgeOwned (payload_in_flight w)
  | TxPending => DaemonOwned (payload_in_flight w)
  | Draining => Clearing (payload_in_flight w)
  | Faulted => Dead
  end.
Definition settings (w : world) : bool * Z := (sink_ (be w), next_token_ (be w)).
Definition view (w : world) : dstate := (settings w, owner w).

(** What the accessors for tests say of the owner. *)
Lemma accessors_owner (w : world) :
  (tx_in_flight w = true <-> exists d, owner w = BridgeOwned d \/ owner w = DaemonOwned d \/ owner w = Clearing d) /\
  (tx_writing w = true <-> exists d, owner w = BridgeOwned d) /\
  (draining w = true <-> exists d, owner w = Clearing d) /\
  (faulted w = true <-> owner w = Dead) /\
  (configuring w = true <-> exists tok cfg, owner w = Settling tok cfg).
Proof. unfold tx_in_flight, tx_writing, draining, faulted, configuring, owner. destruct (state w); naive_solver. Qed.

(** The payloads of the RF log's TX lines, and the one that may still be logged. *)
Definition logged (w : world) : list bytes :=
  omap (fun c => match c with rflog_tx _ d => Some d | rflog_rx _ _ _ => None end) (rf w).
Definition loggable (w : world) : list bytes :=
  match owner w with BridgeOwned d | DaemonOwned d | Clearing d => [d] | _ => [] end.

(** What one transition or call must preserve: the invariant; the diagram
    accepts the events it added; each packet is logged at most once. *)
Definition simulates (w w' : world) : Prop :=
  owner_inv w' /\
  (exists es, ev w' = ev w ++ es /\ diagram_run (view w) (LNote <$> es) (view w')) /\
  (logged w' ++ loggable w') `sublist_of` (logged w ++ loggable w).

(** *** Dispatch, by cases *)
Lemma status_outcome_map st : map_tx_status st = status_outcome st.
Proof.
  unfold map_tx_status, TX_STATUS_OK, TX_STATUS_CHANNEL_BUSY.
  destruct (Z.eqb_spec st 0) as [->|]; [done|]. destruct (Z.eqb_spec st 2) as [->|]; [done|].
  unfold status_outcome. destruct st as [|[?|[?|?|]|]|]; done.
Qed.

Lemma dispatch_cases f w :
  let w0 := saw (FrameIn f) w in
  match meaning f with
  | None => dispatch f w = w0
  | Some (MsgRx rx) =>
      let w1 := log_rf (rflog_rx (rssi_cdbm rx) (snr_cdb rx) (rx_data rx)) w0 in
      dispatch f w = if operational (state w) then deliver (on_rx rx) w1 else w1
  | Some (MsgOutcome o) =>
      exists lg : bool, let w1 := if lg then log_tx_outcome LogOk w0 else w0 in
      dispatch f w = match state w with
                     | TxPending => finish_tx o w1
                     | Draining => resolve_drain w1
                     | _ => w0
                     end
  end.
Proof.
  unfold dispatch, meaning. set (w0 := saw (FrameIn f) w). change (state w0) with (state w).
  assert (Hlg : forall o, state (log_tx_outcome o w0) = state w)
    by (intros; unfold log_tx_outcome; by case_match).
  destruct (loraham.type f =? FRAMED_RX_PACKET).
  { destruct (decode_rx f) as [[[rssi snr] d]|]; [|done]. simpl.
    change (state (log_rf (rflog_rx rssi snr d) w0)) with (state w). by destruct (state w). }
  destruct (loraham.type f =? FRAMED_TX_RESULT).
  { destruct (decode_tx_result f) as [[[st fl] sq]|]; [|done]. simpl. rewrite <- status_outcome_map.
    exists ((st =? TX_STATUS_OK) && (bool_decide (state w = TxPending) || bool_decide (state w = Draining))).
    destruct (_ && _) eqn:Eb; [rewrite Hlg|change (state w0) with (state w)];
      destruct (state w); try done; by rewrite andb_false_r in Eb. }
  destruct (loraham.type f =? FRAMED_ERROR); [|done]. exists false. by destruct (state w).
Qed.

(** *** One transition at a time *)

Lemma simulates_silent w w' :
  owner_inv w' -> view w' = view w -> ev w' = ev w -> rf w' = rf w -> simulates w w'.
Proof.
  intros Hi Hv He Hr. split; [done|]. split.
  - exists []. rewrite app_nil_r, Hv. split; [done|constructor].
  - unfold logged, loggable. rewrite Hr. injection Hv as _ _ ->. done.
Qed.

(** A transition with its cause, and the event it tells when a sink is set. *)
Lemma simulates_event w w' c e :
  owner_inv w' -> sink_ (be w') = sink_ (be w) -> ev w' = ev w ++ [Saw c] ->
  diagram (view w) (seen c :: shown (settings w) e) (view w') ->
  (logged w' ++ loggable w') `sublist_of` (logged w ++ loggable w) ->
  simulates w (deliver e w').
Proof.
  intros Hi Hs He Hd Hl. unfold deliver. rewrite Hs. unfold shown in Hd. cbn [settings fst] in Hd.
  destruct (sink_ (be w)) eqn:E; (split; [done|]; split; [|done]).
  - exists [Saw c; Told e]. simpl. rewrite He, <- app_assoc. split; [done|]. by apply run_once.
  - exists [Saw c]. split; [done|]. by apply run_once.
Qed.

Lemma simulates_hidden w w' ns :
  owner_inv w' -> ev w' = ev w ++ ns -> diagram (view w) (LNote <$> ns) (view w') ->
  (logged w' ++ loggable w') `sublist_of` (logged w ++ loggable w) ->
  simulates w w'.
Proof.
  intros Hi He Hd Hl. split; [done|]. split; [|done].
  exists ns. split; [done|]. by apply run_once.
Qed.

Lemma simulates_refl w : owner_inv w -> simulates w w.
Proof. intros. by apply simulates_silent. Qed.

Lemma simulates_trans w1 w2 w3 : simulates w1 w2 -> simulates w2 w3 -> simulates w1 w3.
Proof.
  intros (_ & (e1 & H1 & R1) & S1) (I & (e2 & H2 & R2) & S2). split; [done|]. split.
  - exists (e1 ++ e2). rewrite H2, H1, <- app_assoc, fmap_app. split; [done|].
    by eapply run_app.
  - by etrans.
Qed.

Lemma simulates_quiet w w' :
  simulates w w' -> ev w' = ev w -> diagram_run (view w) [] (view w').
Proof.
  intros (_ & (es & He & Hr) & _) E. rewrite E in He.
  rewrite <- (app_nil_r (ev w)) in He at 1. apply app_inv_head in He as <-. done.
Qed.

(** The link reset drops the packet in flight. *)
Lemma reset_owner_inv w : owner_inv (reset_link_unconfigured w).
Proof. done. Qed.

Lemma reset_view w : view (reset_link_unconfigured w) = (settings w, Unconfigured).
Proof. done. Qed.

Lemma sublist_drop_flight w : logged w ++ [] `sublist_of` logged w ++ loggable w.
Proof. rewrite app_nil_r. apply sublist_inserts_r. done. Qed.

(** The outcome line moves the payload from the packet in flight to the log. *)
Lemma log_tx_outcome_flight o w d :
  tx_payload d -> tx_out_ (be w) = tx_frame d ->
  let w' := log_tx_outcome o w in
  be w' = be w /\ tr w' = tr w /\ ev w' = ev w /\ logged w' = logged w ++ [d].
Proof.
  intros Hd Hout. unfold log_tx_outcome, tx_payload in *. rewrite Hout, tx_frame_length.
  rewrite (proj2 (Nat.leb_gt _ _)) by (unfold kFramedHeaderLen; lia).
  simpl. unfold logged, log_rf; simpl. by rewrite omap_app.
Qed.
Lemma maybe_log_flight (lg : bool) w d :
  tx_payload d -> tx_out_ (be w) = tx_frame d ->
  let w' := if lg then log_tx_outcome LogOk w else w in
  be w' = be w /\ tr w' = tr w /\ ev w' = ev w /\
  logged w' ++ [] `sublist_of` logged w ++ [d].
Proof.
  intros Hd Hout. destruct lg; simpl.
  - destruct (log_tx_outcome_flight LogOk w d Hd Hout) as (-> & -> & -> & ->).
    by rewrite app_nil_r.
  - repeat split. by apply sublist_app, sublist_nil_l.
Qed.

Lemma payload_tx_frame d : drop kFramedHeaderLen (tx_frame d) = d.
Proof. done. Qed.

Lemma finish_tx_simulates f o (lg : bool) w :
  meaning f = Some (MsgOutcome o) -> owner_inv w -> state w = TxPending ->
  let w0 := saw (FrameIn f) w in
  simulates w (finish_tx o (if lg then log_tx_outcome LogOk w0 else w0)).
Proof.
  intros Hm Hi Hst w0. pose proof Hi as Hi'. unfold owner_inv in Hi'. rewrite Hst in Hi'.
  destruct Hi' as (d & pre & Hd & Hout & Hpre & Hsent & Hep).
  destruct (maybe_log_flight lg w0 d Hd Hout) as (Hb & Ht & He & Hl).
  set (w1 := if lg then _ else w0) in *. unfold finish_tx; simpl. rewrite Hb. simpl. rewrite Hep, Z.eqb_refl.
  apply (simulates_event w _ (FrameIn f)); simpl.
  - unfold owner_inv, state; simpl. rewrite Ht. simpl. rewrite Hsent. split; [done|]. by apply framed_app.
  - by rewrite Hb.
  - done.
  - unfold view, settings, owner. unfold state in *; simpl. rewrite Hb, Hst. by apply d_result.
  - unfold loggable, owner, payload_in_flight. unfold state in *; simpl. rewrite Hst, Hout.
    rewrite payload_tx_frame. apply Hl.
Qed.

Lemma resolve_drain_simulates f o (lg : bool) w :
  meaning f = Some (MsgOutcome o) -> owner_inv w -> state w = Draining ->
  let w0 := saw (FrameIn f) w in
  simulates w (resolve_drain (if lg then log_tx_outcome LogOk w0 else w0)).
Proof.
  intros Hm Hi Hst w0. pose proof Hi as Hi'. unfold owner_inv in Hi'. rewrite Hst in Hi'.
  destruct Hi' as (d & pre & Hd & Hout & Hpre & Hsent).
  destruct (maybe_log_flight lg w0 d Hd Hout) as (Hb & Ht & He & Hl).
  set (w1 := if lg then _ else w0) in *. apply (simulates_hidden w _ [Saw (FrameIn f)]).
  - done.
  - done.
  - unfold resolve_drain. rewrite reset_view. unfold view, settings, owner. rewrite Hst, Hb.
    by apply (d_cleared _ _ f o).
  - unfold loggable at 2, owner, payload_in_flight. rewrite Hst, Hout. apply Hl.
Qed.

(** The state allows a frame. *)
Definition linked (s : State) : Prop := operational s = true \/ s = Draining.

Lemma receives_operational w : receives (owner w) = operational (state w).
Proof. unfold owner. by destruct (state w). Qed.

(** A frame without consequence. *)
Lemma ignored_simulates f w w' :
  linked (state w) -> ignores (owner w) f = true -> owner_inv w' -> be w' = be w ->
  ev w' = ev w ++ [Saw (FrameIn f)] -> logged w' = logged w -> simulates w w'.
Proof.
  intros Hst Hg Hi Hb He Hl.
  assert (Hv : view w' = view w) by (unfold view, settings, owner, payload_in_flight, state; by rewrite Hb).
  apply (simulates_hidden w _ [Saw (FrameIn f)]); [done|done| |].
  - rewrite Hv. by apply d_ignored.
  - rewrite Hl. unfold loggable. by rewrite (f_equal snd Hv : owner w' = owner w).
Qed.

Lemma dispatch_simulates f w : linked (state w) -> owner_inv w -> simulates w (dispatch f w).
Proof.
  intros Hst Hi. pose proof (dispatch_cases f w) as Hc. cbv zeta in Hc.
  assert (Hln : receives (owner w) || awaits (owner w) = true)
    by (unfold linked, owner in *; destruct (state w); naive_solver).
  assert (Hg : ignores (owner w) f = match meaning f with
    | Some (MsgRx _) => negb (receives (owner w)) | Some (MsgOutcome _) => negb (awaits (owner w)) | None => true end)
    by (unfold ignores; by rewrite Hln).
  destruct (meaning f) as [[rx|o]|] eqn:Hm.
  - rewrite Hc, <- receives_operational. destruct (receives (owner w)) eqn:Hop.
    + apply (simulates_event w _ (FrameIn f)); try done; [by apply d_rx|].
      unfold logged, log_rf; simpl. by rewrite omap_app, app_nil_r.
    + apply (ignored_simulates f); try done. unfold logged, log_rf; simpl. by rewrite omap_app, app_nil_r.
  - destruct Hc as [lg ->]. destruct (state w) eqn:E; try (by destruct Hst);
      try (by apply (ignored_simulates f); try done; rewrite ?E; try done; rewrite Hg; unfold owner; rewrite E).
    + by apply finish_tx_simulates.
    + by apply (resolve_drain_simulates f o).
  - rewrite Hc. by apply (ignored_simulates f).
Qed.

(** Giving up with the packet at the daemon. *)
Lemma enter_fault_facts w d :
  tx_payload d -> tx_out_ (be w) = tx_frame d ->
  let w' := enter_fault w in
  owner_inv w' /\ ev w' = ev w /\ view w' = (settings w, Dead) /\ logged w' = logged w ++ [d].
Proof.
  intros Hd Hout. unfold enter_fault.
  destruct (log_tx_outcome_flight LogUnconfirmed w d Hd Hout) as (Hb & Ht & He & Hl).
  set (w1 := log_tx_outcome LogUnconfirmed w) in *. repeat split; simpl; try done.
  unfold view, settings; simpl. by rewrite Hb.
Qed.

(** A drain that ends without the daemon's answer. *)
Lemma drain_fault_simulates w c :
  c = LinkLost \/ c = Overdue -> owner_inv w -> state w = Draining -> simulates w (enter_fault (saw c w)).
Proof.
  intros Hc Hi Hst. pose proof Hi as Hi'. unfold owner_inv in Hi'. rewrite Hst in Hi'.
  destruct Hi' as (d & pre & Hd & Hout & _ & _).
  destruct (enter_fault_facts (saw c w) d Hd Hout) as (Hi1 & He1 & Hv1 & Hl1).
  apply (simulates_hidden w _ [Saw c]); try done.
  - rewrite Hv1. unfold view, owner. rewrite Hst. destruct Hc as [->| ->]; [apply d_lost_clearing|apply d_not_cleared].
  - rewrite Hl1. unfold loggable. rewrite (f_equal snd Hv1 : owner (enter_fault (saw c w)) = Dead).
    unfold owner, payload_in_flight. rewrite Hst, Hout, payload_tx_frame, app_nil_r. done.
Qed.

Lemma handle_disconnect_simulates w :
  owner_inv w -> linked (state w) -> simulates w (handle_disconnect (saw LinkLost w)).
Proof.
  intros Hi Hst. unfold handle_disconnect. change (state (saw LinkLost w)) with (state w).
  destruct (state w) eqn:E; try (by destruct Hst).
  - apply (simulates_event w _ LinkLost); try done; [|apply (sublist_drop_flight w)].
    rewrite reset_view. unfold view, owner. rewrite E. apply d_lost.
  - apply (simulates_event w _ LinkLost); try done; [|apply (sublist_drop_flight w)].
    rewrite reset_view. unfold view, owner. rewrite E. apply d_lost_writing.
  - pose proof Hi as Hi'. unfold owner_inv in Hi'. rewrite E in Hi'.
    destruct Hi' as (d & pre & Hd & Hout & _ & _ & _).
    destruct (enter_fault_facts (saw LinkLost w) d Hd Hout) as (Hi1 & He1 & Hv1 & Hl1).
    set (w1 := enter_fault _) in *.
    pose proof (f_equal (fun x => x.1.1) Hv1 : sink_ (be w1) = _) as Hs1.
    pose proof (f_equal snd Hv1 : owner w1 = Dead) as Ho1. apply (simulates_event w _ LinkLost); try done.
    + rewrite Hv1. unfold view, owner. rewrite E. apply d_lost_owned.
    + rewrite Hl1. unfold loggable. rewrite Ho1. unfold owner, payload_in_flight.
      rewrite E, Hout, payload_tx_frame, app_nil_r. done.
  - apply drain_fault_simulates; auto.
Qed.

Lemma config_succeed_simulates w :
  owner_inv w -> state w = Configuring -> simulates w (config_succeed (saw (StatusIn true) w)).
Proof.
  intros Hi Hst. unfold owner_inv in Hi. rewrite Hst in Hi. destruct Hi as [Hout Hsent].
  apply (simulates_event w _ (StatusIn true)); try done.
  - unfold owner_inv, state; simpl. rewrite Hsent. split; [done | apply framed_nil].
  - unfold view, owner. rewrite Hst. apply d_applied.
  - apply (sublist_drop_flight w).
Qed.

Lemma config_fail_simulates w c :
  configuring w = true -> spoils c = true -> simulates w (config_fail (saw c w)).
Proof.
  intros Hst Hc. apply (simulates_event w _ c); try done; [|apply (sublist_drop_flight w)].
  unfold configuring, view, owner in *. destruct (state w); try done; by apply d_not_applied.
Qed.

Lemma partial_simulates w off t :
  owner_inv w -> state w = TxWriting ->
  (tx_out_off_ (be w) <= off < length (tx_out_ (be w)))%nat ->
  data_sent t = data_sent (tr w) ++
                take (off - tx_out_off_ (be w)) (drop (tx_out_off_ (be w)) (tx_out_ (be w))) ->
  simulates w (upd (fun b => b <| tx_out_off_ := off |>) (w <| tr := t |>)).
Proof.
  intros Hi Hst Hoff Ht. apply simulates_silent; try done.
  unfold owner_inv in *. unfold state in *. simpl. rewrite Hst in *.
  destruct Hi as (d & pre & Hd & Hout & Hpre & Hlt & Hsent & Hep).
  exists d, pre. repeat split; try done; [apply Hd..|lia|].
  rewrite Ht, Hsent, Hout, <- app_assoc. f_equal.
  rewrite take_take_drop. f_equal. lia.
Qed.

Lemma complete_simulates w t :
  owner_inv w -> state w = TxWriting ->
  data_sent t = data_sent (tr w) ++ drop (tx_out_off_ (be w)) (tx_out_ (be w)) ->
  simulates w (upd (fun b => b <| tx_out_off_ := length (tx_out_ b) |> <| state_ := TxPending |>)
                 (w <| tr := t |>)).
Proof.
  intros Hi Hst Ht. unfold owner_inv in Hi. rewrite Hst in Hi.
  destruct Hi as (d & pre & Hd & Hout & Hpre & Hlt & Hsent & Hep).
  apply (simulates_hidden w _ []); try done.
  - unfold owner_inv, state. simpl. exists d, pre. repeat split; try done; [apply Hd..|].
    by rewrite Ht, Hsent, Hout, <- app_assoc, take_drop.
  - by rewrite app_nil_r.
  - unfold view, owner. unfold state in *; simpl. rewrite Hst. apply d_written.
  - unfold loggable, owner, payload_in_flight. unfold state in *; simpl. by rewrite Hst.
Qed.

Lemma tau_simulates w w' : tau w w' -> owner_inv w -> simulates w w'.
Proof.
  intros Ht Hi. destruct Ht as [w t _ Hd|w l|w p|w n Hs|w Hs _|w Hs|w Hs _|w c Hs Hc|w off t _ Hs Ho Hd
    |w t _ Hs Hd|w off t _ Hs _ _|w f Hs|w Hs|w Hs].
  - apply simulates_silent; try done. unfold owner_inv in *; unfold state in *; simpl. by rewrite Hd.
  - by apply simulates_silent.
  - by apply simulates_silent.
  - by apply simulates_silent.
  - by apply simulates_silent.
  - apply simulates_silent; unfold owner_inv, view, owner in *; unfold state in *; simpl;
      by rewrite Hs in *.
  - by apply config_succeed_simulates.
  - by apply config_fail_simulates.
  - by apply partial_simulates.
  - by apply complete_simulates.
  - apply (simulates_event w _ LinkLost); try done; [|apply (sublist_drop_flight w)].
    unfold view, owner. rewrite Hs. apply d_lost_writing.
  - by apply dispatch_simulates.
  - by apply handle_disconnect_simulates.
  - apply drain_fault_simulates; auto.
Qed.

Lemma steps_simulate w w' : rtc tau w w' -> owner_inv w -> simulates w w'.
Proof.
  induction 1 as [w|w w1 w2 H1 _ IH]; intros Hi; [by apply simulates_refl|].
  pose proof (tau_simulates _ _ H1 Hi) as Hs. eapply simulates_trans; [exact Hs|].
  apply IH. apply Hs.
Qed.
(** *** Calls *)

(** The fields no transition touches. *)
Definition statics (b : LorahamBackend) :=
  (next_token_ b, config_token_ b, config_deadline_at_ b, drain_deadline_at_ b, sink_ b).

Lemma tau_statics w w' : tau w w' -> statics (be w') = statics (be w).
Proof.
  assert (Hl : forall o (w : world), be (log_tx_outcome o w) = be w)
    by (intros; unfold log_tx_outcome; by case_match).
  assert (Hd : forall e (w : world), be (deliver e w) = be w)
    by (intros; unfold deliver; by case_match).
  assert (Hf : forall w : world, statics (be (enter_fault w)) = statics (be w))
    by (intros; unfold enter_fault, statics; simpl; by rewrite Hl).
  destruct 1 as [| | | | | | | | | | |w f| |]; try done;
    unfold config_succeed, config_fail, handle_disconnect; rewrite ?Hd; try done.
  - pose proof (dispatch_cases f w) as Hc. cbv zeta in Hc.
    destruct (meaning f) as [[rx|o]|]; [rewrite Hc; case_match; by rewrite ?Hd| |by rewrite Hc].
    destruct Hc as [lg ->]. destruct (state w); try done; unfold finish_tx; try case_match; rewrite ?Hd;
      unfold statics; simpl; destruct lg; by rewrite ?Hl.
  - case_match; rewrite ?Hd, ?Hf; done.
  - by rewrite Hf.
Qed.

Lemma steps_statics w w' : rtc tau w w' -> statics (be w') = statics (be w).
Proof.
  induction 1 as [|w w1 w2 H1 _ IH]; [done|]. rewrite IH. by apply tau_statics.
Qed.

(** The payloads accepted for transmission in a trace. *)
Definition accepted_payloads (ls : list label) : list bytes :=
  omap (fun l => match l with LSubmit d true => Some d | _ => None end) ls.

(** What a call, or a sequence of them, preserves. *)
Definition call_ok (w : world) (ls : list label) (w' : world) : Prop :=
  owner_inv w' /\ diagram_run (view w) ls (view w') /\
  (logged w' ++ loggable w') `sublist_of` (logged w ++ loggable w ++ accepted_payloads ls).

Lemma accepted_notes ns : accepted_payloads (LNote <$> ns) = [].
Proof. by induction ns. Qed.

Lemma call_ok_quiet w ls w' :
  owner_inv w' -> diagram_run (view w) ls (view w') -> accepted_payloads ls = [] ->
  (logged w' ++ loggable w') `sublist_of` (logged w ++ loggable w) -> call_ok w ls w'.
Proof. intros ? ? Ha ?. split; [done|]. split; [done|]. by rewrite Ha, app_nil_r. Qed.

Lemma call_ok_steps w w' :
  rtc tau (w <| ev := [] |>) w' -> owner_inv w -> call_ok w (LNote <$> ev w') w'.
Proof.
  intros Hr Hi. destruct (steps_simulate _ _ Hr Hi) as (Hi' & (es & He & Hd) & Hl).
  simpl in He. subst es. apply call_ok_quiet; [done | done | apply accepted_notes | done].
Qed.

Section Laws.
Context `{HL : !DaemonTransportLaws T}.

Lemma configure_ok now cfg w tok w' :
  owner_inv w -> begin_configure now cfg w = (tok, w') -> call_ok w [LConfigure cfg tok] w'.
Proof.
  intros Hi. assert (Href : forall w', be w' = be w -> ev w' = ev w -> rf w' = rf w ->
    owner_inv w' -> call_ok w [LConfigure cfg 0] w').
  { intros w1 Hb He Hr Hi1.
    assert (Hv : view w1 = view w)
      by (unfold view, settings, owner, payload_in_flight, state; by rewrite Hb).
    apply call_ok_quiet; [done| |done|].
    - rewrite Hv. apply run_once. destruct (view w). apply d_configure_refused.
    - unfold logged, loggable. rewrite Hr. by rewrite (f_equal snd Hv : owner w1 = owner w). }
  unfold begin_configure.
  destruct (state w) eqn:Hst; try (intros [= <- <-]; by apply Href).
  all: destruct (validate_config cfg) as [er ob] eqn:Hv.
  all: destruct er; try (intros [= <- <-]; by apply Href).
  all: destruct ob as [band|]; [|intros [= <- <-]; by apply Href].
  all: destruct (build_set_command cfg) as [cmd|]; [|intros [= <- <-]; by apply Href].
  all: destruct (begin_connect band (tr w)) as [ok t] eqn:Hc.
  all: destruct (begin_connect_fresh _ _ _ _ Hc) as [Hs|[-> Hs]];
    [destruct ok|]; simpl; intros [= <- <-].
  all: try (apply Href; try done; unfold owner_inv in *; unfold state in *; simpl;
            rewrite Hst in *; rewrite ?Hs; try done; split; [apply Hi | apply framed_nil]).
  all: try (apply Href; try done; unfold owner_inv in *; unfold state in *; simpl;
            rewrite Hst in *; rewrite ?Hs; done).
  all: apply call_ok_quiet; try done.
  all: try (unfold owner_inv in *; unfold state in *; simpl; rewrite Hst in *; split; [|done];
            first [apply Hi | done]).
  all: try (apply run_once; unfold view, owner; rewrite Hst; simpl; apply d_configure;
            [auto | by rewrite Hv]).
  all: apply (sublist_drop_flight w).
Qed.

Lemma submit_ok d w ok w' :
  owner_inv w -> submit_tx d w = (ok, w') ->
  call_ok w [LSubmit d ok] w'.
Proof.
  intros Hi. assert (Href : call_ok w [LSubmit d false] w).
  { apply call_ok_quiet; [done| |done|done].
    apply run_once. destruct (view w). apply d_submit_refused. }
  unfold submit_tx. destruct (started_ (be w)); [|by intros [= <- <-]]. cbn [negb orb].
  case_bool_decide as Hst; [|by intros [= <- <-]]. cbn [negb].
  destruct (Nat.eqb_spec (length d) 0); [by intros [= <- <-]|].
  destruct (Nat.ltb_spec kMaxRfPayload (length d)); [by intros [= <- <-]|]. cbn [orb].
  assert (Hd : tx_payload d) by (unfold tx_payload; lia).
  rewrite (encode_tx_frame d Hd). set (w1 := upd _ w).
  pose proof Hi as Hi'. unfold owner_inv in Hi'. rewrite Hst in Hi'. destruct Hi' as [Hout Hsent].
  assert (Hi1 : owner_inv w1).
  { unfold owner_inv; simpl. exists d, (data_sent (tr w)). split; [done|]. split; [done|]. split; [done|]. split; [simpl; lia|].
    split; [|done]. by rewrite app_nil_r. }
  assert (Hd1 : diagram (view w) [LSubmit d true] (view w1)).
  { unfold view, owner. rewrite Hst. by apply d_submit. }
  assert (Hl1 : logged w1 ++ loggable w1 `sublist_of` logged w ++ loggable w ++ [d]).
  { apply sublist_app; [done|]. unfold loggable at 2, owner. by rewrite Hst. }
  assert (Hok : forall w3, simulates w1 w3 -> ev w3 = ev w1 ->
    call_ok w [LSubmit d true] w3).
  { intros w3 Hs He. pose proof Hs as (Hi3 & _ & Hl3). split; [done|]. split.
    - eapply (run_cons _ [_]); [exact Hd1|]. by apply simulates_quiet.
    - etrans; [exact Hl3|exact Hl1]. }
  destruct (pump_tx_write w1) as [fl w2] eqn:Ep.
  apply pump_tx_write_spec in Ep as (off & t & -> & Hio & Hoff & Hs & Hc & Hpa); [|simpl; lia].
  destruct fl; intros [= <- <-].
  - apply Hok; [|done]. specialize (Hc eq_refl). subst off.
    apply (complete_simulates w1 t); [done|done|].
    rewrite Hs, take_ge; [done|]. rewrite length_drop; lia.
  - apply Hok; [|done]. apply (partial_simulates w1 off t); [done|done| |done].
    split; [lia|]. by apply Hpa.
  - apply call_ok_quiet; [done| |done|apply (sublist_drop_flight w)].
    apply run_once. unfold view, owner. rewrite Hst. apply d_submit_lost.
Qed.
Lemma owner_inv_writing w : owner_inv w -> writing_inv w.
Proof.
  unfold owner_inv, writing_inv. intros Hi Hst. rewrite Hst in Hi.
  destruct Hi as (d & pre & _ & _ & _ & Hlt & _). done.
Qed.

Lemma stop_ok w : owner_inv w -> call_ok w [LStop] (stop w).
Proof.
  intros Hi. unfold stop. destruct (state w) eqn:Hst; apply call_ok_quiet;
    try done; try apply (sublist_drop_flight w).
  all: try (unfold owner_inv in *; unfold state in *; simpl; by rewrite Hst in *).
  all: try (apply run_once; unfold view, owner; unfold state in *; simpl; rewrite Hst; apply d_stop).
Qed.

Lemma abandon_ok now w :
  owner_inv w -> call_ok w [LAbandon] (abandon_pending_tx now w).
Proof.
  intros Hi. unfold abandon_pending_tx.
  destruct (state w) eqn:Hst; apply call_ok_quiet; try done.
  all: try (apply run_once; unfold view, owner; unfold state in *; simpl; rewrite Hst; apply d_abandon).
  - apply (sublist_drop_flight w).
  - unfold owner_inv in *; unfold state in *; simpl. rewrite Hst in Hi.
    destruct Hi as (d & pre & ? & ? & ? & ? & _). by exists d, pre.
  - unfold loggable, owner, payload_in_flight; unfold state in *; simpl. by rewrite Hst.
Qed.

Lemma do_call_ok c w ls w' : owner_inv w -> do_call c w = (ls, w') -> call_ok w ls w'.
Proof.
  intros Hi. unfold do_call. set (w0 := w <| ev := [] |>).
  assert (Hi0 : owner_inv w0) by done.
  destruct c as [on|now cfg| | |d|now|now].
  - intros [= <- <-]. apply call_ok_quiet; try done. apply run_once. apply d_sink.
  - destruct (begin_configure now cfg w0) as [tok w1] eqn:E. intros [= <- <-].
    by apply (configure_ok now cfg w0).
  - intros [= <- <-]. apply call_ok_quiet; try done. apply run_once. apply d_start.
  - intros [= <- <-]. by apply (stop_ok w0).
  - destruct (submit_tx d w0) as [ok w1] eqn:E. intros [= <- <-]. by apply (submit_ok d w0 ok w1).
  - intros [= <- <-]. by apply (abandon_ok now w0).
  - intros [= <- <-]. apply call_ok_steps; [|done]. apply poll_steps. by apply owner_inv_writing.
Qed.

#[export] Instance owner_inv_invariant : BackendInvariant owner_inv.
Proof.
  split; cbn [rb_set_sink rb_begin_configure rb_start rb_stop rb_submit_tx
              rb_abandon_pending_tx rb_poll loraham_radio_backend fst snd].
  - done.
  - intros now cfg b Hi. destruct (begin_configure now cfg b) as [tok b'] eqn:E. by apply (configure_ok now cfg b tok b').
  - done.
  - intros b Hi. by apply stop_ok.
  - intros d b Hi. destruct (submit_tx d b) as [ok b'] eqn:E. by apply (submit_ok d b ok b').
  - intros now b Hi. by apply abandon_ok.
  - intros now b Hi. assert (Hi0 : owner_inv (b <| ev := [] |>)) by done.
    eapply (call_ok_steps b); [|done]. apply poll_steps. by apply owner_inv_writing.
Qed.

(** The same in terms of the daemon's bytes alone. *)
Definition bytes_agree (w : world) : Prop :=
  match state w with
  | Ready => framed (data_sent (tr w))
  | TxWriting => exists d pre n, owner w = BridgeOwned d /\ tx_payload d /\ framed pre /\
      (n < length (tx_frame d))%nat /\ data_sent (tr w) = pre ++ take n (tx_frame d)
  | TxPending | Draining => exists d pre, (owner w = DaemonOwned d \/ owner w = Clearing d) /\
      tx_payload d /\ framed pre /\ data_sent (tr w) = pre ++ tx_frame d
  | _ => True
  end.

Lemma owner_bytes w : owner_inv w -> bytes_agree w.
Proof.
  intros Hi. unfold owner_inv in Hi. unfold bytes_agree, owner, payload_in_flight.
  destruct (state w); try done.
  - apply Hi.
  - destruct Hi as (d & pre & Hd & -> & Hpre & Hlt & Hs & _).
    by exists d, pre, (tx_out_off_ (be w)).
  - destruct Hi as (d & pre & Hd & -> & Hpre & Hs & _). exists d, pre. by auto.
  - destruct Hi as (d & pre & Hd & -> & Hpre & Hs). exists d, pre. by auto.
Qed.

Lemma accepted_app l1 l2 :
  accepted_payloads (l1 ++ l2) = accepted_payloads l1 ++ accepted_payloads l2.
Proof. apply omap_app. Qed.

Lemma poll_call now w ls w' :
  do_call (CallPoll now) w = (ls, w') ->
  w' = poll now (w <| ev := [] |>) /\ ls = LNote <$> ev w'.
Proof. by intros [= <- <-]. Qed.

Lemma poll_statics now w : owner_inv w -> statics (be (poll now w)) = statics (be w).
Proof. intros Hi. apply steps_statics, poll_steps. by apply owner_inv_writing. Qed.

Lemma do_calls_ok cs w ls w' : owner_inv w -> do_calls cs w = (ls, w') -> call_ok w ls w'.
Proof.
  revert w ls. induction cs as [|c cs IH]; intros w ls Hi E; simpl in *.
  { simplify_eq. apply call_ok_quiet; [done|constructor|done|done]. }
  destruct (do_call c w) as [l1 w1] eqn:E1. destruct (do_calls cs w1) as [l2 w2] eqn:E2.
  simplify_eq. apply do_call_ok in E1 as (Hi1 & Hr1 & Hl1); [|done].
  apply IH in E2 as (Hi2 & Hr2 & Hl2); [|done].
  split; [done|]. split; [by eapply run_app|].
  etrans; [exact Hl2|]. rewrite accepted_app, !app_assoc. apply sublist_app; [|done].
  by rewrite <- app_assoc.
Qed.

(** A fresh backend over a transport in any state. *)
Definition fresh (config_timeout_ms drain_timeout_ms : Z) (t : T) : world :=
  mkWorld (loraham_backend.make config_timeout_ms drain_timeout_ms) t [] [].

Lemma fresh_calls_ok cto dto t cs ls w :
  do_calls cs (fresh cto dto t) = (ls, w) ->
  owner_inv w /\ diagram_run ((false, 0), Unconfigured) ls (view w) /\
  (logged w ++ loggable w) `sublist_of` accepted_payloads ls.
Proof. intros E. by apply do_calls_ok in E. Qed.
End Laws.
End Facts.

(** *** Consequences of the diagram *)

Definition is_complete (l : label) : bool :=
  match l with LNote (Told (on_tx_complete _)) => true | _ => false end.
Definition is_accept (l : label) : bool := match l with LSubmit _ true => true | _ => false end.
Definition awaited (o : ownership) : nat :=
  match o with BridgeOwned _ | DaemonOwned _ => 1 | _ => 0 end.

Lemma diagram_counts x l y :
  diagram x l y ->
  (length (filter is_complete l) + awaited y.2 <= length (filter is_accept l) + awaited x.2)%nat.
Proof.
  destruct 1; unfold shown; try destruct s as [[] ?]; try destruct o; simpl; try lia; try done.
Qed.

Lemma run_counts x ls y :
  diagram_run x ls y ->
  (length (filter is_complete ls) + awaited y.2 <= length (filter is_accept ls) + awaited x.2)%nat.
Proof.
  induction 1 as [|x l y ls z Hd _ IH]; [simpl; lia|].
  apply diagram_counts in Hd. rewrite !filter_app, !length_app. lia.
Qed.

(** Labels a dead backend still produces. *)
Definition inert (l : label) : bool :=
  match l with
  | LConfigure _ tok => tok =? 0
  | LSubmit _ ok => negb ok
  | LNote _ => false
  | _ => true
  end.

Lemma run_dead x ls y :
  diagram_run x ls y -> x.2 = Dead -> y.2 = Dead /\ forallb inert ls = true.
Proof.
  induction 1 as [|x l y ls z Hd _ IH]; [done|]. intros Hx.
  assert (y.2 = Dead /\ forallb inert l = true) as [Hy Hl].
  { destruct Hd; simpl in *; subst; try done.
    all: destruct H as [H|H]; done. }
  destruct (IH Hy) as [Hz Hls]. split; [done|]. rewrite forallb_app. by rewrite Hl, Hls.
Qed.
End backend_facts.
