(* ===== verification/BackendTraffic.v ===== *)
(** What reaches the daemon over the whole life of the bridge.

    A connection to the daemon comes and goes; the contract of a transport
    speaks of the bytes of the current one only.  [recorded] is any transport
    with a record of the DATA bytes of every connection so far, [audit] any
    backend with a record of the packets it accepted: both answer every call as
    what they wrap does, and neither record is ever read.  The invariant
    [traffic] relates the two records: the packets handed to the daemon, over
    all connections, are accepted ones, each at most once and in order. *)

From stdpp Require Import relations.
From S2P Require Import Prelude.
From S2P Require Import XrCodec.
From S2P Require Import RadioBackend.
From S2P Require Import LorahamConfig.
From S2P Require Import LorahamFraming.
From S2P Require Import DaemonTransport.
From S2P Require Import LorahamBackend.
From S2P Require Import BackendSteps.
From S2P Require Import BackendFacts.

Module backend_traffic.
Import extradio radio_backend loraham_config loraham daemon_transport loraham_backend
  backend_steps backend_facts.

(** ** A transport that keeps a record *)

Record recorded (T : Type) := mkRecorded { cur : T; past : list bytes; stream : bytes }.
Arguments mkRecorded {T}.
Arguments cur {T}.
Arguments past {T}.
Arguments stream {T}.

(** The DATA bytes of every connection, the current one last. *)
Definition streams {T} (t : recorded T) : list bytes := past t ++ [stream t].

Definition recording {T} (t : T) : recorded T := mkRecorded t [] [].

Section Recorded.
Context {T : Type} `{HT : !DaemonTransport T}.

(** A call of the wrapped transport that leaves the record alone. *)
Definition through {A : Type} (f : T -> A * T) (t : recorded T) : A * recorded T :=
  let '(r, c) := f (cur t) in (r, mkRecorded c (past t) (stream t)).

#[export] Instance recorded_transport : DaemonTransport (recorded T) := {|
  begin_connect band t :=
    let '(ok, c) := begin_connect band (cur t) in (ok, mkRecorded c (past t ++ [stream t]) []);
  poll_connect := through poll_connect;
  conf_send_some d := through (conf_send_some d);
  data_send_some d t :=
    let '(n, c) := data_send_some d (cur t) in
    (n, mkRecorded c (past t) (stream t ++ take (Z.to_nat n) d));
  conf_recv cap := through (conf_recv cap);
  data_recv cap := through (data_recv cap);
  close t := mkRecorded (close (cur t)) (past t) (stream t);
  conf_pending t := conf_pending (cur t);
  data_pending t := data_pending (cur t);
  data_sent := stream;
|}.

Lemma through_eq {A} (f : T -> A * T) t r t' :
  through f t = (r, t') -> f (cur t) = (r, cur t') /\ past t' = past t /\ stream t' = stream t.
Proof. unfold through. destruct (f (cur t)) as [r0 c]. by intros [= <- <-]. Qed.

#[export] Instance recorded_laws `{!DaemonTransportLaws T} : DaemonTransportLaws (recorded T).
Proof.
  split; cbn [poll_connect conf_send_some data_send_some conf_recv data_recv begin_connect
              conf_pending data_pending data_sent recorded_transport].
  - intros cap t d t' (E & _ & _)%through_eq. by eapply conf_recv_data.
  - intros cap t d t' (E & _ & _)%through_eq. by eapply data_recv_data.
  - intros d t n t'. destruct (data_send_some d (cur t)) as [n0 c] eqn:E. intros [= <- <-].
    split; [|done]. by destruct (data_send_spec _ _ _ _ E).
  - intros band t ok t'. destruct (begin_connect band (cur t)). intros [= <- <-]. by left.
  - by intros t cs t' (_ & _ & E)%through_eq.
  - by intros d t n t' (_ & _ & E)%through_eq.
  - by intros cap t r t' (_ & _ & E)%through_eq.
  - by intros cap t r t' (_ & _ & E)%through_eq.
Qed.

(** Only a connect starts a new stream. *)
Lemma io_past (t t' : recorded T) : io t t' -> past t' = past t.
Proof.
  destruct 1 as [t cs t' E|d t n t' E|d t n t' E|cap t r t' E|cap t r t' E|t];
    try (by apply through_eq in E as (_ & E & _)); [|done].
  cbn in E. destruct (data_send_some d (cur t)). by simplify_eq.
Qed.

Lemma ios_past (t t' : recorded T) : rtc io t t' -> past t' = past t.
Proof. induction 1 as [|t t1 t2 H _ IH]; [done|]. rewrite IH. by apply io_past. Qed.
End Recorded.

(** ** A backend that keeps a record *)

Record audit (B : Type) := mkAudit { inner : B; accepted : list bytes }.
Arguments mkAudit {B}.
Arguments inner {B}.
Arguments accepted {B}.

Section Audit.
Context {B : Type} `{HB : !RadioBackend B}.

Definition on_inner (f : B -> B) (b : audit B) : audit B := mkAudit (f (inner b)) (accepted b).

#[export] Instance audit_backend : RadioBackend (audit B) := {|
  rb_set_sink on := on_inner (rb_set_sink on);
  rb_begin_configure now cfg b :=
    let '(tok, i) := rb_begin_configure now cfg (inner b) in (tok, mkAudit i (accepted b));
  rb_start := on_inner rb_start;
  rb_stop := on_inner rb_stop;
  rb_ready b := rb_ready (inner b);
  rb_next_deadline_ms b := rb_next_deadline_ms (inner b);
  rb_submit_tx d b :=
    let '(ok, i) := rb_submit_tx d (inner b) in
    (ok, mkAudit i (if ok : bool then accepted b ++ [d] else accepted b));
  rb_abandon_pending_tx now := on_inner (rb_abandon_pending_tx now);
  rb_poll now b := let '(i, es) := rb_poll now (inner b) in (mkAudit i (accepted b), es);
|}.
End Audit.

(** ** The relation *)

(** The frames of whole packets. *)
Definition packets (ds : list bytes) : bytes := concat (tx_frame <$> ds).

(** A stream: whole packets, and perhaps the beginning of one more. *)
Definition carries (s : bytes) (ds : list bytes) : Prop :=
  exists d n, tx_payload d /\ (n < length (tx_frame d))%nat /\ s = packets ds ++ take n (tx_frame d).

(** Every stream taken together carries accepted packets, at most once each and
    in order. *)
Definition handed_over (ss : list bytes) (acc : list bytes) : Prop :=
  exists dss, Forall2 carries ss dss /\ concat dss `sublist_of` acc.

Lemma packets_app ds d : packets (ds ++ [d]) = packets ds ++ tx_frame d.
Proof. unfold packets. rewrite fmap_app, concat_app. cbn. by rewrite app_nil_r. Qed.

Lemma carries_packets ds : carries (packets ds) ds.
Proof. exists [0], 0%nat. split; [unfold tx_payload, kMaxRfPayload; cbn; lia|]. split; [cbn; lia|]. by rewrite app_nil_r. Qed.

Section Traffic.
Context {T : Type} `{HT : !DaemonTransport T} `{HL : !DaemonTransportLaws T}.

Abbreviation world := (world (recorded T)).

(** What the current connection carries, by the state of the backend: the whole
    packets and the accepted packet that is not yet one of them. *)
Definition position (w : world) (ds flight : list bytes) : Prop :=
  let s := stream (tr w) in
  match state w with
  | Disconnected | Faulted => carries s ds /\ flight = []
  | Connecting | Configuring => s = [] /\ ds = [] /\ flight = []
  | Ready => s = packets ds /\ flight = []
  | TxWriting => exists d, tx_payload d /\ tx_out_ (be w) = tx_frame d /\ flight = [d] /\
      (tx_out_off_ (be w) < length (tx_frame d))%nat /\
      s = packets ds ++ take (tx_out_off_ (be w)) (tx_frame d)
  | TxPending | Draining => exists d, tx_out_ (be w) = tx_frame d /\ flight = [d] /\
      s = packets ds ++ tx_frame d
  end.

Definition traffic (acc : list bytes) (w : world) : Prop :=
  exists dss ds flight, Forall2 carries (past (tr w)) dss /\ position w ds flight /\
    concat dss ++ ds ++ flight `sublist_of` acc.

(** Whatever the state is, the streams are as promised. *)
Lemma traffic_handed acc w : traffic acc w -> handed_over (streams (tr w)) acc.
Proof.
  intros (dss & ds & flight & Hp & Hpos & Hs). unfold handed_over, streams.
  assert (exists ds', carries (stream (tr w)) ds' /\ ds' `sublist_of` ds ++ flight) as (ds' & Hc & Hd).
  { unfold position in Hpos. destruct (state w).
    - destruct Hpos as [Hc ->]. exists ds. by rewrite app_nil_r.
    - destruct Hpos as (-> & -> & ->). exists []. split; [apply (carries_packets [])|done].
    - destruct Hpos as (-> & -> & ->). exists []. split; [apply (carries_packets [])|done].
    - destruct Hpos as (-> & ->). exists ds. rewrite app_nil_r. split; [apply carries_packets|done].
    - destruct Hpos as (d & Hd & _ & -> & Hlt & ->). exists ds. split; [by exists d, (tx_out_off_ (be w))|].
      by apply sublist_inserts_r.
    - destruct Hpos as (d & _ & -> & ->). exists (ds ++ [d]). split; [|done].
      rewrite <- packets_app. apply carries_packets.
    - destruct Hpos as (d & _ & -> & ->). exists (ds ++ [d]). split; [|done].
      rewrite <- packets_app. apply carries_packets.
    - destruct Hpos as [Hc ->]. exists ds. by rewrite app_nil_r. }
  exists (dss ++ [ds']). split.
  - apply Forall2_app; [done|]. by constructor.
  - rewrite concat_app. cbn. rewrite app_nil_r. etrans; [|exact Hs]. by apply sublist_app.
Qed.

(** A backend without a link only has to have kept the record. *)
Lemma traffic_down acc w w' :
  traffic acc w -> state w' = Disconnected \/ state w' = Faulted ->
  past (tr w') = past (tr w) -> stream (tr w') = stream (tr w) -> traffic acc w'.
Proof.
  intros Ht Hst Ep Es. apply traffic_handed in Ht as (dss & Hf & Hs).
  unfold streams in Hf. apply Forall2_app_inv_l in Hf as (dss1 & dss2 & H1 & H2 & ->).
  apply Forall2_cons_inv_l in H2 as (ds & dss3 & Hc & H3%Forall2_nil_inv_l & ->). subst dss3.
  exists dss1, ds, []. rewrite Ep. split; [done|]. split.
  - unfold position. rewrite Es. by destruct Hst as [-> | ->].
  - rewrite concat_app in Hs. cbn in Hs. by rewrite app_nil_r in *.
Qed.

(** Nothing of the relation changed. *)
Lemma traffic_same acc w w' :
  traffic acc w -> state w' = state w -> past (tr w') = past (tr w) -> stream (tr w') = stream (tr w) ->
  tx_out_ (be w') = tx_out_ (be w) -> tx_out_off_ (be w') = tx_out_off_ (be w) -> traffic acc w'.
Proof.
  intros (dss & ds & flight & Hp & Hpos & Hs) E1 E2 E3 E4 E5. exists dss, ds, flight.
  rewrite E2. split; [done|]. split; [|done]. unfold position in *. by rewrite E1, E3, E4, E5.
Qed.

Lemma deliver_same e (w : world) : be (deliver e w) = be w /\ tr (deliver e w) = tr w.
Proof. unfold deliver. by case_match. Qed.

Lemma log_outcome_same o (w : world) : be (log_tx_outcome o w) = be w /\ tr (log_tx_outcome o w) = tr w.
Proof. unfold log_tx_outcome. by case_match. Qed.

(** An event for the sink or a line of the RF log. *)
Lemma traffic_deliver acc e w : traffic acc w -> traffic acc (deliver e w).
Proof.
  intros H. destruct (deliver_same e w) as [Hb Ht]. apply (traffic_same acc w); try done;
    unfold state; by rewrite ?Hb, ?Ht.
Qed.

Lemma traffic_log acc o w : traffic acc w -> traffic acc (log_tx_outcome o w).
Proof.
  intros H. destruct (log_outcome_same o w) as [Hb Ht]. apply (traffic_same acc w); try done;
    unfold state; by rewrite ?Hb, ?Ht.
Qed.

Lemma traffic_reset acc w : traffic acc w -> traffic acc (reset_link_unconfigured w).
Proof. intros H. apply (traffic_down acc w); try done. by left. Qed.

Lemma traffic_fault acc w : traffic acc w -> traffic acc (enter_fault w).
Proof.
  intros H. unfold enter_fault. destruct (log_outcome_same LogUnconfirmed w) as [_ Ht].
  apply (traffic_down acc w); [done|by right|simpl; by rewrite Ht..].
Qed.

Lemma traffic_disconnect acc w : traffic acc w -> traffic acc (handle_disconnect w).
Proof.
  intros H. unfold handle_disconnect.
  destruct (state w); auto using traffic_deliver, traffic_reset, traffic_fault.
Qed.

Lemma traffic_finish acc o w : traffic acc w -> state w = TxPending -> traffic acc (finish_tx o w).
Proof.
  intros (dss & ds & flight & Hp & Hpos & Hs) Hst. unfold position in Hpos. rewrite Hst in Hpos.
  destruct Hpos as (d & _ & -> & Hstr).
  assert (Hr : traffic acc (upd (fun b => b <| state_ := Ready |> <| tx_out_ := [] |> <| tx_out_off_ := 0%nat |>) w)).
  { exists dss, (ds ++ [d]), []. split; [done|]. split; [|by rewrite <- app_assoc].
    unfold position, state; simpl. by rewrite Hstr, packets_app. }
  unfold finish_tx. case_match; [by apply traffic_deliver|done].
Qed.

(** Observations are not traffic. *)
Lemma traffic_saw acc c w : traffic acc w -> traffic acc (saw c w).
Proof. intros H. by apply (traffic_same acc w). Qed.

Lemma traffic_dispatch acc f w : traffic acc w -> traffic acc (dispatch f w).
Proof.
  intros H. apply (traffic_saw acc (FrameIn f)) in H as H0. pose proof (dispatch_cases f w) as Hc. cbv zeta in Hc.
  set (w0 := saw (FrameIn f) w) in *. destruct (meaning f) as [[rx|o]|]; [| |by rewrite Hc].
  - rewrite Hc. assert (traffic acc (log_rf (rflog_rx (rssi_cdbm rx) (snr_cdb rx) (rx_data rx)) w0))
      by (by apply (traffic_same acc w0)). case_match; [by apply traffic_deliver|done].
  - destruct Hc as [lg ->]. assert (H1 : traffic acc (if lg then log_tx_outcome LogOk w0 else w0))
      by (destruct lg; [by apply traffic_log|done]).
    destruct (state w) eqn:Hst; try done; [|by apply traffic_reset].
    apply traffic_finish; [done|]. destruct lg; [|done]. unfold state. by rewrite (proj1 (log_outcome_same LogOk w0)).
Qed.

(** The writes: a prefix more of the packet in flight, or all of it. *)
Lemma traffic_written acc w off t :
  traffic acc w -> state w = TxWriting -> past t = past (tr w) ->
  (tx_out_off_ (be w) <= off < length (tx_out_ (be w)))%nat ->
  stream t = stream (tr w) ++ take (off - tx_out_off_ (be w)) (drop (tx_out_off_ (be w)) (tx_out_ (be w))) ->
  traffic acc (upd (fun b => b <| tx_out_off_ := off |>) (w <| tr := t |>)).
Proof.
  intros (dss & ds & flight & Hp & Hpos & Hs) Hst Ht Hoff Hstr. unfold position in Hpos.
  rewrite Hst in Hpos. destruct Hpos as (d & Hd & Hout & -> & Hlt & Hcur).
  rewrite Hout in Hoff, Hstr. exists dss, ds, [d]. simpl. rewrite Ht. split; [done|]. split; [|done].
  unfold position, state in *; simpl. rewrite Hst. exists d.
  split; [done|]. split; [done|]. split; [done|]. split; [apply Hoff|].
  rewrite Hstr, Hcur, <- app_assoc. f_equal. rewrite take_take_drop. f_equal. lia.
Qed.

Lemma traffic_complete acc w t :
  traffic acc w -> state w = TxWriting -> past t = past (tr w) ->
  stream t = stream (tr w) ++ drop (tx_out_off_ (be w)) (tx_out_ (be w)) ->
  traffic acc (upd (fun b => b <| tx_out_off_ := length (tx_out_ b) |> <| state_ := TxPending |>)
                 (w <| tr := t |>)).
Proof.
  intros (dss & ds & flight & Hp & Hpos & Hs) Hst Ht Hstr. unfold position in Hpos.
  rewrite Hst in Hpos. destruct Hpos as (d & Hd & Hout & -> & Hlt & Hcur).
  exists dss, ds, [d]. simpl. rewrite Ht. split; [done|]. split; [|done].
  unfold position, state in *; simpl. exists d. split; [done|]. split; [done|].
  by rewrite Hstr, Hcur, Hout, <- app_assoc, take_drop.
Qed.

Lemma traffic_tau acc w w' : tau w w' -> traffic acc w -> traffic acc w'.
Proof.
  intros Ht H. destruct Ht as [w t Hio Hd|w l|w p|w n Hs|w Hs _|w Hs|w Hs _|w c Hs Hc|w off t Hio Hs Ho Hd
    |w t Hio Hs Hd|w off t Hio Hs Ho Hd|w f Hs|w Hs|w Hs].
  - apply (traffic_same acc w); try done. by apply ios_past.
  - by apply (traffic_same acc w).
  - by apply (traffic_same acc w).
  - by apply (traffic_same acc w).
  - by apply (traffic_same acc w).
  - destruct H as (dss & ds & flight & Hp & Hpos & Hl). exists dss, ds, flight. split; [done|].
    split; [|done]. unfold position, state in *; simpl. by rewrite Hs in Hpos.
  - apply traffic_deliver. destruct H as (dss & ds & flight & Hp & Hpos & Hl).
    exists dss, ds, flight. split; [done|]. split; [|done]. unfold position, state in *; simpl.
    rewrite Hs in Hpos. by destruct Hpos as (-> & -> & ->).
  - by apply traffic_deliver, traffic_reset, traffic_saw.
  - apply traffic_written; try done. by apply ios_past.
  - apply traffic_complete; try done. by apply ios_past.
  - apply traffic_deliver, (traffic_down acc (upd (fun b => b <| tx_out_off_ := off |>) (w <| tr := t |>)));
      [|by left|done|done]. apply traffic_written; try done. by apply ios_past.
  - by apply traffic_dispatch.
  - by apply traffic_disconnect, traffic_saw.
  - by apply traffic_fault, traffic_saw.
Qed.

Lemma traffic_steps acc w w' : rtc tau w w' -> traffic acc w -> traffic acc w'.
Proof. induction 1 as [|w w1 w2 H1 _ IH]; [done|]. intros H. by apply IH, (traffic_tau acc w). Qed.

(** *** The calls *)

Lemma traffic_configure acc now cfg w : traffic acc w -> traffic acc (begin_configure now cfg w).2.
Proof.
  intros H. unfold begin_configure.
  destruct (state w) eqn:Hst; try done.
  all: destruct (validate_config cfg) as [[] [band|]]; try done.
  all: destruct (build_set_command cfg) as [cmd|]; [|done].
  all: cbn [begin_connect recorded_transport]; destruct (begin_connect band (cur (tr w))) as [ok c].
  all: apply traffic_handed in H as (dss & Hf & Hs); unfold streams in Hf.
  all: destruct ok; cbn [negb snd]; exists dss, [], []; (split; [done|]);
    (split; [|by rewrite !app_nil_r]); unfold position, state in *; simpl; rewrite ?Hst;
    try done; try (split; [|done]; apply (carries_packets [])).
Qed.

Lemma traffic_submit acc d w :
  traffic acc w ->
  let '(ok, w') := submit_tx d w in traffic (if ok : bool then acc ++ [d] else acc) w'.
Proof.
  intros H. unfold submit_tx. destruct (started_ (be w)); [|done]. cbn [negb orb].
  case_bool_decide as Hst; [|done]. cbn [negb].
  destruct (Nat.eqb_spec (length d) 0); [done|].
  destruct (Nat.ltb_spec kMaxRfPayload (length d)); [done|]. cbn [orb].
  assert (Hd : tx_payload d) by (unfold tx_payload; lia). rewrite (encode_tx_frame d Hd).
  set (w1 := upd _ w).
  assert (H1 : traffic (acc ++ [d]) w1).
  { destruct H as (dss & ds & flight & Hp & Hpos & Hs). unfold position in Hpos. rewrite Hst in Hpos.
    destruct Hpos as [Hcur ->]. exists dss, ds, [d]. split; [done|]. split.
    - unfold position; simpl. exists d. repeat split; try done; [apply Hd..|cbn; lia|]. by rewrite app_nil_r.
    - rewrite app_nil_r, app_assoc in *. by apply sublist_app. }
  destruct (pump_tx_write w1) as [fl w2] eqn:Ep.
  apply pump_tx_write_spec in Ep as (off & t & -> & Hio & Hoff & Hsent & Hc & Hpa); [|simpl; lia].
  apply ios_past in Hio. destruct fl.
  - specialize (Hc eq_refl). subst off. apply (traffic_complete _ w1 t); try done.
    rewrite take_ge in Hsent; [done|]. rewrite length_drop; lia.
  - apply (traffic_written _ w1 off t); try done. split; [lia|]. by apply Hpa.
  - destruct H as (dss & ds & flight & Hp & Hpos & Hs). unfold position in Hpos. rewrite Hst in Hpos.
    destruct Hpos as [Hcur ->]. exists dss, ds, []. simpl in Hio |- *. rewrite Hio. split; [done|].
    split; [|done]. unfold position; simpl. split; [|done]. exists d, off. split; [done|].
    assert (off < length (tx_out_ (be w1)))%nat by (by apply Hpa).
    split; [done|]. simpl in Hsent. rewrite Hsent, Hcur. f_equal. by rewrite Nat.sub_0_r.
Qed.

Lemma traffic_abandon acc now w : traffic acc w -> traffic acc (abandon_pending_tx now w).
Proof.
  intros H. unfold abandon_pending_tx. destruct (state w) eqn:Hst; try done; [by apply traffic_reset|].
  destruct H as (dss & ds & flight & Hp & Hpos & Hs). exists dss, ds, flight. split; [done|].
  split; [|done]. unfold position, state in *; simpl. by rewrite Hst in Hpos.
Qed.

Lemma traffic_stop acc w : traffic acc w -> traffic acc (stop w).
Proof.
  intros H. unfold stop. destruct (state w) eqn:Hst;
    first [by apply (traffic_same acc w)|apply (traffic_down acc w); try done; by left].
Qed.

(** Ownership and traffic together, over a backend with a record of what it
    accepted. *)
Definition audited (b : audit world) : Prop := owner_inv (inner b) /\ traffic (accepted b) (inner b).

#[export] Instance audited_invariant : BackendInvariant audited.
Proof.
  split; cbn [rb_set_sink rb_begin_configure rb_start rb_stop rb_submit_tx
              rb_abandon_pending_tx rb_poll audit_backend].
  - intros on b [Hi Ht]. split; [by apply (inv_set_sink (P := owner_inv))|]. by apply (traffic_same _ (inner b)).
  - intros now cfg b [Hi Ht].
    pose proof (inv_begin_configure (P := owner_inv) now cfg _ Hi) as Hi'.
    pose proof (traffic_configure _ now cfg _ Ht) as Ht'.
    cbn in Hi' |- *. by destruct (begin_configure now cfg (inner b)).
  - intros b [Hi Ht]. split; [by apply (inv_start (P := owner_inv))|]. by apply (traffic_same _ (inner b)).
  - intros b [Hi Ht]. split; [by apply (inv_stop (P := owner_inv))|]. by apply traffic_stop.
  - intros d b [Hi Ht]. pose proof (inv_submit_tx (P := owner_inv) d _ Hi) as Hi'.
    pose proof (traffic_submit _ d _ Ht) as Ht'. cbn in Hi' |- *.
    by destruct (submit_tx d (inner b)).
  - intros now b [Hi Ht]. split; [by apply (inv_abandon_pending_tx (P := owner_inv))|]. by apply traffic_abandon.
  - intros now b [Hi Ht]. pose proof (inv_poll (P := owner_inv) now _ Hi) as Hi'. split; [exact Hi'|].
    cbn. apply (traffic_steps _ ((inner b) <| ev := [] |>)); [|by apply (traffic_same _ (inner b))].
    apply poll_steps. by apply owner_inv_writing.
Qed.

(** A fresh backend with empty records. *)
Definition fresh_audit (config_timeout_ms drain_timeout_ms : Z) (t : T) : audit world :=
  mkAudit (fresh config_timeout_ms drain_timeout_ms (recording t)) [].

Lemma fresh_audited cto dto t : audited (fresh_audit cto dto t).
Proof.
  split; [done|]. exists [], [], []. split; [constructor|]. split; [|done].
  split; [apply (carries_packets [])|done].
Qed.
End Traffic.
End backend_traffic.
