(* ===== verification/ScriptedTransport.v ===== *)
(** A scripted daemon: a concrete transport on which the witnesses evaluate the
    backend, after the in-memory fake daemon of the repository's tests.  The
    script holds the chunks the next reads return and the number of bytes the
    next DATA sends accept (everything when the script is exhausted, a failure
    when negative). *)

From S2P Require Import Prelude.
From S2P Require Import LorahamConfig.
From S2P Require Import DaemonTransport.

Module scripted_transport.
Import loraham_config daemon_transport.

Record script := mkScript {
  conf_in : list bytes;
  data_in : list (option bytes);
  room : list Z;
  sent : bytes
}.

#[export] Instance eta_script : Eta script :=
  fun s => {| conf_in := conf_in s; data_in := data_in s; room := room s; sent := sent s |}.

(** A chunk that is a legal answer to a read of at most [cap] bytes. *)
Definition answer (cap : nat) (d : bytes) : recv_result :=
  if (0 <? length d)%nat && (length d <=? cap)%nat then RecvData d else RecvErr.

Definition script_conf_recv (cap : nat) (s : script) : recv_result * script :=
  match conf_in s with
  | [] => (RecvNone, s)
  | d :: rest => (answer cap d, s <| conf_in := rest |>)
  end.

(** [None] in the script is a lost link. *)
Definition script_data_recv (cap : nat) (s : script) : recv_result * script :=
  match data_in s with
  | [] => (RecvNone, s)
  | None :: rest => (RecvErr, s <| data_in := rest |>)
  | Some d :: rest => (answer cap d, s <| data_in := rest |>)
  end.

Definition script_data_send (d : bytes) (s : script) : Z * script :=
  match room s with
  | [] => (zlen d, s <| sent := sent s ++ d |>)
  | n :: rest =>
      let n := Z.min n (zlen d) in
      (n, s <| room := rest |> <| sent := sent s ++ take (Z.to_nat n) d |>)
  end.

#[export] Instance script_transport : DaemonTransport script := {|
  begin_connect _ s := (true, s <| sent := [] |>);
  poll_connect s := (CsConnected, s);
  conf_send_some d s := (zlen d, s);
  data_send_some := script_data_send;
  conf_recv := script_conf_recv;
  data_recv := script_data_recv;
  close s := s;
  conf_pending s := length (conf_in s);
  data_pending s := length (data_in s);
  data_sent := sent;
|}.

Lemma answer_data cap d d' : answer cap d = RecvData d' -> d' <> [] /\ (length d' <= cap)%nat.
Proof.
  unfold answer. case_match eqn:E; [|done]. intros [= <-]. apply andb_true_iff in E as [E1 E2].
  split; [|lia]. intros ->. simpl in E1. lia.
Qed.

#[export] Instance script_transport_laws : DaemonTransportLaws script.
Proof.
  split; simpl.
  - unfold script_conf_recv. intros cap t d t'. destruct (conf_in t); [done|].
    intros [= Ha <-]. apply answer_data in Ha as [? ?]. simpl. auto.
  - unfold script_data_recv. intros cap t d t'. destruct (data_in t) as [|[d'|] rest]; [done| |done].
    intros [= Ha <-]. apply answer_data in Ha as [? ?]. simpl. auto.
  - unfold script_data_send. intros d t n t'. destruct (room t); intros [= <- <-]; simpl.
    + split; [lia|]. unfold zlen. by rewrite Nat2Z.id, firstn_all.
    + split; [lia | done].
  - intros band t ok t' [= <- <-]. by left.
  - by intros t cs t' [= _ <-].
  - by intros d t n t' [= _ <-].
  - unfold script_conf_recv. intros cap t r t'. destruct (conf_in t); by intros [= _ <-].
  - unfold script_data_recv. intros cap t r t'.
    destruct (data_in t) as [|[d'|] rest]; by intros [= _ <-].
Qed.
#[export] Instance script_arrived : ArrivedInput script.
Proof.
  split; cbn [conf_recv data_recv conf_pending data_pending script_transport].
  - unfold script_conf_recv. intros cap t d t'. destruct (conf_in t); [done|]. intros [= _ <-]. simpl. lia.
  - unfold script_data_recv. intros cap t d t'. destruct (data_in t) as [|[d'|] rest]; [done| |done].
    intros [= _ <-]. simpl. lia.
Qed.
End scripted_transport.
