(* ===== verification/BackendProperties.v ===== *)
(** The properties of the LoRaHAM backend, each over every sequence of calls its
    owner can make, from a fresh backend over any transport that keeps the
    contract of loraham_transport.h. *)

From stdpp Require Import relations.
From S2P Require Import Prelude.
From S2P Require Import StreamLoop.
From S2P Require Import XrCodec.
From S2P Require Import RadioBackend.
From S2P Require Import LorahamConfig.
From S2P Require Import LorahamFraming.
From S2P Require Import DaemonTransport.
From S2P Require Import LorahamBackend.
From S2P Require Import BackendSteps.
From S2P Require Import BackendFacts.
From S2P Require Import ScriptedTransport.

Module backend_properties.
Import extradio radio_backend loraham_config loraham daemon_transport loraham_backend
  backend_steps backend_facts.

(** ** Lemmas *)

Section Polls.
Context {T : Type} `{HT : !DaemonTransport T} `{HL : !DaemonTransportLaws T}.

Lemma polls_ok nows (w : world T) ls w' :
  owner_inv w -> do_calls (CallPoll <$> nows) w = (ls, w') ->
  call_ok w ls w' /\ statics (be w') = statics (be w) /\ exists ns, ls = LNote <$> ns.
Proof.
  revert w ls. induction nows as [|now nows IH]; intros w ls Hi E; cbn [fmap list_fmap do_calls] in E.
  { simplify_eq. split; [|split; [done|by exists []]].
    apply call_ok_quiet; [done|constructor|done|done]. }
  destruct (do_call (CallPoll now) w) as [l1 w1] eqn:E1.
  destruct (do_calls _ w1) as [l2 w2] eqn:E2. simplify_eq.
  apply poll_call in E1 as [-> ->].
  set (w0 := w <| ev := [] |>) in *. assert (Hi0 : owner_inv w0) by done.
  pose proof (poll_steps now w0 (owner_inv_writing w0 Hi0)) as Hr.
  destruct (call_ok_steps w _ Hr Hi) as (Hi1 & Hr1 & Hl1).
  apply IH in E2 as ((Hi2 & Hr2 & Hl2) & Hs & es & ->); [|done]. split; [split; [done|split; [by eapply run_app|]]|split].
  - etrans; [exact Hl2|]. rewrite accepted_app, !app_assoc. apply sublist_app; [|done].
    by rewrite <- app_assoc.
  - rewrite Hs. by rewrite poll_statics.
  - exists (ev (poll now w0) ++ es). by rewrite fmap_app.
Qed.

Lemma do_calls_app cs1 cs2 (w : world T) :
  do_calls (cs1 ++ cs2) w =
  let '(l1, w1) := do_calls cs1 w in
  let '(l2, w2) := do_calls cs2 w1 in (l1 ++ l2, w2).
Proof.
  revert w. induction cs1 as [|c cs1 IH]; intros w; simpl.
  - by destruct (do_calls cs2 w).
  - destruct (do_call c w) as [l w1]. rewrite IH.
    destruct (do_calls cs1 w1) as [l1 w2]. destruct (do_calls cs2 w2). by rewrite app_assoc.
Qed.
End Polls.

(** The configuration results of a trace. *)
Definition config_results (ls : list label) : list (Z * ConfigureResult) :=
  omap (fun l => match l with
                 | LNote (Told (on_configure_complete tok r)) => Some (tok, r)
                 | _ => None
                 end) ls.

Definition settling (o : ownership) : bool :=
  match o with Settling _ _ => true | _ => false end.

Definition config_outcome (cfg : RadioConfig) (r : ConfigureResult) : Prop :=
  r = {| applied := true; effective := cfg |} \/
  r = {| applied := false; effective := zero_config |}.

(** A poll alone neither starts a configuration nor reports one not started. *)
Lemma run_settled x ls y ns :
  diagram_run x ls y -> ls = LNote <$> ns -> settling x.2 = false ->
  settling y.2 = false /\ config_results ls = [].
Proof.
  intros Hr. revert ns. induction Hr as [|x l y ls z Hd _ IH]; intros ns Hns Hx; [done|].
  symmetry in Hns. apply fmap_app_inv in Hns as (n1 & n2 & -> & -> & ->).
  assert (settling y.2 = false /\ config_results (LNote <$> n1) = []) as [Hy Hl].
  { remember (LNote <$> n1) as l eqn:El. destruct Hd; simpl in *; try done.
    all: try (by destruct n1). all: unfold shown; by destruct s as [[] ?]. }
  destruct (IH n2 eq_refl Hy) as [Hz Hls]. split; [done|].
  unfold config_results in *. by rewrite omap_app, Hl, Hls.
Qed.

Lemma run_settling n tok cfg x ls y ns :
  diagram_run x ls y -> ls = LNote <$> ns -> x = ((true, n), Settling tok cfg) ->
  (y = x /\ config_results ls = []) \/
  (settling y.2 = false /\ exists r, config_results ls = [(tok, r)] /\ config_outcome cfg r).
Proof.
  intros Hr. revert ns. induction Hr as [|x l y ls z Hd Hr IH]; intros ns Hns Hx; [by left|].
  symmetry in Hns. apply fmap_app_inv in Hns as (n1 & n2 & -> & -> & ->).
  right. remember (LNote <$> n1) as l eqn:El.
  assert (exists c r, l = [seen c; LNote (Told (on_configure_complete tok r))] /\ settling y.2 = false /\
            config_outcome cfg r) as (c & r & -> & Hy & Ho).
  { destruct Hd; simplify_eq/=; try (by destruct n1); unfold config_outcome; try done; by eauto 6. }
  destruct (run_settled _ _ _ n2 Hr eq_refl Hy) as [Hz Hls]. split; [done|]. exists r. split; [|done].
  change ((tok, r) :: config_results (LNote <$> n2) = [(tok, r)]). by rewrite Hls.
Qed.

Lemma settling_view {T} `{!DaemonTransport T} (w : world T) :
  settling (owner w) = configuring w.
Proof. unfold owner, configuring. by destruct (state w). Qed.

(** An overdue configuration or drain is over after one poll. *)
Lemma poll_overdue {T} `{!DaemonTransport T} now (w : world T) :
  (configuring w = true -> config_deadline_at_ (be w) <= now ->
   state (poll now w) = Disconnected) /\
  (state w = Draining -> drain_deadline_at_ (be w) <= now -> state (poll now w) = Faulted).
Proof.
  unfold poll, configuring. split.
  - destruct (state w) eqn:E; try done; intros _ Hd; rewrite (proj2 (Z.leb_le _ _)) by done;
      unfold config_fail, deliver; by case_match.
  - intros -> Hd. unfold advance_drain. by rewrite (proj2 (Z.leb_le _ _)).
Qed.
Lemma poll_inert {T} `{!DaemonTransport T} now (w : world T) :
  state w = Disconnected \/ state w = Faulted -> poll now w = w.
Proof. unfold poll. by intros [-> | ->]. Qed.

Lemma abandon_awaited {T} `{!DaemonTransport T} now (w : world T) :
  awaited (owner (abandon_pending_tx now w)) = 0%nat.
Proof.
  unfold abandon_pending_tx. destruct (state w) eqn:E; try done; unfold owner; by rewrite E.
Qed.

(** Polls until after the deadline end a configuration. *)
Lemma polls_settle {T} `{!DaemonTransport T, !DaemonTransportLaws T} (w : world T) nows now ls w' :
  owner_inv w -> configuring w = true -> sink_ (be w) = true ->
  config_deadline_at_ (be w) <= now ->
  do_calls (CallPoll <$> nows ++ [now]) w = (ls, w') ->
  configuring w' = false /\
  exists r, config_results ls = [(config_token_ (be w), r)] /\ config_outcome (pending_cfg_ (be w)) r.
Proof.
  intros Hi Hc Hs Hd E. pose proof E as E0. apply polls_ok in E0 as ((Hi' & Hr & _) & _ & es & Hes); [|done].
  assert (Hv : view w = ((true, next_token_ (be w)), Settling (config_token_ (be w)) (pending_cfg_ (be w)))).
  { unfold configuring in Hc. unfold view, settings, owner. rewrite Hs. by destruct (state w). }
  rewrite fmap_app, do_calls_app in E.
  destruct (do_calls (CallPoll <$> nows) w) as [l1 w1] eqn:E1.
  apply polls_ok in E1 as ((Hi1 & Hr1 & _) & Hst & _); [|done].
  pose proof (f_equal (fun x => x.1.1.2) Hst
    : config_deadline_at_ (be w1) = config_deadline_at_ (be w)) as Hdl.
  destruct (do_calls _ w1) as [l2 w2] eqn:E2. injection E as _ <-.
  cbn [fmap list_fmap do_calls] in E2.
  destruct (do_call (CallPoll now) w1) as [l3 w3] eqn:E3. apply poll_call in E3 as [-> ->].
  injection E2 as <- <-. set (w0 := w1 <| ev := [] |>) in *.
  assert (Hi0 : owner_inv w0) by done.
  assert (Hfin : configuring (poll now w0) = false).
  { destruct (configuring w0) eqn:Hc0.
    - unfold configuring. rewrite (proj1 (poll_overdue now w0) Hc0); [done|].
      simpl. by rewrite Hdl.
    - pose proof (poll_steps now w0 (owner_inv_writing w0 Hi0)) as Hp.
      destruct (call_ok_steps w1 _ Hp Hi0) as (_ & Hrun & _).
      apply (run_settled _ _ _ (ev (poll now w0))) in Hrun as [Hrun _]; [|done|].
      + by rewrite <- settling_view.
      + simpl. by rewrite (settling_view w1). }
  split; [done|].
  destruct (run_settling _ _ _ _ _ _ _ Hr Hes Hv) as [[Hy _]|[_ Hres]]; [|done].
  exfalso. apply (f_equal snd) in Hy. rewrite Hv in Hy.
  apply (f_equal settling) in Hy. change (settling (owner (poll now w0)) = true) in Hy.
  rewrite settling_view in Hy. congruence.
Qed.

(** What the sink is told in a trace; whether the daemon answered for the packet. *)
Definition heard (ls : list label) : list SinkEvent :=
  omap (fun l => match l with LNote (Told e) => Some e | _ => None end) ls.
Definition answered (ls : list label) : Prop :=
  exists f o, seen (FrameIn f) ∈ ls /\ meaning f = Some (MsgOutcome o).

(** Without a link a poll does nothing. *)
Lemma run_unlinked x ls y ns :
  diagram_run x ls y -> ls = LNote <$> ns -> x.2 = Unconfigured \/ x.2 = Dead -> ls = [] /\ y = x.
Proof.
  intros Hr. revert ns. induction Hr as [|x l y ls z Hd Hr IH]; intros ns Hns Hx; [done|]. exfalso.
  symmetry in Hns. apply fmap_app_inv in Hns as (n1 & n2 & -> & -> & ->).
  remember (LNote <$> n1) as l eqn:El. unfold ignores in Hd.
  destruct Hd; simplify_eq/=; try (by destruct n1); destruct Hx; simplify_eq/=; try done.
Qed.

(** Polls of a drain: nothing is told, and only an answer ends it well. *)
Lemma run_clearing d x ls y ns :
  diagram_run x ls y -> ls = LNote <$> ns -> x.2 = Clearing d ->
  heard ls = [] /\ (y = x \/ (y.2 = Unconfigured /\ answered ls) \/ y.2 = Dead).
Proof.
  intros Hr. revert ns. induction Hr as [|x l y ls z Hd Hr IH]; intros ns Hns Hx; [by auto|].
  symmetry in Hns. apply fmap_app_inv in Hns as (n1 & n2 & -> & -> & ->).
  remember (LNote <$> n1) as l eqn:El.
  assert (heard l = [] /\ (y = x \/ (y.2 = Unconfigured /\ answered l) \/ y.2 = Dead)) as [Hl Hy].
  { destruct Hd; simplify_eq/=; try (by destruct n1); try (split; [done|]); auto.
    - right; left. split; [done|]. exists f, r. split; [apply list_elem_of_here|done]. }
  assert (Hm : forall l', answered l -> answered (l ++ l'))
    by (intros l' (f & o & Hin & Hm); exists f, o; rewrite elem_of_app; auto).
  assert (Hh : heard (l ++ (LNote <$> n2)) = heard (LNote <$> n2)) by (unfold heard in *; by rewrite omap_app, Hl).
  rewrite Hh. destruct Hy as [->|Hy].
  - destruct (IH n2 eq_refl Hx) as [H1 [->|[[H2 (f & o & Hin & Ha)]|H2]]]; (split; [done|]); auto.
    right; left. split; [done|]. exists f, o. rewrite elem_of_app; auto.
  - destruct (run_unlinked _ _ _ n2 Hr eq_refl) as [-> ->]; [naive_solver|]. rewrite app_nil_r. by auto.
Qed.

Lemma polls_clear {T} `{!DaemonTransport T, !DaemonTransportLaws T} (w : world T) nows now ls w' :
  owner_inv w -> state w = Draining -> drain_deadline_at_ (be w) <= now ->
  do_calls (CallPoll <$> nows ++ [now]) w = (ls, w') ->
  heard ls = [] /\ ((state w' = Disconnected /\ answered ls) \/ state w' = Faulted).
Proof.
  intros Hi Hs Hd E. pose proof E as E0. apply polls_ok in E0 as ((Hi' & Hr & _) & _ & ns & Hns); [|done].
  assert (Hw : owner w = Clearing (payload_in_flight w)) by (unfold owner; by rewrite Hs).
  assert (Hst : forall w1 : world T, match owner w1 with
    | Clearing _ => state w1 = Draining | Unconfigured => state w1 = Disconnected | Dead => state w1 = Faulted
    | _ => True end) by (intros w1; unfold owner; by destruct (state w1)).
  destruct (run_clearing (payload_in_flight w) _ _ _ _ Hr Hns Hw) as [Hh Hfin]. split; [done|].
  destruct Hfin as [Hv|[[Ho Ha]|Ho]]; cycle 1.
  { left. split; [|done]. specialize (Hst w'). by rewrite (Ho : owner w' = _) in Hst. }
  { right. specialize (Hst w'). by rewrite (Ho : owner w' = _) in Hst. }
  exfalso. assert (Hdr : state w' = Draining)
    by (specialize (Hst w'); by rewrite (f_equal snd Hv : owner w' = owner w), Hw in Hst).
  rewrite fmap_app, do_calls_app in E.
  destruct (do_calls (CallPoll <$> nows) w) as [l1 w1] eqn:E1.
  apply polls_ok in E1 as ((Hi1 & Hr1 & _) & Hst1 & ns1 & Hns1); [|done].
  pose proof (f_equal (fun x => x.1.2) Hst1
    : drain_deadline_at_ (be w1) = drain_deadline_at_ (be w)) as Hdl.
  destruct (run_clearing (payload_in_flight w) _ _ _ _ Hr1 Hns1 Hw) as [_ Hw1].
  destruct (do_calls _ w1) as [l2 w2] eqn:E2. injection E as _ <-.
  cbn [fmap list_fmap do_calls] in E2.
  destruct (do_call (CallPoll now) w1) as [l3 w3] eqn:E3. apply poll_call in E3 as [-> _].
  injection E2 as _ <-. specialize (Hst w1). destruct Hw1 as [H1|[[H1 _]|H1]].
  - rewrite (f_equal snd H1 : owner w1 = owner w), Hw in Hst.
    assert (Hf : state (poll now (w1 <| ev := [] |>)) = Faulted);
      [|by pose proof (eq_trans (eq_sym Hf) Hdr)].
    apply poll_overdue; [done|]. simpl. by rewrite Hdl.
  - rewrite (H1 : owner w1 = _) in Hst. rewrite poll_inert in Hdr by auto. change (state w1 = Draining) in Hdr. congruence.
  - rewrite (H1 : owner w1 = _) in Hst. rewrite poll_inert in Hdr by auto. change (state w1 = Draining) in Hdr. congruence.
Qed.

(** ** Scripts for the witnesses *)

Module scenario.
Import scripted_transport.

Definition status_ready : bytes :=
  str "OK" ++ [LF] ++ str "TX=0" ++ [LF] ++ str "STATUS RADIO=READY MODE=LORA" ++ [LF].

(** A daemon that gets ready, then answers with the given DATA reads. *)
Definition daemon (data : list (option bytes)) (room : list Z) : script :=
  mkScript [status_ready] data room [].

Definition result_ok : bytes := [FRAMED_TX_RESULT; 4; 0; 0; 0; 1; 0].

(** Configure, get ready, transmit two bytes. *)
Definition connect_and_send : list call :=
  [CallSink true; CallStart; CallConfigure 0 cfg433; CallPoll 10; CallSubmit [170; 187]].
End scenario.

(** * Properties *)

Section Properties.
Context {T : Type} `{HT : !DaemonTransport T} `{HL : !DaemonTransportLaws T}.


(** C7. Ownership in bytes: on the daemon's DATA socket the bridge writes whole
    TX packets one after the other.  While the bridge owns a packet
    ([TxWriting]) the daemon has only a strict prefix of it, so it cannot
    transmit it; once the daemon owns it ([TxPending], [Draining]) the daemon
    has all of it; when the backend is ready the stream ends at a packet
    boundary. *)
Theorem daemon_ownership_bytes (cto dto : Z) (t : T) (cs : list call) (ls : list label)
    (w : world T) :
  do_calls cs (fresh cto dto t) = (ls, w) ->
  match state w with
  | Ready => framed (data_sent (tr w))
  | TxWriting => exists d pre n, owner w = BridgeOwned d /\ tx_payload d /\ framed pre /\
      (n < length (tx_frame d))%nat /\ data_sent (tr w) = pre ++ take n (tx_frame d)
  | TxPending | Draining => exists d pre, (owner w = DaemonOwned d \/ owner w = Clearing d) /\
      tx_payload d /\ framed pre /\ data_sent (tr w) = pre ++ tx_frame d
  | _ => True
  end.
Proof. intros E. by apply owner_bytes, (fresh_calls_ok cto dto t cs ls). Qed.

(** C10. A transmit result is reported at most once per accepted packet, and
    never for an abandoned one: in every run the reports are at most the
    accepted packets, and from the moment of an [abandon_pending_tx] on they
    are at most the packets accepted after it. *)
Theorem tx_results_at_most_once (cto dto : Z) (t : T) (cs1 cs2 : list call) (now : Z)
    (l1 l2 : list label) (w1 w2 : world T) :
  do_calls cs1 (fresh cto dto t) = (l1, w1) ->
  do_calls (CallAbandon now :: cs2) w1 = (l2, w2) ->
  (length (filter is_complete l1) <= length (filter is_accept l1))%nat /\
  (length (filter is_complete l2) <= length (filter is_accept l2))%nat.
Proof.
  intros E1 E2. apply fresh_calls_ok in E1 as (Hi1 & Hr1 & _).
  cbn [do_calls] in E2. destruct (do_call (CallAbandon now) w1) as [la w1'] eqn:Ea.
  destruct (do_calls cs2 w1') as [l3 w3] eqn:E3. injection E2 as <- <-.
  assert (Hz : la = [LAbandon] /\ awaited (owner w1') = 0%nat).
  { injection Ea as <- <-. split; [done|]. apply abandon_awaited. }
  apply do_call_ok in Ea as (Hi' & _); [|done]. apply do_calls_ok in E3 as (_ & Hr3 & _); [|done].
  apply run_counts in Hr1, Hr3. destruct Hz as [-> Hz]. rewrite !filter_app, !length_app. simpl in *. lia.
Qed.

(** C14. A fault is final: once the backend is [Faulted] no sequence of calls
    leaves that state, every configuration is refused (token 0), every packet
    is refused, and the sink hears nothing more. *)
Theorem faulted_forever (cto dto : Z) (t : T) (cs1 cs2 : list call) (l1 l2 : list label)
    (w1 w2 : world T) :
  do_calls cs1 (fresh cto dto t) = (l1, w1) -> state w1 = Faulted ->
  do_calls cs2 w1 = (l2, w2) ->
  state w2 = Faulted /\ forallb inert l2 = true.
Proof.
  intros E1 Hst E2. apply fresh_calls_ok in E1 as (Hi1 & _ & _).
  apply do_calls_ok in E2 as (_ & Hr2 & _); [|done].
  apply run_dead in Hr2 as [Hd Hl]; [|simpl; unfold owner; by rewrite Hst].
  split; [|done]. simpl in Hd. unfold owner in Hd. by destruct (state w2).
Qed.

(** The RF log has at most one transmit line per accepted packet, with that
    packet's payload, in the order of acceptance. *)
Theorem rf_log_tx_lines (cto dto : Z) (t : T) (cs : list call) (ls : list label) (w : world T) :
  do_calls cs (fresh cto dto t) = (ls, w) -> logged w `sublist_of` accepted_payloads ls.
Proof.
  intros E. apply fresh_calls_ok in E as (_ & _ & Hl).
  etrans; [|exact Hl]. by apply sublist_inserts_r.
Qed.

(** C19. A configuration always settles: once accepted it is answered by polling
    alone, whatever the daemon does -- after any polls, the first one at or past
    the deadline included, the backend is no longer configuring and the sink has
    been told exactly once, with the operation's own token, either the requested
    configuration or a failure. *)
Theorem configuration_settles (cto dto : Z) (t : T) (cs : list call) (t0 now : Z)
    (cfg : RadioConfig) (nows : list Z) (l1 l2 : list label) (w1 w2 w3 : world T) (tok : Z) :
  do_calls cs (fresh cto dto t) = (l1, w1) -> sink_ (be w1) = true ->
  begin_configure t0 cfg w1 = (tok, w2) -> tok <> 0 -> next_deadline_ms w2 <= now ->
  do_calls (CallPoll <$> nows ++ [now]) w2 = (l2, w3) ->
  configuring w3 = false /\
  exists r, config_results l2 = [(tok, r)] /\ config_outcome cfg r.
Proof.
  intros E1 Hs Eb Htok Hd E2. apply fresh_calls_ok in E1 as (Hi1 & _ & _).
  assert (Hok : owner_inv w2) by (by apply (configure_ok t0 cfg w1 tok w2)).
  assert (state w2 = Connecting /\ config_token_ (be w2) = tok /\ pending_cfg_ (be w2) = cfg /\
          sink_ (be w2) = true) as (Hst & <- & <- & Hs2).
  { revert Eb. unfold begin_configure. repeat case_match; intros [= <- <-]; done. }
  unfold next_deadline_ms in Hd. rewrite Hst in Hd.
  apply (polls_settle w2 nows now); try done. unfold configuring; by rewrite Hst.
Qed.

(** C20. An abandoned packet is cleared within the drain timeout: after any
    polls, the first one at or past the deadline included, the backend is
    unconfigured, a frame of the daemon with the outcome having been seen, or it
    is faulted; the sink has heard nothing. *)
Theorem drain_settles (cto dto : Z) (t : T) (cs : list call) (t0 now : Z) (nows : list Z)
    (l1 l2 : list label) (w1 w3 : world T) :
  do_calls cs (fresh cto dto t) = (l1, w1) -> state w1 = TxPending ->
  let w2 := abandon_pending_tx t0 w1 in
  next_deadline_ms w2 <= now ->
  do_calls (CallPoll <$> nows ++ [now]) w2 = (l2, w3) ->
  heard l2 = [] /\ ((state w3 = Disconnected /\ answered l2) \/ state w3 = Faulted).
Proof.
  intros E1 Hst w2 Hd E2. apply fresh_calls_ok in E1 as (Hi1 & _ & _).
  destruct (abandon_ok t0 w1 Hi1) as (Hi2 & _ & _). fold w2 in Hi2.
  assert (Hs2 : state w2 = Draining) by (subst w2; unfold abandon_pending_tx; by rewrite Hst).
  unfold next_deadline_ms in Hd. rewrite Hs2 in Hd.
  by apply (polls_clear w2 nows now).
Qed.

(** C40. How the backend's loops end.  A send loop, on the CONF or the DATA socket,
    ends within as many rounds as bytes remain and one more, whatever the
    transport answers.  A receive loop of [n] rounds is over -- more rounds do not
    change its result -- unless all of its [n] reads returned a full chunk: it
    goes on only as long as the daemon floods it, and one read that is short,
    empty or failed ends it.  The loop over the lines of a CONF read ends within
    as many rounds as it has bytes and one more. *)
Theorem backend_loops_terminate (n fuel : nat) (w : world T) (aw : bool) (buf : bytes) :
  (n <= fuel)%nat ->
  ((length (conf_out_ (be w)) - conf_out_off_ (be w) < n)%nat ->
   send_loop fuel conf_send_some (conf_out_ (be w)) (conf_out_off_ (be w)) (tr w) =
   send_loop n conf_send_some (conf_out_ (be w)) (conf_out_off_ (be w)) (tr w)) /\
  ((length (tx_out_ (be w)) - tx_out_off_ (be w) < n)%nat ->
   send_loop fuel data_send_some (tx_out_ (be w)) (tx_out_off_ (be w)) (tr w) =
   send_loop n data_send_some (tx_out_ (be w)) (tx_out_off_ (be w)) (tr w)) /\
  (pump_conf_loop fuel aw (conf_line_ (be w)) (tr w) = pump_conf_loop n aw (conf_line_ (be w)) (tr w) \/
   floods conf_recv n (tr w)) /\
  (drain_conf_loop fuel (tr w) = drain_conf_loop n (tr w) \/ floods conf_recv n (tr w)) /\
  (operational (state w) = true ->
   data_loop fuel torn_down w = data_loop n torn_down w \/ floods data_recv n (tr w)) /\
  (state w = Draining ->
   data_loop fuel drain_over w = data_loop n drain_over w \/ floods data_recv n (tr w)) /\
  ((length buf < n)%nat -> conf_lines fuel aw buf = conf_lines n aw buf).
Proof.
  intros Hn. split_and!.
  - intros. apply send_loop_fuel; lia.
  - intros. apply send_loop_fuel; lia.
  - by apply pump_conf_loop_ends.
  - by apply drain_conf_loop_ends.
  - intros. by apply operational_loop_ends.
  - intros. by apply drain_loop_ends.
  - intros. apply conf_lines_fuel; lia.
Qed.

(** The fuel of the model is enough when what has arrived bounds the reads. *)
Theorem model_fuel_enough `{!ArrivedInput T} (fuel : nat) (w : world T) (aw : bool) :
  ((conf_pending (tr w) < fuel)%nat ->
   pump_conf_loop fuel aw (conf_line_ (be w)) (tr w) =
   pump_conf_loop (S (conf_pending (tr w))) aw (conf_line_ (be w)) (tr w) /\
   drain_conf_loop fuel (tr w) = drain_conf_loop (S (conf_pending (tr w))) (tr w)) /\
  ((data_pending (tr w) < fuel)%nat ->
   (operational (state w) = true ->
    data_loop fuel torn_down w = data_loop (S (data_pending (tr w))) torn_down w) /\
   (state w = Draining ->
    data_loop fuel drain_over w = data_loop (S (data_pending (tr w))) drain_over w)).
Proof.
  split; intros Hf; split.
  - by destruct (pump_conf_loop_ends (S (conf_pending (tr w))) fuel aw (conf_line_ (be w)) (tr w))
      as [|H%conf_flood_arrived]; [lia| |lia].
  - by destruct (drain_conf_loop_ends (S (conf_pending (tr w))) fuel (tr w))
      as [|H%conf_flood_arrived]; [lia| |lia].
  - intros Hs. by destruct (operational_loop_ends (S (data_pending (tr w))) fuel w)
      as [|H%data_flood_arrived]; [|lia| |lia].
  - intros Hs. by destruct (drain_loop_ends (S (data_pending (tr w))) fuel w)
      as [|H%data_flood_arrived]; [|lia| |lia].
Qed.
End Properties.

(** ** Witnesses *)

Module witnesses.
Import scripted_transport scenario.

(** A daemon that takes the first four bytes of the packet, then the rest. *)
Definition slow : script := daemon [Some result_ok] [4; 0].
Definition cs_slow : list call := connect_and_send.
Definition cs_done : list call := connect_and_send ++ [CallPoll 20; CallPoll 30].
Definition trace_done : list label :=
  [LSink true; LStart; LConfigure cfg433 1;
   seen (StatusIn true); LNote (Told (on_configure_complete 1 {| applied := true; effective := cfg433 |}));
   LSubmit [170; 187] true;
   seen (FrameIn (loraham.mkFrame FRAMED_TX_RESULT [0; 0; 1; 0])); LNote (Told (on_tx_complete Success))].

(** Worlds reached by the scenarios, evaluated. *)
Definition w_slow := Eval vm_compute in do_calls cs_slow (fresh 2000 30000 slow).
Definition w_done := Eval vm_compute in do_calls cs_done (fresh 2000 30000 slow).

(** The link is lost while an abandoned packet is at the daemon. *)
Definition cs_gone : list call := connect_and_send ++ [CallAbandon 15; CallPoll 20].
Definition w_gone := Eval vm_compute in do_calls cs_gone (fresh 2000 30000 (daemon [None] [])).


Lemma daemon_ownership_bytes_witness :
  exists d pre n, BridgeOwned [170; 187] = BridgeOwned d /\ tx_payload d /\ framed pre /\
    (n < length (tx_frame d))%nat /\ [2; 2; 0; 170] = pre ++ take n (tx_frame d).
Proof.
  refine (daemon_ownership_bytes 2000 30000 slow cs_slow w_slow.1 w_slow.2 _);
    vm_compute; reflexivity.
Defined.

(** The packet is abandoned while the daemon owns it; its result comes later. *)
Definition answering : script := daemon [Some result_ok] [].
Definition cs_after : list call := [CallStop; CallPoll 20; CallPoll 30].
Definition w_owned := Eval vm_compute in do_calls connect_and_send (fresh 2000 30000 answering).
Definition w_cleared := Eval vm_compute in do_calls (CallAbandon 15 :: cs_after) w_owned.2.

Lemma tx_results_at_most_once_witness :
  state w_owned.2 = TxPending /\
  (length (filter is_complete w_cleared.1) <= length (filter is_accept w_cleared.1))%nat.
Proof.
  split; [reflexivity|].
  refine (proj2 (tx_results_at_most_once 2000 30000 answering connect_and_send cs_after 15
    w_owned.1 w_cleared.1 w_owned.2 w_cleared.2 _ _)); vm_compute; reflexivity.
Defined.

(** The link is lost while the daemon owns the packet. *)
Definition losing : script := daemon [None] [].
Definition cs_lost : list call := connect_and_send ++ [CallPoll 20].
Definition cs_retry : list call :=
  [CallStop; CallStart; CallConfigure 40 cfg433; CallPoll 50; CallSubmit [1]].
Definition w_lost := Eval vm_compute in do_calls cs_lost (fresh 2000 30000 losing).
Definition w_retry := Eval vm_compute in do_calls cs_retry w_lost.2.

Lemma faulted_forever_witness :
  w_retry.1 = [LStop; LStart; LConfigure cfg433 0; LSubmit [1] false] /\
  state w_retry.2 = Faulted /\ forallb inert w_retry.1 = true.
Proof.
  split; [reflexivity|].
  refine (faulted_forever 2000 30000 losing cs_lost cs_retry
    w_lost.1 w_retry.1 w_lost.2 w_retry.2 _ _ _); vm_compute; reflexivity.
Defined.

(** A daemon that never reports its status. *)
Definition mute : script := mkScript [str "OK" ++ [LF]] [] [] [].
Definition w_mute := Eval vm_compute in
  do_calls [CallSink true; CallStart] (fresh 2000 30000 mute).
Definition w_asked := Eval vm_compute in begin_configure 100 cfg433 w_mute.2.
Definition w_gave_up := Eval vm_compute in do_calls (CallPoll <$> [200; 300] ++ [2100]) w_asked.2.

Lemma configuration_settles_witness :
  configuring w_gave_up.2 = false /\
  exists r, config_results w_gave_up.1 = [(1, r)] /\ config_outcome cfg433 r.
Proof.
  refine (configuration_settles 2000 30000 mute [CallSink true; CallStart] 100 2100 cfg433
    [200; 300] w_mute.1 w_gave_up.1 w_mute.2 w_asked.2 w_gave_up.2 1 _ _ _ _ _ _);
    vm_compute; [reflexivity | reflexivity | reflexivity | congruence | congruence | reflexivity].
Defined.

Definition silent : script := daemon [] [].
Definition w_silent := Eval vm_compute in do_calls connect_and_send (fresh 2000 30000 silent).
Definition w_faulted := Eval vm_compute in
  do_calls (CallPoll <$> [2000] ++ [31000]) (abandon_pending_tx 1000 w_silent.2).

Lemma drain_settles_witness :
  heard w_faulted.1 = [] /\ ((state w_faulted.2 = Disconnected /\ answered w_faulted.1) \/ state w_faulted.2 = Faulted).
Proof.
  refine (drain_settles 2000 30000 silent connect_and_send 1000 31000 [2000]
    w_silent.1 w_faulted.1 w_silent.2 w_faulted.2 _ _ _ _);
    vm_compute; [reflexivity | reflexivity | congruence | reflexivity].
Defined.

Lemma backend_loops_terminate_witness :
  data_loop 100 torn_down w_owned.2 = data_loop 2 torn_down w_owned.2 \/ floods data_recv 2 (tr w_owned.2).
Proof.
  refine (proj1 (proj2 (proj2 (proj2 (proj2 (backend_loops_terminate 2 100 w_owned.2 true [] _))))) _);
    [lia | vm_compute; reflexivity].
Defined.
End witnesses.
End backend_properties.
