(* ===== verification/FakeBackend.v ===== *)
(** The deterministic in-memory backend: src/backend/fake_backend.{h,cpp}. *)

From S2P Require Import Prelude.
From S2P Require Import XrCodec.
From S2P Require Import RadioBackend.

Module fake_backend.
Import extradio radio_backend.

Inductive ConfigMode := Exact | Failure | Mismatch.

Record FakeBackend := mkFakeBackend {
  sink_ : bool;
  started_ : bool;
  configured_ : bool;
  config_mode_ : ConfigMode;
  forced_effective_ : RadioConfig;
  config_pending_ : bool;
  config_token_ : Z;
  next_token_ : Z;
  pending_requested_ : RadioConfig;
  tx_pending_ : bool;
  submit_count_ : Z;
  next_tx_outcome_ : option TxOutcome;
  pending_tx_result_ : option TxOutcome;
  stale_completions_ : list TxOutcome;
  rx_queue_ : list RxEvent;
  fail_pending_ : bool
}.

#[export] Instance eta_FakeBackend : Eta FakeBackend := fun b => {|
  sink_ := sink_ b;
  started_ := started_ b;
  configured_ := configured_ b;
  config_mode_ := config_mode_ b;
  forced_effective_ := forced_effective_ b;
  config_pending_ := config_pending_ b;
  config_token_ := config_token_ b;
  next_token_ := next_token_ b;
  pending_requested_ := pending_requested_ b;
  tx_pending_ := tx_pending_ b;
  submit_count_ := submit_count_ b;
  next_tx_outcome_ := next_tx_outcome_ b;
  pending_tx_result_ := pending_tx_result_ b;
  stale_completions_ := stale_completions_ b;
  rx_queue_ := rx_queue_ b;
  fail_pending_ := fail_pending_ b
|}.

Definition zero_config : RadioConfig := mkRadioConfig 0 0 0 0 0 0 0 0 0.

Definition make : FakeBackend := {|
  sink_ := false;
  started_ := false;
  configured_ := false;
  config_mode_ := Exact;
  forced_effective_ := zero_config;
  config_pending_ := false;
  config_token_ := 0;
  next_token_ := 0;
  pending_requested_ := zero_config;
  tx_pending_ := false;
  submit_count_ := 0;
  next_tx_outcome_ := None;
  pending_tx_result_ := None;
  stale_completions_ := [];
  rx_queue_ := [];
  fail_pending_ := false
|}.

(** ** Scripting *)

Definition script_config_failure (b : FakeBackend) : FakeBackend := b <| config_mode_ := Failure |>.
Definition script_config_effective (eff : RadioConfig) (b : FakeBackend) : FakeBackend :=
  b <| config_mode_ := Mismatch |> <| forced_effective_ := eff |>.
Definition script_config_exact (b : FakeBackend) : FakeBackend := b <| config_mode_ := Exact |>.
Definition script_tx_outcome (o : TxOutcome) (b : FakeBackend) : FakeBackend :=
  b <| next_tx_outcome_ := Some o |>.
Definition script_stale_tx_complete (o : TxOutcome) (b : FakeBackend) : FakeBackend :=
  b <| stale_completions_ := stale_completions_ b ++ [o] |>.
Definition script_rx (e : RxEvent) (b : FakeBackend) : FakeBackend :=
  b <| rx_queue_ := rx_queue_ b ++ [e] |>.
Definition script_backend_failure (b : FakeBackend) : FakeBackend := b <| fail_pending_ := true |>.

(** ** RadioBackend *)

Definition set_sink (on : bool) (b : FakeBackend) : FakeBackend := b <| sink_ := on |>.

Definition begin_configure (requested : RadioConfig) (b : FakeBackend) : Z * FakeBackend :=
  let token := u32 (next_token_ b + 1) in
  (token, b <| config_pending_ := true |> <| pending_requested_ := requested |>
            <| next_token_ := token |> <| config_token_ := token |>).

Definition start (b : FakeBackend) : FakeBackend := b <| started_ := true |>.
Definition stop (b : FakeBackend) : FakeBackend := b <| started_ := false |>.
Definition ready (b : FakeBackend) : bool := started_ b && configured_ b.
Definition next_deadline_ms (b : FakeBackend) : Z := UINT64_MAX.

Definition submit_tx (d : bytes) (b : FakeBackend) : bool * FakeBackend :=
  if negb (ready b) then (false, b) else
  if tx_pending_ b then (false, b) else
  if (kMaxLoraPayload <? length d)%nat then (false, b) else
  (true, b <| tx_pending_ := true |> <| submit_count_ := u64 (submit_count_ b + 1) |>
           <| pending_tx_result_ := Some (default Success (next_tx_outcome_ b)) |>
           <| next_tx_outcome_ := None |>).

Definition abandon_pending_tx (b : FakeBackend) : FakeBackend :=
  b <| tx_pending_ := false |> <| pending_tx_result_ := None |>.

Definition poll (b : FakeBackend) : FakeBackend * list SinkEvent :=
  if negb (sink_ b) then (b, []) else
  if config_pending_ b then
    let b := b <| config_pending_ := false |> in
    let '(b, r) :=
      match config_mode_ b with
      | Failure => (b <| configured_ := false |>, mkConfigureResult false zero_config)
      | Mismatch => (b <| configured_ := true |>, mkConfigureResult true (forced_effective_ b))
      | Exact => (b <| configured_ := true |>, mkConfigureResult true (pending_requested_ b))
      end in
    (b, [on_configure_complete (config_token_ b) r])
  else if fail_pending_ b then
    (b <| fail_pending_ := false |> <| tx_pending_ := false |> <| pending_tx_result_ := None |>,
     [on_backend_failure])
  else
    let rxs := on_rx <$> rx_queue_ b in
    let b := b <| rx_queue_ := [] |> in
    let '(b, done) :=
      match tx_pending_ b, pending_tx_result_ b with
      | true, Some o =>
          (b <| pending_tx_result_ := None |> <| tx_pending_ := false |>, [on_tx_complete o])
      | _, _ => (b, [])
      end in
    let stale := on_tx_complete <$> stale_completions_ b in
    (b <| stale_completions_ := [] |>, rxs ++ done ++ stale).

#[export] Instance fake_radio_backend : RadioBackend FakeBackend := {|
  rb_set_sink := set_sink;
  rb_begin_configure _ := begin_configure;
  rb_start := start;
  rb_stop := stop;
  rb_ready := ready;
  rb_next_deadline_ms := next_deadline_ms;
  rb_submit_tx := submit_tx;
  rb_abandon_pending_tx _ := abandon_pending_tx;
  rb_poll _ := poll;
|}.

#[export] Instance fake_radio_backend_laws : RadioBackendLaws FakeBackend.
Proof.
  split.
  - intros d b b'. simpl. unfold submit_tx. by destruct (ready b).
  - done.
Qed.
End fake_backend.
