(* ===== verification/XrSession.v ===== *)
(** The server side of the XR protocol: src/xr/xr_session.{h,cpp}.

    [world] is the session object together with the radio backend it drives and
    the history of what it did: frames received and sent, calls made on the
    backend, sink events acted on, the close.  The history is an observation
    (the properties speak about it), not a field of the class.

    Each operation takes the value of the injected clock during the call,
    [now].  The frame handlers also take [rand], what [RAND_bytes] answers if
    the call needs a nonce.  [logf] lines are not modelled. *)

From S2P Require Import Prelude.
From S2P Require Import StreamLoop.
From S2P Require Import XrCodec.
From S2P Require Import BoundedBuffer.
From S2P Require Import HmacAuth.
From S2P Require Import RadioBackend.

Module xr_session.
Import extradio auth radio_backend.

(** ** Wire helpers (the anonymous namespace) *)

Definition put16 (v : Z) : bytes := [u8 (Z.shiftr v 8); u8 (Z.land v 255)].
Definition put32 (v : Z) : bytes :=
  [u8 (Z.shiftr v 24); u8 (Z.shiftr v 16); u8 (Z.shiftr v 8); u8 (Z.land v 255)].

Definition pack_config (c : RadioConfig) : bytes :=
  put32 (freq_hz c) ++ put32 (bw_hz c) ++ [sf c; cr_denom c] ++ put16 (sync_word c) ++
  put16 (preamble c) ++ [u8 (tx_power_dbm c); crc c; ldro c].

Definition is_client_message (ty : Z) : bool :=
  (ty =? MSG_HELLO) || (ty =? MSG_AUTH_RESPONSE) || (ty =? MSG_CONFIGURE) ||
  (ty =? MSG_TX_REQUEST) || (ty =? MSG_PONG) || (ty =? MSG_ERROR).

Definition tx_outcome_to_wire (o : TxOutcome) : Z :=
  match o with
  | Success => TXR_SUCCESS
  | ChannelBusy => TXR_CHANNEL_BUSY
  | Timeout => TXR_TIMEOUT
  | RadioError => TXR_RADIO_ERROR
  end.

(** ** State *)

Inductive Phase := WaitHello | WaitAuth | WaitConfigure | Configuring | Ready | Closed.

#[export] Instance Phase_eq_dec : EqDecision Phase.
Proof. solve_decision. Defined.

Inductive CloseReason :=
  | None_ | OutputOverflow | MalformedFrame | ParserError | BadState | RemoteError | AuthFailed
  | AuthError | ConfigFailed | BackendFailure | HandshakeTimeout | AuthTimeout | ConfigTimeout
  | PongTimeout | TxTimeoutUncertain | InternalError.

#[export] Instance CloseReason_eq_dec : EqDecision CloseReason.
Proof. solve_decision. Defined.

Definition close_reason_name (r : CloseReason) : bytes :=
  match r with
  | None_ => str "none"
  | OutputOverflow => str "output-overflow"
  | MalformedFrame => str "malformed-frame"
  | ParserError => str "parser-error"
  | BadState => str "bad-state"
  | RemoteError => str "remote-error"
  | AuthFailed => str "auth-failed"
  | AuthError => str "auth-error"
  | ConfigFailed => str "config-failed"
  | BackendFailure => str "backend-failure"
  | HandshakeTimeout => str "handshake-timeout"
  | AuthTimeout => str "auth-timeout"
  | ConfigTimeout => str "config-timeout"
  | PongTimeout => str "pong-timeout"
  | TxTimeoutUncertain => str "tx-timeout-uncertain"
  | InternalError => str "internal-error"
  end.

Record Timeouts := mkTimeouts {
  handshake_ms : Z;
  auth_ms : Z;
  config_ms : Z;
  tx_ms : Z;
  ping_interval_ms : Z;
  pong_timeout_ms : Z
}.

Definition default_timeouts : Timeouts := mkTimeouts 5000 5000 5000 10000 15000 10000.

Record XrSession := mkXrSession {
  auth_ : AuthConfig;
  to_ : Timeouts;
  parser_ : Parser;
  outbox_ : bounded_buffer.BoundedBuffer;
  phase_ : Phase;
  close_reason_ : CloseReason;
  deadline_active_ : bool;
  deadline_at_ : Z;
  deadline_reason_ : CloseReason;
  nonce_ : bytes;
  applied_cfg_ : RadioConfig;
  requested_cfg_ : RadioConfig;
  config_op_token_ : Z;
  tx_in_flight_ : bool;
  tx_seq_ : Z;
  tx_deadline_at_ : Z;
  awaiting_pong_ : bool;
  next_ping_at_ : Z;
  pong_deadline_at_ : Z;
  ping_sent_at_ : Z;
  last_pong_rtt_ms_ : Z;
  late_pong_warns_ : Z
}.

#[export] Instance eta_XrSession : Eta XrSession := fun s => {|
  auth_ := auth_ s;
  to_ := to_ s;
  parser_ := parser_ s;
  outbox_ := outbox_ s;
  phase_ := phase_ s;
  close_reason_ := close_reason_ s;
  deadline_active_ := deadline_active_ s;
  deadline_at_ := deadline_at_ s;
  deadline_reason_ := deadline_reason_ s;
  nonce_ := nonce_ s;
  applied_cfg_ := applied_cfg_ s;
  requested_cfg_ := requested_cfg_ s;
  config_op_token_ := config_op_token_ s;
  tx_in_flight_ := tx_in_flight_ s;
  tx_seq_ := tx_seq_ s;
  tx_deadline_at_ := tx_deadline_at_ s;
  awaiting_pong_ := awaiting_pong_ s;
  next_ping_at_ := next_ping_at_ s;
  pong_deadline_at_ := pong_deadline_at_ s;
  ping_sent_at_ := ping_sent_at_ s;
  last_pong_rtt_ms_ := last_pong_rtt_ms_ s;
  late_pong_warns_ := late_pong_warns_ s
|}.

Definition zero_config : RadioConfig := mkRadioConfig 0 0 0 0 0 0 0 0 0.

(** The constructor. *)
Definition make (auth : AuthConfig) (to : Timeouts) (max_outbox : nat) : XrSession := {|
  auth_ := auth;
  to_ := to;
  parser_ := mkParser [];
  outbox_ := bounded_buffer.make max_outbox;
  phase_ := Closed;
  close_reason_ := None_;
  deadline_active_ := false;
  deadline_at_ := 0;
  deadline_reason_ := None_;
  nonce_ := replicate kAuthNonceSize 0;
  applied_cfg_ := zero_config;
  requested_cfg_ := zero_config;
  config_op_token_ := 0;
  tx_in_flight_ := false;
  tx_seq_ := 0;
  tx_deadline_at_ := 0;
  awaiting_pong_ := false;
  next_ping_at_ := 0;
  pong_deadline_at_ := 0;
  ping_sent_at_ := 0;
  last_pong_rtt_ms_ := 0;
  late_pong_warns_ := 0
|}.

(** What the session did. *)
Inductive event :=
  | Recv (f : Frame)
  | Send (f : Frame)
  | Configure (cfg : RadioConfig) (token : Z)
  | Submit (d : bytes) (accepted : bool)
  | Abandon
  | Note (e : SinkEvent)
  | Shut (r : CloseReason).

Section Session.
Context {B : Type} `{!RadioBackend B} `{!OpenSSL}.

Record world := mkWorld { ses : XrSession; bk : B; hist : list event }.

#[export] Instance eta_world : Eta world :=
  fun w => {| ses := ses w; bk := bk w; hist := hist w |}.

Definition upd (f : XrSession -> XrSession) (w : world) : world := w <| ses := f (ses w) |>.
Definition did (e : event) (w : world) : world := w <| hist := hist w ++ [e] |>.
Definition phase (w : world) : Phase := phase_ (ses w).
Definition closed (w : world) : bool := bool_decide (phase w = Closed).

(** ** Building blocks *)

Definition arm (now timeout_ms : Z) (on_expire : CloseReason) (w : world) : world :=
  upd (fun s => s <| deadline_active_ := true |> <| deadline_at_ := u64 (now + timeout_ms) |>
                  <| deadline_reason_ := on_expire |>) w.

Definition disarm (w : world) : world := upd (fun s => s <| deadline_active_ := false |>) w.

Definition close (reason : CloseReason) (w : world) : world :=
  if closed w then w else
  did (Shut reason)
    (upd (fun s => s <| close_reason_ := reason |> <| phase_ := Closed |>
                     <| deadline_active_ := false |> <| tx_in_flight_ := false |>) w).

Definition emit (ty sq : Z) (pl : option bytes) (n : nat) (w : world) : bool * world :=
  match encode (Some kMaxFrame) ty sq pl n with
  | None => (false, close InternalError w)
  | Some bs =>
      match bounded_buffer.append (outbox_ (ses w)) bs with
      | (false, _) => (false, close OutputOverflow w)
      | (true, ob) =>
          (true, did (Send (mkFrame ty sq (take n (default [] pl))))
                   (upd (fun s => s <| outbox_ := ob |>) w))
      end
  end.

(** [if (!emit(..)) return; k]. *)
Definition emit_then (ty sq : Z) (pl : option bytes) (n : nat) (k : world -> world) (w : world)
    : world :=
  match emit ty sq pl n w with
  | (true, w) => k w
  | (false, w) => w
  end.

(** Best effort: the result of [emit] is not looked at. *)
Definition emit_ (ty sq : Z) (pl : option bytes) (n : nat) (w : world) : world :=
  (emit ty sq pl n w).2.

Definition set_phase (p : Phase) (w : world) : world := upd (fun s => s <| phase_ := p |>) w.

Definition open (now : Z) (w : world) : world :=
  let w := upd (fun s => s <| parser_ := parserReset (parser_ s) |>
                           <| outbox_ := bounded_buffer.clear (outbox_ s) |>
                           <| phase_ := WaitHello |> <| close_reason_ := None_ |>
                           <| tx_in_flight_ := false |> <| awaiting_pong_ := false |>) w in
  let w := w <| bk := rb_start (bk w) |> in
  arm now (handshake_ms (to_ (ses w))) HandshakeTimeout w.

Definition enter_ready (now : Z) (w : world) : world :=
  let w := disarm (set_phase Ready w) in
  upd (fun s => s <| awaiting_pong_ := false |>
                  <| next_ping_at_ := u64 (now + ping_interval_ms (to_ s)) |>) w.

(** ** Frames from the client *)

Definition handle_ready_frame (now : Z) (f : Frame) (w : world) : world :=
  if type f =? MSG_PONG then
    if negb (awaiting_pong_ (ses w)) then close BadState w else
    let rtt := u64 (now - ping_sent_at_ (ses w)) in
    let w := upd (fun s => s <| awaiting_pong_ := false |> <| last_pong_rtt_ms_ := rtt |>) w in
    let w := if pong_timeout_ms (to_ (ses w)) <=? u64 (rtt * 2)
             then upd (fun s => s <| late_pong_warns_ := u32 (late_pong_warns_ s + 1) |>) w
             else w in
    upd (fun s => s <| next_ping_at_ := u64 (now + ping_interval_ms (to_ s)) |>) w
  else if type f =? MSG_TX_REQUEST then
    if tx_in_flight_ (ses w) then close BadState w else
    let w := upd (fun s => s <| tx_seq_ := seq f |>) w in
    let '(accepted, b) := rb_submit_tx (payload f) (bk w) in
    let w := did (Submit (payload f) accepted) (w <| bk := b |>) in
    if negb accepted then close BackendFailure w else
    upd (fun s => s <| tx_in_flight_ := true |>
                    <| tx_deadline_at_ := u64 (now + tx_ms (to_ s)) |>) w
  else close BadState w.

Definition handle_frame (rand : option bytes) (now : Z) (f : Frame) (w : world) : world :=
  let w := did (Recv f) w in
  if negb (bool_decide (validate f = ERR_NONE)) then close MalformedFrame w else
  if negb (is_client_message (type f)) then close BadState w else
  if type f =? MSG_ERROR then close RemoteError w else
  match phase w with
  | WaitHello =>
      if negb (type f =? MSG_HELLO) then close BadState w else
      emit_then MSG_HELLO_ACK 0 (Some [kVersion]) 1 (fun w =>
        if password_configured (auth_ (ses w)) then
          match random_nonce rand with
          | None => close AuthError w
          | Some nonce =>
              let w := upd (fun s => s <| nonce_ := nonce |>) w in
              emit_then MSG_AUTH_CHALLENGE 0 (Some (nonce_ (ses w))) kAuthNonceSize (fun w =>
                arm now (auth_ms (to_ (ses w))) AuthTimeout (set_phase WaitAuth w)) w
          end
        else
          emit_then MSG_AUTH_RESULT 0 (Some [AUTH_OK]) 1 (fun w =>
            arm now (config_ms (to_ (ses w))) ConfigTimeout (set_phase WaitConfigure w)) w) w
  | WaitAuth =>
      if negb (type f =? MSG_AUTH_RESPONSE) then close BadState w else
      if verify_auth_response (auth_ (ses w)) (nonce_ (ses w)) (Some (payload f)) then
        emit_then MSG_AUTH_RESULT 0 (Some [AUTH_OK]) 1 (fun w =>
          arm now (config_ms (to_ (ses w))) ConfigTimeout (set_phase WaitConfigure w)) w
      else close AuthFailed (emit_ MSG_AUTH_RESULT 0 (Some [AUTH_FAIL]) 1 w)
  | WaitConfigure =>
      if negb (type f =? MSG_CONFIGURE) then close BadState w else
      let bad code w := close ConfigFailed (emit_ MSG_CONFIG_RESULT 0 (Some [code]) 1 w) in
      match decodeConfig f with
      | None => bad CFG_INVALID w
      | Some requested =>
          if negb (radioConfigValid requested) then bad CFG_INVALID w else
          let '(token, b) := rb_begin_configure now requested (bk w) in
          let w := did (Configure requested token) (w <| bk := b |>) in
          if token =? 0 then bad CFG_UNSUPPORTED w else
          let w := upd (fun s => s <| config_op_token_ := token |>
                                   <| requested_cfg_ := requested |>) w in
          arm now (config_ms (to_ (ses w))) ConfigTimeout (set_phase Configuring w)
      end
  | Configuring => close BadState w
  | Ready => handle_ready_frame now f w
  | Closed => w
  end.

Definition set_parser (p : Parser) (w : world) : world := upd (fun s => s <| parser_ := p |>) w.

(** The bytes of one socket read.  The parser is taken out of the object for
    the loop (the frame handlers do not touch it) and put back behind it. *)
Definition feed (rand : option bytes) (now : Z) (data : bytes) (w : world) : world :=
  if closed w then w else
  let p := parser_ (ses w) in
  match stream_loop (handle_frame rand now) closed (set_parser (parserReset p) w) p data with
  | (Failed, w, p) => close ParserError (set_parser p w)
  | (_, w, p) => set_parser p w
  end.

(** ** Events from the backend *)

Definition on_configure_complete (now op_token : Z) (res : ConfigureResult) (w : world) : world :=
  if negb (bool_decide (phase w = Configuring)) then w else
  if negb (op_token =? config_op_token_ (ses w)) then w else
  let w := did (Note (radio_backend.on_configure_complete op_token res)) w in
  if negb (applied res) || negb (configEqual (effective res) (requested_cfg_ (ses w))) then
    close ConfigFailed (emit_ MSG_CONFIG_RESULT 0 (Some [CFG_UNSUPPORTED]) 1 w)
  else
    let w := upd (fun s => s <| applied_cfg_ := effective res |>) w in
    let body := CFG_OK :: pack_config (effective res) in
    emit_then MSG_CONFIG_RESULT 0 (Some body) (1 + kConfigPayloadSize) (enter_ready now) w.

Definition map_and_send_tx_result (outcome : TxOutcome) (w : world) : world :=
  let code := [tx_outcome_to_wire outcome] in
  let w := upd (fun s => s <| tx_in_flight_ := false |>) w in
  emit_ MSG_TX_RESULT (tx_seq_ (ses w)) (Some code) 1 w.

Definition on_rx (rx : RxEvent) (w : world) : world :=
  if negb (bool_decide (phase w = Ready)) then w else
  if negb (rxPayloadAcceptable (zlen (rx_data rx))) then w else
  let w := did (Note (radio_backend.on_rx rx)) w in
  let payload := put16 (u16 (rssi_cdbm rx)) ++ put16 (u16 (snr_cdb rx)) ++
                 put16 (zlen (rx_data rx)) ++ rx_data rx in
  emit_ MSG_RX_PACKET 0 (Some payload) (6 + length (rx_data rx)) w.

Definition on_tx_complete (outcome : TxOutcome) (w : world) : world :=
  if negb (tx_in_flight_ (ses w)) then w else
  map_and_send_tx_result outcome (did (Note (radio_backend.on_tx_complete outcome)) w).

Definition on_backend_failure (w : world) : world := close BackendFailure w.

(** One call on the sink. *)
Definition on_event (now : Z) (e : SinkEvent) (w : world) : world :=
  match e with
  | radio_backend.on_rx rx => on_rx rx w
  | radio_backend.on_tx_complete o => on_tx_complete o w
  | radio_backend.on_backend_failure => on_backend_failure w
  | radio_backend.on_configure_complete tok res => on_configure_complete now tok res w
  end.

(** ** Time *)

Definition next_deadline_ms (s : XrSession) : Z :=
  if bool_decide (phase_ s = Closed) then UINT64_MAX else
  let take t next := if t <? next then t else next in
  let next := UINT64_MAX in
  let next := if deadline_active_ s then take (deadline_at_ s) next else next in
  if bool_decide (phase_ s = Ready) then
    let next := if tx_in_flight_ s then take (tx_deadline_at_ s) next else next in
    if awaiting_pong_ s then take (pong_deadline_at_ s) next else take (next_ping_at_ s) next
  else next.

Definition tick (now : Z) (w : world) : world :=
  if closed w then w else
  let s := ses w in
  if deadline_active_ s && (deadline_at_ s <=? now) then close (deadline_reason_ s) w else
  if negb (bool_decide (phase w = Ready)) then w else
  if tx_in_flight_ s && (tx_deadline_at_ s <=? now) then
    let w := did Abandon (w <| bk := rb_abandon_pending_tx now (bk w) |>) in
    close TxTimeoutUncertain w
  else if awaiting_pong_ s then
    if pong_deadline_at_ s <=? now then close PongTimeout w else w
  else if next_ping_at_ s <=? now then
    emit_then MSG_PING 0 None 0 (fun w =>
      upd (fun s => s <| awaiting_pong_ := true |> <| ping_sent_at_ := now |>
                      <| pong_deadline_at_ := u64 (now + pong_timeout_ms (to_ s)) |>) w) w
  else w.

(** ** Output *)

Definition out_data (w : world) : bytes := bounded_buffer.data (outbox_ (ses w)).
Definition out_size (w : world) : nat := bounded_buffer.size (outbox_ (ses w)).
Definition out_consume (n : nat) (w : world) : world :=
  upd (fun s => s <| outbox_ := bounded_buffer.consume (outbox_ s) n |>) w.

End Session.

Arguments world B : clear implicits.
Arguments mkWorld {B}.

End xr_session.
