(* ===== verification/XrServerSpec.v ===== *)
(** The server role of XR protocol v1, as an executable monitor of histories.

    [mstep] says what a server may do next, given what it has done: the rules
    stated at the top of src/xr/xr_session.h ("RX and TX are forbidden until an
    exact CONFIG_RESULT echo", "at most one TX is in flight", "only a backend
    terminal result produces a TX_RESULT", ...) and the message order of the
    protocol.  [XrSessionFacts] shows that the session obeys the monitor; this
    file shows what obedience means: the authentication and configuration
    gates, and the pairing of transmit results with requests. *)

From S2P Require Import Prelude.
From S2P Require Import XrCodec.
From S2P Require Import HmacAuth.
From S2P Require Import RadioBackend.
From S2P Require Import XrSession.

Module xr_server_spec.
Import extradio auth radio_backend xr_session.

#[export] Instance Frame_eq_dec : EqDecision Frame.
Proof. solve_decision. Defined.

(** Between two operations a server is in one of the quiescent states
    [MWaitHello], [MWaitAuth], [MWaitConfigure], [MConfiguring], [MReady] or
    [MClosed]; the others are passed through while a frame or an event is
    handled. [MBad]: nothing but the close may follow. *)
Inductive mon :=
  | MWaitHello
  | MHello
  | MGreeted
  | MWaitAuth (nonce : bytes)
  | MProved
  | MRefused
  | MWaitConfigure
  | MAsked (cfg : RadioConfig)
  | MNotConfigured
  | MConfiguring (cfg : RadioConfig) (token : Z)
  | MApplied (cfg : RadioConfig)
  | MReady (tx : option Z) (ping : bool)
  | MRequested (sq : Z) (d : bytes) (ping : bool)
  | MResult (sq : Z) (o : TxOutcome) (ping : bool)
  | MRx (rx : RxEvent) (tx : option Z) (ping : bool)
  | MBad
  | MClosed.

Definition rx_frame (rx : RxEvent) : Frame :=
  mkFrame MSG_RX_PACKET 0
    (extradio.put16 (u16 (rssi_cdbm rx)) ++ extradio.put16 (u16 (snr_cdb rx)) ++
     extradio.put16 (zlen (rx_data rx)) ++ rx_data rx).

(** The TX_RESULT codes of protocol v1. *)
Definition result_code (o : TxOutcome) : Z :=
  match o with Success => 0 | ChannelBusy => 1 | Timeout => 2 | RadioError => 3 end.

Section Spec.
Context `{HS : !OpenSSL} (a : AuthConfig).

(** Frames that are malformed, server-only or ERROR end the session in any state. *)
Definition acceptable (f : Frame) : bool :=
  bool_decide (validate f = ERR_NONE) && is_client_message (type f) && negb (type f =? MSG_ERROR).

Definition on_recv (m : mon) (f : Frame) : option mon :=
  match m with
  | MWaitHello => Some (if acceptable f && (type f =? MSG_HELLO) then MHello else MBad)
  | MWaitAuth nonce =>
      Some (if acceptable f && (type f =? MSG_AUTH_RESPONSE) then
              if verify_auth_response a nonce (Some (payload f)) then MProved else MRefused
            else MBad)
  | MWaitConfigure =>
      Some (if acceptable f && (type f =? MSG_CONFIGURE) then
              match decodeConfig f with
              | Some cfg => if radioConfigValid cfg then MAsked cfg else MNotConfigured
              | None => MNotConfigured
              end
            else MBad)
  | MConfiguring _ _ => Some MBad
  | MReady tx ping =>
      Some (if acceptable f && (type f =? MSG_PONG) && ping then MReady tx false else
            if acceptable f && (type f =? MSG_TX_REQUEST) && bool_decide (tx = None)
            then MRequested (seq f) (payload f) ping else MBad)
  | _ => None
  end.

Definition on_send (m : mon) (f : Frame) : option mon :=
  let expect g m' := if decide (f = g) then Some m' else None in
  match m with
  | MHello => expect (mkFrame MSG_HELLO_ACK 0 [kVersion]) MGreeted
  | MGreeted =>
      if password_configured a
      then expect (mkFrame MSG_AUTH_CHALLENGE 0 (payload f)) (MWaitAuth (payload f))
      else expect (mkFrame MSG_AUTH_RESULT 0 [AUTH_OK]) MWaitConfigure
  | MProved => expect (mkFrame MSG_AUTH_RESULT 0 [AUTH_OK]) MWaitConfigure
  | MRefused => expect (mkFrame MSG_AUTH_RESULT 0 [AUTH_FAIL]) MBad
  | MNotConfigured =>
      if decide (f = mkFrame MSG_CONFIG_RESULT 0 [CFG_INVALID])
      then Some MBad else expect (mkFrame MSG_CONFIG_RESULT 0 [CFG_UNSUPPORTED]) MBad
  | MApplied cfg =>
      expect (mkFrame MSG_CONFIG_RESULT 0 (CFG_OK :: packConfig cfg)) (MReady None false)
  | MReady tx false => expect (mkFrame MSG_PING 0 []) (MReady tx true)
  | MResult sq o ping =>
      expect (mkFrame MSG_TX_RESULT sq [result_code o]) (MReady None ping)
  | MRx rx tx ping => expect (rx_frame rx) (MReady tx ping)
  | _ => None
  end.

Definition on_note (m : mon) (e : SinkEvent) : option mon :=
  match m, e with
  | MConfiguring cfg token, radio_backend.on_configure_complete token' res =>
      if negb (token =? token') then None else
      Some (if applied res && bool_decide (effective res = cfg) then MApplied cfg
            else MNotConfigured)
  | MReady (Some sq) ping, radio_backend.on_tx_complete o => Some (MResult sq o ping)
  | MReady tx ping, radio_backend.on_rx rx => Some (MRx rx tx ping)
  | _, _ => None
  end.

Definition mstep (m : mon) (e : event) : option mon :=
  match e with
  | Recv f => on_recv m f
  | Send f => on_send m f
  | Note e => on_note m e
  | Configure cfg token =>
      match m with
      | MAsked cfg' => if decide (cfg = cfg') then
                         Some (if token =? 0 then MNotConfigured else MConfiguring cfg token)
                       else None
      | _ => None
      end
  | Submit d accepted =>
      match m with
      | MRequested sq d' ping =>
          if decide (d = d') then Some (if accepted then MReady (Some sq) ping else MBad) else None
      | _ => None
      end
  | Abandon => match m with MReady (Some _) _ => Some MBad | _ => None end
  | Shut _ => match m with MClosed => None | _ => Some MClosed end
  end.

Definition mrun (h : list event) : option mon :=
  foldl (fun om e => m ← om; mstep m e) (Some MWaitHello) h.

Lemma mrun_snoc h e : mrun (h ++ [e]) = (m ← mrun h; mstep m e).
Proof. unfold mrun. by rewrite foldl_app. Qed.

(** Histories grow one event at a time. *)
Lemma mrun_ind (P : list event -> mon -> Prop) :
  P [] MWaitHello ->
  (forall h m e m', mrun h = Some m -> P h m -> mstep m e = Some m' -> P (h ++ [e]) m') ->
  forall h m, mrun h = Some m -> P h m.
Proof.
  intros H0 Hs h. induction h as [|e h IH] using rev_ind; intros m E.
  - by injection E as <-.
  - rewrite mrun_snoc in E. destruct (mrun h) as [m1|] eqn:E1; [|done]. eauto.
Qed.
(** ** The gates *)

Definition challenge (nonce : bytes) : Frame := mkFrame MSG_AUTH_CHALLENGE 0 nonce.
Definition auth_granted : Frame := mkFrame MSG_AUTH_RESULT 0 [AUTH_OK].
Definition config_echo (cfg : RadioConfig) : Frame :=
  mkFrame MSG_CONFIG_RESULT 0 (CFG_OK :: packConfig cfg).

(** The response is the HMAC of the nonce under the configured password. *)
Definition answers (nonce : bytes) (f : Frame) : Prop :=
  type f = MSG_AUTH_RESPONSE /\ verify_auth_response a nonce (Some (payload f)) = true.

(** The client has proved the password, if there is one. *)
Definition authed (h : list event) : Prop :=
  password_configured a = false \/
  exists h1 nonce f h2, h = h1 ++ [Send (challenge nonce); Recv f; Send auth_granted] ++ h2 /\
    answers nonce f.

(** A configuration was requested, started under some token, reported by the
    backend under that token as applied exactly, and echoed. *)
Definition configured (h : list event) : Prop :=
  exists h1 f cfg token h2,
    h = h1 ++ [Recv f; Configure cfg token;
               Note (radio_backend.on_configure_complete token
                       {| applied := true; effective := cfg |});
               Send (config_echo cfg)] ++ h2 /\
    decodeConfig f = Some cfg /\ token <> 0.

Lemma authed_app h t : authed h -> authed (h ++ t).
Proof.
  intros [H|(h1 & n & f & h2 & -> & H)]; [by left|]. right.
  exists h1, n, f, (h2 ++ t). by rewrite <- !app_assoc.
Qed.

Lemma configured_app h t : configured h -> configured (h ++ t).
Proof.
  intros (h1 & f & cfg & tok & h2 & -> & H).
  exists h1, f, cfg, tok, (h2 ++ t). by rewrite <- !app_assoc.
Qed.

(** What the state of the monitor says about the past. *)
Definition past (h : list event) (m : mon) : Prop :=
  match m with
  | MWaitHello | MHello | MGreeted | MRefused | MNotConfigured | MBad | MClosed => True
  | MWaitAuth nonce => exists h1, h = h1 ++ [Send (challenge nonce)]
  | MProved => exists h1 nonce f, h = h1 ++ [Send (challenge nonce); Recv f] /\ answers nonce f
  | MWaitConfigure => authed h
  | MAsked cfg => authed h /\ exists h1 f, h = h1 ++ [Recv f] /\ decodeConfig f = Some cfg
  | MConfiguring cfg token => authed h /\ token <> 0 /\
      exists h1 f, h = h1 ++ [Recv f; Configure cfg token] /\ decodeConfig f = Some cfg
  | MApplied cfg => authed h /\ exists h1 f token, token <> 0 /\
      h = h1 ++ [Recv f; Configure cfg token;
                 Note (radio_backend.on_configure_complete token
                         {| applied := true; effective := cfg |})] /\ decodeConfig f = Some cfg
  | MReady _ _ | MRequested _ _ _ | MResult _ _ _ | MRx _ _ _ => authed h /\ configured h
  end.

Lemma past_step h m e m' : past h m -> mstep m e = Some m' -> past (h ++ [e]) m'.
Proof.
  intros Hp Hs. destruct e as [f|f|cfg tok|d ok| |e|r]; cbn [mstep] in Hs.
  - destruct m; cbn [on_recv] in Hs; try done; injection Hs as <-; simpl in Hp |- *;
      repeat case_match; simpl; auto using authed_app.
    + destruct Hp as [h1 ->]. exists h1, nonce, f. rewrite <- app_assoc. split; [done|].
      bool_hyps. split; [lia|done].
    + split; [by apply authed_app|]. eauto.
    + destruct Hp. auto using authed_app, configured_app.
    + destruct Hp. auto using authed_app, configured_app.
  - destruct m; cbn [on_send] in Hs; try done.
    + case_decide; by simplify_eq.
    + destruct (password_configured a) eqn:Ep; case_decide as Ef; simplify_eq; simpl.
      * exists h. by rewrite Ef.
      * by left.
    + case_decide as Ef; simplify_eq. simpl in *. destruct Hp as (h1 & n & f & -> & Ha).
      right. exists h1, n, f, []. rewrite <- app_assoc. done.
    + case_decide; by simplify_eq.
    + case_decide; simplify_eq; [done|]. case_decide; by simplify_eq.
    + case_decide as Ef; simplify_eq. simpl in *. destruct Hp as (Ha & h1 & f & tok & Ht & -> & Hd).
      split; [by apply authed_app|]. exists h1, f, cfg, tok, []. rewrite <- app_assoc. done.
    + destruct ping; [done|]. case_decide; simplify_eq. destruct Hp.
      split; auto using authed_app, configured_app.
    + case_decide; simplify_eq. destruct Hp. split; auto using authed_app, configured_app.
    + case_decide; simplify_eq. destruct Hp. split; auto using authed_app, configured_app.
  - destruct m; try done. case_decide; simplify_eq. simpl in Hp. destruct Hp as (Ha & h1 & f & -> & Hd).
    destruct (Z.eqb_spec tok 0); simplify_eq; [done|]. simpl. split; [by apply authed_app|].
    split; [done|]. exists h1, f. by rewrite <- app_assoc.
  - destruct m; try done. case_decide; simplify_eq. destruct Hp. destruct ok; simplify_eq; [|done].
    split; auto using authed_app, configured_app.
  - destruct m as [| | | | | | | | | | |[|] ?| | | | |]; try done. by simplify_eq.
  - destruct m; cbn [on_note] in Hs; try done.
    + destruct e; try done. destruct (Z.eqb_spec token op_token) as [<-|]; [|done]. simpl in Hs.
      destruct res as [[] eff]; simpl in Hs; [|by simplify_eq].
      case_bool_decide; simplify_eq; [|done]. simpl in *. destruct Hp as (Ha & Ht & h1 & f & -> & Hd).
      split; [by apply authed_app|]. exists h1, f, token. rewrite <- app_assoc. done.
    + destruct Hp. destruct tx, e; simplify_eq; split; auto using authed_app, configured_app.
  - destruct m; by simplify_eq.
Qed.

Lemma mrun_past h m : mrun h = Some m -> past h m.
Proof. apply (mrun_ind past); [done|]. intros. by eapply past_step. Qed.
(** Events that touch the radio: a submission, a forwarded packet, a result. *)
Definition is_radio (e : event) : bool :=
  match e with
  | Submit _ _ | Abandon => true
  | Send f => (type f =? MSG_RX_PACKET) || (type f =? MSG_TX_RESULT)
  | _ => false
  end.
Definition is_configure (e : event) : bool := match e with Configure _ _ => true | _ => false end.

Lemma radio_step m e m' h :
  mstep m e = Some m' -> is_radio e = true -> past h m -> authed h /\ configured h.
Proof.
  intros Hs Hr Hp. destruct e as [f|f|cfg tok|d ok| |e|r]; try done; cbn [mstep] in Hs.
  - cbn [is_radio] in Hr.
    destruct m; try exact Hp; exfalso; cbn [on_send] in Hs; try done;
      try (destruct (password_configured a));
      repeat (case_decide; [match goal with E : f = _ |- _ => rewrite E in Hr; done end|]); done.
  - by destruct m.
  - destruct m as [| | | | | | | | | | |[|] ?| | | | |]; done.
Qed.

(** Only a reported outcome is sent as a result. *)
Lemma send_result m f m' :
  on_send m f = Some m' -> type f = MSG_TX_RESULT ->
  exists sq o ping, m = MResult sq o ping /\ m' = MReady None ping /\
    f = mkFrame MSG_TX_RESULT sq [result_code o].
Proof.
  intros Hs Ht. destruct m; cbn [on_send] in Hs; try done;
    try destruct (password_configured a); try destruct ping;
    repeat (case_decide; [match goal with E : f = _ |- _ => try (rewrite E in Ht; done) end|]);
    try done; simplify_eq; by eauto 6.
Qed.

(** Every such event has both gates behind it; every configuration the first. *)
Lemma mrun_gated h m :
  mrun h = Some m ->
  Forall (fun e => (is_radio e = true -> authed h /\ configured h) /\
                   (is_configure e = true -> authed h)) h.
Proof.
  revert h m. apply (mrun_ind (fun h _ => Forall _ h)).
  - done.
  - intros h m e m' Hm IH Hs. apply mrun_past in Hm as Hp. apply Forall_app. split.
    + eapply Forall_impl; [exact IH|]. intros e' [H1 H2].
      split; intros He; [destruct (H1 He)|]; auto using authed_app, configured_app.
    + apply Forall_singleton. split; intros He.
      * destruct (radio_step _ _ _ _ Hs He Hp). auto using authed_app, configured_app.
      * destruct e; try done. destruct m; try done. destruct Hp. by apply authed_app.
Qed.

(** ** Requests and results *)

(** The sequence numbers of the accepted requests, in order. *)
Definition note_request (st : Z * list Z) (e : event) : Z * list Z :=
  match e with
  | Recv f => (seq f, st.2)
  | Submit _ true => (st.1, st.2 ++ [st.1])
  | _ => st
  end.
Definition scan (h : list event) : Z * list Z := foldl note_request (0, []) h.
Definition requests (h : list event) : list Z := (scan h).2.

(** The sequence numbers of the results, in order. *)
Definition results (h : list event) : list Z :=
  omap (fun e => match e with
                 | Send f => if type f =? MSG_TX_RESULT then Some (seq f) else None
                 | _ => None
                 end) h.

(** The request without its result. *)
Definition outstanding (m : mon) : list Z :=
  match m with
  | MReady (Some sq) _ | MResult sq _ _ | MRx _ (Some sq) _ => [sq]
  | _ => []
  end.

Lemma scan_snoc h e : scan (h ++ [e]) = note_request (scan h) e.
Proof. unfold scan. by rewrite foldl_app. Qed.

Lemma results_snoc h e :
  results (h ++ [e]) = results h ++ match e with
                 | Send f => if type f =? MSG_TX_RESULT then [seq f] else []
                 | _ => []
                 end.
Proof.
  unfold results. rewrite omap_app. f_equal. destruct e; try done. cbn [omap list_omap]. by destruct (type f =? MSG_TX_RESULT).
Qed.

Definition paired (h : list event) (m : mon) : Prop :=
  (results h ++ outstanding m) `sublist_of` requests h /\
  (forall sq d ping, m = MRequested sq d ping -> (scan h).1 = sq).

(** Events that are neither a result nor an acceptance keep the pairing. *)
Lemma paired_keep h m e m' :
  paired h m -> results (h ++ [e]) = results h -> requests (h ++ [e]) = requests h ->
  (outstanding m' `sublist_of` outstanding m) ->
  (forall sq d ping, m' = MRequested sq d ping -> exists f, e = Recv f /\ sq = seq f) ->
  paired (h ++ [e]) m'.
Proof.
  intros [Hp _] Hr Hq Ho Hm. split.
  - rewrite Hr, Hq. etrans; [|exact Hp]. by apply sublist_app.
  - intros sq d ping E. destruct (Hm _ _ _ E) as (f & -> & ->). by rewrite scan_snoc.
Qed.

Lemma paired_step h m e m' : paired h m -> mstep m e = Some m' -> paired (h ++ [e]) m'.
Proof.
  intros Hp Hs.
  assert (Hk : forall m', results (h ++ [e]) = results h -> requests (h ++ [e]) = requests h ->
    outstanding m' `sublist_of` outstanding m ->
    (forall sq d ping, m' = MRequested sq d ping -> exists f, e = Recv f /\ sq = seq f) ->
    paired (h ++ [e]) m') by (intros; by eapply paired_keep).
  unfold requests in Hk. rewrite results_snoc, scan_snoc in Hk.
  destruct e as [f|f|cfg tok|d ok| |e|r]; cbn [mstep] in Hs; cbn [note_request snd] in Hk.
  - rewrite app_nil_r in Hk. destruct m; cbn [on_recv] in Hs; try done; injection Hs as <-;
      repeat case_match;
      (apply Hk; [done | done | first [apply sublist_nil_l | by destruct tx] | naive_solver]).
  - destruct (type f =? MSG_TX_RESULT) eqn:Et.
    + apply send_result in Hs as (sq & o & ping & -> & -> & ->); [|lia].
      destruct Hp as [Hp _]. split; [|done]. unfold requests.
      rewrite results_snoc, scan_snoc, Et. simpl. by rewrite app_nil_r.
    + rewrite app_nil_r in Hk. destruct m; cbn [on_send] in Hs; try done;
        try destruct (password_configured a); try destruct ping; repeat case_decide;
        try done; injection Hs as <-; apply Hk; try done; apply sublist_nil_l.
  - rewrite app_nil_r in Hk. destruct m; try done. case_decide; simplify_eq.
    case_match; apply Hk; done.
  - destruct m; try done. case_decide; simplify_eq. destruct ok; simplify_eq.
    + destruct Hp as [Hp Hl]. split; [|done]. unfold requests.
      rewrite results_snoc, scan_snoc. simpl. rewrite app_nil_r in *.
      rewrite (Hl _ _ _ eq_refl). by apply sublist_app.
    + rewrite app_nil_r in Hk. apply Hk; done.
  - rewrite app_nil_r in Hk. destruct m as [| | | | | | | | | | |[|] ?| | | | |]; try done.
    simplify_eq. apply Hk; try done. apply sublist_nil_l.
  - rewrite app_nil_r in Hk. destruct m; cbn [on_note] in Hs; try done.
    + destruct e; try done. case_match; simplify_eq. case_match; apply Hk; done.
    + destruct tx, e; simplify_eq; apply Hk; done.
  - rewrite app_nil_r in Hk. destruct m; simplify_eq; apply Hk; try done; apply sublist_nil_l.
Qed.

Lemma mrun_paired h m : mrun h = Some m -> paired h m.
Proof.
  apply (mrun_ind paired).
  - split; [apply sublist_nil_l|done].
  - intros. by eapply paired_step.
Qed.

(** A result carries the outcome the backend has just reported. *)
Definition from_backend (h : list event) : Prop :=
  forall h1 f h2, h = h1 ++ Send f :: h2 -> type f = MSG_TX_RESULT ->
  exists h0 o, h1 = h0 ++ [Note (radio_backend.on_tx_complete o)] /\
               payload f = [result_code o].

Lemma mrun_results h m :
  mrun h = Some m ->
  from_backend h /\
  (forall sq o ping, m = MResult sq o ping -> exists h0, h = h0 ++ [Note (radio_backend.on_tx_complete o)]).
Proof.
  revert h m. apply (mrun_ind (fun h m => from_backend h /\
    (forall sq o ping, m = MResult sq o ping ->
       exists h0, h = h0 ++ [Note (radio_backend.on_tx_complete o)]))).
  { split; [|done]. intros h1 f h2 E. by destruct h1. }
  intros h m e m' _ [IH1 IH2] Hs. split.
  - intros h1 f h2 E Ht. destruct h2 as [|e2 h2 _] using rev_ind.
    + apply app_inj_tail in E as [<- ->]. cbn [mstep] in Hs.
      apply send_result in Hs as (sq & o & ping & -> & _ & ->); [|done].
      destruct (IH2 _ _ _ eq_refl) as [h0 ->]. by eauto.
    + rewrite app_comm_cons, app_assoc in E. apply app_inj_tail in E as [-> _]. by eapply IH1.
  - intros sq o ping ->. destruct e as [f|f|cfg tok|d ok| |e|r]; cbn [mstep] in Hs.
    all: destruct m; cbn [on_recv on_send on_note] in Hs; try done.
    all: repeat (case_match; try done); repeat case_decide; simplify_eq; by eauto.
Qed.
End Spec.
End xr_server_spec.
