(* ===== verification/XrSessionFacts.v ===== *)
(** The session obeys the protocol: every operation keeps the monitor of
    [XrServerSpec] running, queues only well-formed messages, and keeps the
    outbox equal to the part of the sent frames not yet taken by the socket. *)

From S2P Require Import Prelude.
From S2P Require Import StreamLoop.
From S2P Require Import XrCodec.
From S2P Require Import BoundedBuffer.
From S2P Require Import HmacAuth.
From S2P Require Import RadioBackend.
From S2P Require Import XrSession.
From S2P Require Import XrServerSpec.

Module xr_session_facts.
Import extradio auth radio_backend xr_session xr_server_spec.

(** ** What was sent *)

Definition sent_frames (h : list event) : list Frame :=
  omap (fun e => match e with Send f => Some f | _ => None end) h.

Definition frame_bytes (f : Frame) : bytes :=
  [kMagic0; kMagic1; kVersion; type f] ++ extradio.put16 (zlen (payload f)) ++
  extradio.put16 (seq f) ++ payload f.

(** A message of the protocol whose sequence number fits its field. *)
Definition sendable (f : Frame) : Prop := message f /\ is_u16 (seq f).

Lemma sendable_0 ty pl : message (mkFrame ty 0 pl) -> sendable (mkFrame ty 0 pl).
Proof. intros H. split; [done|]. simpl. int_lia. Qed.

Definition wire (h : list event) : bytes := concat (frame_bytes <$> sent_frames h).

Definition is_send (e : event) : bool := match e with Send _ => true | _ => false end.

Lemma sent_frames_quiet h e : is_send e = false -> sent_frames (h ++ [e]) = sent_frames h.
Proof. intros He. unfold sent_frames. rewrite omap_app. destruct e; try done; by rewrite app_nil_r. Qed.

Lemma sent_frames_send h f : sent_frames (h ++ [Send f]) = sent_frames h ++ [f].
Proof. unfold sent_frames. by rewrite omap_app. Qed.

Lemma wire_send h f : wire (h ++ [Send f]) = wire h ++ frame_bytes f.
Proof.
  unfold wire. rewrite sent_frames_send, fmap_app, concat_app. simpl. by rewrite app_nil_r.
Qed.

(** Frames cut from genuine bytes are genuine frames. *)
Lemma decode_typed b f r :
  decode_head b = DGot f r -> is_bytes b -> Frame_typed f /\ is_bytes r.
Proof.
  intros E Hb. apply decode_head_got_inv in E as (n & Hn & Hl & -> & Hp & Ht & Hs & _).
  split; [|by apply is_bytes_drop]. unfold Frame_typed, len. rewrite Hp, Ht, Hs.
  split; [by apply is_bytes_at|]. split; [apply get16_range|].
  split; [by apply is_bytes_take, is_bytes_drop|]. rewrite length_take. lia.
Qed.

Section Facts.
Context {B : Type} `{HB : !RadioBackend B} `{HS : !OpenSSL} (a : AuthConfig) (cap : nat).

Abbreviation world := (world B).

(** ** The invariant *)

(** The quiescent state of the monitor that corresponds to the session. *)
Definition quiet (w : world) : mon :=
  let s := ses w in
  match phase w with
  | WaitHello => MWaitHello
  | WaitAuth => MWaitAuth (nonce_ s)
  | WaitConfigure => MWaitConfigure
  | Configuring => MConfiguring (requested_cfg_ s) (config_op_token_ s)
  | Ready => MReady (if tx_in_flight_ s then Some (tx_seq_ s) else None) (awaiting_pong_ s)
  | Closed => MClosed
  end.

(** The monitor is in state [m]; [c] are the bytes the socket has taken. *)
Record at_ (c : bytes) (m : mon) (w : world) : Prop := {
  at_run : mrun a (hist w) = Some m;
  at_auth : auth_ (ses w) = a;
  at_box : bounded_buffer.wf (outbox_ (ses w));
  at_cap : bounded_buffer.cap_ (outbox_ (ses w)) = cap;
  at_wire : c ++ out_data w = wire (hist w);
  at_msgs : Forall sendable (sent_frames (hist w));
}.

Definition timed (p : Phase) : bool := match p with Ready | Closed => false | _ => true end.

Record sinv (c : bytes) (w : world) : Prop := {
  si_at : at_ c (quiet w) w;
  si_tx : tx_in_flight_ (ses w) = true ->
    phase w = Ready /\ tx_seq_ (ses w) <> 0 /\ is_u16 (tx_seq_ (ses w));
  si_timed : deadline_active_ (ses w) = timed (phase w);
  si_cfg : phase w = Configuring ->
    RadioConfig_typed (requested_cfg_ (ses w)) /\ radioConfigValid (requested_cfg_ (ses w)) = true;
}.

(** ** Building blocks *)

Lemma at_did c m e m' w :
  at_ c m w -> is_send e = false -> mstep a m e = Some m' -> at_ c m' (did e w).
Proof.
  intros [Hr Ha Hb Hcp Hw Hm] He Hs. split; simpl; try done.
  - by rewrite mrun_snoc, Hr.
  - unfold wire. by rewrite sent_frames_quiet.
  - by rewrite sent_frames_quiet.
Qed.

(** Updates of the other fields. *)
Lemma at_upd c m w w' :
  at_ c m w -> hist w' = hist w -> auth_ (ses w') = auth_ (ses w) ->
  outbox_ (ses w') = outbox_ (ses w) -> at_ c m w'.
Proof.
  intros [Hr Ha Hb Hcp Hw Hm] Eh Ea Eo. unfold out_data in *.
  split; unfold out_data; rewrite ?Eh, ?Ea, ?Eo; done.
Qed.

Lemma closed_false (w : world) : closed w = false <-> phase w <> Closed.
Proof. unfold closed. by rewrite bool_decide_eq_false. Qed.

Lemma close_sinv c m r w :
  at_ c m w -> m <> MClosed -> phase w <> Closed -> sinv c (close r w).
Proof.
  intros Ha Hm Hp. unfold close. rewrite (proj2 (closed_false w) Hp).
  split; try done. unfold quiet; simpl. eapply at_did; [by eapply at_upd|done|]. by destruct m.
Qed.

(** Closing a closed session changes nothing. *)
Lemma close_closed r (w : world) : closed w = true -> close r w = w.
Proof. intros H. unfold close. by rewrite H. Qed.

Lemma emit_cases c m m' ty sq pl n w ok w' :
  at_ c m w -> m <> MClosed -> phase w <> Closed ->
  length (default [] pl) = n ->
  let f := mkFrame ty sq (default [] pl) in
  sendable f -> mstep a m (Send f) = Some m' ->
  emit ty sq pl n w = (ok, w') ->
  if ok then at_ c m' w' /\ bk w' = bk w /\
             ses w' = (ses w) <| outbox_ := outbox_ (ses w') |>
  else sinv c w' /\ closed w' = true.
Proof.
  intros Ha Hm Hp Hn f Hmsg Hs. unfold emit.
  assert (Hcl : forall r, sinv c (close r w) /\ closed (close r w) = true).
  { intros r. split; [by eapply close_sinv|]. unfold close.
    rewrite (proj2 (closed_false w) Hp). done. }
  destruct (encode _ _ _ _ _) as [bs|] eqn:Ee; [|intros [= <- <-]; apply Hcl].
  apply encode_Some in Ee as (-> & _ & _). rewrite take_ge by lia.
  destruct (bounded_buffer.append _ _) as [[] ob] eqn:Eb; intros [= <- <-]; [|apply Hcl].
  destruct Ha as [Hr Hau Hb Hcp Hw Hms].
  apply bounded_buffer.append_true in Eb as (Hob & Hd & Hc); [|done].
  split; [|done]. split; simpl; try done.
  - by rewrite mrun_snoc, Hr.
  - by rewrite Hc.
  - rewrite wire_send, <- Hw. unfold out_data; simpl. rewrite Hd, <- app_assoc.
    unfold frame_bytes, zlen; simpl. by rewrite Hn.
  - rewrite sent_frames_send. apply Forall_app. by split; [|apply Forall_singleton].
Qed.

Lemma emit_then_sinv c m m' ty sq pl n k w :
  at_ c m w -> m <> MClosed -> phase w <> Closed ->
  length (default [] pl) = n ->
  let f := mkFrame ty sq (default [] pl) in
  sendable f -> mstep a m (Send f) = Some m' ->
  (forall w', at_ c m' w' -> ses w' = (ses w) <| outbox_ := outbox_ (ses w') |> -> sinv c (k w')) ->
  sinv c (emit_then ty sq pl n k w).
Proof.
  intros Ha Hm Hp Hn f Hmsg Hs Hk. unfold emit_then.
  destruct (emit ty sq pl n w) as [ok w'] eqn:E.
  pose proof (emit_cases _ _ _ _ _ _ _ _ _ _ Ha Hm Hp Hn Hmsg Hs E) as H.
  destruct ok; [apply Hk; apply H | apply H].
Qed.

(** A last frame on the way out. *)
Lemma emit_close_sinv c m m' ty sq pl n r w :
  at_ c m w -> m <> MClosed -> phase w <> Closed ->
  length (default [] pl) = n ->
  let f := mkFrame ty sq (default [] pl) in
  sendable f -> mstep a m (Send f) = Some m' -> m' <> MClosed ->
  sinv c (close r (emit_ ty sq pl n w)).
Proof.
  intros Ha Hm Hp Hn f Hmsg Hs Hm'. unfold emit_.
  destruct (emit ty sq pl n w) as [ok w'] eqn:E.
  pose proof (emit_cases _ _ _ _ _ _ _ _ _ _ Ha Hm Hp Hn Hmsg Hs E) as H. simpl.
  destruct ok.
  - destruct H as (H & _ & Hses). eapply close_sinv; [exact H|done|].
    unfold phase. by rewrite Hses.
  - destruct H as [H Hc]. by rewrite close_closed.
Qed.
(** ** Frames from the client *)

Lemma pack_config_eq cfg : pack_config cfg = packConfig cfg.
Proof. done. Qed.

(** [RAND_bytes] fills the nonce. *)
Definition rand_ok (rand : option bytes) : Prop :=
  forall n, rand = Some n -> length n = kAuthNonceSize.

Lemma at_recv c w f :
  sinv c w -> forall m', mstep a (quiet w) (Recv f) = Some m' -> at_ c m' (did (Recv f) w).
Proof. intros [Ha _ _ _] m' Hm. by eapply at_did. Qed.

Lemma recv_unacceptable c w f r :
  sinv c w -> phase w <> Closed -> acceptable f = false -> sinv c (close r (did (Recv f) w)).
Proof.
  intros Hi Hp Hf. eapply (close_sinv _ MBad); [|done|done].
  apply at_recv; [done|]. simpl. unfold quiet.
  destruct (phase w); try done; simpl; by rewrite Hf.
Qed.

Lemma arm_phase_sinv c m now t r p (w : world) :
  at_ c m w -> tx_in_flight_ (ses w) = false ->
  p = WaitAuth \/ p = WaitConfigure \/ p = Configuring ->
  m = quiet (set_phase p w) ->
  (p = Configuring -> RadioConfig_typed (requested_cfg_ (ses w)) /\
                      radioConfigValid (requested_cfg_ (ses w)) = true) ->
  sinv c (arm now t r (set_phase p w)).
Proof.
  intros Ha Ht Hp -> Hc. split.
  - by eapply at_upd.
  - simpl. rewrite Ht. done.
  - simpl. naive_solver.
  - intros Hp'. by apply Hc.
Qed.

Lemma tx_idle c w : sinv c w -> phase w <> Ready -> tx_in_flight_ (ses w) = false.
Proof.
  intros Hi Hp. destruct (tx_in_flight_ (ses w)) eqn:E; [|done].
  destruct Hp. by apply (si_tx _ _ Hi).
Qed.

Lemma hello_sinv c rand now w f :
  sinv c w -> phase w = WaitHello -> acceptable f = true -> (type f =? MSG_HELLO) = true ->
  rand_ok rand ->
  sinv c (emit_then MSG_HELLO_ACK 0 (Some [kVersion]) 1 (fun w =>
        if password_configured (auth_ (ses w)) then
          match random_nonce rand with
          | None => close AuthError w
          | Some nonce =>
              let w := upd (fun s => s <| nonce_ := nonce |>) w in
              emit_then MSG_AUTH_CHALLENGE 0 (Some (nonce_ (ses w))) kAuthNonceSize (fun w =>
                arm now (auth_ms (to_ (ses w))) AuthTimeout (set_phase WaitAuth w)) w
          end
        else
          emit_then MSG_AUTH_RESULT 0 (Some [AUTH_OK]) 1 (fun w =>
            arm now (config_ms (to_ (ses w))) ConfigTimeout (set_phase WaitConfigure w)) w)
      (did (Recv f) w)).
Proof.
  intros Hi Hp Hf Ht Hr.
  assert (Htx : tx_in_flight_ (ses w) = false) by (apply (tx_idle c); [done | by rewrite Hp]).
  eapply (emit_then_sinv _ MHello MGreeted); try done.
  - apply at_recv; [done|]. simpl. unfold quiet. rewrite Hp. simpl. by rewrite Hf, Ht.
  - unfold phase in *; simpl. by rewrite Hp.
  - apply sendable_0, msg_hello. auto.
  - intros w' Ha' Hs'. assert (Hp' : phase w' <> Closed) by (unfold phase in *; rewrite Hs'; simpl; by rewrite Hp).
    assert (Htx' : tx_in_flight_ (ses w') = false) by (by rewrite Hs').
    rewrite (at_auth _ _ _ Ha'). destruct (password_configured a) eqn:Hpw.
    + unfold random_nonce. destruct rand as [nonce|]; [|by eapply close_sinv].
      simpl. eapply (emit_then_sinv _ MGreeted (MWaitAuth nonce)); try done.
      * by eapply at_upd.
      * by apply Hr.
      * apply sendable_0, msg_auth_challenge. by apply Hr.
      * simpl. rewrite Hpw. by rewrite decide_True.
      * intros w2 Ha2 Hs2. eapply arm_phase_sinv; try done; [by rewrite Hs2|auto|].
        unfold quiet; simpl. by rewrite Hs2.
    + eapply (emit_then_sinv _ MGreeted MWaitConfigure); try done.
      * apply sendable_0, msg_auth_result. auto.
      * simpl. by rewrite Hpw.
      * intros w2 Ha2 Hs2. eapply arm_phase_sinv; try done; [by rewrite Hs2|auto].
Qed.

Lemma auth_sinv c now w f :
  sinv c w -> phase w = WaitAuth -> acceptable f = true -> (type f =? MSG_AUTH_RESPONSE) = true ->
  let w1 := did (Recv f) w in
  sinv c (if verify_auth_response (auth_ (ses w1)) (nonce_ (ses w1)) (Some (payload f)) then
        emit_then MSG_AUTH_RESULT 0 (Some [AUTH_OK]) 1 (fun w =>
          arm now (config_ms (to_ (ses w))) ConfigTimeout (set_phase WaitConfigure w)) w1
      else close AuthFailed (emit_ MSG_AUTH_RESULT 0 (Some [AUTH_FAIL]) 1 w1)).
Proof.
  intros Hi Hp Hf Ht w1.
  assert (Htx : tx_in_flight_ (ses w) = false) by (apply (tx_idle c); [done | by rewrite Hp]).
  assert (Hpc : phase w1 <> Closed) by (unfold phase in *; simpl; by rewrite Hp).
  change (auth_ (ses w1)) with (auth_ (ses w)). rewrite (at_auth _ _ _ (si_at _ _ Hi)).
  change (nonce_ (ses w1)) with (nonce_ (ses w)).
  assert (Hat : forall m, (if verify_auth_response a (nonce_ (ses w)) (Some (payload f))
                           then MProved else MRefused) = m -> at_ c m w1).
  { intros m <-. apply at_recv; [done|]. simpl. unfold quiet. rewrite Hp. simpl. by rewrite Hf, Ht. }
  destruct (verify_auth_response _ _ _).
  - eapply (emit_then_sinv _ MProved MWaitConfigure); try done.
    + by apply Hat.
    + apply sendable_0, msg_auth_result. auto.
    + intros w2 Ha2 Hs2. eapply arm_phase_sinv; try done; [by rewrite Hs2|auto].
  - eapply (emit_close_sinv _ MRefused MBad); try done.
    + by apply Hat.
    + apply sendable_0, msg_auth_result. auto.
Qed.
Lemma decodeConfig_typed f cfg :
  Frame_typed f -> decodeConfig f = Some cfg -> RadioConfig_typed cfg.
Proof.
  intros (_ & _ & Hb & _). unfold decodeConfig. case_match; [done|]. intros Hu.
  eapply unpackConfig_typed; [exact Hb|exact Hu].
Qed.

(** A configuration that is not taken is answered with a failure. *)
Lemma not_configured_sinv c code w :
  at_ c MNotConfigured w -> phase w <> Closed -> code = CFG_INVALID \/ code = CFG_UNSUPPORTED ->
  sinv c (close ConfigFailed (emit_ MSG_CONFIG_RESULT 0 (Some [code]) 1 w)).
Proof.
  intros Ha Hp Hc. eapply (emit_close_sinv _ MNotConfigured MBad); try done.
  - apply sendable_0, msg_config_failure. destruct Hc as [-> | ->]; done.
  - destruct Hc as [-> | ->]; done.
Qed.

Lemma configure_sinv c now w f :
  sinv c w -> phase w = WaitConfigure -> acceptable f = true -> (type f =? MSG_CONFIGURE) = true ->
  Frame_typed f ->
  let bad code (w : world) := close ConfigFailed (emit_ MSG_CONFIG_RESULT 0 (Some [code]) 1 w) in
  let w := did (Recv f) w in
  sinv c (match decodeConfig f with
      | None => bad CFG_INVALID w
      | Some requested =>
          if negb (radioConfigValid requested) then bad CFG_INVALID w else
          let '(token, b) := rb_begin_configure now requested (bk w) in
          let w := did (Configure requested token) (w <| bk := b |>) in
          if token =? 0 then bad CFG_UNSUPPORTED w else
          let w := upd (fun s => s <| config_op_token_ := token |>
                                   <| requested_cfg_ := requested |>) w in
          arm now (config_ms (to_ (ses w))) ConfigTimeout (set_phase Configuring w)
      end).
Proof.
  intros Hi Hp Hf Ht Hty bad w1.
  assert (Htx : tx_in_flight_ (ses w) = false) by (apply (tx_idle c); [done | by rewrite Hp]).
  assert (Hpc : phase w1 <> Closed) by (unfold phase in *; simpl; by rewrite Hp).
  assert (Hat : forall m, on_recv a MWaitConfigure f = Some m -> at_ c m w1).
  { intros m Hm. apply at_recv; [done|]. simpl. unfold quiet. by rewrite Hp. }
  simpl in Hat. rewrite Hf, Ht in Hat. simpl in Hat.
  destruct (decodeConfig f) as [cfg|] eqn:Hd; [|apply not_configured_sinv; auto].
  destruct (radioConfigValid cfg) eqn:Hv; simpl; [|apply not_configured_sinv; auto].
  destruct (rb_begin_configure now cfg (bk w)) as [token b].
  set (w2 := did (Configure cfg token) _).
  assert (Ha2 : at_ c (if token =? 0 then MNotConfigured else MConfiguring cfg token) w2).
  { eapply (at_did _ (MAsked cfg)); [|done|by simpl; rewrite decide_True].
    eapply at_upd; [by apply Hat|done..]. }
  destruct (token =? 0) eqn:Etok; [apply not_configured_sinv; auto|].
  eapply arm_phase_sinv; [by eapply at_upd|done|auto|done|].
  intros _. split; [by eapply decodeConfig_typed|done].
Qed.

Lemma ready_sinv c now w f :
  sinv c w -> phase w = Ready -> acceptable f = true -> Frame_typed f ->
  sinv c (handle_ready_frame now f (did (Recv f) w)).
Proof.
  intros Hi Hp Hf Hty. unfold handle_ready_frame. set (w1 := did (Recv f) w).
  assert (Hpc : phase w1 <> Closed) by (unfold phase in *; simpl; by rewrite Hp).
  assert (Hq : quiet w = MReady (if tx_in_flight_ (ses w) then Some (tx_seq_ (ses w)) else None)
                           (awaiting_pong_ (ses w))) by (unfold quiet; by rewrite Hp).
  assert (Hat : forall m, mstep a (quiet w) (Recv f) = Some m -> at_ c m w1) by (by apply at_recv).
  rewrite Hq in Hat. simpl in Hat. rewrite Hf in Hat. simpl in Hat.
  assert (Hbad : forall r, at_ c MBad w1 -> sinv c (close r w1)) by (intros; by eapply close_sinv).
  destruct (type f =? MSG_PONG) eqn:Et.
  { change (awaiting_pong_ (ses w1)) with (awaiting_pong_ (ses w)).
    destruct (awaiting_pong_ (ses w)) eqn:Epong; simpl in *.
    - set (w3 := if (_ <=? _) then _ else _). set (w4 := upd _ w3).
      assert (Hw4 : hist w4 = hist w1 /\ auth_ (ses w4) = auth_ (ses w1) /\
        outbox_ (ses w4) = outbox_ (ses w1) /\ phase w4 = Ready /\ awaiting_pong_ (ses w4) = false /\
        tx_in_flight_ (ses w4) = tx_in_flight_ (ses w) /\ tx_seq_ (ses w4) = tx_seq_ (ses w) /\
        deadline_active_ (ses w4) = deadline_active_ (ses w))
        by (subst w4 w3; destruct (pong_timeout_ms _ <=? _); repeat split; exact Hp).
      clearbody w4. clear w3.
      destruct Hw4 as (Eh & Ea & Eo & Ep & Ew & Etx & Esq & Edl). split.
      + unfold quiet. rewrite Ep, Ew, Etx, Esq. eapply at_upd; [by apply Hat|done..].
      + rewrite Etx, Esq, Ep. intros H. split; [done|]. by apply (si_tx _ _ Hi).
      + rewrite Edl, Ep. rewrite (si_timed _ _ Hi), Hp. done.
      + by rewrite Ep.
    - apply Hbad, Hat. assert ((type f =? MSG_TX_REQUEST) = false) as ->; [|done].
      apply Z.eqb_eq in Et. rewrite Et. done. }
  simpl in Hat. destruct (type f =? MSG_TX_REQUEST) eqn:Etx; [|by apply Hbad, Hat].
  change (tx_in_flight_ (ses w1)) with (tx_in_flight_ (ses w)).
  destruct (tx_in_flight_ (ses w)) eqn:Eif; [by apply Hbad, Hat|].
  simpl. destruct (rb_submit_tx (payload f) (bk w)) as [ok b].
  set (w2 := did (Submit (payload f) ok) _).
  assert (Ha2 : at_ c (if ok then MReady (Some (seq f)) (awaiting_pong_ (ses w)) else MBad) w2).
  { eapply (at_did _ (MRequested (seq f) (payload f) (awaiting_pong_ (ses w))));
      [|done|by simpl; rewrite decide_True].
    eapply at_upd; [by apply Hat|done..]. }
  destruct ok; simpl; [|by eapply close_sinv]. split.
  - unfold quiet. unfold phase in *; simpl. rewrite Hp. by eapply at_upd.
  - intros _. unfold phase in *; simpl. split; [done|]. split; [|apply Hty].
    apply andb_true_iff in Hf as [Hf _]. apply andb_true_iff in Hf as [Hf _].
    apply bool_decide_eq_true in Hf. apply Z.eqb_eq in Etx. unfold validate in Hf.
    rewrite Etx in Hf. simpl in Hf. intros E. by rewrite E in Hf.
  - unfold phase in *; simpl. rewrite (si_timed _ _ Hi), Hp. unfold phase in *. by rewrite Hp.
  - unfold phase in *; simpl. by rewrite Hp.
Qed.
Lemma handle_frame_sinv c rand now f w :
  rand_ok rand -> Frame_typed f -> closed w = false -> sinv c w ->
  sinv c (handle_frame rand now f w).
Proof.
  intros Hr Hty Hp%closed_false Hi. unfold handle_frame.
  assert (Hrej : forall r, acceptable f = false -> sinv c (close r (did (Recv f) w)))
    by (intros; by apply recv_unacceptable).
  unfold acceptable in Hrej.
  destruct (bool_decide (validate f = ERR_NONE)) eqn:E1; [|by apply Hrej].
  destruct (is_client_message (type f)) eqn:E2; [|by apply Hrej].
  destruct (type f =? MSG_ERROR) eqn:E3; [by apply Hrej|]. cbn [negb]. clear Hrej.
  assert (Hf : acceptable f = true) by (unfold acceptable; by rewrite E1, E2, E3).
  assert (Hbad : forall r, mstep a (quiet w) (Recv f) = Some MBad -> sinv c (close r (did (Recv f) w))).
  { intros r Hm. eapply (close_sinv _ MBad); [by apply at_recv|done|done]. }
  change (phase (did (Recv f) w)) with (phase w).
  destruct (phase w) eqn:Ep; [| | | | |done].
  - destruct (type f =? MSG_HELLO) eqn:Et; cbn [negb]; [by apply hello_sinv|].
    apply Hbad. unfold quiet. rewrite Ep. simpl. by rewrite Hf, Et.
  - destruct (type f =? MSG_AUTH_RESPONSE) eqn:Et; cbn [negb]; [by apply auth_sinv|].
    apply Hbad. unfold quiet. rewrite Ep. simpl. by rewrite Hf, Et.
  - destruct (type f =? MSG_CONFIGURE) eqn:Et; cbn [negb]; [by apply configure_sinv|].
    apply Hbad. unfold quiet. rewrite Ep. simpl. by rewrite Hf, Et.
  - apply Hbad. unfold quiet. by rewrite Ep.
  - by apply ready_sinv.
Qed.

(** The invariant with the parser's bytes. *)
Definition session_inv (c : bytes) (w : world) : Prop :=
  sinv c w /\ is_bytes (buf (parser_ (ses w))).

Lemma sinv_set_parser c p (w : world) : sinv c w -> sinv c (set_parser p w).
Proof. intros [H1 H2 H3 H4]. split; [by eapply at_upd|done..]. Qed.

Lemma parser_close r (w : world) : parser_ (ses (close r w)) = parser_ (ses w).
Proof. unfold close. by case_match. Qed.

Lemma feed_inv c rand now data w :
  rand_ok rand -> is_bytes data -> session_inv c w -> session_inv c (feed rand now data w).
Proof.
  intros Hr Hd [Hi Hb]. unfold feed. destruct (closed w) eqn:Hc; [done|].
  destruct (stream_loop _ _ _ _ _) as [[e w'] p'] eqn:E.
  apply (stream_loop_typed (handle_frame rand now) closed is_bytes Frame_typed (sinv c)) in E
    as (Hi' & Hs & left & Hb').
  - apply is_bytes_app in Hb' as [Hb' _]. destruct e.
    + split; [by apply sinv_set_parser|done].
    + split; [by apply sinv_set_parser|done].
    + split; [|by rewrite parser_close].
      pose proof (sinv_set_parser c p' w' Hi') as Hi2.
      assert (Hcl : closed (set_parser p' w') = false) by (by apply Hs).
      apply closed_false in Hcl.
      eapply close_sinv; [by apply si_at|unfold quiet; by destruct (phase _)|done].
  - apply decode_typed.
  - intros f h Hf Hst Hq. by apply handle_frame_sinv.
  - done.
  - apply is_bytes_app. by split.
  - by apply sinv_set_parser.
Qed.

(** ** Events from the backend *)

Lemma configure_complete_sinv c now tok res w :
  sinv c w -> sinv c (on_configure_complete now tok res w).
Proof.
  intros Hi. unfold on_configure_complete. case_bool_decide as Hp; [|done]. cbn [negb].
  destruct (tok =? config_op_token_ (ses w)) eqn:Etok; [|done]. cbn [negb].
  set (w1 := did _ w).
  assert (Hpc : phase w1 <> Closed) by (unfold phase in *; simpl; by rewrite Hp).
  destruct (si_cfg _ _ Hi Hp) as [Hty Hv].
  assert (Htx : tx_in_flight_ (ses w) = false) by (apply (tx_idle c); [done | by rewrite Hp]).
  assert (Hat : forall m, (if applied res && bool_decide (effective res = requested_cfg_ (ses w))
                           then MApplied (requested_cfg_ (ses w)) else MNotConfigured) = m ->
                          at_ c m w1).
  { intros m <-. eapply at_did; [by apply si_at|done|].
    unfold quiet. rewrite Hp. simpl. rewrite Z.eqb_sym, Etok. done. }
  change (requested_cfg_ (ses w1)) with (requested_cfg_ (ses w)).
  destruct (applied res); cbn [negb orb andb] in *; [|apply not_configured_sinv; auto].
  destruct (configEqual (effective res) (requested_cfg_ (ses w))) eqn:Eeq; cbn [negb].
  2:{ apply not_configured_sinv; [|done|auto]. apply Hat. rewrite bool_decide_false; [done|].
      intros E. apply configEqual_eq in E. congruence. }
  apply configEqual_eq in Eeq. rewrite bool_decide_true in Hat by done.
  eapply (emit_then_sinv _ (MApplied (requested_cfg_ (ses w))) (MReady None false)); try done.
  - eapply at_upd; [by apply Hat|done..].
  - cbn [default]. rewrite pack_config_eq, Eeq. by apply sendable_0, msg_config_echo.
  - cbn [mstep on_send default]. by rewrite pack_config_eq, Eeq, decide_True.
  - intros w2 Ha2 Hs2. split; try done.
    + unfold quiet; simpl. rewrite Hs2. simpl. rewrite Htx. by eapply at_upd.
    + simpl. rewrite Hs2. simpl. by rewrite Htx.
Qed.

Lemma emit_ready_sinv c m ty sq pl n w :
  at_ c m w -> m <> MClosed -> phase w = Ready -> length (default [] pl) = n ->
  sendable (mkFrame ty sq (default [] pl)) ->
  (tx_in_flight_ (ses w) = true -> tx_seq_ (ses w) <> 0 /\ is_u16 (tx_seq_ (ses w))) -> deadline_active_ (ses w) = false ->
  mstep a m (Send (mkFrame ty sq (default [] pl))) = Some (quiet w) ->
  sinv c (emit_ ty sq pl n w).
Proof.
  intros Ha Hm Hp Hn Hmsg Htx Hdl Hs. unfold emit_.
  destruct (emit ty sq pl n w) as [ok w'] eqn:E.
  assert (Hpc : phase w <> Closed) by (by rewrite Hp).
  pose proof (emit_cases _ _ _ _ _ _ _ _ _ _ Ha Hm Hpc Hn Hmsg Hs E) as H. simpl.
  destruct ok; [|apply H]. destruct H as (H & _ & Hses).
  assert (Hp' : phase w' = Ready) by (unfold phase in *; rewrite Hses; done).
  split.
  - assert (quiet w' = quiet w) as ->; [|done].
    unfold quiet. rewrite Hp', Hp, Hses. done.
  - rewrite Hp', Hses. simpl. auto.
  - rewrite Hp', Hses. done.
  - by rewrite Hp'.
Qed.

Lemma tx_complete_sinv c o w : sinv c w -> sinv c (on_tx_complete o w).
Proof.
  intros Hi. unfold on_tx_complete. destruct (tx_in_flight_ (ses w)) eqn:Etx; [|done]. cbn [negb].
  destruct (si_tx _ _ Hi Etx) as (Hp & Hsq & Hu16). unfold map_and_send_tx_result.
  eapply (emit_ready_sinv _ (MResult (tx_seq_ (ses w)) o (awaiting_pong_ (ses w)))); try done.
  - apply (at_upd _ _ (did (Note (radio_backend.on_tx_complete o)) w)); [|done..].
    eapply at_did; [by apply si_at|done|]. unfold quiet. by rewrite Hp, Etx.
  - split; [|done]. apply msg_tx_result; [done|]. by destruct o.
  - unfold phase in *; simpl. rewrite (si_timed _ _ Hi). unfold phase. by rewrite Hp.
  - unfold quiet, phase in *; simpl. by rewrite Hp, decide_True.
Qed.

Lemma rx_sinv c rx w : sinv c w -> sinv c (on_rx rx w).
Proof.
  intros Hi. unfold on_rx. case_bool_decide as Hp; [|done]. cbn [negb].
  destruct (rxPayloadAcceptable (zlen (rx_data rx))) eqn:Er; [|done]. cbn [negb].
  unfold rxPayloadAcceptable in Er. apply andb_true_iff in Er as [Er1 Er2].
  eapply (emit_ready_sinv _ (MRx rx (if tx_in_flight_ (ses w) then Some (tx_seq_ (ses w)) else None)
            (awaiting_pong_ (ses w)))); try done.
  - eapply at_did; [by apply si_at|done|]. unfold quiet. rewrite Hp.
    by destruct (tx_in_flight_ (ses w)).
  - apply sendable_0, msg_rx_packet. unfold zlen in *. lia.
  - intros Ht. by apply (si_tx _ _ Hi).
  - unfold phase in *; simpl. rewrite (si_timed _ _ Hi). unfold phase. by rewrite Hp.
  - unfold quiet, phase in *; simpl. by rewrite Hp, decide_True.
Qed.

Lemma sinv_close c r w : sinv c w -> sinv c (close r w).
Proof.
  intros Hi. destruct (closed w) eqn:Hc; [by rewrite close_closed|].
  apply closed_false in Hc. eapply close_sinv; [by apply si_at| |done].
  unfold quiet. by destruct (phase w).
Qed.

Lemma on_event_sinv c now e w : sinv c w -> sinv c (on_event now e w).
Proof.
  destruct e; simpl.
  - apply rx_sinv.
  - apply tx_complete_sinv.
  - apply sinv_close.
  - apply configure_complete_sinv.
Qed.

(** ** Time *)

Lemma tick_sinv c now w : sinv c w -> sinv c (tick now w).
Proof.
  intros Hi. unfold tick. destruct (closed w) eqn:Hc; [done|].
  case_match; [by apply sinv_close|]. case_bool_decide as Hp; [|done]. cbn [negb].
  apply closed_false in Hc.
  assert (Hq : quiet w = MReady (if tx_in_flight_ (ses w) then Some (tx_seq_ (ses w)) else None)
                           (awaiting_pong_ (ses w))) by (unfold quiet; by rewrite Hp).
  destruct (tx_in_flight_ (ses w)) eqn:Etx; cbn [andb].
  all: try destruct (tx_deadline_at_ (ses w) <=? now).
  1:{ eapply (close_sinv _ MBad); [|done|done]. eapply at_did; [|done|].
      - eapply at_upd; [by apply si_at|done..].
      - by rewrite Hq. }
  all: destruct (awaiting_pong_ (ses w)) eqn:Epong; [case_match; [by apply sinv_close|done]|].
  all: case_match; [|done].
  all: eapply (emit_then_sinv _ (quiet w)); try done;
    [by apply si_at | by rewrite Hq | by apply sendable_0, msg_ping; auto | by rewrite Hq |].
  all: intros w2 Ha2 Hs2; split; try done.
  all: try (unfold quiet, phase in *; simpl; rewrite Hs2; simpl; rewrite Hp, Etx; by eapply at_upd).
  all: unfold phase in *; simpl; rewrite Hs2; simpl; try (by rewrite Hp).
  all: try (intros Ht; by apply (si_tx _ _ Hi)).
  all: by rewrite (si_timed _ _ Hi).
Qed.
End Facts.
End xr_session_facts.
