(* ===== verification/XrSessionProperties.v ===== *)
(** The properties of the XR session, over every sequence of operations its
    owner can perform on it. *)

From S2P Require Import Prelude.
From S2P Require Import StreamLoop.
From S2P Require Import XrCodec.
From S2P Require Import BoundedBuffer.
From S2P Require Import HmacAuth.
From S2P Require Import RadioBackend.
From S2P Require Import XrSession.
From S2P Require Import XrServerSpec.
From S2P Require Import XrSessionFacts.
From S2P Require Import FakeBackend.

Module xr_session_properties.
Import extradio auth radio_backend xr_session xr_server_spec xr_session_facts.

(** ** Operations *)

Section Runs.
Context {B : Type} `{HB : !RadioBackend B} `{HS : !OpenSSL}.

(** What the owner of a session does: feed a socket read, pass a sink event,
    let time pass, write to the socket (which takes [n] bytes); the backend may
    change on its own in between. *)
Inductive op :=
  | OpFeed (rand : option bytes) (now : Z) (data : bytes)
  | OpEvent (now : Z) (e : SinkEvent)
  | OpTick (now : Z)
  | OpTake (n : nat)
  | OpBackend (b : B).

(** The bytes the socket took, and the session after. *)
Definition do_op (o : op) (w : world B) : bytes * world B :=
  match o with
  | OpFeed rand now data => ([], feed rand now data w)
  | OpEvent now e => ([], on_event now e w)
  | OpTick now => ([], tick now w)
  | OpTake n => (take n (out_data w), out_consume n w)
  | OpBackend b => ([], w <| bk := b |>)
  end.

Fixpoint do_ops (os : list op) (w : world B) : bytes * world B :=
  match os with
  | [] => ([], w)
  | o :: os =>
      let '(t1, w) := do_op o w in
      let '(t2, w) := do_ops os w in (t1 ++ t2, w)
  end.

(** Socket reads are bytes; the random generator fills the nonce or fails. *)
Definition op_ok (o : op) : Prop :=
  match o with OpFeed rand _ data => rand_ok rand /\ is_bytes data | _ => True end.

Definition opened (a : AuthConfig) (to : Timeouts) (max_outbox : nat) (now : Z) (b : B) : world B :=
  open now (mkWorld (make a to max_outbox) b []).

(** ** Lemmas *)

Lemma opened_inv a to cap now b : session_inv a cap [] (opened a to cap now b).
Proof.
  split; [|by apply List.Forall_nil]. split; try done. split; try done. simpl.
  apply bounded_buffer.clear_spec, bounded_buffer.wf_make.
Qed.

Lemma on_event_parser now e (w : world B) :
  parser_ (ses (on_event now e w)) = parser_ (ses w).
Proof.
  destruct e; unfold on_event, on_rx, on_tx_complete, on_backend_failure, on_configure_complete,
    map_and_send_tx_result, emit_then, emit_, emit, close, enter_ready;
    repeat (case_match || case_bool_decide); simplify_eq/=; try done.
Qed.

Lemma tick_parser now (w : world B) : parser_ (ses (tick now w)) = parser_ (ses w).
Proof.
  unfold tick, emit_then, emit, close;
    repeat (case_match || case_bool_decide); simplify_eq/=; try done.
Qed.

Lemma consume_cap b n : bounded_buffer.cap_ (bounded_buffer.consume b n) = bounded_buffer.cap_ b.
Proof. unfold bounded_buffer.consume. by case_match. Qed.

Lemma do_op_inv a cap c o w t w' :
  op_ok o -> session_inv a cap c w -> do_op o w = (t, w') -> session_inv a cap (c ++ t) w'.
Proof.
  intros Ho Hi. destruct o as [rand now data|now e|now|n|b]; simpl; intros [= <- <-];
    rewrite ?app_nil_r.
  - destruct Ho. by apply feed_inv.
  - destruct Hi as [Hi Hp]. split; [by apply on_event_sinv|]. by rewrite on_event_parser.
  - destruct Hi as [Hi Hp]. split; [by apply tick_sinv|]. by rewrite tick_parser.
  - destruct Hi as [[[Hr Ha Hb Hcp Hw Hm] Htx Htd Hcf] Hp]. split; [|done].
    destruct (bounded_buffer.consume_spec (outbox_ (ses w)) n Hb) as [Hb' Habs].
    split; [|done..]. split; try done; [simpl; by rewrite consume_cap|].
    pose proof (f_equal bounded_buffer.fifo.queue Habs) as Hd. simpl in Hd.
    unfold out_data in *. simpl. rewrite Hd, <- app_assoc, take_drop. done.
  - destruct Hi as [Hi Hp]. split; [|done]. destruct Hi. split; [by eapply at_upd|done..].
Qed.

Lemma do_ops_inv a cap c os w t w' :
  Forall op_ok os -> session_inv a cap c w -> do_ops os w = (t, w') -> session_inv a cap (c ++ t) w'.
Proof.
  intros Hos. revert c w t. induction Hos as [|o os Ho _ IH]; intros c w t Hi E; simpl in E.
  { simplify_eq. by rewrite app_nil_r. }
  destruct (do_op o w) as [t1 w1] eqn:E1. destruct (do_ops os w1) as [t2 w2] eqn:E2. simplify_eq.
  rewrite app_assoc. eapply IH; [|exact E2]. by eapply do_op_inv.
Qed.

Lemma opened_ops a to cap now b os t w :
  Forall op_ok os -> do_ops os (opened a to cap now b) = (t, w) -> session_inv a cap t w.
Proof. intros Hos E. by apply (do_ops_inv a cap [] os _ t w Hos (opened_inv a to cap now b)). Qed.

(** *** Fragmentation *)

Definition p0 : Parser := mkParser [].

(** Equal, except for what is left in the parser of a closed session. *)
Definition same (w1 w2 : world B) : Prop :=
  set_parser p0 w1 = set_parser p0 w2 /\ (closed w1 = false -> w1 = w2).

Lemma same_closed w1 w2 : same w1 w2 -> closed w1 = closed w2.
Proof. intros [H _]. exact (f_equal closed H). Qed.

#[export] Instance same_equivalence : Equivalence same.
Proof.
  split.
  - done.
  - intros w1 w2 H. pose proof (same_closed _ _ H) as Hc. destruct H as [H1 H2].
    split; [done|]. rewrite <- Hc. intros. symmetry. auto.
  - intros w1 w2 w3 H H'. pose proof (same_closed _ _ H) as Hc. destruct H, H'.
    split; [congruence|]. intros E. rewrite H0 by done. rewrite Hc in E. auto.
Qed.

#[export] Instance feed_proper rand now data : Proper (same ==> same) (feed rand now data).
Proof.
  intros w1 w2 H. destruct (closed w1) eqn:Hc.
  - unfold feed. by rewrite <- (same_closed _ _ H), Hc.
  - destruct H as [_ H]. by rewrite (H Hc).
Qed.

Lemma handle_frame_parser rand now f (w : world B) :
  parser_ (ses (handle_frame rand now f w)) = parser_ (ses w).
Proof.
  unfold handle_frame, handle_ready_frame.
  repeat (case_match || case_bool_decide); simplify_eq/=;
    unfold emit_then, emit_, emit, close; repeat (case_match || case_bool_decide); simplify_eq/=; done.
Qed.

Lemma set_parser_id p (w : world B) : parser_ (ses w) = p -> set_parser p w = w.
Proof. intros <-. by destruct w as [[] ? ?]. Qed.

Lemma closed_close r (w : world B) : closed (close r w) = true.
Proof. unfold close. destruct (closed w) eqn:E; done. Qed.

Lemma same_set_parser_closed p q (w : world B) : closed w = true -> same (set_parser p w) (set_parser q w).
Proof. intros Hc. split; [done|]. intros E. change (closed w = false) in E. congruence. Qed.

Lemma same_close r p q (w : world B) : same (close r (set_parser p w)) (close r (set_parser q w)).
Proof.
  split; [|intros E; by rewrite closed_close in E].
  unfold close. change (closed (set_parser p w)) with (closed w).
  change (closed (set_parser q w)) with (closed w). by destruct (closed w).
Qed.

Lemma feed_app rand now x y (w : world B) :
  same (feed rand now (x ++ y) w) (feed rand now y (feed rand now x w)).
Proof.
  destruct (closed w) eqn:Hc; [unfold feed; by rewrite Hc, Hc|].
  unfold feed at 1 3. rewrite Hc. set (w0 := set_parser _ w).
  destruct (stream_loop _ _ w0 _ (x ++ y)) as [[e2 w2] q2] eqn:E2.
  destruct (stream_loop _ _ w0 _ x) as [[e1 w1] q1] eqn:E1.
  assert (parser_ (ses w1) = p0 /\ (e1 <> Stopped -> closed w1 = false)) as [Hp1 Hc1].
  { pose proof E1 as E. apply (stream_loop_typed (handle_frame rand now) closed (fun _ => True)
      (fun _ => True) (fun w => parser_ (ses w) = p0)) in E as (H1 & H2 & _); try done.
    intros f h _ _ Hh. by rewrite handle_frame_parser. }
  pose proof (stream_loop_app _ _ _ _ _ _ _ _ _ E1 _ _ _ E2) as Happ.
  case_decide as He1.
  - subst e1. destruct Happ as (q3 & E3 & Hq). unfold feed.
    change (closed (set_parser q1 w1)) with (closed w1). rewrite Hc1 by done.
    change (parser_ (ses (set_parser q1 w1))) with q1.
    change (set_parser (parserReset q1) (set_parser q1 w1)) with (set_parser p0 w1).
    rewrite (set_parser_id p0) by done. rewrite E3.
    assert (Hst : e2 = Stopped -> closed w2 = true).
    { intros ->. exact (stream_loop_stopped (handle_frame rand now) closed _ _ _ _ _ E3). }
    destruct e2.
    + destruct q2 as [b2], q3 as [b3]. simpl in Hq. by rewrite Hq.
    + apply same_set_parser_closed. auto.
    + apply same_close.
  - destruct Happ as [-> ->]. destruct e1; [done| |].
    + assert (Hst : closed w1 = true) by 
        (exact (stream_loop_stopped (handle_frame rand now) closed _ _ _ _ _ E1)).
      unfold feed. change (closed (set_parser q1 w1)) with (closed w1). rewrite Hst.
      by apply same_set_parser_closed.
    + unfold feed. rewrite closed_close. apply same_close.
Qed.
(** *** After the close *)

Definition touches_backend (o : op) : bool :=
  match o with OpBackend _ => true | _ => false end.

Lemma closed_op o (w : world B) t w' :
  closed w = true -> touches_backend o = false -> tx_in_flight_ (ses w) = false ->
  do_op o w = (t, w') ->
  hist w' = hist w /\ bk w' = bk w /\ closed w' = true /\ tx_in_flight_ (ses w') = false /\
  close_reason_ (ses w') = close_reason_ (ses w).
Proof.
  intros Hc Ho Htx. pose proof Hc as Hp. unfold closed in Hp. apply bool_decide_eq_true in Hp.
  destruct o as [rand now data|now e|now|n|b]; simpl; try done; intros [= <- <-].
  - unfold feed. by rewrite Hc.
  - assert (on_event now e w = w) as ->; [|done]. destruct e; simpl.
    + unfold on_rx. by rewrite Hp.
    + unfold on_tx_complete. by rewrite Htx.
    + unfold on_backend_failure. by apply close_closed.
    + unfold on_configure_complete. by rewrite Hp.
  - unfold tick. by rewrite Hc.
  - done.
Qed.

Lemma closed_ops os (w : world B) t w' :
  closed w = true -> forallb (fun o => negb (touches_backend o)) os = true ->
  tx_in_flight_ (ses w) = false -> do_ops os w = (t, w') ->
  hist w' = hist w /\ bk w' = bk w /\ closed w' = true /\
  close_reason_ (ses w') = close_reason_ (ses w).
Proof.
  revert w t. induction os as [|o os IH]; simpl; intros w t Hc Hos Htx E; [by simplify_eq|].
  apply andb_true_iff in Hos as [Ho Hos]. apply negb_true_iff in Ho.
  destruct (do_op o w) as [t1 w1] eqn:E1. destruct (do_ops os w1) as [t2 w2] eqn:E2. simplify_eq.
  destruct (closed_op o w t1 w1 Hc Ho Htx E1) as (H1 & H2 & H3 & H4 & H5).
  destruct (IH w1 t2 H3 Hos H4 E2) as (G1 & G2 & G3 & G4). split_and!; congruence.
Qed.

(** *** Deadlines *)

Lemma next_deadline_spec (s : XrSession) :
  phase_ s <> Closed ->
  forall t, (t < next_deadline_ms s <->
    t < UINT64_MAX /\ (deadline_active_ s = true -> t < deadline_at_ s) /\
    (phase_ s = Ready ->
       (tx_in_flight_ s = true -> t < tx_deadline_at_ s) /\
       (if awaiting_pong_ s then t < pong_deadline_at_ s else t < next_ping_at_ s))).
Proof.
  intros Hp t. unfold next_deadline_ms. rewrite (bool_decide_false _ Hp).
  destruct (deadline_active_ s), (tx_in_flight_ s), (awaiting_pong_ s);
    case_bool_decide; repeat case_match; naive_solver lia.
Qed.
(** An overdue tick closes the session or sends the PING that was due. *)
Lemma overdue_tick now (w : world B) :
  phase w <> Closed -> next_deadline_ms (ses w) <= now -> now < UINT64_MAX ->
  closed (tick now w) = true \/
  (phase w = Ready /\ hist (tick now w) = hist w ++ [Send (mkFrame MSG_PING 0 [])] /\
   (phase (tick now w) = Ready /\ awaiting_pong_ (ses (tick now w)) = true)).
Proof.
  intros Hp Hd Hn. assert (Hc : closed w = false) by (by apply closed_false).
  assert (Hov : ~ now < next_deadline_ms (ses w)) by lia.
  rewrite next_deadline_spec in Hov by done. unfold tick. rewrite Hc.
  destruct (deadline_active_ (ses w)) eqn:Eda; cbn [andb];
    [destruct (Z.leb_spec (deadline_at_ (ses w)) now); [left; apply closed_close|]|].
  all: case_bool_decide as Hr; cbn [negb]; [|exfalso; apply Hov; naive_solver lia].
  all: destruct (tx_in_flight_ (ses w)) eqn:Etx; cbn [andb];
    [destruct (Z.leb_spec (tx_deadline_at_ (ses w)) now); [left; apply closed_close|]|].
  all: destruct (awaiting_pong_ (ses w)) eqn:Eap.
  all: try (destruct (Z.leb_spec (pong_deadline_at_ (ses w)) now);
            [left; apply closed_close | exfalso; apply Hov; naive_solver lia]).
  all: destruct (Z.leb_spec (next_ping_at_ (ses w)) now); [|exfalso; apply Hov; naive_solver lia].
  all: unfold emit_then; destruct (emit _ _ _ _ _) as [[] w2] eqn:Ee; unfold emit in Ee;
    repeat (case_match; simplify_eq/=); try (left; apply closed_close); by right.
Qed.

(** A session that waits for a PONG sends no PING. *)
Lemma ping_only_idle now (w : world B) f :
  awaiting_pong_ (ses w) = true -> hist (tick now w) = hist w ++ [Send f] -> False.
Proof.
  intros Ha. unfold tick, close. rewrite Ha.
  repeat (case_match || case_bool_decide); simplify_eq/=; intros E;
    first [ by apply app_inj_tail in E as [_ ?]
          | apply (f_equal length) in E; rewrite !length_app in E; simpl in E; lia ].
Qed.
End Runs.

(** *** The client's view of the byte stream *)

Definition collect (f : Frame) (l : list Frame) : list Frame := l ++ [f].
Definition never (l : list Frame) : bool := false.

(** A client that parses the stream read by read. *)
Fixpoint receive (reads : list bytes) (l : list Frame) (p : Parser)
    : loop_end * list Frame * Parser :=
  match reads with
  | [] => (Drained, l, p)
  | d :: reads =>
      match stream_loop collect never l p d with
      | (Drained, l, p) => receive reads l p
      | r => r
      end
  end.

Lemma message_fits f : message f -> isKnownType (type f) = true /\ (len f <= kMaxPayload)%nat.
Proof.
  unfold len, kMaxPayload.
  destruct 1 as [t [->| ->]| | |c [->| ->]|cfg _ _| |cfg _ _|r s d Hd|sq d _ Hd| |t [->| ->]| ]; simpl;
    rewrite ?packConfig_length; unfold kAuthNonceSize, kAuthResponseSize, kConfigPayloadSize, kMaxLoraPayload in *;
    (split; [done | try lia]).
Qed.

Lemma decode_frame_bytes f rest :
  sendable f -> decode_head (frame_bytes f ++ rest) = DGot f rest.
Proof.
  intros [Hm Hs]. apply message_fits in Hm as [Hk Hl]. unfold frame_bytes.
  rewrite decode_encoded by done. by destruct f.
Qed.

Lemma drains_wire fs l :
  Forall sendable fs -> drains collect never l (concat (frame_bytes <$> fs)) Drained (l ++ fs) [].
Proof.
  intros Hf. revert l. induction Hf as [|f fs Hs _ IH]; intros l; simpl.
  - rewrite app_nil_r. by apply drains_need.
  - eapply drains_step; [by apply decode_frame_bytes|done|].
    replace (l ++ f :: fs) with (collect f l ++ fs); [apply IH|].
    unfold collect. by rewrite <- app_assoc.
Qed.

Lemma receive_app reads l p l' p' :
  stream_loop collect never l p (concat reads) = (Drained, l', p') ->
  decode_head (buf p) = DNeed -> receive reads l p = (Drained, l', p').
Proof.
  revert l p. induction reads as [|d reads IH]; simpl; intros l p E Hn.
  - unfold stream_loop, pump_measure in E. simpl in E. unfold decode_head in Hn.
    destruct p as [b]. simpl in *. destruct (parserPop {| buf := b |}) as [[| |] q] eqn:Ep; try done.
    assert (q = {| buf := b |}) as ->; [|congruence].
    unfold parserPop in Ep. repeat (case_match; simplify_eq/=); done.
  - destruct (stream_loop collect never l p d) as [[e1 l1] p1] eqn:E1.
    pose proof (stream_loop_app _ _ _ _ _ _ _ _ _ E1 _ _ _ E) as Ha.
    case_decide as He; [|by destruct Ha].
    subst e1. destruct Ha as (p2 & E2 & Hc). apply IH.
    + rewrite E2. repeat f_equal. destruct p2, p'. simpl in Hc. by rewrite Hc.
    + destruct (stream_loop_refines _ _ _ _ _ _ _ _ E1) as (left & D & Hl).
      rewrite Hl, app_nil_r in D by done. simpl in D. clear -D.
      remember Drained as e. revert Heqe. by induction D.
Qed.
(** * Properties *)

Section Properties.
Context {B : Type} `{HB : !RadioBackend B} `{HS : !OpenSSL}.

(** C1. Refinement: whatever the client sends, however the reads are cut,
    whatever the backend reports and whenever the clock ticks, the history of a
    session is accepted by the server monitor of XR v1, in the state the session
    is in: messages in protocol order, one transmission in flight, nothing after
    the close. *)
Theorem session_refines_server (a : AuthConfig) (to : Timeouts) (cap : nat) (now : Z) (b : B)
    (os : list op) (t : bytes) (w : world B) :
  Forall op_ok os -> do_ops os (opened a to cap now b) = (t, w) ->
  mrun a (hist w) = Some (quiet w).
Proof. intros Hos E. apply opened_ops in E as [Hi _]; [|done]. apply (si_at _ _ _ _ Hi). Qed.

(** C11. The output stream is intact: the bytes the socket took plus the bytes
    still queued, cut into reads in any way, are parsed by the client into
    exactly the frames the session sent, all of them well-formed messages, and
    no more than [max_outbox] bytes are ever queued. *)
Theorem session_output_intact (a : AuthConfig) (to : Timeouts) (cap : nat) (now : Z) (b : B)
    (os : list op) (t : bytes) (w : world B) (reads : list bytes) :
  Forall op_ok os -> do_ops os (opened a to cap now b) = (t, w) ->
  concat reads = t ++ out_data w ->
  receive reads [] (mkParser []) = (Drained, sent_frames (hist w), mkParser []) /\
  Forall message (sent_frames (hist w)) /\ (out_size w <= cap)%nat.
Proof.
  intros Hos E Hr. apply opened_ops in E as [Hi _]; [|done].
  destruct (si_at _ _ _ _ Hi) as [_ _ Hb Hc Hw Hm]. split_and!.
  - apply receive_app; [|done]. rewrite Hr, Hw.
    destruct (stream_loop collect never [] (mkParser []) (wire (hist w))) as [[e l] p] eqn:Es.
    destruct (stream_loop_refines _ _ _ _ _ _ _ _ Es) as (left & D & _).
    destruct (drains_det _ _ _ _ _ _ _ _ _ _ D (drains_wire _ [] Hm)) as (-> & -> & Hn).
    apply app_eq_nil in Hn as [Hn _]. destruct p. simpl in Hn. by rewrite Hn.
  - eapply Forall_impl; [exact Hm|]. by intros f [].
  - unfold out_size. destruct Hb as (_ & _ & Hb & _). by rewrite <- Hc.
Qed.

(** C9. The gates: no packet is submitted to the radio, given up, forwarded to
    the client or answered with a result unless the backend has reported exactly
    the configuration the client requested and that configuration was echoed;
    and, when a password is set, neither that nor any configuration happens
    unless the client has answered this session's challenge with its HMAC. *)
Theorem session_gates (a : AuthConfig) (to : Timeouts) (cap : nat) (now : Z) (b : B)
    (os : list op) (t : bytes) (w : world B) (e : event) :
  Forall op_ok os -> do_ops os (opened a to cap now b) = (t, w) -> e ∈ hist w ->
  (is_radio e = true -> authed a (hist w) /\ configured (hist w)) /\
  (is_configure e = true -> authed a (hist w)).
Proof.
  intros Hos E He. apply opened_ops in E as [Hi _]; [|done].
  pose proof (mrun_gated a _ _ (at_run _ _ _ _ _ (si_at _ _ _ _ Hi))) as Hg.
  rewrite Forall_forall in Hg. by apply Hg.
Qed.

(** C8. Transmit results are honest: the sequence numbers of the results are
    those of accepted requests, in order and without repetition of a request,
    and each result carries the outcome the backend reported for it, immediately
    before; a timeout or a failure produces none. *)
Theorem session_results_honest (a : AuthConfig) (to : Timeouts) (cap : nat) (now : Z) (b : B)
    (os : list op) (t : bytes) (w : world B) :
  Forall op_ok os -> do_ops os (opened a to cap now b) = (t, w) ->
  results (hist w) `sublist_of` requests (hist w) /\ from_backend (hist w).
Proof.
  intros Hos E. apply opened_ops in E as [Hi _]; [|done].
  pose proof (at_run _ _ _ _ _ (si_at _ _ _ _ Hi)) as Hr. split.
  - destruct (mrun_paired a _ _ Hr) as [Hp _]. etrans; [|exact Hp]. by apply sublist_inserts_r.
  - by apply (mrun_results a _ _ Hr).
Qed.

(** C13. Fail closed, for good: once a session is closed no input, event or tick
    makes it send, call the backend or change the reason of the close; its
    owner can only drain what was queued before. *)
Theorem session_closed_final (a : AuthConfig) (to : Timeouts) (cap : nat) (now : Z) (b : B)
    (os1 os2 : list op) (t1 t2 : bytes) (w1 w2 : world B) :
  Forall op_ok os1 -> do_ops os1 (opened a to cap now b) = (t1, w1) -> closed w1 = true ->
  forallb (fun o => negb (touches_backend o)) os2 = true -> Forall op_ok os2 ->
  do_ops os2 w1 = (t2, w2) ->
  hist w2 = hist w1 /\ bk w2 = bk w1 /\ closed w2 = true /\
  close_reason_ (ses w2) = close_reason_ (ses w1) /\ t2 ++ out_data w2 = out_data w1.
Proof.
  intros Hos1 E1 Hc Ho2 Hos2 E2. apply opened_ops in E1 as Hi; [|done].
  assert (Htx : tx_in_flight_ (ses w1) = false).
  { destruct (tx_in_flight_ (ses w1)) eqn:Et; [|done].
    destruct (si_tx _ _ _ _ (proj1 Hi) Et) as [Hp _]. unfold closed in Hc. by rewrite Hp in Hc. }
  destruct (closed_ops os2 w1 t2 w2 Hc Ho2 Htx E2) as (H1 & H2 & H3 & H4). split_and!; try done.
  pose proof (do_ops_inv a cap t1 os2 w1 t2 w2 Hos2 Hi E2) as [Hi2 _].
  pose proof (at_wire _ _ _ _ _ (si_at _ _ _ _ (proj1 Hi))) as W1.
  pose proof (at_wire _ _ _ _ _ (si_at _ _ _ _ Hi2)) as W2.
  rewrite H1, <- W1, <- app_assoc in W2. by apply app_inv_head in W2.
Qed.

(** C18. Fragmentation does not matter: feeding the reads one by one leaves the
    session as feeding their concatenation does -- same state, same output, same
    calls on the backend (a closed session may keep different unread bytes). *)
Theorem session_fragmentation (rand : option bytes) (now : Z) (r : bytes) (rs : list bytes)
    (w : world B) :
  same (feed rand now (r ++ concat rs) w)
       (foldl (fun w d => feed rand now d w) w (r :: rs)).
Proof.
  simpl. induction rs as [|d rs IH] using rev_ind; simpl; [by rewrite app_nil_r|].
  rewrite concat_app, foldl_app. simpl. rewrite app_nil_r, app_assoc, feed_app.
  by rewrite IH.
Qed.

(** C15. Deadlines are exact and enforced: before the time [next_deadline_ms]
    announces, a tick changes nothing; at or after it, the tick closes the
    session or sends the keepalive PING that was due, and then the next overdue
    tick without an answer closes it.  So a silent client is disconnected. *)
Theorem session_deadlines (w : world B) (t1 t2 : Z) :
  phase w <> Closed ->
  (t1 < next_deadline_ms (ses w) -> tick t1 w = w) /\
  (next_deadline_ms (ses w) <= t1 < UINT64_MAX ->
     closed (tick t1 w) = true \/
     (phase w = Ready /\ hist (tick t1 w) = hist w ++ [Send (mkFrame MSG_PING 0 [])] /\
      (next_deadline_ms (ses (tick t1 w)) <= t2 < UINT64_MAX ->
       closed (tick t2 (tick t1 w)) = true))).
Proof.
  intros Hp. assert (Hc : closed w = false) by (by apply closed_false). split.
  - intros Ht. apply next_deadline_spec in Ht as (_ & H1 & H2); [|done].
    unfold tick. rewrite Hc.
    destruct (deadline_active_ (ses w)); cbn [andb];
      [rewrite (proj2 (Z.leb_gt _ _)) by auto|].
    all: case_bool_decide as Hr; [|done]; cbn [negb].
    all: destruct (H2 Hr) as [H3 H4]; destruct (tx_in_flight_ (ses w)); cbn [andb];
      try (rewrite (proj2 (Z.leb_gt _ _)) by auto).
    all: destruct (awaiting_pong_ (ses w)); by rewrite (proj2 (Z.leb_gt _ _)).
  - intros [Hd Ht]. destruct (overdue_tick t1 w Hp Hd Ht) as [Hcl|(Hr & Hh & Ha)]; [by left|].
    right. split; [done|]. split; [done|]. intros [Hd2 Ht2].
    assert (Hp2 : phase (tick t1 w) <> Closed) by (by rewrite (proj1 Ha)).
    destruct (overdue_tick t2 (tick t1 w) Hp2 Hd2 Ht2) as [Hcl|(_ & Hh2 & _)]; [done|].
    exfalso. exact (ping_only_idle t2 _ _ (proj2 Ha) Hh2).
Qed.
End Properties.

(** ** Witnesses: a run against the fake backend *)

Module witnesses.

#[local] Existing Instance auth.toy_openssl.
#[local] Existing Instance fake_backend.fake_radio_backend.

Definition pw : AuthConfig := {| password_ := [7; 8] |}.
Definition nonce : bytes := replicate 16 1.
Definition cfg : RadioConfig := mkRadioConfig 433175000 250000 11 6 43 8 14 1 0.
Definition bytes_of (o : option bytes) : bytes := default [] o.

(** A backend that has applied a configuration. *)
Definition radio : fake_backend.FakeBackend :=
  (fake_backend.poll (fake_backend.set_sink true
    (fake_backend.begin_configure cfg (fake_backend.start fake_backend.make)).2)).1.

Definition hello : bytes := bytes_of (encodeHello (Some kMaxFrame)).
Definition proof : bytes := bytes_of (encodeAuthResponse (Some kMaxFrame) (Some (replicate 32 31))).
Definition configure : bytes := bytes_of (encodeConfigure (Some kMaxFrame) cfg).
Definition request : bytes := bytes_of (encodeTxRequest (Some kMaxFrame) 7 (Some [170; 187]) 2).

(** Handshake, one transmission, some bytes written to the socket. *)
Definition script : list (@op fake_backend.FakeBackend) := [
  OpFeed (Some nonce) 10 (hello ++ take 5 proof);
  OpTake 3;
  OpFeed None 20 (drop 5 proof ++ configure);
  OpBackend radio;
  OpEvent 30 (radio_backend.on_configure_complete 1 {| applied := true; effective := cfg |});
  OpFeed None 40 request;
  OpEvent 50 (radio_backend.on_tx_complete ChannelBusy);
  OpTake 20].

Definition run := Eval vm_compute in
  do_ops script (opened pw default_timeouts 4096 0 fake_backend.make).

Lemma script_ok : Forall op_ok script.
Proof.
  unfold script, op_ok, rand_ok.
  repeat (apply List.Forall_cons; [first [exact I | split; [intros n [= <-]; reflexivity
    || (intros n Hn; discriminate Hn) |] | split; [intros n Hn; discriminate Hn|]]|]);
    try apply List.Forall_nil;
    vm_compute; repeat (apply List.Forall_cons; [split; [discriminate|reflexivity]|]);
    apply List.Forall_nil.
Defined.

Lemma session_refines_server_witness : mrun pw (hist run.2) = Some (MReady None false).
Proof.
  refine (session_refines_server pw default_timeouts 4096 0 fake_backend.make script run.1 run.2
            script_ok _). vm_compute. reflexivity.
Defined.

Lemma session_output_intact_witness :
  receive [run.1; out_data run.2] [] (mkParser []) =
  (Drained, sent_frames (hist run.2), mkParser []).
Proof.
  refine (proj1 (session_output_intact pw default_timeouts 4096 0 fake_backend.make script
            run.1 run.2 [run.1; out_data run.2] script_ok _ _)); vm_compute; reflexivity.
Defined.

Lemma session_gates_witness : authed pw (hist run.2) /\ configured (hist run.2).
Proof.
  refine (proj1 (session_gates pw default_timeouts 4096 0 fake_backend.make script
            run.1 run.2 (Submit [170; 187] true) script_ok _ _) _); [vm_compute; reflexivity| |].
  - repeat first [apply list_elem_of_here | apply list_elem_of_further].
  - reflexivity.
Defined.

Lemma session_results_honest_witness : [7] `sublist_of` [7] /\ from_backend (hist run.2).
Proof.
  refine (session_results_honest pw default_timeouts 4096 0 fake_backend.make script
            run.1 run.2 script_ok _). vm_compute. reflexivity.
Defined.

(** A second HELLO closes the session; then everything is ignored. *)
Definition bad_script : list (@op fake_backend.FakeBackend) := [OpFeed (Some nonce) 10 (hello ++ hello)].
Definition late_script : list (@op fake_backend.FakeBackend) := [OpFeed None 20 proof; OpTick 99999; OpTake 4].
Definition bad_run := Eval vm_compute in
  do_ops bad_script (opened pw default_timeouts 4096 0 fake_backend.make).
Definition late_run := Eval vm_compute in do_ops late_script bad_run.2.

Lemma session_closed_final_witness :
  close_reason_ (ses bad_run.2) = BadState /\ hist late_run.2 = hist bad_run.2 /\
  bk late_run.2 = bk bad_run.2 /\ closed late_run.2 = true /\
  close_reason_ (ses late_run.2) = close_reason_ (ses bad_run.2) /\
  late_run.1 ++ out_data late_run.2 = out_data bad_run.2.
Proof.
  split; [reflexivity|].
  refine (session_closed_final pw default_timeouts 4096 0 fake_backend.make bad_script late_script
            bad_run.1 late_run.1 bad_run.2 late_run.2 _ _ _ _ _ _);
    try (vm_compute; reflexivity).
  - apply List.Forall_cons; [|apply List.Forall_nil]. split; [by intros n [= <-]|].
    vm_compute. repeat (apply List.Forall_cons; [split; [discriminate|reflexivity]|]).
    apply List.Forall_nil.
  - apply List.Forall_cons; [|repeat (apply List.Forall_cons; [exact I|]); apply List.Forall_nil].
    split; [by intros n|]. vm_compute.
    repeat (apply List.Forall_cons; [split; [discriminate|reflexivity]|]). apply List.Forall_nil.
Defined.

(** No HELLO within the handshake timeout. *)
Definition idle : world fake_backend.FakeBackend :=
  Eval vm_compute in opened pw default_timeouts 4096 100 fake_backend.make.

Lemma session_deadlines_witness :
  phase idle <> Closed /\
  (next_deadline_ms (ses idle) <= 5100 < UINT64_MAX ->
     closed (tick 5100 idle) = true \/
     (phase idle = Ready /\ hist (tick 5100 idle) = hist idle ++ [Send (mkFrame MSG_PING 0 [])] /\
      (next_deadline_ms (ses (tick 5100 idle)) <= 0 < UINT64_MAX ->
       closed (tick 0 (tick 5100 idle)) = true))).
Proof.
  split; [discriminate|]. refine (proj2 (session_deadlines idle 5100 0 _)). discriminate.
Defined.
End witnesses.
End xr_session_properties.
