(* ===== verification/XrClient.v ===== *)
(** The client (firmware) session state machine:
    third_party/external_radio_protocol, class Session.

    The transport that owns a [Session] performs the I/O the returned [Event]s
    ask for; it is not part of this repository (see [XrInterop] for what the
    comments of the enum require of it). *)

From S2P Require Import Prelude.
From S2P Require Import XrCodec.

Module xr_client.
Import extradio.

Inductive State :=
  | ST_DISCONNECTED | ST_CONNECTING | ST_HANDSHAKE | ST_AUTHENTICATING | ST_CONFIGURING
  | ST_READY_RX | ST_TX_PENDING | ST_DEGRADED.

#[export] Instance State_eq_dec : EqDecision State.
Proof. solve_decision. Defined.

Inductive Event :=
  | EV_NONE | EV_SEND_HELLO | EV_SEND_AUTH | EV_SEND_CONFIG | EV_READY | EV_RX | EV_TX_DONE
  | EV_SEND_PONG | EV_NEED_DISCONNECT.

#[export] Instance Event_eq_dec : EqDecision Event.
Proof. solve_decision. Defined.

Inductive TxOutcome :=
  | TXO_NONE | TXO_SUCCESS | TXO_CHANNEL_BUSY | TXO_TIMEOUT | TXO_RADIO_ERROR | TXO_UNKNOWN.

#[export] Instance TxOutcome_eq_dec : EqDecision TxOutcome.
Proof. solve_decision. Defined.

Inductive TimeoutKind := TO_HANDSHAKE | TO_AUTH | TO_CONFIG | TO_PENDING_TX.

Record Session := mkSession {
  state_ : State;
  tx_in_flight_ : bool;
  tx_seq_ : Z;
  next_seq_ : Z;
  have_cfg_ : bool;
  cfg_ : RadioConfig;
  nonce_ : bytes;
  last_rx_ : RxPacket;
  last_tx_outcome_ : TxOutcome;
  last_err_ : ErrorCode
}.

#[export] Instance eta_Session : Eta Session := fun s => {|
  state_ := state_ s;
  tx_in_flight_ := tx_in_flight_ s;
  tx_seq_ := tx_seq_ s;
  next_seq_ := next_seq_ s;
  have_cfg_ := have_cfg_ s;
  cfg_ := cfg_ s;
  nonce_ := nonce_ s;
  last_rx_ := last_rx_ s;
  last_tx_outcome_ := last_tx_outcome_ s;
  last_err_ := last_err_ s
|}.

Definition clearVolatile (s : Session) : Session :=
  s <| state_ := ST_DISCONNECTED |> <| tx_in_flight_ := false |> <| tx_seq_ := 0 |>
    <| next_seq_ := 1 |> <| last_tx_outcome_ := TXO_NONE |> <| last_err_ := ERR_NONE |>
    <| nonce_ := replicate kAuthNonceSize 0 |> <| last_rx_ := mkRxPacket 0 0 [] |>.

Definition reset (s : Session) : Session :=
  clearVolatile (s <| have_cfg_ := false |> <| cfg_ := mkRadioConfig 0 0 0 0 0 0 0 0 0 |>).

(** The constructor: [reset] sets every field. *)
Definition make : Session :=
  reset (mkSession ST_DISCONNECTED false 0 0 false (mkRadioConfig 0 0 0 0 0 0 0 0 0) []
           (mkRxPacket 0 0 []) TXO_NONE ERR_NONE).

Definition setDesiredConfig (cfg : RadioConfig) (s : Session) : bool * Session :=
  if negb (bool_decide (state_ s = ST_DISCONNECTED)) then (false, s) else
  if negb (radioConfigValid cfg) then (false, s) else
  (true, s <| cfg_ := cfg |> <| have_cfg_ := true |>).

Definition fail (reason : ErrorCode) (s : Session) : Event * Session :=
  let s := if tx_in_flight_ s
           then s <| last_tx_outcome_ := TXO_UNKNOWN |> <| tx_in_flight_ := false |> else s in
  (EV_NEED_DISCONNECT, s <| last_err_ := reason |> <| state_ := ST_DEGRADED |>).

Definition onConnecting (s : Session) : Event * Session :=
  if negb (bool_decide (state_ s = ST_DISCONNECTED)) then (EV_NONE, s) else
  (EV_NONE, s <| state_ := ST_CONNECTING |>).

Definition onConnected (s : Session) : Event * Session :=
  if negb (bool_decide (state_ s = ST_CONNECTING)) && negb (bool_decide (state_ s = ST_DISCONNECTED))
  then (EV_NONE, s) else
  (EV_SEND_HELLO, (clearVolatile s) <| state_ := ST_HANDSHAKE |>).

Definition onDisconnected (s : Session) : bool * Session :=
  let tx_was_pending := tx_in_flight_ s in
  let s := clearVolatile s in
  (tx_was_pending, if tx_was_pending then s <| last_tx_outcome_ := TXO_UNKNOWN |> else s).

Definition onTimeout (kind : TimeoutKind) (s : Session) : Event * Session :=
  match kind, state_ s with
  | TO_HANDSHAKE, (ST_CONNECTING | ST_HANDSHAKE)
  | TO_AUTH, ST_AUTHENTICATING
  | TO_CONFIG, ST_CONFIGURING
  | TO_PENDING_TX, ST_TX_PENDING => fail ERR_TIMEOUT s
  | _, _ => (EV_NONE, s)
  end.

(** [decodeRxPacket] into [last_rx_], in both operational states. *)
Definition take_rx (f : Frame) (s : Session) : Event * Session :=
  match decodeRxPacket f with
  | None => fail ERR_BAD_LENGTH s
  | Some rx => (EV_RX, s <| last_rx_ := rx |>)
  end.

Definition tx_outcome_of (code : Z) : TxOutcome :=
  if code =? TXR_SUCCESS then TXO_SUCCESS else
  if code =? TXR_CHANNEL_BUSY then TXO_CHANNEL_BUSY else
  if code =? TXR_TIMEOUT then TXO_TIMEOUT else TXO_RADIO_ERROR.

Definition onFrame (f : Frame) (s : Session) : Event * Session :=
  let err := validate f in
  if negb (bool_decide (err = ERR_NONE)) then fail err s else
  if type f =? MSG_ERROR then fail ERR_REMOTE s else
  if type f =? MSG_PING then
    match state_ s with
    | ST_READY_RX | ST_TX_PENDING => (EV_SEND_PONG, s)
    | _ => fail ERR_BAD_STATE s
    end
  else if type f =? MSG_PONG then fail ERR_BAD_STATE s else
  match state_ s with
  | ST_HANDSHAKE =>
      if type f =? MSG_HELLO_ACK then (EV_NONE, s <| state_ := ST_AUTHENTICATING |>)
      else fail ERR_BAD_STATE s
  | ST_AUTHENTICATING =>
      if type f =? MSG_AUTH_CHALLENGE then
        (EV_SEND_AUTH, s <| nonce_ := take kAuthNonceSize (payload f) |>)
      else if type f =? MSG_AUTH_RESULT then
        if negb (byte_at (payload f) 0 =? AUTH_OK) then fail ERR_AUTH s else
        (EV_SEND_CONFIG, s <| state_ := ST_CONFIGURING |>)
      else fail ERR_BAD_STATE s
  | ST_CONFIGURING =>
      if type f =? MSG_CONFIG_RESULT then
        if (len f =? 1)%nat then fail ERR_CONFIG s else
        match decodeConfigEcho f with
        | None => fail ERR_CONFIG s
        | Some echo =>
            if negb (have_cfg_ s) || negb (configEqual echo (cfg_ s)) then fail ERR_CONFIG s else
            (EV_READY, s <| state_ := ST_READY_RX |>)
        end
      else fail ERR_BAD_STATE s
  | ST_READY_RX =>
      if type f =? MSG_RX_PACKET then take_rx f s else
      if type f =? MSG_TX_RESULT then (EV_NONE, s) else fail ERR_BAD_STATE s
  | ST_TX_PENDING =>
      if type f =? MSG_TX_RESULT then
        if negb (seq f =? tx_seq_ s) then (EV_NONE, s) else
        (EV_TX_DONE, s <| last_tx_outcome_ := tx_outcome_of (byte_at (payload f) 0) |>
                       <| tx_in_flight_ := false |> <| state_ := ST_READY_RX |>)
      else if type f =? MSG_RX_PACKET then take_rx f s
      else fail ERR_BAD_STATE s
  | _ => fail ERR_BAD_STATE s
  end.

Definition canSubmitTx (s : Session) : bool :=
  bool_decide (state_ s = ST_READY_RX) && negb (tx_in_flight_ s).

(** The sequence number allocated, if any. *)
Definition submitTx (s : Session) : option Z * Session :=
  if negb (canSubmitTx s) then (None, s) else
  let out_seq := next_seq_ s in
  let next := u16 (next_seq_ s + 1) in
  let next := if next =? 0 then 1 else next in
  (Some out_seq, s <| next_seq_ := next |> <| tx_seq_ := out_seq |> <| tx_in_flight_ := true |>
                   <| state_ := ST_TX_PENDING |>).

(** ** Runs *)

Inductive op :=
  | OpConfig (cfg : RadioConfig)
  | OpConnecting
  | OpConnected
  | OpDisconnected
  | OpFrame (f : Frame)
  | OpTimeout (k : TimeoutKind)
  | OpSubmit
  | OpReset.

(** What the caller sees of a step: the packet it submitted, and the outcome
    [lastTxOutcome] shows when the packet in flight no longer is. *)
Inductive obs := Submitted (sq : Z) | Resolved (o : TxOutcome).

Definition do_op (o : op) (s : Session) : list obs * Session :=
  let resolved s' := if tx_in_flight_ s && negb (tx_in_flight_ s')
                     then [Resolved (last_tx_outcome_ s')] else [] in
  match o with
  | OpConfig cfg => ([], (setDesiredConfig cfg s).2)
  | OpConnecting => ([], (onConnecting s).2)
  | OpConnected => let s' := (onConnected s).2 in (resolved s', s')
  | OpDisconnected => let s' := (onDisconnected s).2 in (resolved s', s')
  | OpFrame f => let s' := (onFrame f s).2 in (resolved s', s')
  | OpTimeout k => let s' := (onTimeout k s).2 in (resolved s', s')
  | OpSubmit => match submitTx s with
                | (Some sq, s') => ([Submitted sq], s')
                | (None, s') => ([], s')
                end
  | OpReset => let s' := reset s in (resolved s', s')
  end.

Fixpoint do_ops (os : list op) (s : Session) : list obs * Session :=
  match os with
  | [] => ([], s)
  | o :: os => let '(l, s) := do_op o s in let '(ls, s) := do_ops os s in (l ++ ls, s)
  end.

(** ** Lemmas *)

Definition operational (s : Session) : bool :=
  match state_ s with ST_READY_RX | ST_TX_PENDING => true | _ => false end.

(** The packet in flight and the counter. *)
Record sess_wf (s : Session) : Prop := {
  wf_flight : tx_in_flight_ s = true <-> state_ s = ST_TX_PENDING;
  wf_next : 1 <= next_seq_ s <= 65535
}.

(** Submissions and resolutions alternate; the argument is the packet open. *)
Fixpoint alternates (cur : option Z) (l : list obs) : option (option Z) :=
  match l, cur with
  | [], _ => Some cur
  | Submitted sq :: l, None => alternates (Some sq) l
  | Resolved _ :: l, Some _ => alternates None l
  | _, _ => None
  end.

Lemma alternates_app cur l1 l2 :
  alternates cur (l1 ++ l2) = (c ← alternates cur l1; alternates c l2).
Proof.
  revert cur. induction l1 as [|[] l1 IH]; intros cur; simpl; [done| |]; destruct cur; auto.
Qed.

Definition open_tx (s : Session) : option Z := if tx_in_flight_ s then Some (tx_seq_ s) else None.

(** The outcome when no result arrived. *)
Definition unresolved (o : op) : TxOutcome := match o with OpReset => TXO_NONE | _ => TXO_UNKNOWN end.

(** How a step may resolve the packet with number [sq]. *)
Definition resolution (o : op) (sq : Z) (r : TxOutcome) : Prop :=
  r = unresolved o \/
  exists c, o = OpFrame (mkFrame MSG_TX_RESULT sq [c]) /\ c <= kTxResultMax /\ r = tx_outcome_of c.

(** What one step does to the packet in flight. *)
Inductive tx_step (o : op) (s : Session) : list obs -> Session -> Prop :=
  | tx_same s' : open_tx s' = open_tx s -> tx_step o s [] s'
  | tx_submit s' : o = OpSubmit -> open_tx s = None -> open_tx s' = Some (next_seq_ s) ->
      tx_step o s [Submitted (next_seq_ s)] s'
  | tx_resolve sq r s' : open_tx s = Some sq -> open_tx s' = None -> resolution o sq r ->
      tx_step o s [Resolved r] s'.

Lemma validate_tx_result f :
  validate f = ERR_NONE -> type f = MSG_TX_RESULT ->
  exists c, f = mkFrame MSG_TX_RESULT (seq f) [c] /\ c <= kTxResultMax.
Proof.
  destruct f as [ty sq pl]. cbn [type seq]. intros Hv ->. unfold validate in Hv. simpl in Hv.
  destruct (sq =? 0); [done|]. unfold len in Hv. cbn [payload] in Hv.
  destruct pl as [|c [|]]; try done. exists c. split; [done|]. unfold byte_at in Hv. simpl in Hv.
  destruct (Z.ltb_spec kTxResultMax c); [done|lia].
Qed.

(** Cases of [onFrame], for every statement about what a frame can do. *)
Inductive frame_step (f : Frame) (s : Session) : Event * Session -> Prop :=
  | fs_fail e : frame_step f s (fail e s)
  | fs_pong : operational s = true -> frame_step f s (EV_SEND_PONG, s)
  | fs_ack : state_ s = ST_HANDSHAKE ->
      frame_step f s (EV_NONE, s <| state_ := ST_AUTHENTICATING |>)
  | fs_challenge : state_ s = ST_AUTHENTICATING ->
      frame_step f s (EV_SEND_AUTH, s <| nonce_ := take kAuthNonceSize (payload f) |>)
  | fs_granted : state_ s = ST_AUTHENTICATING ->
      frame_step f s (EV_SEND_CONFIG, s <| state_ := ST_CONFIGURING |>)
  | fs_ready : state_ s = ST_CONFIGURING -> validate f = ERR_NONE ->
      decodeConfigEcho f = Some (cfg_ s) -> have_cfg_ s = true ->
      frame_step f s (EV_READY, s <| state_ := ST_READY_RX |>)
  | fs_rx rx : operational s = true -> decodeRxPacket f = Some rx ->
      frame_step f s (EV_RX, s <| last_rx_ := rx |>)
  | fs_stale : operational s = true -> frame_step f s (EV_NONE, s)
  | fs_done c : state_ s = ST_TX_PENDING -> f = mkFrame MSG_TX_RESULT (tx_seq_ s) [c] ->
      c <= kTxResultMax ->
      frame_step f s (EV_TX_DONE, s <| last_tx_outcome_ := tx_outcome_of c |>
                       <| tx_in_flight_ := false |> <| state_ := ST_READY_RX |>).

Lemma take_rx_step f s : operational s = true -> frame_step f s (take_rx f s).
Proof. intros Ho. unfold take_rx. destruct (decodeRxPacket f) eqn:E; by constructor. Qed.

Lemma onFrame_cases f s : frame_step f s (onFrame f s).
Proof.
  unfold onFrame. cbv zeta. case_bool_decide as Hv; [|constructor]. cbn [negb].
  assert (Ho : state_ s = ST_READY_RX \/ state_ s = ST_TX_PENDING -> operational s = true)
    by (unfold operational; by intros [-> | ->]).
  destruct (type f =? MSG_ERROR); [constructor|].
  destruct (type f =? MSG_PING); [destruct (state_ s); constructor; auto|].
  destruct (type f =? MSG_PONG); [constructor|]. destruct (state_ s) eqn:Hs; try (by constructor).
  - destruct (type f =? MSG_HELLO_ACK); by constructor.
  - destruct (type f =? MSG_AUTH_CHALLENGE); [by constructor|].
    destruct (type f =? MSG_AUTH_RESULT); [|constructor]. case_match; by constructor.
  - destruct (type f =? MSG_CONFIG_RESULT); [|constructor]. destruct (len f =? 1)%nat; [constructor|].
    destruct (decodeConfigEcho f) as [echo|] eqn:He; [|constructor].
    destruct (have_cfg_ s) eqn:Hc; [|constructor]. cbn [negb orb].
    destruct (configEqual echo (cfg_ s)) eqn:Heq; [|constructor].
    apply configEqual_eq in Heq as ->. by constructor.
  - destruct (type f =? MSG_RX_PACKET); [apply take_rx_step; auto|].
    destruct (type f =? MSG_TX_RESULT); constructor; auto.
  - destruct (type f =? MSG_TX_RESULT) eqn:Ht.
    + destruct (seq f =? tx_seq_ s) eqn:Hq; [|constructor; auto]. apply Z.eqb_eq in Ht, Hq.
      destruct (validate_tx_result f Hv Ht) as (c & Hf & Hc).
      rewrite Hf. cbn [payload]. apply fs_done; [done| |done]. by rewrite <- Hq.
    + destruct (type f =? MSG_RX_PACKET); [apply take_rx_step; auto|constructor].
Qed.

Lemma wf_clear st s : st <> ST_TX_PENDING -> sess_wf ((clearVolatile s) <| state_ := st |>).
Proof. split; simpl; [naive_solver|lia]. Qed.

Lemma fail_wf e s : sess_wf s -> sess_wf (fail e s).2.
Proof. intros [H1 H2]. unfold fail. destruct (tx_in_flight_ s) eqn:E; split; simpl; naive_solver lia. Qed.

Lemma fail_tx o e s :
  sess_wf s -> o <> OpReset -> tx_step o s (if tx_in_flight_ s && negb (tx_in_flight_ (fail e s).2)
                            then [Resolved (last_tx_outcome_ (fail e s).2)] else []) (fail e s).2.
Proof.
  intros Hw Ho. unfold fail. destruct (tx_in_flight_ s) eqn:E; simpl.
  - apply (tx_resolve _ _ (tx_seq_ s)); [by unfold open_tx; rewrite E|done|left; by destruct o].
  - rewrite E. simpl. apply tx_same. unfold open_tx. simpl. by rewrite E.
Qed.

Lemma frame_wf f s : sess_wf s -> sess_wf (onFrame f s).2.
Proof.
  intros [Hf Hn]. destruct (onFrame_cases f s); simpl; try (by apply fail_wf).
  all: split; simpl; [intuition congruence | done].
Qed.

Lemma do_op_wf o s : sess_wf s -> sess_wf (do_op o s).2.
Proof.
  intros Hw. pose proof Hw as [Hf Hn]. destruct o; simpl.
  - unfold setDesiredConfig. by repeat case_match.
  - unfold onConnecting. case_bool_decide; [|done]. split; simpl; [intuition congruence | done].
  - unfold onConnected. case_match; [done|]. by apply wf_clear.
  - unfold onDisconnected. case_match; by split.
  - by apply frame_wf.
  - unfold onTimeout. destruct k, (state_ s); simpl; try done; by apply fail_wf.
  - unfold submitTx. destruct (canSubmitTx s); [|done]. split; simpl; [done|].
    unfold u16. case_match; int_lia.
  - by split.
Qed.

Lemma do_op_tx o s : sess_wf s -> tx_step o s (do_op o s).1 (do_op o s).2.
Proof.
  intros Hw. pose proof Hw as [Hf Hn]. unfold open_tx. destruct o; simpl.
  - unfold setDesiredConfig. repeat case_match; by apply tx_same.
  - unfold onConnecting. case_match; by apply tx_same.
  - unfold onConnected. destruct (tx_in_flight_ s) eqn:E.
    + rewrite (proj1 Hf eq_refl), !bool_decide_eq_false_2 by done. simpl. rewrite E. by apply tx_same.
    + cbn [andb]. apply tx_same. destruct (negb _ && negb _); [done|]. unfold open_tx. by rewrite E.
  - unfold onDisconnected. destruct (tx_in_flight_ s) eqn:E; simpl.
    + apply (tx_resolve _ _ (tx_seq_ s)); [by unfold open_tx; rewrite E|done|by left].
    + apply tx_same. unfold open_tx. simpl. by rewrite E.
  - assert (Hsame : forall s', tx_in_flight_ s' = tx_in_flight_ s -> tx_seq_ s' = tx_seq_ s ->
      tx_step (OpFrame f) s (if tx_in_flight_ s && negb (tx_in_flight_ s')
                             then [Resolved (last_tx_outcome_ s')] else []) s').
    { intros s' H1 H2. rewrite H1. destruct (tx_in_flight_ s) eqn:E; simpl;
        apply tx_same; unfold open_tx; by rewrite H1, ?H2, ?E. }
    destruct (onFrame_cases f s) as [| | | | | | | |c Hs -> Hc]; cbn [snd]; try (by apply Hsame);
      [by apply fail_tx|].
    rewrite (proj2 Hf Hs). simpl. apply (tx_resolve _ _ (tx_seq_ s)); [|done|].
    + unfold open_tx. by rewrite (proj2 Hf Hs).
    + right. by exists c.
  - unfold onTimeout. destruct k, (state_ s); try (by apply fail_tx);
      simpl; destruct (tx_in_flight_ s) eqn:E; by apply tx_same.
  - unfold submitTx. destruct (canSubmitTx s) eqn:E; [|by apply tx_same]. simpl.
    apply tx_submit; [done| |done]. unfold canSubmitTx in E. unfold open_tx.
    destruct (tx_in_flight_ s); [by rewrite andb_false_r in E|done].
  - destruct (tx_in_flight_ s) eqn:E; simpl.
    + apply (tx_resolve _ _ (tx_seq_ s)); [by unfold open_tx; rewrite E|done|by left].
    + apply tx_same. unfold open_tx. simpl. by rewrite E.
Qed.

Lemma do_ops_app os1 os2 s :
  do_ops (os1 ++ os2) s = let '(l1, s) := do_ops os1 s in let '(l2, s) := do_ops os2 s in (l1 ++ l2, s).
Proof.
  revert s. induction os1 as [|o os1 IH]; intros s; simpl; [by destruct (do_ops os2 s)|].
  destruct (do_op o s) as [l s']. rewrite IH. destruct (do_ops os1 s') as [l1 s1].
  destruct (do_ops os2 s1) as [l2 s2]. by rewrite app_assoc.
Qed.

(** The number of a packet in flight was given by [submitTx]. *)
Definition numbered (s : Session) : Prop := tx_in_flight_ s = true -> 1 <= tx_seq_ s.

Lemma do_op_numbered o s : sess_wf s -> numbered s -> numbered (do_op o s).2.
Proof.
  intros Hw Hq Hf. pose proof (do_op_tx o s Hw) as Ht. pose proof (wf_next _ Hw) as Hn.
  assert (Hop : open_tx (do_op o s).2 = Some (tx_seq_ (do_op o s).2)) by (unfold open_tx; by rewrite Hf).
  destruct Ht as [s' Ho|s' _ _ Ho|sq r s' _ Ho _]; rewrite Ho in Hop; [|injection Hop as <-; lia|done].
  unfold open_tx in Hop. destruct (tx_in_flight_ s) eqn:E; [|done]. injection Hop as <-. by apply Hq.
Qed.

Lemma do_ops_tx os s l s' :
  sess_wf s -> numbered s -> do_ops os s = (l, s') ->
  sess_wf s' /\ numbered s' /\ alternates (open_tx s) l = Some (open_tx s').
Proof.
  revert s l. induction os as [|o os IH]; intros s l Hw Hq E; simpl in E; [by simplify_eq|].
  pose proof (do_op_wf o s Hw) as Hw1. pose proof (do_op_tx o s Hw) as Ht. pose proof (do_op_numbered o s Hw Hq) as Hq1.
  destruct (do_op o s) as [l1 s1]. destruct (do_ops os s1) as [l2 s2] eqn:E2. simplify_eq.
  apply IH in E2 as (Hw2 & Hq2 & Ha); [|done|done]. split; [done|]. split; [done|].
  rewrite alternates_app. simpl in Ht.
  destruct Ht as [s1 Ho|s1 _ Ho Ho1|sq r s1 Ho Ho1 _].
  - simpl. by rewrite <- Ho.
  - rewrite Ho. simpl. by rewrite <- Ho1.
  - rewrite Ho. simpl. by rewrite <- Ho1.
Qed.

Lemma make_wf : sess_wf make.
Proof. by split. Qed.

Definition submitted (l : list obs) : list Z :=
  omap (fun x => match x with Submitted sq => Some sq | Resolved _ => None end) l.

(** Operations that stay on one connection. *)
Definition stays (o : op) : bool :=
  match o with OpConnected | OpDisconnected | OpReset => false | _ => true end.

Lemma fail_next e s : next_seq_ (fail e s).2 = next_seq_ s.
Proof. unfold fail. by destruct (tx_in_flight_ s). Qed.

Lemma stays_next o s :
  stays o = true -> next_seq_ (do_op o s).2 = next_seq_ s /\ submitted (do_op o s).1 = [] \/
  submitted (do_op o s).1 = [next_seq_ s] /\
  next_seq_ (do_op o s).2 = (if u16 (next_seq_ s + 1) =? 0 then 1 else u16 (next_seq_ s + 1)).
Proof.
  intros Hs. destruct o; try done; simpl.
  - left. unfold setDesiredConfig. by repeat case_match.
  - left. unfold onConnecting. by case_match.
  - left. split; [|by case_match]. destruct (onFrame_cases f s); try done. apply fail_next.
  - left. split; [|by case_match]. unfold onTimeout. destruct k, (state_ s); try done; apply fail_next.
  - unfold submitTx. destruct (canSubmitTx s); [by right|by left].
Qed.

(** The [i]-th number after [n] on the cycle 1 .. 65535. *)
Definition cyc (n : Z) (i : nat) : Z := 1 + (n - 1 + Z.of_nat i) mod 65535.

Lemma cyc_next n i : 1 <= n <= 65535 -> cyc (if u16 (n + 1) =? 0 then 1 else u16 (n + 1)) i = cyc n (S i).
Proof.
  intros Hn. unfold cyc, u16. destruct (Z.eqb_spec ((n + 1) mod 65536) 0).
  - assert (n = 65535) as -> by int_lia.
    replace (65535 - 1 + Z.of_nat (S i)) with (Z.of_nat i + 1 * 65535) by lia.
    rewrite Z.mod_add by lia. f_equal; lia.
  - assert (Hu : (n + 1) mod 65536 = n + 1)
      by (apply Z.mod_small; assert (n <> 65535) by (intros ->; done); lia).
    rewrite Hu. do 2 f_equal. lia.
Qed.

Lemma cyc_range n i : 1 <= cyc n i <= 65535.
Proof. unfold cyc. pose proof (Z.mod_pos_bound (n - 1 + Z.of_nat i) 65535). lia. Qed.

Lemma stays_numbers os s l s' i sq :
  1 <= next_seq_ s <= 65535 -> forallb stays os = true -> do_ops os s = (l, s') ->
  submitted l !! i = Some sq -> sq = cyc (next_seq_ s) i.
Proof.
  revert s l i. induction os as [|o os IH]; intros s l i Hn Hs E Hi; simpl in *; [by simplify_eq|].
  apply andb_true_iff in Hs as [Ho Hs]. pose proof (stays_next o s Ho) as Hst.
  destruct (do_op o s) as [l1 s1]. destruct (do_ops os s1) as [l2 s2] eqn:E2. simplify_eq.
  simpl in Hst. unfold submitted in Hi. rewrite omap_app in Hi. fold submitted in Hi.
  destruct Hst as [[Hn1 Hl1]|[Hl1 Hn1]]; unfold submitted in Hl1; rewrite Hl1 in Hi; simpl in Hi.
  - rewrite <- Hn1. eapply IH; eauto. by rewrite Hn1.
  - destruct i as [|i]; simpl in Hi; simplify_eq.
    + unfold cyc. rewrite Z.add_0_r, Z.mod_small by lia. lia.
    + rewrite <- cyc_next, <- Hn1 by done. eapply IH; eauto. rewrite Hn1.
      case_match; unfold u16 in *; int_lia.
Qed.

(** * Properties *)

(** The result codes of the protocol, as the client is to read them. *)
Definition result_named (c : Z) : option TxOutcome :=
  match c with
  | 0 => Some TXO_SUCCESS
  | 1 => Some TXO_CHANNEL_BUSY
  | 2 => Some TXO_TIMEOUT
  | 3 => Some TXO_RADIO_ERROR
  | _ => None
  end.

(** The result a step brings for the packet with number [sq], if it does: a
    well-formed TX_RESULT with exactly that number. *)
Definition result_for (sq : Z) (o : op) : option TxOutcome :=
  match o with
  | OpFrame f =>
      if bool_decide (validate f = ERR_NONE) && (type f =? MSG_TX_RESULT) && (seq f =? sq)
      then result_named (byte_at (payload f) 0) else None
  | _ => None
  end.

(** The C++ type of the argument. *)
Definition op_typed (o : op) : Prop := match o with OpFrame f => Frame_typed f | _ => True end.

Lemma result_named_of c : 0 <= c <= kTxResultMax -> result_named c = Some (tx_outcome_of c).
Proof.
  unfold kTxResultMax, TXR_RADIO_ERROR. intros Hc.
  assert (c = 0 \/ c = 1 \/ c = 2 \/ c = 3) as [->|[->|[->| ->]]] by lia; done.
Qed.

Lemma typed_code ty sq c : Frame_typed (mkFrame ty sq [c]) -> 0 <= c.
Proof. intros (_ & _ & Hb & _). apply List.Forall_inv in Hb. unfold is_u8 in Hb. lia. Qed.

(** A TX_RESULT for the packet in flight, and what it does. *)
Lemma result_for_spec sq o r :
  op_typed o -> result_for sq o = Some r ->
  exists c, o = OpFrame (mkFrame MSG_TX_RESULT sq [c]) /\ validate (mkFrame MSG_TX_RESULT sq [c]) = ERR_NONE /\
    r = tx_outcome_of c.
Proof.
  intros Ht. destruct o as [| | | |f| | |]; try done. simpl.
  case_bool_decide as Hv; [|done]. destruct (Z.eqb_spec (type f) MSG_TX_RESULT) as [Hty|]; [|done].
  destruct (Z.eqb_spec (seq f) sq) as [<-|]; [|done]. simpl.
  destruct (validate_tx_result f Hv Hty) as (c & Hf & Hc). rewrite Hf in Ht, Hv |- *. cbn [payload seq] in *.
  pose proof (typed_code _ _ _ Ht) as H0.
  unfold byte_at. simpl. rewrite result_named_of by lia. intros [= <-]. by exists c.
Qed.

Lemma onFrame_result c s :
  validate (mkFrame MSG_TX_RESULT (tx_seq_ s) [c]) = ERR_NONE -> state_ s = ST_TX_PENDING ->
  onFrame (mkFrame MSG_TX_RESULT (tx_seq_ s) [c]) s =
  (EV_TX_DONE, s <| last_tx_outcome_ := tx_outcome_of c |> <| tx_in_flight_ := false |> <| state_ := ST_READY_RX |>).
Proof.
  intros Hv Hs. unfold onFrame. cbv zeta. rewrite Hv, Hs. simpl. by rewrite Z.eqb_refl.
Qed.

(** A resolution without a result for the packet. *)
Lemma resolution_unresolved o sq r :
  op_typed o -> resolution o sq r -> 1 <= sq -> result_for sq o = None -> r = unresolved o.
Proof.
  intros Ht [->|(c & -> & Hc & ->)] Hsq Hn; [done|]. exfalso. simpl in Hn.
  pose proof (typed_code _ _ _ Ht) as H0.
  rewrite bool_decide_eq_true_2, Z.eqb_refl in Hn.
  - simpl in Hn. unfold byte_at in Hn. simpl in Hn. by rewrite result_named_of in Hn.
  - unfold validate. simpl. rewrite (proj2 (Z.eqb_neq sq 0)) by lia. unfold byte_at. simpl.
    by rewrite (proj2 (Z.ltb_ge _ _)).
Qed.

(** C12. Transmit outcomes are honest at the client: in every run, resets
    included, each submitted packet gets at most one outcome and that before the
    next one is submitted.  While a packet is in flight, a step that receives a
    well-formed TX_RESULT with exactly its sequence number gives it the outcome
    the protocol assigns to the code; any other step leaves it in flight or ends
    it with UNKNOWN, or with NONE when the owner resets the session -- so a lost
    link, a timeout or a malformed frame never looks like a success. *)
Theorem client_outcomes_honest (os : list op) (o : op) (l l' : list obs) (s s' : Session) :
  do_ops os make = (l, s) -> op_typed o -> do_op o s = (l', s') ->
  exists cur, alternates None l = Some cur /\
    match cur with
    | None => l' = [] \/ (o = OpSubmit /\ exists sq, l' = [Submitted sq] /\ 1 <= sq <= 65535)
    | Some sq =>
        match result_for sq o with
        | Some r => l' = [Resolved r]
        | None => l' = [] \/ l' = [Resolved (unresolved o)]
        end
    end.
Proof.
  intros E Hty E'. apply do_ops_tx in E as (Hw & Hq & Ha); [|apply make_wf|done]. exists (open_tx s).
  split; [exact Ha|]. pose proof (do_op_tx o s Hw) as Ht. rewrite E' in Ht. simpl in Ht.
  destruct (open_tx s) as [sq|] eqn:Hop.
  - assert (tx_in_flight_ s = true /\ sq = tx_seq_ s) as [Hf ->]
      by (unfold open_tx in Hop; destruct (tx_in_flight_ s); by simplify_eq).
    destruct (result_for (tx_seq_ s) o) as [r|] eqn:Hr.
    + destruct (result_for_spec _ _ _ Hty Hr) as (c & -> & Hv & ->). simpl in E'.
      rewrite onFrame_result in E' by (done || by apply Hw). simpl in E'. rewrite Hf in E'. by simplify_eq.
    + destruct Ht as [|? -> Ho|sq r ? Ho Ho1 Hres]; [by left|congruence|right].
      rewrite Hop in Ho. injection Ho as <-. by rewrite (resolution_unresolved _ _ _ Hty Hres (Hq Hf) Hr).
  - destruct Ht as [|? -> Ho|sq r ? Ho]; [by left| |congruence].
    right. split; [done|]. exists (next_seq_ s). split; [done|]. apply Hw.
Qed.

(** Sequence numbers never are 0 and do not repeat for 65535 packets: on one
    connection the packets are numbered 1, 2, ..., 65535, 1, ... in order. *)
Theorem client_sequence_numbers (s0 : Session) (os : list op) (l : list obs) (s : Session)
    (i : nat) (sq : Z) :
  state_ s0 = ST_CONNECTING -> forallb stays os = true ->
  do_ops os (onConnected s0).2 = (l, s) -> submitted l !! i = Some sq ->
  sq = 1 + Z.of_nat i mod 65535.
Proof.
  intros Hs Hst E Hi. unfold onConnected in E. rewrite Hs in E. simpl in E.
  apply (stays_numbers _ _ _ _ i sq) in E; [|simpl; lia|done|done]. done.
Qed.

(** The echo gate of the client: no operation makes a session operational
    but the arrival of a CONFIG_RESULT that echoes exactly the configuration it
    asked for. *)
Theorem client_echo_gate (o : op) (s : Session) :
  operational s = false -> operational (do_op o s).2 = true ->
  exists f, o = OpFrame f /\ validate f = ERR_NONE /\ state_ s = ST_CONFIGURING /\
    have_cfg_ s = true /\ decodeConfigEcho f = Some (cfg_ s).
Proof.
  intros Hn Ho. assert (Hfail : forall e, operational (fail e s).2 = false)
    by (intros; unfold fail; by case_match).
  destruct o; simpl in Ho.
  - unfold setDesiredConfig in Ho. destruct (negb (bool_decide _)); [simpl in Ho; congruence|].
    destruct (negb _); unfold operational in *; simpl in *; congruence.
  - unfold onConnecting in Ho. destruct (negb _); simpl in Ho; [congruence|done].
  - unfold onConnected in Ho. destruct (negb _ && negb _); simpl in Ho; [congruence|done].
  - unfold onDisconnected in Ho. destruct (tx_in_flight_ s); simpl in Ho; discriminate Ho.
  - destruct (onFrame_cases f s); simpl in Ho; rewrite ?Hfail in Ho; try congruence; try done; eauto 6.
    all: unfold operational in *; simpl in *; destruct (state_ s); congruence.
  - unfold onTimeout in Ho. destruct k, (state_ s); rewrite ?Hfail in Ho;
      cbn [snd] in Ho; congruence.
  - unfold submitTx, canSubmitTx in Ho. case_bool_decide as Hs; simpl in Ho.
    + unfold operational in Hn. by rewrite Hs in Hn.
    + congruence.
  - done.
Qed.

(** ** Witnesses *)

Module client_witnesses.

Definition cfg : RadioConfig := mkRadioConfig 433175000 250000 11 6 43 8 14 1 0.
Definition up : list op := [
  OpConfig cfg; OpConnecting; OpConnected;
  OpFrame (mkFrame MSG_HELLO_ACK 0 [kVersion]);
  OpFrame (mkFrame MSG_AUTH_CHALLENGE 0 (replicate 16 1));
  OpFrame (mkFrame MSG_AUTH_RESULT 0 [AUTH_OK]);
  OpFrame (mkFrame MSG_CONFIG_RESULT 0 (CFG_OK :: packConfig cfg)); OpSubmit].
Definition pending := Eval vm_compute in do_ops up make.
Definition answer : op := OpFrame (mkFrame MSG_TX_RESULT 1 [TXR_CHANNEL_BUSY]).

Lemma client_outcomes_honest_witness :
  result_for 1 answer = Some TXO_CHANNEL_BUSY /\
  exists cur, alternates None [Submitted 1] = Some cur /\
    match cur with
    | None => [Resolved TXO_CHANNEL_BUSY] = [] \/
        (answer = OpSubmit /\ exists sq, [Resolved TXO_CHANNEL_BUSY] = [Submitted sq] /\ 1 <= sq <= 65535)
    | Some sq =>
        match result_for sq answer with
        | Some r => [Resolved TXO_CHANNEL_BUSY] = [Resolved r]
        | None => [Resolved TXO_CHANNEL_BUSY] = [] \/ [Resolved TXO_CHANNEL_BUSY] = [Resolved (unresolved answer)]
        end
    end.
Proof.
  split; [reflexivity|].
  refine (client_outcomes_honest up answer [Submitted 1] [Resolved TXO_CHANNEL_BUSY]
            pending.2 (do_op answer pending.2).2 _ _ _); [vm_compute; reflexivity| |vm_compute; reflexivity].
  unfold answer, op_typed, Frame_typed, len, kMaxPayload, MSG_TX_RESULT, TXR_CHANNEL_BUSY. cbn. unfold_ints.
  repeat split; try lia. repeat constructor; lia.
Defined.

Definition connecting : Session := Eval vm_compute in
  (do_ops [OpConfig cfg; OpConnecting] make).2.
Definition traffic : list op := drop 3 up ++ [answer; OpSubmit].

Lemma client_sequence_numbers_witness : 2 = 1 + Z.of_nat 1 mod 65535.
Proof.
  refine (client_sequence_numbers connecting traffic
            [Submitted 1; Resolved TXO_CHANNEL_BUSY; Submitted 2]
            (do_ops traffic (onConnected connecting).2).2 1 2 _ _ _ _); vm_compute; reflexivity.
Defined.

Definition configuring : Session := Eval vm_compute in (do_ops (take 6 up) make).2.
Definition echo : op := OpFrame (mkFrame MSG_CONFIG_RESULT 0 (CFG_OK :: packConfig cfg)).

Lemma client_echo_gate_witness :
  exists f, echo = OpFrame f /\ validate f = ERR_NONE /\ state_ configuring = ST_CONFIGURING /\
    have_cfg_ configuring = true /\ decodeConfigEcho f = Some (cfg_ configuring).
Proof. refine (client_echo_gate echo configuring _ _); vm_compute; reflexivity. Defined.
End client_witnesses.
End xr_client.
