(* ===== verification/XrInterop.v ===== *)
(** Interoperability of the two ends of XR v1: the firmware's [Session]
    (third_party/external_radio_protocol) and the bridge's [XrSession].

    The two state machines are connected by a queue of frames in each direction
    ([XrSessionProperties] and [XrCodec] show that a byte stream, however it is
    fragmented, is such a queue).  The transport of the client does what the
    comments of the enum Event ask for, with the password the bridge is
    configured with.  A run is any interleaving of the client's application,
    deliveries in both directions, backend events, changes of the backend and
    ticks of the clock at any times. *)

From stdpp Require Import relations.
From S2P Require Import Prelude.
From S2P Require Import XrCodec.
From S2P Require Import BoundedBuffer.
From S2P Require Import HmacAuth.
From S2P Require Import RadioBackend.
From S2P Require Import XrSession.
From S2P Require Import XrServerSpec.
From S2P Require Import XrSessionFacts.
From S2P Require Import XrClient.
From S2P Require Import FakeBackend.

Module xr_interop.
Import extradio auth radio_backend xr_server_spec xr_session_facts.

#[local] Existing Instance xr_client.State_eq_dec.
#[local] Existing Instance xr_client.eta_Session.
#[local] Existing Instance xr_session.eta_XrSession.
#[local] Existing Instance xr_session.eta_world.

Abbreviation Session := xr_client.Session.
Abbreviation world := xr_session.world.
Abbreviation ses := xr_session.ses.
Abbreviation hist := xr_session.hist.
Abbreviation phase := xr_session.phase.
Abbreviation closed := xr_session.closed.
Abbreviation close_reason := xr_session.close_reason_.
Abbreviation Send := xr_session.Send.

Definition HELLO : Frame := mkFrame MSG_HELLO 0 [kVersion].
Definition HELLO_ACK : Frame := mkFrame MSG_HELLO_ACK 0 [kVersion].
Definition CONFIGURE (cfg : RadioConfig) : Frame := mkFrame MSG_CONFIGURE 0 (packConfig cfg).
Definition CONFIG_RESULT (code : Z) : Frame := mkFrame MSG_CONFIG_RESULT 0 [code].
Definition AUTH_RESPONSE (h : bytes) : Frame := mkFrame MSG_AUTH_RESPONSE 0 h.
Definition TX_REQUEST (sq : Z) (d : bytes) : Frame := mkFrame MSG_TX_REQUEST sq d.
Definition TX_RESULT (sq : Z) (o : TxOutcome) : Frame :=
  mkFrame MSG_TX_RESULT sq [xr_session.tx_outcome_to_wire o].
Definition PING : Frame := mkFrame MSG_PING 0 [].
Definition PONG : Frame := mkFrame MSG_PONG 0 [].

Section Interop.
Context {B : Type} `{HB : !RadioBackend B} `{HS : !OpenSSL} `{HSL : !OpenSSLLaws}.
Context (a : AuthConfig).

Record net := mkNet {
  cli : Session;
  up : list Frame;
  srv : world B;
  down : list Frame
}.

(** What the transport sends for an event. *)
Definition transport (ev : xr_client.Event) (c : Session) : list Frame :=
  match ev with
  | xr_client.EV_SEND_HELLO => [HELLO]
  | xr_client.EV_SEND_AUTH =>
      match hmac_sha256 (password_ a) (xr_client.nonce_ c) with
      | Some h => [AUTH_RESPONSE h]
      | None => []
      end
  | xr_client.EV_SEND_CONFIG => [CONFIGURE (xr_client.cfg_ c)]
  | xr_client.EV_SEND_PONG => [PONG]
  | _ => []
  end.

(** The frames a server step has added to its output. *)
Definition new_frames (w w' : world B) : list Frame :=
  drop (length (sent_frames (hist w))) (sent_frames (hist w')).

Definition server_step (n : net) (rest : list Frame) (w' : world B) : net :=
  mkNet (cli n) rest w' (down n ++ new_frames (srv n) w').

Inductive step (n : net) : net -> Prop :=
  | step_submit sq c d :
      xr_client.submitTx (cli n) = (Some sq, c) -> (length d <= kMaxLoraPayload)%nat ->
      step n (mkNet c (up n ++ [TX_REQUEST sq d]) (srv n) (down n))
  | step_client f rest ev c :
      xr_client.state_ (cli n) <> xr_client.ST_DEGRADED ->
      down n = f :: rest -> xr_client.onFrame f (cli n) = (ev, c) ->
      step n (mkNet c (up n ++ transport ev c) (srv n) rest)
  | step_server f rest rand now :
      closed (srv n) = false -> up n = f :: rest -> rand_ok rand ->
      step n (server_step n rest (xr_session.handle_frame rand now f (srv n)))
  | step_event now e :
      step n (server_step n (up n) (xr_session.on_event now e (srv n)))
  | step_tick now :
      step n (server_step n (up n) (xr_session.tick now (srv n)))
  | step_backend b :
      step n (mkNet (cli n) (up n)
        (xr_session.mkWorld (ses (srv n)) b (hist (srv n))) (down n)).

(** A client that has just connected, and the session that greets it. *)
Definition connected (cfg : RadioConfig) : Session :=
  (xr_client.onConnected (xr_client.onConnecting
    (xr_client.setDesiredConfig cfg xr_client.make).2).2).2.
Definition start (cfg : RadioConfig) (to : xr_session.Timeouts) (cap : nat) (now : Z) (b : B) : net :=
  mkNet (connected cfg) [HELLO]
    (xr_session.open now (xr_session.mkWorld (xr_session.make a to cap) b [])) [].

(** ** The invariant *)

(** Reasons to close that are nobody's protocol error. *)
Definition fine (r : xr_session.CloseReason) : bool :=
  match r with
  | xr_session.MalformedFrame | xr_session.ParserError | xr_session.BadState
  | xr_session.RemoteError | xr_session.AuthFailed => false
  | _ => true
  end.

(** Frames for an operational client. *)
Definition running (f : Frame) : Prop :=
  (exists rx, rxPayloadAcceptable (zlen (rx_data rx)) = true /\ f = rx_frame rx) \/
  f = PING \/ exists sq o, sq <> 0 /\ f = TX_RESULT sq o.

(** What the client still has to receive, by its state. *)
Definition receivable (c : Session) (dq : list Frame) : Prop :=
  match xr_client.state_ c with
  | xr_client.ST_HANDSHAKE =>
      dq = [] \/ dq = [HELLO_ACK] \/ dq = [HELLO_ACK; auth_granted] \/
      exists n, length n = kAuthNonceSize /\ dq = [HELLO_ACK; challenge n]
  | xr_client.ST_AUTHENTICATING =>
      dq = [] \/ dq = [auth_granted] \/
      exists n, length n = kAuthNonceSize /\ dq = [challenge n]
  | xr_client.ST_CONFIGURING =>
      dq = [] \/ (exists code, code <> CFG_OK /\ dq = [CONFIG_RESULT code]) \/
      exists dq', dq = config_echo (xr_client.cfg_ c) :: dq' /\ Forall running dq'
  | xr_client.ST_READY_RX | xr_client.ST_TX_PENDING => Forall running dq
  | xr_client.ST_DEGRADED => xr_client.last_err_ c = ERR_CONFIG
  | _ => False
  end.

Definition requests (l : list Frame) : list Z :=
  omap (fun f => if type f =? MSG_TX_REQUEST then Some (seq f) else None) l.
Definition results (l : list Frame) : list Z :=
  omap (fun f => if type f =? MSG_TX_RESULT then Some (seq f) else None) l.
Definition pings (l : list Frame) : nat := length (filter (fun f => f = PING) l).
Definition pongs (l : list Frame) : nat := length (filter (fun f => f = PONG) l).
Definition accepted (w : world B) : list Z :=
  if xr_session.tx_in_flight_ (ses w) then [xr_session.tx_seq_ (ses w)] else [].

(** Frames for a ready server. *)
Definition requested (f : Frame) : Prop :=
  f = PONG \/ exists sq d, sq <> 0 /\ (length d <= kMaxLoraPayload)%nat /\ f = TX_REQUEST sq d.

(** Once configured: one packet and one ping at most are under way, somewhere. *)
Record flowing (n : net) : Prop := {
  fl_client : xr_client.operational (cli n) = true \/
    (xr_client.state_ (cli n) = xr_client.ST_CONFIGURING /\ up n = [] /\
     exists dq, down n = config_echo (xr_client.cfg_ (cli n)) :: dq);
  fl_up : Forall requested (up n);
  fl_tx : requests (up n) ++ accepted (srv n) ++ results (down n) =
          option_list (xr_client.open_tx (cli n));
  fl_ping : (pings (down n) + pongs (up n))%nat =
            if xr_session.awaiting_pong_ (ses (srv n)) then 1%nat else 0%nat;
  fl_seq : xr_client.open_tx (cli n) <> Some 0
}.

(** What both ends are doing, by the phase of an open session. *)
Definition in_step (n : net) : Prop :=
  let st := xr_client.state_ (cli n) in
  let nonce := xr_session.nonce_ (ses (srv n)) in
  match phase (srv n) with
  | xr_session.WaitHello => st = xr_client.ST_HANDSHAKE /\ up n = [HELLO] /\ down n = []
  | xr_session.WaitAuth =>
      length nonce = kAuthNonceSize /\ password_configured a = true /\
      ((st = xr_client.ST_HANDSHAKE /\ up n = [] /\ down n = [HELLO_ACK; challenge nonce]) \/
       (st = xr_client.ST_AUTHENTICATING /\ up n = [] /\ down n = [challenge nonce]) \/
       (st = xr_client.ST_AUTHENTICATING /\ down n = [] /\
        Forall (fun f => exists h, hmac_sha256 (password_ a) nonce = Some h /\ f = AUTH_RESPONSE h)
          (up n) /\ (length (up n) <= 1)%nat))
  | xr_session.WaitConfigure =>
      (st = xr_client.ST_HANDSHAKE /\ up n = [] /\ down n = [HELLO_ACK; auth_granted]) \/
      (st = xr_client.ST_AUTHENTICATING /\ up n = [] /\ down n = [auth_granted]) \/
      (st = xr_client.ST_CONFIGURING /\ up n = [CONFIGURE (xr_client.cfg_ (cli n))] /\ down n = [])
  | xr_session.Configuring =>
      st = xr_client.ST_CONFIGURING /\ up n = [] /\ down n = [] /\
      xr_session.requested_cfg_ (ses (srv n)) = xr_client.cfg_ (cli n)
  | xr_session.Ready => flowing n
  | xr_session.Closed => True
  end.

Record ninv (n : net) : Prop := {
  ni_auth : xr_session.auth_ (ses (srv n)) = a;
  ni_client : xr_client.sess_wf (cli n) /\ xr_client.have_cfg_ (cli n) = true /\
    RadioConfig_typed (xr_client.cfg_ (cli n)) /\ radioConfigValid (xr_client.cfg_ (cli n)) = true;
  ni_down : receivable (cli n) (down n);
  ni_fine : fine (close_reason (ses (srv n))) = true;
  ni_deadline : fine (xr_session.deadline_reason_ (ses (srv n))) = true;
  ni_tx : xr_session.tx_in_flight_ (ses (srv n)) = true -> phase (srv n) = xr_session.Ready;
  ni_step : in_step n
}.

(** ** Messages *)

Lemma running_message f : running f -> message f.
Proof.
  intros [(rx & Hrx & ->)|[->|(sq & o & Hs & ->)]].
  - unfold rxPayloadAcceptable in Hrx. bool_hyps. constructor. unfold zlen in *. lia.
  - by constructor; left.
  - constructor; [done|]. by destruct o.
Qed.

Lemma challenge_message n : length n = kAuthNonceSize -> message (challenge n).
Proof. by constructor. Qed.

(** ** The client *)

Ltac frame_in H := unfold xr_client.onFrame; cbv zeta;
  rewrite (bool_decide_eq_true_2 _ (message_validate _ H)); cbn -[Nat.eqb configEqual u16 byte_at].

Lemma client_ack c :
  xr_client.state_ c = xr_client.ST_HANDSHAKE ->
  xr_client.onFrame HELLO_ACK c =
  (xr_client.EV_NONE, c <| xr_client.state_ := xr_client.ST_AUTHENTICATING |>).
Proof.
  intros Hc. assert (H : message HELLO_ACK) by (constructor; auto). frame_in H. by rewrite Hc.
Qed.

Lemma client_challenge c n :
  xr_client.state_ c = xr_client.ST_AUTHENTICATING -> length n = kAuthNonceSize ->
  xr_client.onFrame (challenge n) c = (xr_client.EV_SEND_AUTH, c <| xr_client.nonce_ := n |>).
Proof.
  intros Hc Hn. assert (H : message (challenge n)) by (by constructor). frame_in H.
  rewrite Hc. by rewrite take_ge by (rewrite Hn; done).
Qed.

Lemma client_granted c :
  xr_client.state_ c = xr_client.ST_AUTHENTICATING ->
  xr_client.onFrame auth_granted c =
  (xr_client.EV_SEND_CONFIG, c <| xr_client.state_ := xr_client.ST_CONFIGURING |>).
Proof.
  intros Hc. assert (H : message auth_granted) by (constructor; auto). frame_in H. by rewrite Hc.
Qed.

Lemma client_refused c code :
  xr_client.state_ c = xr_client.ST_CONFIGURING -> code <> CFG_OK ->
  xr_client.onFrame (CONFIG_RESULT code) c = xr_client.fail ERR_CONFIG c.
Proof.
  intros Hc Hn. assert (H : message (CONFIG_RESULT code)) by (by constructor). frame_in H.
  by rewrite Hc.
Qed.

Lemma decode_echo cfg :
  RadioConfig_typed cfg -> radioConfigValid cfg = true ->
  decodeConfigEcho (config_echo cfg) = Some cfg.
Proof.
  intros Ht Hv. unfold decodeConfigEcho, config_echo, len. cbn [payload type length].
  rewrite packConfig_length. cbn. pose proof (unpack_pack_app cfg [] Ht Hv) as Hu.
  by rewrite app_nil_r in Hu.
Qed.

Lemma client_echo c :
  xr_client.state_ c = xr_client.ST_CONFIGURING -> xr_client.have_cfg_ c = true ->
  RadioConfig_typed (xr_client.cfg_ c) -> radioConfigValid (xr_client.cfg_ c) = true ->
  xr_client.onFrame (config_echo (xr_client.cfg_ c)) c =
  (xr_client.EV_READY, c <| xr_client.state_ := xr_client.ST_READY_RX |>).
Proof.
  intros Hc Hh Ht Hv. assert (H : message (config_echo (xr_client.cfg_ c))) by (by constructor).
  unfold xr_client.onFrame; cbv zeta.
  rewrite (bool_decide_eq_true_2 _ (message_validate _ H)), Hc, (decode_echo _ Ht Hv), Hh.
  by rewrite (proj2 (configEqual_eq _ _) eq_refl).
Qed.

Lemma decode_rx_frame rx :
  rxPayloadAcceptable (zlen (rx_data rx)) = true -> exists p, decodeRxPacket (rx_frame rx) = Some p.
Proof.
  unfold rxPayloadAcceptable. intros Hrx. bool_hyps. unfold decodeRxPacket, rx_frame, len.
  cbn [type payload]. assert (Hl : (length (rx_data rx) <= kMaxLoraPayload)%nat) by (unfold zlen in *; lia).
  destruct (rx_payload_shape (u16 (rssi_cdbm rx)) (u16 (snr_cdb rx)) (rx_data rx) Hl) as (E1 & E2 & _).
  rewrite E1, E2. cbn [Z.eqb negb orb Nat.add Nat.ltb Nat.leb]. unfold kMaxLoraPayload in *.
  rewrite (proj2 (Z.ltb_ge _ _)) by lia. unfold zlen in *.
  assert (Hu : u16 (6 + Z.of_nat (length (rx_data rx))) = Z.of_nat (6 + length (rx_data rx)))
    by (unfold u16; rewrite Z.mod_small by lia; lia).
  rewrite Hu. cbn [Nat.add orb]. rewrite !Z.eqb_refl. cbn [negb orb]. eexists. reflexivity.
Qed.

(** Everything a running bridge sends is welcome at an operational client. *)
Lemma client_running c f ev c' :
  xr_client.operational c = true -> running f -> xr_client.onFrame f c = (ev, c') ->
  xr_client.operational c' = true /\ xr_client.cfg_ c' = xr_client.cfg_ c /\
  xr_client.have_cfg_ c' = xr_client.have_cfg_ c /\
  transport ev c' = (if decide (f = PING) then [PONG] else []) /\
  (xr_client.sess_wf c ->
   (xr_client.open_tx c' = xr_client.open_tx c /\
    (type f = MSG_TX_RESULT -> xr_client.open_tx c <> Some (seq f))) \/
   (xr_client.open_tx c' = None /\ type f = MSG_TX_RESULT /\ xr_client.open_tx c = Some (seq f))).
Proof.
  intros Ho Hr. pose proof (running_message f Hr) as Hm. unfold xr_client.onFrame; cbv zeta.
  rewrite (bool_decide_eq_true_2 _ (message_validate _ Hm)). cbn [negb].
  assert (Hst : xr_client.state_ c = xr_client.ST_READY_RX \/
                xr_client.state_ c = xr_client.ST_TX_PENDING)
    by (unfold xr_client.operational in Ho; destruct (xr_client.state_ c); try discriminate Ho; auto).
  assert (Hready : xr_client.sess_wf c -> xr_client.state_ c = xr_client.ST_READY_RX ->
                   xr_client.open_tx c = None).
  { intros [Hf _] Hs. unfold xr_client.open_tx. destruct (xr_client.tx_in_flight_ c); [|done].
    pose proof (proj1 Hf eq_refl). congruence. }
  destruct Hr as [(rx & Hrx & ->)|[->|(sq & o & Hs & ->)]].
  - destruct (decode_rx_frame rx Hrx) as [p Hp]. unfold xr_client.take_rx. rewrite Hp.
    destruct Hst as [Hst|Hst]; rewrite Hst; cbn; intros [= <- <-]; (do 4 (split; [done|]));
      intros _; by left.
  - destruct Hst as [Hst|Hst]; rewrite Hst; cbn; intros [= <- <-]; (do 4 (split; [done|]));
      intros _; by left.
  - destruct Hst as [Hst|Hst]; rewrite Hst; cbn.
    + intros [= <- <-]. do 4 (split; [done|]). intros Hw. left. by rewrite Hready.
    + destruct (Z.eqb_spec sq (xr_client.tx_seq_ c)) as [->|Hne]; intros [= <- <-];
        (do 4 (split; [done|])); intros [Hf _]; unfold xr_client.open_tx; simpl;
        rewrite (proj2 Hf Hst); [by right|left]. split; [done|]. congruence.
Qed.

(** ** The server *)

(** The frames sent between two states of a session. *)
Definition reply (w w' : world B) (fs : list Frame) : Prop :=
  exists es, hist w' = hist w ++ es /\ sent_frames es = fs.

Lemma reply_new w w' fs : reply w w' fs -> new_frames w w' = fs.
Proof.
  intros (es & Hh & <-). unfold new_frames. rewrite Hh. unfold sent_frames. rewrite omap_app.
  by rewrite drop_app_length.
Qed.

Lemma reply_refl w w' : hist w' = hist w -> reply w w' [].
Proof. intros H. exists []. by rewrite app_nil_r. Qed.

Lemma reply_quiet w w1 w2 e fs :
  reply w w1 fs -> hist w2 = hist w1 ++ [e] -> is_send e = false -> reply w w2 fs.
Proof.
  intros (es & H1 & <-) H2 He. exists (es ++ [e]). split; [by rewrite H2, H1, app_assoc|].
  by apply sent_frames_quiet.
Qed.

Lemma reply_send w w1 w2 f fs :
  reply w w1 fs -> hist w2 = hist w1 ++ [Send f] -> reply w w2 (fs ++ [f]).
Proof.
  intros (es & H1 & <-) H2. exists (es ++ [Send f]). split; [by rewrite H2, H1, app_assoc|].
  apply sent_frames_send.
Qed.

Record sok (w : world B) : Prop := {
  so_auth : xr_session.auth_ (ses w) = a;
  so_fine : fine (close_reason (ses w)) = true;
  so_deadline : fine (xr_session.deadline_reason_ (ses w)) = true;
  so_tx : xr_session.tx_in_flight_ (ses w) = true -> phase w = xr_session.Ready
}.

(** A step of the server that leads from [w] to [w'] and sends [fs]. *)
Definition leads (w w' : world B) (fs : list Frame) : Prop := sok w' /\ reply w w' fs.

Lemma close_leads w0 r w fs :
  fine r = true -> leads w0 w fs ->
  leads w0 (xr_session.close r w) fs /\ phase (xr_session.close r w) = xr_session.Closed.
Proof.
  intros Hr [[Ha Hf Hd Ht] Hh]. unfold xr_session.close, closed.
  case_bool_decide as Hc; [done|]. split; [|done]. split; [by split|].
  by eapply reply_quiet.
Qed.

(** What remains to show for a frame that is sent unless the session fails. *)
Lemma emit_then_leads (Q : world B -> Prop) w0 ty sq pl n k w fs :
  leads w0 w fs ->
  (forall w1, ses w1 = (ses w) <| xr_session.outbox_ := xr_session.outbox_ (ses w1) |> ->
     leads w0 w1 (fs ++ [mkFrame ty sq (take n (default [] pl))]) -> Q (k w1)) ->
  (forall w1, leads w0 w1 fs -> phase w1 = xr_session.Closed -> Q w1) ->
  Q (xr_session.emit_then ty sq pl n k w).
Proof.
  intros Hl Hk Hc. unfold xr_session.emit_then, xr_session.emit.
  assert (Hcl : forall r, fine r = true -> Q (xr_session.close r w))
    by (intros r Hr; destruct (close_leads w0 r w fs Hr Hl); by apply Hc).
  destruct (encode _ _ _ _ _); [|by apply Hcl].
  destruct (bounded_buffer.append _ _) as [[] ob]; [|by apply Hcl].
  apply Hk; [done|]. destruct Hl as [[Ha Hf Hd Ht] Hr]. split; [by split|]. by eapply reply_send.
Qed.

(** Decide the tests on the type of a known frame. *)
Ltac decide_tests :=
  repeat match goal with
  | |- context [type ?f =? ?c] =>
      let b := constr:(type f =? c) in let v := eval vm_compute in b in
      progress change b with v; cbn [negb]; cbv iota
  | |- context [xr_session.is_client_message (type ?f)] =>
      change (xr_session.is_client_message (type f)) with true; cbn [negb]; cbv iota
  end.

Ltac server_in H Hp := unfold xr_session.handle_frame; cbv zeta;
  rewrite (bool_decide_eq_true_2 _ (message_validate _ H));
  match goal with |- context [xr_session.phase (xr_session.did ?e ?w)] =>
    change (xr_session.phase (xr_session.did e w)) with (xr_session.phase w) end;
  rewrite Hp; decide_tests.

Lemma recv_leads w f : sok w -> leads w (xr_session.did (xr_session.Recv f) w) [].
Proof. intros [Ha Hf Hd Ht]. split; [by split|]. by eapply reply_quiet; [apply reply_refl|..]. Qed.

(** The next phase of the handshake. *)
Lemma arm_leads w0 w p now t r fs :
  fine r = true -> leads w0 w fs -> phase w <> xr_session.Ready ->
  leads w0 (xr_session.arm now t r (xr_session.set_phase p w)) fs.
Proof.
  intros Hr [[Ha Hf Hd Ht] Hh] Hp. split; [|exact Hh]. split; simpl; try done.
  intros Htx. by apply Ht in Htx.
Qed.

Definition after_hello (w w' : world B) : Prop :=
  (phase w' = xr_session.Closed /\ (leads w w' [] \/ leads w w' [HELLO_ACK])) \/
  (phase w' = xr_session.WaitAuth /\ password_configured a = true /\
   length (xr_session.nonce_ (ses w')) = kAuthNonceSize /\
   leads w w' [HELLO_ACK; challenge (xr_session.nonce_ (ses w'))]) \/
  (phase w' = xr_session.WaitConfigure /\ leads w w' [HELLO_ACK; auth_granted]).

Lemma server_hello rand now w :
  sok w -> phase w = xr_session.WaitHello -> rand_ok rand ->
  after_hello w (xr_session.handle_frame rand now HELLO w).
Proof.
  intros Hs Hp Hr. assert (Hm : message HELLO) by (constructor; auto). server_in Hm Hp.
  apply (emit_then_leads (after_hello w) w _ _ _ _ _ _ []); [by apply recv_leads| |by left; auto].
  intros w1 Hw1 Hl1. assert (Hp1 : phase w1 = xr_session.WaitHello).
  { change (xr_session.phase_ (ses w1) = xr_session.WaitHello). by rewrite Hw1. }
  rewrite (so_auth w1 (proj1 Hl1)). destruct (password_configured a) eqn:Hpw.
  - destruct rand as [n|]; cbn [random_nonce]; [|left].
    + specialize (Hr n eq_refl). set (w2 := xr_session.upd _ w1).
      assert (Hl2 : leads w w2 [HELLO_ACK]) by (destruct Hl1 as [[] ?]; split; [by split|done]).
      apply (emit_then_leads (after_hello w) w _ _ _ _ _ _ [HELLO_ACK]); [done| |by left; auto].
      intros w3 Hw3 Hl3. right; left.
      assert (Hn : xr_session.nonce_ (ses w3) = n) by (by rewrite Hw3).
      assert (Hp3 : phase w3 = xr_session.WaitHello).
      { change (xr_session.phase_ (ses w3) = xr_session.WaitHello). by rewrite Hw3. }
      split; [done|]. split; [done|]. cbn. rewrite Hn. split; [done|].
      apply arm_leads; [done| |by rewrite Hp3]. cbn in Hl3. rewrite take_ge in Hl3 by (rewrite Hr; done). exact Hl3.
    + destruct (close_leads w xr_session.AuthError w1 [HELLO_ACK]); auto.
  - apply (emit_then_leads (after_hello w) w _ _ _ _ _ _ [HELLO_ACK]); [done| |by left; auto].
    intros w3 Hw3 Hl3. right; right. split; [done|]. apply arm_leads; [done|exact Hl3|].
    change (xr_session.phase_ (ses w3) <> xr_session.Ready). rewrite Hw3. simpl.
    unfold phase in Hp1. by rewrite Hp1.
Qed.

Lemma emit_leads w0 ty sq pl n w fs :
  leads w0 w fs ->
  let w1 := xr_session.emit_ ty sq pl n w in
  (ses w1 = (ses w) <| xr_session.outbox_ := xr_session.outbox_ (ses w1) |> /\
   leads w0 w1 (fs ++ [mkFrame ty sq (take n (default [] pl))])) \/
  (phase w1 = xr_session.Closed /\ leads w0 w1 fs).
Proof.
  intros Hl. cbv zeta. replace (xr_session.emit_ ty sq pl n w)
    with (xr_session.emit_then ty sq pl n (fun w => w) w)
    by (unfold xr_session.emit_then, xr_session.emit_; by destruct (xr_session.emit _ _ _ _ _) as [[] ?]).
  pattern (xr_session.emit_then ty sq pl n (fun w => w) w).
  apply (emit_then_leads _ w0 _ _ _ _ _ _ fs); auto.
Qed.

(** A last frame on the way out. *)
Lemma refuse_leads w0 r ty sq pl n w :
  fine r = true -> leads w0 w [] ->
  let w1 := xr_session.close r (xr_session.emit_ ty sq pl n w) in
  phase w1 = xr_session.Closed /\
  (leads w0 w1 [] \/ leads w0 w1 [mkFrame ty sq (take n (default [] pl))]).
Proof.
  intros Hr Hl. cbv zeta. destruct (emit_leads w0 ty sq pl n w [] Hl) as [[_ H]|[_ H]];
    destruct (close_leads w0 r _ _ Hr H); auto.
Qed.

Definition after_auth (w w' : world B) : Prop :=
  (phase w' = xr_session.Closed /\ leads w w' []) \/
  (phase w' = xr_session.WaitConfigure /\ leads w w' [auth_granted]).

Lemma server_auth rand now w h :
  sok w -> phase w = xr_session.WaitAuth -> password_configured a = true ->
  hmac_sha256 (password_ a) (xr_session.nonce_ (ses w)) = Some h ->
  after_auth w (xr_session.handle_frame rand now (AUTH_RESPONSE h) w).
Proof.
  intros Hs Hp Hpw Hh. unfold hmac_sha256 in Hh.
  destruct (HMAC (password_ a) (xr_session.nonce_ (ses w))) as [d|] eqn:Hd; [|done].
  destruct (Nat.eqb_spec (length d) kAuthResponseSize) as [Hl|]; [|done]. injection Hh as ->.
  assert (Hm : message (AUTH_RESPONSE h)) by (by constructor). server_in Hm Hp.
  assert (Hv : verify_auth_response a (xr_session.nonce_ (ses w)) (Some h) = true)
    by (by apply verify_auth_response_true).
  cbn [xr_session.did ses payload AUTH_RESPONSE]. simpl ses. rewrite (so_auth w Hs), Hv.
  apply (emit_then_leads (after_auth w) w _ _ _ _ _ _ []); [by apply recv_leads| |by left].
  intros w1 Hw1 Hl1. right. split; [done|]. apply arm_leads; [done|exact Hl1|].
  change (xr_session.phase_ (ses w1) <> xr_session.Ready). rewrite Hw1. simpl.
  unfold phase in Hp. by rewrite Hp.
Qed.

Definition after_configure (cfg : RadioConfig) (w w' : world B) : Prop :=
  (phase w' = xr_session.Closed /\
   (leads w w' [] \/ exists code, code <> CFG_OK /\ leads w w' [CONFIG_RESULT code])) \/
  (phase w' = xr_session.Configuring /\ xr_session.requested_cfg_ (ses w') = cfg /\ leads w w' []).

Lemma decode_configure cfg :
  RadioConfig_typed cfg -> radioConfigValid cfg = true -> decodeConfig (CONFIGURE cfg) = Some cfg.
Proof.
  intros Ht Hv. unfold decodeConfig, CONFIGURE, len. cbn [payload type].
  rewrite packConfig_length. cbn. pose proof (unpack_pack_app cfg [] Ht Hv) as Hu.
  by rewrite app_nil_r in Hu.
Qed.

Lemma server_configure rand now w cfg :
  sok w -> phase w = xr_session.WaitConfigure -> RadioConfig_typed cfg ->
  radioConfigValid cfg = true ->
  after_configure cfg w (xr_session.handle_frame rand now (CONFIGURE cfg) w).
Proof.
  intros Hs Hp Ht Hv. assert (Hm : message (CONFIGURE cfg)) by (by constructor).
  server_in Hm Hp. rewrite (decode_configure cfg Ht Hv), Hv. cbn [negb].
  pose proof (recv_leads w (CONFIGURE cfg) Hs) as Hl.
  set (w1 := xr_session.did (xr_session.Recv (CONFIGURE cfg)) w) in *.
  destruct (rb_begin_configure now cfg (xr_session.bk w1)) as [tok b].
  set (w2 := xr_session.did (xr_session.Configure cfg tok) _).
  assert (Hl2 : leads w w2 [])
    by (destruct Hl as [[] ?]; split; [by split|by eapply reply_quiet]).
  destruct (tok =? 0).
  - left. destruct (refuse_leads w xr_session.ConfigFailed MSG_CONFIG_RESULT 0
      (Some [CFG_UNSUPPORTED]) 1 w2 eq_refl Hl2) as [Hc [H|H]]; (split; [exact Hc|]); [by left|].
    right. by exists CFG_UNSUPPORTED.
  - right. split; [done|]. split; [done|]. apply arm_leads; [done| |].
    + destruct Hl2 as [[] ?]. split; [by split|done].
    + change (phase w <> xr_session.Ready). by rewrite Hp.
Qed.

(** The fields the other end depends on. *)
Definition unchanged (w w' : world B) : Prop :=
  phase w' = phase w /\ xr_session.nonce_ (ses w') = xr_session.nonce_ (ses w) /\
  xr_session.requested_cfg_ (ses w') = xr_session.requested_cfg_ (ses w) /\
  accepted w' = accepted w /\
  xr_session.awaiting_pong_ (ses w') = xr_session.awaiting_pong_ (ses w).

Definition ready_with (tx : list Z) (ping : bool) (w : world B) : Prop :=
  phase w = xr_session.Ready /\ accepted w = tx /\ xr_session.awaiting_pong_ (ses w) = ping.

Lemma outbox_ready w w1 tx ping :
  ses w1 = (ses w) <| xr_session.outbox_ := xr_session.outbox_ (ses w1) |> ->
  ready_with tx ping w -> ready_with tx ping w1.
Proof. unfold ready_with, phase, accepted. intros ->. done. Qed.

Lemma server_pong rand now w :
  sok w -> phase w = xr_session.Ready -> xr_session.awaiting_pong_ (ses w) = true ->
  let w' := xr_session.handle_frame rand now PONG w in
  leads w w' [] /\ ready_with (accepted w) false w'.
Proof.
  intros Hs Hp Ha. cbv zeta. assert (Hm : message PONG) by (constructor; auto). server_in Hm Hp.
  unfold xr_session.handle_ready_frame. decide_tests. simpl ses. rewrite Ha. cbn [negb].
  pose proof (recv_leads w PONG Hs) as [[H1 H2 H3 H4] Hr].
  destruct (_ <=? _); (split; [split; [split; [exact H1|exact H2|exact H3|intros _; exact Hp]|exact Hr]
    |split; [exact Hp|split; reflexivity]]).
Qed.

Definition after_request (sq : Z) (w w' : world B) : Prop :=
  leads w w' [] /\
  (phase w' = xr_session.Closed \/ ready_with [sq] (xr_session.awaiting_pong_ (ses w)) w').

Lemma server_request rand now w sq d :
  sok w -> phase w = xr_session.Ready -> accepted w = [] -> sq <> 0 ->
  (length d <= kMaxLoraPayload)%nat ->
  after_request sq w (xr_session.handle_frame rand now (TX_REQUEST sq d) w).
Proof.
  intros Hs Hp Ha Hq Hd. assert (Hm : message (TX_REQUEST sq d)) by (by constructor).
  server_in Hm Hp. unfold xr_session.handle_ready_frame. decide_tests. simpl ses.
  unfold accepted in Ha. destruct (xr_session.tx_in_flight_ (ses w)) eqn:Et; [done|].
  pose proof (recv_leads w (TX_REQUEST sq d) Hs) as [[H1 H2 H3 H4] Hr].
  set (w1 := xr_session.upd _ _). destruct (rb_submit_tx _ _) as [ok b].
  set (w2 := xr_session.did _ _).
  assert (Hl : leads w w2 []) by (split; [by split|by eapply reply_quiet]).
  destruct ok; cbn [negb].
  - split; [|right; by split]. destruct Hl as [[] ?]. split; [by split|done].
  - destruct (close_leads w xr_session.BackendFailure w2 [] eq_refl Hl) as [H5 H6].
    split; [done|by left].
Qed.

Definition after_event (w w' : world B) : Prop :=
  (unchanged w w' /\ leads w w' []) \/
  (phase w' = xr_session.Closed /\
   (leads w w' [] \/
    (phase w = xr_session.Configuring /\
     exists code, code <> CFG_OK /\ leads w w' [CONFIG_RESULT code]))) \/
  (phase w = xr_session.Configuring /\ ready_with [] false w' /\
   leads w w' [config_echo (xr_session.requested_cfg_ (ses w))]) \/
  (phase w = xr_session.Ready /\
   ready_with (accepted w) (xr_session.awaiting_pong_ (ses w)) w' /\
   exists rx, rxPayloadAcceptable (zlen (rx_data rx)) = true /\ leads w w' [rx_frame rx]) \/
  (phase w = xr_session.Ready /\ ready_with [] (xr_session.awaiting_pong_ (ses w)) w' /\
   exists sq o, accepted w = [sq] /\ leads w w' [TX_RESULT sq o]).

Lemma sok_leads w : sok w -> leads w w [].
Proof. intros H. split; [done|]. by apply reply_refl. Qed.

Lemma event_rx rx w : sok w -> after_event w (xr_session.on_rx rx w).
Proof.
  intros Hs. unfold xr_session.on_rx. case_bool_decide as Hp; cbn [negb];
    [|left; split; [done|by apply sok_leads]].
  destruct (rxPayloadAcceptable (zlen (rx_data rx))) eqn:Ha; cbn [negb];
    [|left; split; [done|by apply sok_leads]].
  set (w1 := xr_session.did _ w). assert (Hl : leads w w1 []).
  { destruct Hs. split; [by split|]. by eapply reply_quiet; [apply reply_refl|..]. }
  destruct (emit_leads w MSG_RX_PACKET 0 (Some (xr_session.put16 (u16 (rssi_cdbm rx)) ++
    xr_session.put16 (u16 (snr_cdb rx)) ++ xr_session.put16 (zlen (rx_data rx)) ++ rx_data rx))
    (6 + length (rx_data rx)) w1 [] Hl) as [[Hses H]|[Hc H]]; [|by right; left; auto].
  right; right; right; left. split; [done|]. split.
  - apply (outbox_ready w1); [exact Hses|by split].
  - exists rx. split; [done|]. cbn [app default] in H. rewrite take_ge in H; [exact H|].
    cbn -[Z.of_nat]. lia.
Qed.

Lemma event_tx o w : sok w -> after_event w (xr_session.on_tx_complete o w).
Proof.
  intros Hs. unfold xr_session.on_tx_complete.
  destruct (xr_session.tx_in_flight_ (ses w)) eqn:Et; cbn [negb];
    [|left; split; [done|by apply sok_leads]].
  pose proof (so_tx w Hs Et) as Hp. unfold xr_session.map_and_send_tx_result.
  set (w1 := xr_session.upd _ _). assert (Hl : leads w w1 []).
  { destruct Hs. split; [by split|]. by eapply reply_quiet; [apply reply_refl|..]. }
  destruct (emit_leads w MSG_TX_RESULT (xr_session.tx_seq_ (ses w1))
    (Some [xr_session.tx_outcome_to_wire o]) 1 w1 [] Hl) as [[Hses H]|[Hc H]];
    [|by right; left; auto].
  right; right; right; right. split; [done|]. split.
  - apply (outbox_ready w1); [exact Hses|by split].
  - exists (xr_session.tx_seq_ (ses w)), o. split; [|exact H]. unfold accepted. by rewrite Et.
Qed.

Lemma event_configured now tok res w :
  sok w -> after_event w (xr_session.on_configure_complete now tok res w).
Proof.
  intros Hs. unfold xr_session.on_configure_complete. case_bool_decide as Hp; cbn [negb];
    [|left; split; [done|by apply sok_leads]].
  destruct (tok =? _); cbn [negb]; [|left; split; [done|by apply sok_leads]].
  set (w1 := xr_session.did _ w). assert (Hl : leads w w1 []).
  { destruct Hs. split; [by split|]. by eapply reply_quiet; [apply reply_refl|..]. }
  assert (Htx : xr_session.tx_in_flight_ (ses w) = false).
  { destruct (xr_session.tx_in_flight_ (ses w)) eqn:E; [|done].
    apply (so_tx w Hs) in E. congruence. }
  destruct (negb (applied res) || negb (configEqual (effective res) _)) eqn:E.
  - right; left. destruct (refuse_leads w xr_session.ConfigFailed MSG_CONFIG_RESULT 0
      (Some [CFG_UNSUPPORTED]) 1 w1 eq_refl Hl) as [Hc [H|H]]; (split; [exact Hc|]); [by left|].
    right. split; [done|]. by exists CFG_UNSUPPORTED.
  - apply orb_false_iff in E as [_ E]. apply negb_false_iff, configEqual_eq in E. rewrite E.
    change (xr_session.requested_cfg_ (ses w1)) with (xr_session.requested_cfg_ (ses w)).
    set (w2 := xr_session.upd _ w1). set (cfg := xr_session.requested_cfg_ (ses w)).
    assert (Hl2 : leads w w2 []) by (destruct Hl as [[] ?]; split; [by split|done]).
    apply (emit_then_leads (after_event w) w _ _ _ _ _ _ []); [exact Hl2| |by right; left; auto].
    intros w3 Hw3 [[H1 H2 H3 H4] Hr]. right; right; left. split; [done|]. split.
    + split; [done|]. unfold accepted, xr_session.enter_ready; simpl. by rewrite Hw3; simpl; rewrite Htx.
    + split; [by split|]. exact Hr.
Qed.

Lemma server_event now e w : sok w -> after_event w (xr_session.on_event now e w).
Proof.
  intros Hs. destruct e as [rx|o| |tok res]; [by apply event_rx|by apply event_tx| |by apply event_configured].
  right; left. destruct (close_leads w xr_session.BackendFailure w [] eq_refl (sok_leads w Hs)). auto.
Qed.

Definition after_tick (w w' : world B) : Prop :=
  (unchanged w w' /\ leads w w' []) \/ (phase w' = xr_session.Closed /\ leads w w' []) \/
  (ready_with (accepted w) false w /\ ready_with (accepted w) true w' /\ leads w w' [PING]).

Lemma server_tick now w : sok w -> after_tick w (xr_session.tick now w).
Proof.
  intros Hs. pose proof (sok_leads w Hs) as Hl. unfold xr_session.tick. cbv zeta.
  assert (Hsame : after_tick w w) by (by left).
  assert (Hcl : forall r w1, fine r = true -> leads w w1 [] -> after_tick w (xr_session.close r w1)).
  { intros r w1 Hr H1. right; left. destruct (close_leads w r w1 [] Hr H1). auto. }
  destruct (closed w); [done|].
  destruct (_ && _); [apply Hcl; [apply Hs|done]|]. case_bool_decide as Hp; cbn [negb]; [|done].
  destruct (_ && _).
  { apply Hcl; [done|]. destruct Hs. split; [by split|]. by eapply reply_quiet; [apply reply_refl|..]. }
  destruct (xr_session.awaiting_pong_ (ses w)) eqn:Ha.
  { destruct (_ <=? _); [by apply Hcl|done]. }
  destruct (_ <=? _); [|done].
  apply (emit_then_leads (after_tick w) w _ _ _ _ _ _ []); [done| |by right; left; auto].
  intros w1 Hw1 [[H1 H2 H3 H4] Hr]. right; right. split; [by split|]. split.
  - pose proof (outbox_ready w w1 (accepted w) false Hw1) as [Hp1 [Ht1 _]]; [by split|by split].
  - split; [by split|]. exact Hr.
Qed.

(** ** Preservation *)

Lemma ninv_sok n : ninv n -> sok (srv n).
Proof. intros [H1 _ _ H2 H3 H4 _]. by split. Qed.

Lemma ninv_server n rest w' fs :
  ninv n -> leads (srv n) w' fs -> receivable (cli n) (down n ++ fs) ->
  in_step (mkNet (cli n) rest w' (down n ++ fs)) -> ninv (server_step n rest w').
Proof.
  intros [_ Hc _ _ _ _ _] [[Ha Hf Hd Ht] Hr] Hrec Hs. unfold server_step.
  rewrite (reply_new _ _ _ Hr). by split.
Qed.

Lemma ninv_closed n rest w' fs :
  ninv n -> leads (srv n) w' fs -> phase w' = xr_session.Closed ->
  receivable (cli n) (down n ++ fs) -> ninv (server_step n rest w').
Proof. intros Hn Hl Hp Hr. eapply ninv_server; [done..|]. unfold in_step; simpl. by rewrite Hp. Qed.

Lemma ninv_closed_nil n rest w' :
  ninv n -> leads (srv n) w' [] -> phase w' = xr_session.Closed -> ninv (server_step n rest w').
Proof. intros Hn Hl Hp. eapply ninv_closed; [done..|]. rewrite app_nil_r. apply Hn. Qed.

Lemma receivable_running n fs :
  flowing n -> receivable (cli n) (down n) -> Forall running fs ->
  receivable (cli n) (down n ++ fs).
Proof.
  intros Hf Hr Hfs. unfold receivable in *. destruct (fl_client n Hf) as [Ho|(Hst & _ & dq & Hd)].
  - unfold xr_client.operational in Ho. destruct (xr_client.state_ (cli n)); try discriminate Ho;
      by apply Forall_app.
  - rewrite Hst in *. rewrite Hd in *. right; right. exists (dq ++ fs). split; [done|].
    destruct Hr as [Hr|[(code & _ & Hr)|(dq' & [= <-] & Hdq)]]; [done|done|].
    apply Forall_app. by split.
Qed.

Lemma results_app l1 l2 : results (l1 ++ l2) = results l1 ++ results l2.
Proof. apply omap_app. Qed.
Lemma requests_app l1 l2 : requests (l1 ++ l2) = requests l1 ++ requests l2.
Proof. apply omap_app. Qed.
Lemma pings_app l1 l2 : pings (l1 ++ l2) = (pings l1 + pings l2)%nat.
Proof. unfold pings. by rewrite filter_app, length_app. Qed.
Lemma pongs_app l1 l2 : pongs (l1 ++ l2) = (pongs l1 + pongs l2)%nat.
Proof. unfold pongs. by rewrite filter_app, length_app. Qed.

(** A list with at most one element, cut around an element. *)
Lemma singleton_cut {A} (l1 l2 : list A) x o :
  l1 ++ x :: l2 = option_list o -> l1 = [] /\ l2 = [] /\ o = Some x.
Proof.
  destruct o as [y|]; simpl; intros E.
  - destruct l1 as [|z [|]]; simplify_eq/=; done.
  - by destruct l1.
Qed.

(** A ready server keeps flowing when it sends frames [fs]. *)
Lemma flowing_send n rest w' fs :
  flowing n -> Forall requested rest ->
  (rest = up n \/ xr_client.operational (cli n) = true) ->
  requests rest ++ accepted w' ++ results (down n ++ fs) =
    option_list (xr_client.open_tx (cli n)) ->
  (pings (down n ++ fs) + pongs rest)%nat =
    (if xr_session.awaiting_pong_ (ses w') then 1%nat else 0%nat) ->
  flowing (mkNet (cli n) rest w' (down n ++ fs)).
Proof.
  intros [Hc _ _ _ Hq] Hu Hr Htx Hp. split; simpl; try done.
  destruct Hc as [Ho|(Hs & Hup & dq & Hd)]; [by left|].
  destruct Hr as [->|Ho]; [|by left]. right. split; [done|]. split; [done|].
  exists (dq ++ fs). by rewrite Hd.
Qed.

(** Frames that are neither a result nor a ping. *)
Lemma rx_neutral rx : results [rx_frame rx] = [] /\ pings [rx_frame rx] = 0%nat.
Proof. split; [done|]. unfold pings. by rewrite filter_cons_False. Qed.

Lemma in_step_ready n : ninv n -> phase (srv n) = xr_session.Ready -> flowing n.
Proof. intros Hn Hp. pose proof (ni_step n Hn) as H. unfold in_step in H. by rewrite Hp in H. Qed.

Lemma handle_ready_inv n f rest rand now :
  ninv n -> up n = f :: rest -> phase (srv n) = xr_session.Ready ->
  ninv (server_step n rest (xr_session.handle_frame rand now f (srv n))).
Proof.
  intros Hn Hup Hp. pose proof (ninv_sok n Hn) as Hs. pose proof (in_step_ready n Hn Hp) as Hst.
  set (w' := xr_session.handle_frame rand now f (srv n)).
  pose proof Hst as [Hcf Hu Htx Hpg Hq]. rewrite Hup in Hu, Htx, Hpg.
  apply Forall_cons in Hu as [Hf Hu].
  assert (Hop : xr_client.operational (cli n) = true).
  { destruct Hcf as [|(_ & Hu' & _)]; [done|congruence]. }
  destruct Hf as [->|(sq & d & Hsq & Hd & ->)].
  - unfold pongs in Hpg. rewrite filter_cons_True in Hpg by done. simpl in Hpg.
    destruct (xr_session.awaiting_pong_ (ses (srv n))) eqn:Ha; [|lia].
    destruct (server_pong rand now (srv n) Hs Hp Ha) as [H (Hp' & Hacc & Haw)].
    fold w' in H, Hp', Hacc, Haw. eapply ninv_server; [done..| |].
    + rewrite app_nil_r. apply Hn.
    + unfold in_step; simpl. rewrite Hp'. apply flowing_send; [done|done|by right| |].
      { rewrite app_nil_r, Hacc. exact Htx. }
      rewrite app_nil_r, Haw. unfold pongs. lia.
  - change (sq :: requests rest ++ accepted (srv n) ++ results (down n) =
            option_list (xr_client.open_tx (cli n))) in Htx.
    apply (singleton_cut []) in Htx as (_ & Hnil & Hopen).
    apply app_eq_nil in Hnil as [Hr0 Hnil]. apply app_eq_nil in Hnil as [Hacc Hres].
    destruct (server_request rand now (srv n) sq d Hs Hp Hacc Hsq Hd) as [H Hcase].
    fold w' in H, Hcase. destruct Hcase as [Hcl'|(Hp' & Hacc' & Haw)]; [by apply ninv_closed_nil|].
    eapply ninv_server; [done..| |].
    + rewrite app_nil_r. apply Hn.
    + unfold in_step; simpl. rewrite Hp'. apply flowing_send; [done|done|by right| |].
      { by rewrite app_nil_r, Hacc', Hr0, Hres, Hopen. }
      rewrite app_nil_r, Haw. unfold pongs in *. rewrite filter_cons_False in Hpg; [exact Hpg|done].
Qed.

Lemma handle_inv n f rest rand now :
  ninv n -> up n = f :: rest -> rand_ok rand -> closed (srv n) = false ->
  ninv (server_step n rest (xr_session.handle_frame rand now f (srv n))).
Proof.
  intros Hn Hup Hr Hcl. pose proof (ninv_sok n Hn) as Hs. pose proof (ni_step n Hn) as Hst.
  unfold in_step in Hst. set (w' := xr_session.handle_frame rand now f (srv n)).
  destruct (phase (srv n)) eqn:Hp.
  - destruct Hst as (Hc & Hu & Hd). rewrite Hup in Hu. injection Hu as -> ->.
    pose proof (server_hello rand now (srv n) Hs Hp Hr) as H. fold w' in H.
    destruct H as [[Hcl' [H|H]]|[(Hp' & Hpw & Hln & H)|(Hp' & H)]].
    + by apply ninv_closed_nil.
    + eapply ninv_closed; [done..|]. unfold receivable. rewrite Hc, Hd. auto.
    + eapply ninv_server; [done..| |].
      * unfold receivable. rewrite Hc, Hd. right; right; right. eauto.
      * unfold in_step; simpl. rewrite Hp', Hd. split; [done|]. split; [done|]. by left.
    + eapply ninv_server; [done..| |].
      * unfold receivable. rewrite Hc, Hd. auto.
      * unfold in_step; simpl. rewrite Hp', Hd. by left.
  - destruct Hst as (Hln & Hpw & [(_ & Hu & _)|[(_ & Hu & _)|(Hc & Hd & Hu & Hl)]]);
      [congruence..|]. rewrite Hup in Hu, Hl. apply Forall_cons in Hu as [(h & Hh & ->) _].
    destruct rest; [|simpl in Hl; lia].
    pose proof (server_auth rand now (srv n) h Hs Hp Hpw Hh) as H. fold w' in H.
    destruct H as [[Hcl' H]|[Hp' H]]; [by apply ninv_closed_nil|].
    eapply ninv_server; [done..| |].
    + unfold receivable. rewrite Hc, Hd. auto.
    + unfold in_step; simpl. rewrite Hp', Hd. by right; left.
  - destruct Hst as [(_ & Hu & _)|[(_ & Hu & _)|(Hc & Hu & Hd)]]; [congruence..|].
    rewrite Hup in Hu. injection Hu as -> ->. destruct (ni_client n Hn) as (_ & _ & Ht & Hv).
    pose proof (server_configure rand now (srv n) _ Hs Hp Ht Hv) as H. fold w' in H.
    destruct H as [[Hcl' [H|(code & Hcode & H)]]|(Hp' & Hreq & H)].
    + by apply ninv_closed_nil.
    + eapply ninv_closed; [done..|]. unfold receivable. rewrite Hc, Hd. eauto.
    + eapply ninv_server; [done..| |].
      * unfold receivable. rewrite Hc, Hd. auto.
      * unfold in_step; simpl. rewrite Hp', Hd. auto.
  - destruct Hst as (_ & Hu & _). congruence.
  - by apply handle_ready_inv.
  - unfold closed, xr_session.closed in Hcl. by rewrite Hp in Hcl.
Qed.

Lemma in_step_unchanged n w' :
  unchanged (srv n) w' -> in_step n -> in_step (mkNet (cli n) (up n) w' (down n)).
Proof.
  intros (Hp & Hno & Hc & Ha & Hw). unfold in_step; simpl. rewrite Hp.
  destruct (phase (srv n)); rewrite ?Hno, ?Hc; try done.
  intros [H1 H2 H3 H4 H5]. split; simpl; rewrite ?Ha, ?Hw; done.
Qed.

Lemma ninv_unchanged n w' :
  ninv n -> unchanged (srv n) w' -> leads (srv n) w' [] -> ninv (server_step n (up n) w').
Proof.
  intros Hn Hu Hl. eapply ninv_server; [done..| |]; rewrite app_nil_r; [apply Hn|].
  apply in_step_unchanged; [done|apply Hn].
Qed.

Lemma event_inv n now e : ninv n -> ninv (server_step n (up n) (xr_session.on_event now e (srv n))).
Proof.
  intros Hn. pose proof (server_event now e (srv n) (ninv_sok n Hn)) as H.
  set (w' := xr_session.on_event now e (srv n)) in *. pose proof (ni_step n Hn) as Hst.
  destruct H as [[Hu H]|[[Hcl H]|[(Hp & (Hp' & Ha & Hw) & H)|[(Hp & (Hp' & Ha & Hw) & rx & Hrx & H)
    |(Hp & (Hp' & Ha & Hw) & sq & o & Hsq & H)]]]].
  - by apply ninv_unchanged.
  - destruct H as [H|(Hp & code & Hc & H)]; [by apply ninv_closed_nil|].
    eapply ninv_closed; [done..|]. unfold in_step in Hst. rewrite Hp in Hst.
    destruct Hst as (Hs & _ & Hd & _). unfold receivable. rewrite Hs, Hd. eauto.
  - unfold in_step in Hst. rewrite Hp in Hst. destruct Hst as (Hs & Hup & Hd & Hc).
    rewrite Hc in H. eapply ninv_server; [done..| |].
    + unfold receivable. rewrite Hs, Hd. right; right. by exists [].
    + unfold in_step; simpl. rewrite Hp', Hd, Hup. simpl.
      assert (Ho : xr_client.open_tx (cli n) = None).
      { unfold xr_client.open_tx. destruct (ni_client n Hn) as ([Hf _] & _).
        destruct (xr_client.tx_in_flight_ (cli n)); [|done]. rewrite (proj1 Hf eq_refl) in Hs. done. }
      split; simpl; rewrite ?Ha, ?Hw, ?Ho; try done.
      right. split; [done|]. split; [done|]. by exists [].
  - pose proof (in_step_ready n Hn Hp) as Hf. destruct (rx_neutral rx) as [Hn1 Hn2].
    eapply ninv_server; [done..| |].
    + apply receivable_running; [done|apply Hn|]. apply Forall_singleton. left. eauto.
    + unfold in_step; simpl. rewrite Hp'. destruct Hf as [H1 H2 H3 H4 H5].
      apply flowing_send; [by split|done|by left| |].
      * rewrite results_app, Hn1, app_nil_r, Ha. exact H3.
      * by rewrite pings_app, Hn2, Nat.add_0_r, Hw.
  - pose proof (in_step_ready n Hn Hp) as Hf. pose proof Hf as [H1 H2 H3 H4 H5].
    rewrite Hsq in H3. change ([sq] ++ results (down n)) with (sq :: results (down n)) in H3.
    apply singleton_cut in H3 as (Hr1 & Hr2 & Ho).
    eapply ninv_server; [done..| |].
    + apply receivable_running; [done|apply Hn|]. apply Forall_singleton. right; right.
      exists sq, o. split; [|done]. intros ->. by rewrite Ho in H5.
    + unfold in_step; simpl. rewrite Hp'. apply flowing_send; [done|done|by left| |].
      * by rewrite results_app, Hr1, Hr2, Ha, Ho.
      * rewrite pings_app, Hw. unfold pings at 2. rewrite filter_cons_False by done. simpl. lia.
Qed.

Lemma net_tick_inv n now : ninv n -> ninv (server_step n (up n) (xr_session.tick now (srv n))).
Proof.
  intros Hn. pose proof (server_tick now (srv n) (ninv_sok n Hn)) as H.
  set (w' := xr_session.tick now (srv n)) in *.
  destruct H as [[Hu H]|[[Hcl H]|((Hp & _ & Haw) & (Hp' & Ha & Hw) & H)]].
  - by apply ninv_unchanged.
  - by apply ninv_closed_nil.
  - pose proof (in_step_ready n Hn Hp) as Hf. pose proof Hf as [H1 H2 H3 H4 H5].
    eapply ninv_server; [done..| |].
    + apply receivable_running; [done|apply Hn|]. apply Forall_singleton. right; by left.
    + unfold in_step; simpl. rewrite Hp'. apply flowing_send; [done|done|by left| |].
      * rewrite results_app, Ha. simpl. by rewrite app_nil_r.
      * rewrite pings_app, Hw. rewrite Haw in H4. unfold pings at 2.
        rewrite filter_cons_True by done. simpl. lia.
Qed.

Lemma submit_inv n sq c d :
  ninv n -> xr_client.submitTx (cli n) = (Some sq, c) -> (length d <= kMaxLoraPayload)%nat ->
  ninv (mkNet c (up n ++ [TX_REQUEST sq d]) (srv n) (down n)).
Proof.
  intros Hn Hsub Hd. pose proof Hn as [Ha (Hw & Hh & Ht & Hv) Hr Hf Hdl Htx Hst].
  unfold xr_client.submitTx, xr_client.canSubmitTx in Hsub.
  case_bool_decide as Hrdy; [|done]. destruct (xr_client.tx_in_flight_ (cli n)) eqn:Hfl; [done|].
  injection Hsub as <- <-. pose proof Hw as [_ Hnx].
  assert (Hw' : xr_client.sess_wf (xr_client.do_op xr_client.OpSubmit (cli n)).2)
    by (by apply xr_client.do_op_wf).
  cbn in Hw'. unfold xr_client.submitTx, xr_client.canSubmitTx in Hw'.
  rewrite bool_decide_eq_true_2, Hfl in Hw' by done. cbn in Hw'.
  split; simpl; try done.
  - unfold receivable in *. rewrite Hrdy in Hr. exact Hr.
  - unfold in_step in *; simpl. destruct (phase (srv n)); try (exfalso; naive_solver congruence); [|done].
    destruct Hst as [Hc Hu Hx Hp Hq]. unfold xr_client.open_tx in Hx. rewrite Hfl in Hx.
    apply app_eq_nil in Hx as [Hx1 Hx2].
    split; simpl.
    + by left.
    + apply Forall_app. split; [done|]. apply Forall_singleton. right.
      exists (xr_client.next_seq_ (cli n)), d. split; [lia|done].
    + rewrite requests_app, Hx1. simpl. by rewrite Hx2.
    + rewrite pongs_app. unfold pongs at 2. rewrite filter_cons_False by done. simpl. lia.
    + unfold xr_client.open_tx; simpl. intros [= E]. lia.
Qed.

Lemma ninv_client n f c up' rest ev :
  ninv n -> xr_client.onFrame f (cli n) = (ev, c) ->
  xr_client.have_cfg_ c = xr_client.have_cfg_ (cli n) -> xr_client.cfg_ c = xr_client.cfg_ (cli n) ->
  receivable c rest -> in_step (mkNet c up' (srv n) rest) -> ninv (mkNet c up' (srv n) rest).
Proof.
  intros [Ha (Hw & Hh & Ht & Hv) Hr Hf Hd Htx Hst] E Hh' Hc' Hr' Hs'.
  pose proof (xr_client.frame_wf f (cli n) Hw) as Hw'. rewrite E in Hw'.
  split; simpl; try done. rewrite Hh', Hc'. done.
Qed.

Lemma handshake_inv n f rest ev c :
  ninv n -> xr_client.state_ (cli n) = xr_client.ST_HANDSHAKE -> down n = f :: rest ->
  xr_client.onFrame f (cli n) = (ev, c) ->
  ninv (mkNet c (up n ++ transport ev c) (srv n) rest).
Proof.
  intros Hn Hs Hd E. pose proof (ni_down n Hn) as Hr. unfold receivable in Hr. rewrite Hs, Hd in Hr.
  assert (f = HELLO_ACK) as -> by naive_solver. pose proof E as E'.
  rewrite (client_ack _ Hs) in E'. injection E' as <- <-. simpl transport. rewrite app_nil_r.
  eapply ninv_client; [done..| |].
  - unfold receivable; simpl. destruct Hr as [Hr|[Hr|[Hr|(m & Hm & Hr)]]]; simplify_eq; eauto.
  - pose proof (ni_step n Hn) as Hst. unfold in_step in *; simpl in *. rewrite Hs, Hd in Hst.
    destruct (phase (srv n)); try done; try naive_solver.
    destruct Hst as [[Ho|(Ho & _)] _ _ _ _]; [|congruence].
    unfold xr_client.operational in Ho. by rewrite Hs in Ho.
Qed.

Lemma authenticating_inv n f rest ev c :
  ninv n -> xr_client.state_ (cli n) = xr_client.ST_AUTHENTICATING -> down n = f :: rest ->
  xr_client.onFrame f (cli n) = (ev, c) ->
  ninv (mkNet c (up n ++ transport ev c) (srv n) rest).
Proof.
  intros Hn Hs Hd E. pose proof (ni_down n Hn) as Hr. unfold receivable in Hr. rewrite Hs, Hd in Hr.
  assert (Hnr : phase (srv n) = xr_session.Ready -> False).
  { intros Hp. destruct (in_step_ready n Hn Hp) as [[Ho|(Ho & _)] _ _ _ _]; [|congruence].
    unfold xr_client.operational in Ho. by rewrite Hs in Ho. }
  pose proof (ni_step n Hn) as Hst. unfold in_step in Hst. rewrite Hs, Hd in Hst. pose proof E as E'.
  destruct Hr as [Hr|[Hr|(m & Hm & Hr)]]; simplify_eq.
  - rewrite (client_granted _ Hs) in E'. injection E' as <- <-.
    eapply ninv_client; [done..| |]; [unfold receivable; simpl; auto|].
    unfold in_step; simpl. destruct (phase (srv n)); try done; try naive_solver.
    destruct Hst as [(? & ? & ?)|[(_ & Hu & _)|(? & ? & ?)]]; [done| |done]. rewrite Hu. auto.
  - rewrite (client_challenge _ _ Hs Hm) in E'. injection E' as <- <-.
    eapply ninv_client; [done..| |]; [unfold receivable; simpl; rewrite Hs; auto|].
    unfold in_step; simpl. rewrite Hs. destruct (phase (srv n)); try done; try naive_solver.
    destruct Hst as (Hl & Hpw & [(? & ? & ?)|[(_ & Hu & Hc)|(? & ? & ?)]]); [done| |done].
    injection Hc as ->. split; [done|]. split; [done|]. right; right. rewrite Hu. simpl.
    split; [done|]. split; [done|].
    destruct (hmac_sha256 _ _) as [h|]; simpl; [|split; [constructor|lia]].
    split; [|lia]. apply Forall_singleton. eauto.
Qed.

Lemma configuring_inv n f rest ev c :
  ninv n -> xr_client.state_ (cli n) = xr_client.ST_CONFIGURING -> down n = f :: rest ->
  xr_client.onFrame f (cli n) = (ev, c) ->
  ninv (mkNet c (up n ++ transport ev c) (srv n) rest).
Proof.
  intros Hn Hs Hd E. pose proof (ni_down n Hn) as Hr. unfold receivable in Hr. rewrite Hs, Hd in Hr.
  destruct (ni_client n Hn) as (Hw & Hh & Ht & Hv). pose proof (ni_step n Hn) as Hst.
  assert (Ho : xr_client.open_tx (cli n) = None).
  { unfold xr_client.open_tx. destruct Hw as [Hf _].
    destruct (xr_client.tx_in_flight_ (cli n)); [|done]. rewrite (proj1 Hf eq_refl) in Hs. done. }
  unfold in_step in Hst. rewrite Hs, Hd in Hst. pose proof E as E'.
  destruct Hr as [Hr|[(code & Hc & Hr)|(dq & Hr & Hrun)]]; simplify_eq.
  - rewrite (client_refused _ _ Hs Hc) in E'. unfold xr_client.fail in E'.
    assert (Hfl : xr_client.tx_in_flight_ (cli n) = false)
      by (unfold xr_client.open_tx in Ho; by destruct (xr_client.tx_in_flight_ (cli n))).
    rewrite Hfl in E'. injection E' as <- <-.
    eapply ninv_client; [done..| |]; [done|].
    unfold in_step; simpl. destruct (phase (srv n)); try done; try naive_solver.
    destruct Hst as [[Hop|(_ & _ & dq & Hdq)] _ _ _ _].
    + unfold xr_client.operational in Hop. by rewrite Hs in Hop.
    + rewrite Hd in Hdq. by injection Hdq as _ Hx.
  - rewrite (client_echo _ Hs Hh Ht Hv) in E'. injection E' as <- <-. simpl transport.
    rewrite app_nil_r. eapply ninv_client; [done..| |]; [exact Hrun|].
    unfold in_step; simpl. destruct (phase (srv n)); try done; try naive_solver.
    destruct Hst as [_ Hu Htx Hp Hq]. rewrite Hd in Htx, Hp. split; simpl; try done.
    by left.
Qed.

Lemma operational_phase n :
  ninv n -> xr_client.operational (cli n) = true ->
  phase (srv n) = xr_session.Ready \/ phase (srv n) = xr_session.Closed.
Proof.
  intros Hn Ho. pose proof (ni_step n Hn) as Hst. unfold in_step in Hst.
  unfold xr_client.operational in Ho.
  destruct (phase (srv n)), (xr_client.state_ (cli n)); naive_solver.
Qed.

Lemma operational_inv n f rest ev c :
  ninv n -> xr_client.operational (cli n) = true -> down n = f :: rest ->
  xr_client.onFrame f (cli n) = (ev, c) ->
  ninv (mkNet c (up n ++ transport ev c) (srv n) rest).
Proof.
  intros Hn Ho Hd E. pose proof (ni_down n Hn) as Hr. pose proof (ni_client n Hn) as (Hw & _).
  assert (Hrun : Forall running (down n)).
  { unfold receivable in Hr. unfold xr_client.operational in Ho.
    by destruct (xr_client.state_ (cli n)). }
  rewrite Hd in Hrun. apply Forall_cons in Hrun as [Hf Hrest].
  destruct (client_running _ _ _ _ Ho Hf E) as (Ho' & Hc & Hh & Ht & Hx). specialize (Hx Hw).
  eapply ninv_client; [done..| |].
  { unfold receivable. unfold xr_client.operational in Ho'. by destruct (xr_client.state_ c). }
  destruct (operational_phase n Hn Ho) as [Hp|Hp]; unfold in_step; simpl; rewrite Hp; [|done].
  destruct (in_step_ready n Hn Hp) as [_ Hu Htx Hpg Hq]. rewrite Hd in Htx, Hpg. rewrite Ht.
  change (f :: rest) with ([f] ++ rest) in Htx, Hpg. rewrite results_app in Htx. rewrite pings_app in Hpg.
  assert (Hres : results [f] = if type f =? MSG_TX_RESULT then [seq f] else [])
    by (cbn; by destruct (type f =? MSG_TX_RESULT)).
  assert (Hpp : (pings [f] = pongs (if decide (f = PING) then [PONG] else []))%nat)
    by (unfold pings, pongs; destruct (decide (f = PING));
        [rewrite !filter_cons_True by done|rewrite filter_cons_False by done]; done).
  assert (Hrq : requests (if decide (f = PING) then [PONG] else []) = []) by (by case_decide).
  split; simpl.
  - by left.
  - apply Forall_app. split; [done|]. case_decide; [|done]. apply Forall_singleton. by left.
  - rewrite requests_app, Hrq, app_nil_r. rewrite Hres in Htx.
    destruct Hx as [[Hx1 Hx2]|(Hx1 & Hx2 & Hx3)]; rewrite Hx1.
    + destruct (Z.eqb_spec (type f) MSG_TX_RESULT) as [Hty|]; [|done]. exfalso.
      rewrite app_assoc in Htx. apply singleton_cut in Htx as (_ & _ & Hx3). by apply (Hx2 Hty).
    + rewrite Hx2, Z.eqb_refl in Htx. simpl. rewrite app_assoc in Htx |- *.
      apply singleton_cut in Htx as (H1 & H2 & _). by rewrite H1, H2.
  - rewrite pongs_app. lia.
  - destruct Hx as [[Hx1 _]|(Hx1 & _)]; by rewrite Hx1.
Qed.

Lemma step_inv n n' : ninv n -> step n n' -> ninv n'.
Proof.
  intros Hn Hs. destruct Hs as [sq c d Hsub Hd|f rest ev c Hdeg Hd E|f rest rand now Hcl Hup Hr
    |now e|now|b].
  - by apply submit_inv.
  - pose proof (ni_down n Hn) as Hr. unfold receivable in Hr.
    destruct (xr_client.state_ (cli n)) eqn:Hs; try done.
    + by apply (handshake_inv n f).
    + by apply (authenticating_inv n f).
    + by apply (configuring_inv n f).
    + apply (operational_inv n f); try done. unfold xr_client.operational. by rewrite Hs.
    + apply (operational_inv n f); try done. unfold xr_client.operational. by rewrite Hs.
  - by apply handle_inv.
  - by apply event_inv.
  - by apply net_tick_inv.
  - destruct Hn as [H1 H2 H3 H4 H5 H6 H7]. split; simpl; try done.
    unfold in_step in *. simpl. destruct (phase (srv n)) eqn:Hp; unfold phase, xr_session.phase in *;
      simpl; rewrite Hp; try done. destruct H7 as [G1 G2 G3 G4 G5]. by split.
Qed.

(** The client after connecting. *)
Definition greeted (cfg : RadioConfig) : Session :=
  (xr_client.clearVolatile ((xr_client.make) <| xr_client.cfg_ := cfg |>
    <| xr_client.have_cfg_ := true |>)) <| xr_client.state_ := xr_client.ST_HANDSHAKE |>.

Lemma connected_greeted cfg : radioConfigValid cfg = true -> connected cfg = greeted cfg.
Proof. intros Hv. unfold connected, xr_client.setDesiredConfig. simpl. by rewrite Hv. Qed.

Lemma greeted_in_step cfg to cap now b :
  in_step (mkNet (greeted cfg) [HELLO]
    (xr_session.open now (xr_session.mkWorld (xr_session.make a to cap) b [])) []).
Proof. unfold in_step. simpl. auto. Qed.

Lemma greeted_client cfg :
  RadioConfig_typed cfg -> radioConfigValid cfg = true ->
  xr_client.sess_wf (greeted cfg) /\ xr_client.have_cfg_ (greeted cfg) = true /\
  RadioConfig_typed (xr_client.cfg_ (greeted cfg)) /\
  radioConfigValid (xr_client.cfg_ (greeted cfg)) = true.
Proof. intros Ht Hv. split; [by apply xr_client.wf_clear|done]. Qed.

Lemma start_inv cfg to cap now b :
  RadioConfig_typed cfg -> radioConfigValid cfg = true -> ninv (start cfg to cap now b).
Proof.
  intros Ht Hv. unfold start. rewrite (connected_greeted cfg Hv).
  apply Build_ninv; cbn [cli up srv down].
  - reflexivity.
  - by apply greeted_client.
  - by left.
  - reflexivity.
  - reflexivity.
  - intros [=].
  - apply greeted_in_step.
Qed.

Lemma net_run_inv cfg to cap now b n :
  RadioConfig_typed cfg -> radioConfigValid cfg = true ->
  rtc step (start cfg to cap now b) n -> ninv n.
Proof.
  intros Ht Hv Hr. remember (start cfg to cap now b) as n0 eqn:E.
  assert (Hn : ninv n0) by (subst; by apply start_inv). clear E.
  induction Hr; [done|]. by apply IHHr, (step_inv x).
Qed.

End Interop.

(** * Properties *)

(** C6. The two ends of XR v1 understand each other: when the firmware's session
    and the bridge's session run with the same password, then in every
    interleaving of the application, deliveries, backend events and ticks, the
    bridge never closes for a protocol violation, a malformed frame or a failed
    authentication, and the firmware never fails but for a refused
    configuration; at any time at most one packet and one ping are under way,
    and a packet the firmware waits for is exactly one of: a request on its way,
    accepted by the bridge, a result on its way -- unless the bridge has closed. *)
Theorem ends_interoperate {B : Type} `{HB : !RadioBackend B} `{HS : !OpenSSL} `{HSL : !OpenSSLLaws}
    (a : AuthConfig) (cfg : RadioConfig) (to : xr_session.Timeouts) (cap : nat) (now : Z) (b : B)
    (n : net) :
  RadioConfig_typed cfg -> radioConfigValid cfg = true ->
  rtc (step a) (start a cfg to cap now b) n ->
  close_reason (ses (srv n)) <> xr_session.BadState /\
  close_reason (ses (srv n)) <> xr_session.MalformedFrame /\
  close_reason (ses (srv n)) <> xr_session.AuthFailed /\
  (xr_client.state_ (cli n) = xr_client.ST_DEGRADED -> xr_client.last_err_ (cli n) = ERR_CONFIG) /\
  (phase (srv n) = xr_session.Ready ->
   requests (up n) ++ accepted (srv n) ++ results (down n) =
     option_list (xr_client.open_tx (cli n)) /\
   (pings (down n) + pongs (up n) <= 1)%nat).
Proof.
  intros Ht Hv Hr. apply net_run_inv in Hr; [|done|done].
  pose proof (ni_fine _ _ Hr) as Hf. do 3 (split; [intros E; by rewrite E in Hf|]). split.
  - intros Hs. pose proof (ni_down _ _ Hr) as Hd. unfold receivable in Hd. by rewrite Hs in Hd.
  - intros Hp. destruct (in_step_ready _ _ Hr Hp) as [_ _ Htx Hpg _]. split; [done|].
    rewrite Hpg. case_match; lia.
Qed.

(** ** Witness: a run executed *)

(** The choices of a run, as data. *)
Inductive action :=
  | DoSubmit (d : bytes) | DoClient | DoServer (rand : option bytes) (now : Z)
  | DoEvent (now : Z) (e : SinkEvent) | DoTick (now : Z).

Section Exec.
Context {B : Type} `{HB : !RadioBackend B} `{HS : !OpenSSL} (a : AuthConfig).

Definition exec (n : @net B) (x : action) : option (@net B) :=
  match x with
  | DoSubmit d =>
      if (length d <=? kMaxLoraPayload)%nat then
        match xr_client.submitTx (cli n) with
        | (Some sq, c) => Some (mkNet c (up n ++ [TX_REQUEST sq d]) (srv n) (down n))
        | _ => None
        end
      else None
  | DoClient =>
      if bool_decide (xr_client.state_ (cli n) = xr_client.ST_DEGRADED) then None else
      match down n with
      | f :: rest => let '(ev, c) := xr_client.onFrame f (cli n) in
                     Some (mkNet c (up n ++ transport a ev c) (srv n) rest)
      | [] => None
      end
  | DoServer rand now =>
      if closed (srv n) then None else
      if (length (default (replicate kAuthNonceSize 0%Z) rand) =? kAuthNonceSize)%nat then
        match up n with
        | f :: rest => Some (server_step n rest (xr_session.handle_frame rand now f (srv n)))
        | [] => None
        end
      else None
  | DoEvent now e => Some (server_step n (up n) (xr_session.on_event now e (srv n)))
  | DoTick now => Some (server_step n (up n) (xr_session.tick now (srv n)))
  end.

Lemma exec_step n x n' : exec n x = Some n' -> step a n n'.
Proof.
  destruct x as [d| |rand now|now e|now]; cbn [exec].
  - destruct (Nat.leb_spec (length d) kMaxLoraPayload); [|done].
    destruct (xr_client.submitTx (cli n)) as [[sq|] c] eqn:E; [|done].
    intros [= <-]. by apply (step_submit a n sq c d).
  - case_bool_decide; [done|]. destruct (down n) eqn:E; [done|].
    destruct (xr_client.onFrame _ _) eqn:E'. intros [= <-].
    eapply step_client; [done|exact E|exact E'].
  - destruct (closed (srv n)) eqn:Hc; [done|].
    destruct (Nat.eqb_spec (length (default (replicate kAuthNonceSize 0%Z) rand)) kAuthNonceSize) as [Hr|]; [|done].
    destruct (up n) eqn:E; [done|]. intros [= <-]. apply (step_server a n f l rand now); [done|done|].
    intros m ->. exact Hr.
  - intros [= <-]. apply step_event.
  - intros [= <-]. apply step_tick.
Qed.

Lemma exec_run xs n n' : foldl (fun o x => m ← o; exec m x) (Some n) xs = Some n' -> rtc (step a) n n'.
Proof.
  revert n'. induction xs as [|x xs IH] using rev_ind; simpl; intros n' E; [by simplify_eq|].
  rewrite foldl_app in E. simpl in E. destruct (foldl _ _ xs) as [m|] eqn:E1; [|done].
  eapply rtc_r; [by apply IH|by apply (exec_step m x)].
Qed.
End Exec.

Module interop_witness.
#[local] Existing Instance auth.toy_openssl.
#[local] Existing Instance auth.toy_openssl_laws.
#[local] Existing Instance fake_backend.fake_radio_backend.

Definition pw : AuthConfig := {| password_ := [7; 8] |}.
Definition cfg : RadioConfig := mkRadioConfig 433175000 250000 11 6 43 8 14 1 0.
Definition actions : list action := [
  DoServer (Some (replicate 16 1)) 10; DoClient; DoClient; DoServer None 20; DoClient;
  DoServer None 30; DoEvent 40 (on_configure_complete 1 {| applied := true; effective := cfg |});
  DoClient; DoSubmit [170; 187]; DoTick 20000; DoClient; DoEvent 20010 (on_rx (mkRxEvent (-9000) 550 [1; 2]))].
Definition first : @net fake_backend.FakeBackend := start pw cfg xr_session.default_timeouts 4096 0 fake_backend.make.
Definition last : @net fake_backend.FakeBackend := Eval vm_compute in
  default first (foldl (fun o x => m ← o; exec pw m x) (Some first) actions).

Lemma cfg_typed : RadioConfig_typed cfg.
Proof. unfold RadioConfig_typed; simpl; unfold_ints; repeat split; lia. Defined.

Lemma ends_interoperate_witness :
  phase (srv last) = xr_session.Ready /\
  requests (up last) ++ accepted (srv last) ++ results (down last) =
    option_list (xr_client.open_tx (cli last)) /\
  (pings (down last) + pongs (up last) <= 1)%nat.
Proof.
  split; [reflexivity|].
  assert (Hr : rtc (step pw) first last) by (apply (exec_run pw actions); vm_compute; reflexivity).
  refine (proj2 (proj2 (proj2 (proj2 (ends_interoperate pw cfg xr_session.default_timeouts 4096 0
    fake_backend.make last cfg_typed eq_refl Hr)))) _). reflexivity.
Defined.
End interop_witness.
End xr_interop.
