(* ===== verification/XrConnection.v ===== *)
(** One accepted client connection: src/xr/xr_connection.{h,cpp}.

    The client's socket is a state of type [F] with the two system calls the
    code makes on it, [recv] and [send] with [MSG_DONTWAIT]; their answers are
    classified by the return value and [errno] as the code does.  A connection
    is the session (which carries the shared backend, see [XrSession]) with its
    socket.  The loops run on fuel taken from the number of answers the socket
    can still give before it reports that nothing more is possible now. *)

From S2P Require Import Prelude.
From S2P Require Import XrCodec.
From S2P Require Import HmacAuth.
From S2P Require Import RadioBackend.
From S2P Require Import XrSession.

Module xr_connection.
Import extradio auth radio_backend xr_session.

(** Answers of [recv]: data (a positive count), 0, and -1 by [errno]. *)
Inductive recv_answer := RecvData (d : bytes) | RecvEof | RecvAgain | RecvIntr | RecvFail.

(** Answers of [send]: a positive count, -1 by [errno], and anything else. *)
Inductive send_answer := SendN (n : nat) | SendAgain | SendIntr | SendFail.

Class Socket (F : Type) := {
  sock_recv : nat -> F -> recv_answer * F;
  sock_send : bytes -> F -> send_answer * F;
  (** Bounds on the answers that keep the loops going. *)
  in_pending : F -> nat;
  out_pending : F -> nat;
  (** What the peer has been sent. *)
  sock_sent : F -> bytes;
}.

Class SocketLaws (F : Type) `{!Socket F} := {
  sock_recv_spec cap f r f' :
    sock_recv cap f = (r, f') ->
    sock_sent f' = sock_sent f /\
    match r with
    | RecvData d => d <> [] /\ (length d <= cap)%nat /\ is_bytes d
    | _ => True
    end;
  sock_send_spec d f r f' :
    sock_send d f = (r, f') ->
    match r with
    | SendN n => (0 < n <= length d)%nat /\ sock_sent f' = sock_sent f ++ take n d
    | _ => sock_sent f' = sock_sent f
    end;
}.

(** During one call what has arrived, the room in the send buffer and the number
    of interrupting signals are finite. *)
Class SocketFinite (F : Type) `{!Socket F} := {
  sock_recv_arrived cap f r f' :
    sock_recv cap f = (r, f') ->
    match r with RecvData _ | RecvIntr => (in_pending f' < in_pending f)%nat | _ => True end;
  sock_send_room d f r f' :
    sock_send d f = (r, f') ->
    match r with SendN _ | SendIntr => (out_pending f' < out_pending f)%nat | _ => True end;
}.

Definition kReadBuf : nat := 1024.

Section Connection.
Context {B F : Type} `{!RadioBackend B} `{!OpenSSL} `{!Socket F}.

(** [fd_] is what the kernel keeps behind the descriptor, [fd_no_] its number;
    a connection is made of a descriptor [accept] returned, never a negative one. *)
Record XrConnection := mkXrConnection {
  fd_no_ : nat;
  fd_ : F;
  session_ : world B;
  socket_error_ : bool
}.

#[export] Instance eta_XrConnection : Eta XrConnection :=
  fun c => {| fd_no_ := fd_no_ c; fd_ := fd_ c; session_ := session_ c; socket_error_ := socket_error_ c |}.

(** The constructor: attach the session as the sink, open it. *)
Definition connect (no : nat) (fd : F) (b : B) (auth : AuthConfig) (now : Z) (to : Timeouts)
    (max_outbox : nat) : XrConnection := {|
  fd_no_ := no;
  fd_ := fd;
  session_ := open now (mkWorld (make auth to max_outbox) (rb_set_sink true b) []);
  socket_error_ := false
|}.

(** The destructor, as it leaves the backend: the order preserves the ownership
    of a packet in flight. *)
Definition disconnect (now : Z) (c : XrConnection) : B :=
  let b := bk (session_ c) in
  let b := rb_abandon_pending_tx now b in
  let b := rb_set_sink false b in
  rb_stop b.

(** The descriptors of clients the kernel has open for the process; [::close(fd)]
    at the end of the destructor and in the accept loop. *)
Fixpoint close_fd (fd : nat) (opened : list nat) : list nat :=
  match opened with
  | [] => []
  | x :: opened => if (x =? fd)%nat then opened else x :: close_fd fd opened
  end.

Lemma close_fd_newest fd opened : close_fd fd (fd :: opened) = opened.
Proof. simpl. by rewrite Nat.eqb_refl. Qed.

Fixpoint flush_loop (fuel : nat) (c : XrConnection) : XrConnection :=
  match fuel with
  | O => c
  | S fuel =>
      if (out_size (session_ c) =? 0)%nat then c else
      let '(r, f) := sock_send (out_data (session_ c)) (fd_ c) in
      let c := c <| fd_ := f |> in
      match r with
      | SendN n => flush_loop fuel (c <| session_ := out_consume n (session_ c) |>)
      | SendAgain => c
      | SendIntr => flush_loop fuel c
      | SendFail => c <| socket_error_ := true |>
      end
  end.

Definition flush (c : XrConnection) : XrConnection := flush_loop (S (out_pending (fd_ c))) c.

Fixpoint read_loop (fuel : nat) (rand : option bytes) (now : Z) (c : XrConnection) : XrConnection :=
  match fuel with
  | O => c
  | S fuel =>
      let '(r, f) := sock_recv kReadBuf (fd_ c) in
      let c := c <| fd_ := f |> in
      match r with
      | RecvData d =>
          let c := c <| session_ := feed rand now d (session_ c) |> in
          if closed (session_ c) then c else
          if (length d <? kReadBuf)%nat then c else read_loop fuel rand now c
      | RecvEof => c <| socket_error_ := true |>
      | RecvAgain => c
      | RecvIntr => read_loop fuel rand now c
      | RecvFail => c <| socket_error_ := true |>
      end
  end.

Definition service_read (rand : option bytes) (now : Z) (c : XrConnection) : XrConnection :=
  flush (read_loop (S (in_pending (fd_ c))) rand now c).

Definition service_write (c : XrConnection) : XrConnection := flush c.

(** [backend_.poll()]: the sink is the session. *)
Definition pump_backend (now : Z) (c : XrConnection) : XrConnection :=
  let '(b, es) := rb_poll now (bk (session_ c)) in
  c <| session_ := foldl (fun w e => on_event now e w) ((session_ c) <| bk := b |>) es |>.

Definition tick (now : Z) (c : XrConnection) : XrConnection :=
  c <| session_ := xr_session.tick now (session_ c) |>.

Definition want_write (c : XrConnection) : bool := (0 <? out_size (session_ c))%nat.

Definition finished (c : XrConnection) : bool :=
  if socket_error_ c then true else closed (session_ c) && (out_size (session_ c) =? 0)%nat.

End Connection.

Arguments XrConnection B F : clear implicits.
Arguments mkXrConnection {B F}.

End xr_connection.
