(* ===== verification/XrServer.v ===== *)
(** The listener and event loop: src/xr/xr_server.{h,cpp}.

    [link] is [conn_] together with the shared backend: a null pointer leaves
    the backend alone, an active connection holds it.  What the system calls of
    one iteration answer is a [wakeup]: the result of [poll], the readiness of
    the descriptors, and the connections [accept] hands out before it reports
    that there are no more (or fails); [set_nonblocking] of a new descriptor may
    fail.  [XrServer::listen] is in [Listener]. *)

From S2P Require Import Prelude.
From S2P Require Import XrCodec.
From S2P Require Import HmacAuth.
From S2P Require Import RadioBackend.
From S2P Require Import XrSession.
From S2P Require Import XrConnection.

Module xr_server.
Import extradio auth radio_backend xr_session xr_connection.

Section Server.
Context {B F : Type} `{!RadioBackend B} `{!OpenSSL} `{!Socket F}.

Inductive link := NoClient (b : B) | Client (c : XrConnection B F).

Record XrServer := mkXrServer {
  auth_ : AuthConfig;
  to_ : Timeouts;
  max_outbox_ : nat;
  conn_ : link;
  client_fds : list nat  (* of the kernel: descriptors from [accept], not yet closed *)
}.

#[export] Instance eta_XrServer : Eta XrServer :=
  fun s => {| auth_ := auth_ s; to_ := to_ s; max_outbox_ := max_outbox_ s; conn_ := conn_ s;
             client_fds := client_fds s |}.

Definition make (b : B) (auth : AuthConfig) (to : Timeouts) (max_outbox : nat) : XrServer :=
  {| auth_ := auth; to_ := to; max_outbox_ := max_outbox; conn_ := NoClient b; client_fds := [] |}.

(** An accepted descriptor, its number and what is behind it, and whether it
    could be made non-blocking. *)
Record incoming := mkIncoming { in_no : nat; in_fd : F; nonblocking : bool }.

Record wakeup := mkWakeup {
  poll_failed : bool;       (* poll() < 0 and not EINTR *)
  listener_in : bool;       (* POLLIN on the listener *)
  accepts : list incoming;
  conn_in : bool;           (* POLLIN | POLLHUP | POLLERR on the client *)
  conn_out : bool;          (* POLLOUT on the client *)
  rand : option bytes
}.

Definition close_client (fd : nat) (s : XrServer) : XrServer :=
  s <| client_fds := close_fd fd (client_fds s) |>.

(** The accept loop: a newcomer is closed when there is a client, or when it
    cannot be made non-blocking. *)
Fixpoint try_accept (now : Z) (l : list incoming) (s : XrServer) : XrServer :=
  match l with
  | [] => s
  | i :: l =>
      let s := s <| client_fds := in_no i :: client_fds s |> in
      match conn_ s with
      | Client _ => try_accept now l (close_client (in_no i) s)
      | NoClient b =>
          if negb (nonblocking i) then try_accept now l (close_client (in_no i) s) else
          try_accept now l
            (s <| conn_ := Client (connect (in_no i) (in_fd i) b (auth_ s) now (to_ s) (max_outbox_ s)) |>)
      end
  end.

(** Closing the descriptor just accepted leaves the server as it was. *)
Lemma close_newcomer fd s : close_client fd (s <| client_fds := fd :: client_fds s |>) = s.
Proof. destruct s. unfold close_client. cbn -[close_fd]. by rewrite close_fd_newest. Qed.

Definition drop_connection_if_finished (now : Z) (s : XrServer) : XrServer :=
  match conn_ s with
  | Client c => if finished c then close_client (fd_no_ c) (s <| conn_ := NoClient (disconnect now c) |>) else s
  | NoClient _ => s
  end.

Definition on_client (f : XrConnection B F -> XrConnection B F) (s : XrServer) : XrServer :=
  match conn_ s with
  | Client c => s <| conn_ := Client (f c) |>
  | NoClient _ => s
  end.

Definition has_client (s : XrServer) : bool :=
  match conn_ s with Client _ => true | NoClient _ => false end.

(** The readings of the clock in one iteration, one per call that reads it. *)
Record instants := mkInstants {
  at_accept : Z;
  at_read : Z;
  at_poll : Z;
  at_tick : Z;
  at_drop : Z
}.

Definition poll_once (now : instants) (k : wakeup) (s : XrServer) : XrServer :=
  if poll_failed k then s else
  let had_client := has_client s in
  let s := if listener_in k then try_accept (at_accept now) (accepts k) s else s in
  let s := if had_client then
             let s := if conn_in k then on_client (service_read (rand k) (at_read now)) s else s in
             if conn_out k then on_client service_write s else s
           else s in
  match conn_ s with
  | Client _ =>
      let s := on_client (pump_backend (at_poll now)) s in
      let s := on_client (xr_connection.tick (at_tick now)) s in
      let s := on_client service_write s in
      drop_connection_if_finished (at_drop now) s
  | NoClient b => s <| conn_ := NoClient (rb_poll (at_poll now) b).1 |>
  end.

Definition compute_timeout_ms (now : Z) (s : XrServer) : Z :=
  let next := match conn_ s with
              | Client c => let n := rb_next_deadline_ms (bk (session_ c)) in
                            let d := next_deadline_ms (ses (session_ c)) in
                            if d <? n then d else n
              | NoClient b => rb_next_deadline_ms b
              end in
  if next =? UINT64_MAX then 100 else
  if next <=? now then 0 else
  let d := u64 (next - now) in
  if d <? 100 then d else 100.

(** The run of the loop: each iteration polls with its own wakeup. *)
Fixpoint run (ks : list (instants * wakeup)) (s : XrServer) : XrServer :=
  match ks with
  | [] => s
  | (now, k) :: ks => run ks (poll_once now k s)
  end.

(** [XrServer::run]: the stop flag is read before each iteration, given here by
    the value of each load beside what the iteration would meet; [None] is a loop
    that is still running when the schedule ends. *)
Fixpoint run_until (ks : list (bool * (instants * wakeup))) (s : XrServer) : option XrServer :=
  match ks with
  | [] => None
  | (stop, (now, k)) :: ks => if stop then Some s else run_until ks (poll_once now k s)
  end.

(** It returns at the first load of [true], after exactly the iterations before. *)
Lemma run_until_run ks s :
  existsb fst ks = true ->
  exists pre k post, ks = pre ++ (true, k) :: post /\ Forall (fun l => l.1 = false) pre /\
    run_until ks s = Some (run (snd <$> pre) s).
Proof.
  revert s. induction ks as [|[[] [now k]] ks IH]; intros s Hk; [done| |].
  - by exists [], (now, k), ks.
  - destruct (IH (poll_once now k s) Hk) as (pre & k' & post & -> & Hpre & Hr).
    exists ((false, (now, k)) :: pre), k', post. by repeat constructor.
Qed.

(** While every load is [false] it goes on. *)
Lemma run_until_running ks s : Forall (fun l => l.1 = false) ks -> run_until ks s = None.
Proof. intros Hks. revert s. induction Hks as [|[? []] ks]; naive_solver. Qed.

(** The destructor: its effect on the backend and on the clients' descriptors. *)
Definition shutdown (now : Z) (s : XrServer) : B :=
  match conn_ s with Client c => disconnect now c | NoClient b => b end.
Definition shutdown_fds (s : XrServer) : list nat :=
  match conn_ s with Client c => close_fd (fd_no_ c) (client_fds s) | NoClient _ => client_fds s end.

End Server.

(** A clock that stands still during an iteration. *)
Definition steady (now : Z) : instants := mkInstants now now now now now.

End xr_server.
