(* ===== verification/Erasure.v ===== *)
(** Records do not influence the program.

    A morphism of transports ([TransportMorphism]) lifts to the LoRaHAM backend
    on them, a morphism of backends ([BackendMorphism]) to session, connection
    and event loop: every operation commutes with it, hence every run does.
    Forgetting the records that [BackendTraffic] adds to transport and backend is
    such a morphism, so what is proved of a recorded run is true of the run of
    the program itself. *)

From S2P Require Import Prelude.
From S2P Require Import StreamLoop.
From S2P Require Import XrCodec.
From S2P Require Import BoundedBuffer.
From S2P Require Import HmacAuth.
From S2P Require Import RadioBackend.
From S2P Require Import LorahamConfig.
From S2P Require Import LorahamFraming.
From S2P Require Import DaemonTransport.
From S2P Require Import LorahamBackend.
From S2P Require Import BackendFacts.
From S2P Require Import BackendTraffic.
From S2P Require Import XrSession.
From S2P Require Import XrConnection.
From S2P Require Import XrServer.

Module erasure.
Import radio_backend daemon_transport.

(** ** The receive loop *)

Lemma pump_commutes {P F O1 O2} `{!StreamCodec P F} (f : O1 -> O2)
    (h1 : F -> O1 -> O1) (h2 : F -> O2 -> O2) (stop1 : O1 -> bool) (stop2 : O2 -> bool) fuel o p rest :
  (forall x o, h2 x (f o) = f (h1 x o)) -> (forall o, stop2 (f o) = stop1 o) ->
  pump h2 stop2 fuel (f o) p rest = prod_map (prod_map id f) id (pump h1 stop1 fuel o p rest).
Proof.
  intros Hh Hs. revert o p rest. induction fuel as [|fuel IH]; intros o p rest; cbn [pump]; [done|].
  destruct (sc_pop p) as [[|x|] p']; [|rewrite Hh, Hs; by case_match|done].
  destruct rest; [done|]. destruct (sc_push p' _) as [took p'']. by case_match.
Qed.

Lemma stream_loop_commutes {P F O1 O2} `{!StreamCodec P F} (f : O1 -> O2)
    (h1 : F -> O1 -> O1) (h2 : F -> O2 -> O2) (stop1 : O1 -> bool) (stop2 : O2 -> bool) o p rest :
  (forall x o, h2 x (f o) = f (h1 x o)) -> (forall o, stop2 (f o) = stop1 o) ->
  stream_loop h2 stop2 (f o) p rest = prod_map (prod_map id f) id (stream_loop h1 stop1 o p rest).
Proof. apply pump_commutes. Qed.

(** ** The LoRaHAM backend *)

Section Transport.
Import loraham_config loraham loraham_backend.
Context {T1 T2 : Type} `{HT1 : !DaemonTransport T1} `{HT2 : !DaemonTransport T2}.
Context (h : T1 -> T2) `{HM : !TransportMorphism h}.

Definition over (w : world T1) : world T2 := mkWorld (be w) (h (tr w)) (ev w) (rf w).

(** Straight-line code: look at every case of both sides. *)
Ltac straight w := destruct w; unfold over; simpl; repeat case_match; rewrite ?mor_close; done.

Lemma over_deliver e w : deliver e (over w) = over (deliver e w).
Proof. unfold deliver. straight w. Qed.

Lemma over_saw c w : saw c (over w) = over (saw c w).
Proof. done. Qed.

Lemma over_reset w : reset_link_unconfigured (over w) = over (reset_link_unconfigured w).
Proof. unfold reset_link_unconfigured, upd. straight w. Qed.

Lemma over_log_tx o w : log_tx_outcome o (over w) = over (log_tx_outcome o w).
Proof. unfold log_tx_outcome. straight w. Qed.

Lemma over_fault w : enter_fault (over w) = over (enter_fault w).
Proof. unfold enter_fault. rewrite over_log_tx. unfold upd. generalize (log_tx_outcome LogUnconfirmed w) as v. intros v. straight v. Qed.

Lemma over_disconnect w : handle_disconnect (over w) = over (handle_disconnect w).
Proof.
  unfold handle_disconnect. change (state (over w)) with (state w).
  destruct (state w); by rewrite ?over_fault, ?over_reset, ?over_deliver.
Qed.

Lemma over_config_fail w : config_fail (over w) = over (config_fail w).
Proof. unfold config_fail. by rewrite over_reset, <- over_deliver. Qed.

Lemma over_config_succeed w : config_succeed (over w) = over (config_succeed w).
Proof. unfold config_succeed. by rewrite <- over_deliver. Qed.

Lemma over_begin_configure now cfg w :
  begin_configure now cfg (over w) = prod_map id over (begin_configure now cfg w).
Proof.
  unfold begin_configure. change (state (over w)) with (state w).
  destruct (state w); try done.
  all: destruct (validate_config cfg) as [[] [band|]]; try done.
  all: destruct (build_set_command cfg); [|done].
  all: change (tr (over w)) with (h (tr w)); rewrite mor_begin_connect.
  all: destruct (begin_connect band (tr w)) as [[] t]; done.
Qed.

Lemma over_send_loop fuel send1 send2 out off t :
  (forall d t, send2 d (h t) = prod_map id h (send1 d t)) ->
  send_loop fuel send2 out off (h t) = prod_map id h (send_loop fuel send1 out off t).
Proof.
  intros Hs. revert off t. induction fuel as [|fuel IH]; intros off t; cbn [send_loop]; [done|].
  case_match; [done|]. rewrite Hs. destruct (send1 (drop off out) t) as [n t']. cbn [prod_map id fst snd].
  case_match; [done|]. case_match; [done|]. apply IH.
Qed.

Lemma over_pump_conf_loop fuel aw line t :
  pump_conf_loop fuel aw line (h t) = prod_map id h (pump_conf_loop fuel aw line t).
Proof.
  revert line t. induction fuel as [|fuel IH]; intros line t; cbn [pump_conf_loop]; [done|].
  rewrite mor_conf_recv. destruct (conf_recv kReadChunk t) as [[| |d] t']; cbn [prod_map id fst snd]; try done.
  case_match; [done|]. destruct (conf_lines _ _ _) as [[| |r] line']; try done. case_match; [done|]. apply IH.
Qed.

Lemma over_pump_conf aw w : pump_conf aw (over w) = prod_map id over (pump_conf aw w).
Proof.
  unfold pump_conf. change (tr (over w)) with (h (tr w)). rewrite mor_conf_pending.
  change (be (over w)) with (be w). rewrite over_pump_conf_loop.
  by destruct (pump_conf_loop _ _ _ _) as [[r line] t].
Qed.

Lemma over_advance_configure w : advance_configure (over w) = over (advance_configure w).
Proof.
  unfold advance_configure, send_all. change (tr (over w)) with (h (tr w)). change (be (over w)) with (be w).
  rewrite (over_send_loop _ conf_send_some conf_send_some) by apply mor_conf_send_some.
  destruct (send_loop _ _ _ _ _) as [[r off] t]. cbn [prod_map id fst snd].
  set (w1 := upd _ (w <| tr := t |>)). change (upd _ ((over w) <| tr := h t |>)) with (over w1).
  assert (Hrest : forall v, match pump_conf true (over v) with
     | (None, w) => config_fail (saw LinkLost w) | (Some None, w) => w
     | (Some (Some true), w) => config_succeed (saw (StatusIn true) w)
     | (Some (Some false), w) => config_fail (saw (StatusIn false) w) end
   = over match pump_conf true v with
     | (None, w) => config_fail (saw LinkLost w) | (Some None, w) => w
     | (Some (Some true), w) => config_succeed (saw (StatusIn true) w)
     | (Some (Some false), w) => config_fail (saw (StatusIn false) w) end).
  { intros v. rewrite over_pump_conf. destruct (pump_conf true v) as [[[[]|]|] v'];
      cbn [prod_map id fst snd]; by rewrite ?over_saw, ?over_config_fail, ?over_config_succeed. }
  destruct r; [| |rewrite over_saw; apply over_config_fail].
  all: change (be (over w1)) with (be w1);
    set (v := if (_ <=? _)%nat then upd _ w1 else w1);
    replace (if (_ <=? _)%nat then upd _ (over w1) else over w1) with (over v) by (subst v; by case_match);
    change (be (over v)) with (be v); case_match; [done|]; apply Hrest.
Qed.

Lemma over_advance_connect w : advance_connect (over w) = over (advance_connect w).
Proof.
  unfold advance_connect. change (tr (over w)) with (h (tr w)). rewrite mor_poll_connect.
  destruct (poll_connect (tr w)) as [[] t]; cbn [prod_map id fst snd]; [done| |].
  - by rewrite <- over_advance_configure.
  - by rewrite <- over_config_fail.
Qed.

Lemma over_pump_tx_write w : pump_tx_write (over w) = prod_map id over (pump_tx_write w).
Proof.
  unfold pump_tx_write, send_all. change (tr (over w)) with (h (tr w)). change (be (over w)) with (be w).
  rewrite (over_send_loop _ data_send_some data_send_some) by apply mor_data_send_some.
  by destruct (send_loop _ _ _ _ _) as [[r off] t].
Qed.

Lemma over_submit_tx d w : submit_tx d (over w) = prod_map id over (submit_tx d w).
Proof.
  unfold submit_tx. change (state (over w)) with (state w). change (be (over w)) with (be w).
  case_match; [done|]. case_match; [done|]. case_match; [|done].
  change (upd ?f (over w)) with (over (upd f w)). rewrite over_pump_tx_write.
  destruct (pump_tx_write _) as [[] w']; cbn [prod_map id fst snd]; by rewrite ?over_reset.
Qed.

Lemma over_abandon now w : abandon_pending_tx now (over w) = over (abandon_pending_tx now w).
Proof.
  unfold abandon_pending_tx. change (state (over w)) with (state w).
  destruct (state w); by rewrite ?over_reset.
Qed.

Lemma over_finish_tx o w : finish_tx o (over w) = over (finish_tx o w).
Proof.
  unfold finish_tx. change (upd ?f (over w)) with (over (upd f w)).
  change (be (over ?v)) with (be v). case_match; [apply over_deliver|done].
Qed.

Lemma over_dispatch f w : dispatch f (over w) = over (dispatch f w).
Proof.
  unfold dispatch. rewrite over_saw. generalize (saw (FrameIn f) w) as w0. clear w. intros w.
  change (state (over w)) with (state w). case_match; [|case_match].
  - destruct (decode_rx f) as [[[rssi snr] d]|]; [|done].
    change (log_rf ?c (over w)) with (over (log_rf c w)).
    change (state (over ?v)) with (state v). case_match; by rewrite ?over_deliver.
  - destruct (decode_tx_result f) as [[[status ?] ?]|]; [|done].
    set (v := if (_ && _ : bool) then log_tx_outcome LogOk w else w).
    replace (if (_ && _ : bool) then log_tx_outcome LogOk (over w) else over w) with (over v)
      by (subst v; case_match; by rewrite ?over_log_tx).
    change (state (over v)) with (state v). destruct (state v); unfold resolve_drain;
      by rewrite ?over_finish_tx, ?over_reset.
  - case_match; [|done]. destruct (state w); unfold resolve_drain; by rewrite ?over_finish_tx, ?over_reset.
Qed.

Lemma over_data_loop fuel stop1 stop2 w :
  (forall v, stop2 (over v) = stop1 v) -> data_loop fuel stop2 (over w) = over (data_loop fuel stop1 w).
Proof.
  intros Hs. revert w. induction fuel as [|fuel IH]; intros w; cbn [data_loop]; [done|].
  change (tr (over w)) with (h (tr w)). rewrite mor_data_recv.
  destruct (data_recv kReadChunk (tr w)) as [[| |d] t]; cbn [prod_map id fst snd].
  - change ((over w) <| tr := h t |>) with (over (w <| tr := t |>)). rewrite over_saw. apply over_disconnect.
  - done.
  - change (be (over w)) with (be w). set (w1 := upd _ (w <| tr := t |>)).
    change (upd _ ((over w) <| tr := h t |>)) with (over w1).
    rewrite (stream_loop_commutes over dispatch dispatch stop1 stop2) by (done || apply over_dispatch).
    destruct (stream_loop dispatch stop1 w1 _ d) as [[[] w2] p]; cbn [prod_map id fst snd]; [|done|].
    + change (upd ?f (over w2)) with (over (upd f w2)). case_match; [done|]. apply IH.
    + change (upd ?f (over w2)) with (over (upd f w2)). rewrite over_saw. apply over_disconnect.
Qed.

Lemma over_advance_operational w : advance_operational (over w) = over (advance_operational w).
Proof.
  unfold advance_operational. rewrite over_pump_conf.
  destruct (pump_conf false w) as [[r|] w1]; cbn [prod_map id fst snd]; [|rewrite over_saw; apply over_disconnect].
  assert (Hread : forall v, data_loop (S (data_pending (tr (over v)))) torn_down (over v)
                          = over (data_loop (S (data_pending (tr v))) torn_down v)).
  { intros v. change (tr (over v)) with (h (tr v)). rewrite mor_data_pending. by apply over_data_loop. }
  change (state (over w1)) with (state w1). case_match; [|apply Hread].
  rewrite over_pump_tx_write. destruct (pump_tx_write w1) as [[] w2]; cbn [prod_map id fst snd].
  - change (upd ?f (over w2)) with (over (upd f w2)). apply Hread.
  - apply Hread.
  - by rewrite over_saw, over_reset, over_deliver.
Qed.

Lemma over_drain_conf_loop fuel t : drain_conf_loop fuel (h t) = h (drain_conf_loop fuel t).
Proof.
  revert t. induction fuel as [|fuel IH]; intros t; cbn [drain_conf_loop]; [done|].
  rewrite mor_conf_recv. destruct (conf_recv kReadChunk t) as [[| |d] t']; cbn [prod_map id fst snd]; try done.
  case_match; [done|]. apply IH.
Qed.

Lemma over_advance_drain now w : advance_drain now (over w) = over (advance_drain now w).
Proof.
  unfold advance_drain. change (be (over w)) with (be w). case_match; [rewrite over_saw; apply over_fault|].
  assert (drain_conf_input (over w) = over (drain_conf_input w)) as ->.
  { unfold drain_conf_input. change (tr (over w)) with (h (tr w)).
    by rewrite mor_conf_pending, over_drain_conf_loop. }
  generalize (drain_conf_input w) as v. intros v. change (tr (over v)) with (h (tr v)).
  rewrite mor_data_pending. by apply over_data_loop.
Qed.

Lemma over_poll now w : poll now (over w) = over (poll now w).
Proof.
  unfold poll. change (state (over w)) with (state w). change (be (over w)) with (be w).
  destruct (state w); try done; try case_match; rewrite ?over_saw;
    auto using over_config_fail, over_advance_connect, over_advance_configure,
      over_advance_operational, over_advance_drain.
Qed.

(** The backend on the one transport is the backend on the other. *)
#[export] Instance over_morphism : BackendMorphism over.
Proof.
  split; cbn [rb_set_sink rb_begin_configure rb_start rb_stop rb_ready rb_next_deadline_ms rb_submit_tx
              rb_abandon_pending_tx rb_poll loraham_radio_backend].
  - done.
  - apply over_begin_configure.
  - done.
  - intros w. unfold stop. change (state (over w)) with (state w).
    destruct (state w); by rewrite ?over_reset.
  - done.
  - done.
  - apply over_submit_tx.
  - apply over_abandon.
  - intros now w. change ((over w) <| ev := [] |>) with (over (w <| ev := [] |>)). by rewrite over_poll.
Qed.
End Transport.

(** ** Session, connection and event loop *)

Section Backend.
Import extradio auth xr_session xr_connection xr_server.
Context {B1 B2 F : Type} `{HB1 : !RadioBackend B1} `{HB2 : !RadioBackend B2} `{HS : !OpenSSL} `{HF : !Socket F}.
Context (f : B1 -> B2) `{HM : !BackendMorphism f}.

Definition lift (w : world B1) : world B2 := mkWorld (ses w) (f (bk w)) (hist w).

Lemma lift_close r w : xr_session.close r (lift w) = lift (xr_session.close r w).
Proof. unfold xr_session.close, closed, phase. change (ses (lift w)) with (ses w). by case_match. Qed.

Lemma lift_emit ty sq pl n w : emit ty sq pl n (lift w) = prod_map id lift (emit ty sq pl n w).
Proof.
  unfold emit. change (ses (lift w)) with (ses w). destruct (encode _ _ _ _ _) as [bs|]; [|by rewrite lift_close].
  destruct (bounded_buffer.append _ _) as [[] ob]; [done|by rewrite lift_close].
Qed.

Lemma lift_emit_ ty sq pl n w : emit_ ty sq pl n (lift w) = lift (emit_ ty sq pl n w).
Proof. unfold emit_. by rewrite lift_emit. Qed.

Lemma lift_emit_then ty sq pl n k1 k2 w :
  (forall v, k2 (lift v) = lift (k1 v)) ->
  emit_then ty sq pl n k2 (lift w) = lift (emit_then ty sq pl n k1 w).
Proof.
  intros Hk. unfold emit_then. rewrite lift_emit. destruct (emit ty sq pl n w) as [[] v];
    cbn [prod_map id fst snd]; [apply Hk|done].
Qed.

Lemma lift_handle_ready now x w : handle_ready_frame now x (lift w) = lift (handle_ready_frame now x w).
Proof.
  unfold handle_ready_frame. change (ses (lift w)) with (ses w).
  case_match; [|case_match; [|apply lift_close]].
  - case_match; [apply lift_close|]. destruct w. unfold lift, upd. simpl. by case_match.
  - case_match; [apply lift_close|]. change (bk (upd ?g (lift w))) with (f (bk w)). rewrite mor_submit_tx.
    change (bk (upd ?g w)) with (bk w). destruct (rb_submit_tx (payload x) (bk w)) as [[] b];
      cbn [prod_map id fst snd negb]; [done|]. by rewrite <- lift_close.
Qed.

Lemma lift_handle_frame rand now x w : handle_frame rand now x (lift w) = lift (handle_frame rand now x w).
Proof.
  unfold handle_frame. change (did (Recv x) (lift w)) with (lift (did (Recv x) w)).
  generalize (did (Recv x) w) as v. clear w. intros v. change (phase (lift v)) with (phase v).
  case_match; [apply lift_close|]. case_match; [apply lift_close|]. case_match; [apply lift_close|].
  destruct (phase v).
  - case_match; [apply lift_close|]. apply lift_emit_then. clear v. intros v.
    change (ses (lift v)) with (ses v). case_match.
    + destruct (random_nonce rand) as [nonce|]; [|apply lift_close].
      change (upd ?g (lift v)) with (lift (upd g v)). apply (lift_emit_then _ _ _ _ _ _ (upd _ v)). done.
    + by apply lift_emit_then.
  - case_match; [apply lift_close|]. change (ses (lift v)) with (ses v). case_match.
    + by apply lift_emit_then.
    + by rewrite lift_emit_, lift_close.
  - case_match; [apply lift_close|].
    destruct (decodeConfig x) as [cfg|]; [|by rewrite lift_emit_, lift_close].
    case_match; [by rewrite lift_emit_, lift_close|].
    change (bk (lift v)) with (f (bk v)). rewrite mor_begin_configure.
    destruct (rb_begin_configure now cfg (bk v)) as [tok b]. cbn [prod_map id fst snd].
    change (did ?e ((lift v) <| bk := f b |>)) with (lift (did e (v <| bk := b |>))).
    case_match; [by rewrite lift_emit_, lift_close|]. done.
  - apply lift_close.
  - apply lift_handle_ready.
  - done.
Qed.

Lemma lift_feed rand now d w : feed rand now d (lift w) = lift (feed rand now d w).
Proof.
  unfold feed. change (closed (lift w)) with (closed w). case_match; [done|].
  change (ses (lift w)) with (ses w).
  change (set_parser ?p (lift w)) with (lift (set_parser p w)).
  rewrite (stream_loop_commutes lift (handle_frame rand now) (handle_frame rand now) closed closed)
    by (done || apply lift_handle_frame).
  destruct (stream_loop _ _ _ _ _) as [[[] v] p]; cbn [prod_map id fst snd]; try done.
  change (set_parser p (lift v)) with (lift (set_parser p v)). apply lift_close.
Qed.

Lemma lift_on_event now e w : on_event now e (lift w) = lift (on_event now e w).
Proof.
  destruct e as [rx|o| |tok res]; cbn [on_event].
  - unfold on_rx. change (phase (lift w)) with (phase w). case_match; [done|]. case_match; [done|].
    change (did ?n (lift w)) with (lift (did n w)). apply lift_emit_.
  - unfold on_tx_complete, map_and_send_tx_result. change (ses (lift w)) with (ses w). case_match; [done|].
    change (upd ?g (did ?n (lift w))) with (lift (upd g (did n w))). apply lift_emit_.
  - apply lift_close.
  - unfold on_configure_complete. change (phase (lift w)) with (phase w). change (ses (lift w)) with (ses w).
    case_match; [done|]. case_match; [done|].
    change (did ?n (lift w)) with (lift (did n w)). change (ses (lift ?v)) with (ses v).
    case_match; [by rewrite lift_emit_, lift_close|].
    change (upd ?g (lift ?v)) with (lift (upd g v)). by apply lift_emit_then.
Qed.

Lemma lift_tick now w : xr_session.tick now (lift w) = lift (xr_session.tick now w).
Proof.
  unfold xr_session.tick. change (closed (lift w)) with (closed w). change (ses (lift w)) with (ses w).
  change (phase (lift w)) with (phase w). change (bk (lift w)) with (f (bk w)).
  case_match; [done|]. case_match; [apply lift_close|]. case_match; [done|]. case_match.
  { rewrite mor_abandon_pending_tx. by rewrite <- lift_close. }
  case_match; [case_match; [apply lift_close|done]|]. case_match; [by apply lift_emit_then|done].
Qed.

Definition lift_conn (c : XrConnection B1 F) : XrConnection B2 F :=
  mkXrConnection (fd_no_ c) (fd_ c) (lift (session_ c)) (socket_error_ c).

Lemma lift_flush_loop fuel c : flush_loop fuel (lift_conn c) = lift_conn (flush_loop fuel c).
Proof.
  revert c. induction fuel as [|fuel IH]; intros c; cbn [flush_loop]; [done|].
  change (out_size (session_ (lift_conn c))) with (out_size (session_ c)). case_match; [done|].
  change (out_data (session_ (lift_conn c))) with (out_data (session_ c)).
  change (fd_ (lift_conn c)) with (fd_ c).
  destruct (sock_send _ (fd_ c)) as [[n| | |] g]; try done; by rewrite <- IH.
Qed.

Lemma lift_flush c : flush (lift_conn c) = lift_conn (flush c).
Proof. apply lift_flush_loop. Qed.

Lemma lift_read_loop fuel rand now c : read_loop fuel rand now (lift_conn c) = lift_conn (read_loop fuel rand now c).
Proof.
  revert c. induction fuel as [|fuel IH]; intros c; cbn [read_loop]; [done|].
  change (fd_ (lift_conn c)) with (fd_ c).
  destruct (sock_recv kReadBuf (fd_ c)) as [[d| | | |] g]; try done; [|by rewrite <- IH].
  change (session_ ((lift_conn c) <| fd_ := g |>)) with (lift (session_ c)).
  change (session_ (c <| fd_ := g |>)) with (session_ c). rewrite lift_feed.
  set (v := feed rand now d (session_ c)).
  change (((lift_conn c) <| fd_ := g |>) <| session_ := lift v |>)
    with (lift_conn (c <| fd_ := g |> <| session_ := v |>)).
  generalize (c <| fd_ := g |> <| session_ := v |>) as c'. intros c'.
  change (closed (session_ (lift_conn c'))) with (closed (session_ c')).
  case_match; [done|]. case_match; [done|]. apply IH.
Qed.

Lemma lift_service_read rand now c : service_read rand now (lift_conn c) = lift_conn (service_read rand now c).
Proof. unfold service_read. change (fd_ (lift_conn c)) with (fd_ c). by rewrite lift_read_loop, lift_flush. Qed.

Lemma lift_events now es w :
  foldl (fun w e => on_event now e w) (lift w) es = lift (foldl (fun w e => on_event now e w) w es).
Proof. revert w. induction es as [|e es IH]; intros w; cbn [foldl]; [done|]. by rewrite lift_on_event. Qed.

Lemma lift_pump now c : pump_backend now (lift_conn c) = lift_conn (pump_backend now c).
Proof.
  unfold pump_backend. change (bk (session_ (lift_conn c))) with (f (bk (session_ c))). rewrite mor_poll.
  destruct (rb_poll now (bk (session_ c))) as [b es]. cbn [prod_map id fst snd].
  change ((session_ (lift_conn c)) <| bk := f b |>) with (lift ((session_ c) <| bk := b |>)).
  by rewrite lift_events.
Qed.

Lemma lift_disconnect now c : disconnect now (lift_conn c) = f (disconnect now c).
Proof.
  unfold disconnect. change (bk (session_ (lift_conn c))) with (f (bk (session_ c))).
  by rewrite mor_abandon_pending_tx, mor_set_sink, mor_stop.
Qed.

Lemma lift_connect no fd b a now to cap :
  connect no fd (f b) a now to cap = lift_conn (connect (F := F) no fd b a now to cap).
Proof. unfold connect, open, lift_conn. simpl. by rewrite mor_set_sink, mor_start. Qed.

Definition lift_link (l : @link B1 F) : @link B2 F :=
  match l with NoClient b => NoClient (f b) | Client c => Client (lift_conn c) end.
Definition lift_server (s : @XrServer B1 F) : @XrServer B2 F :=
  mkXrServer (xr_server.auth_ s) (xr_server.to_ s) (max_outbox_ s) (lift_link (conn_ s)) (client_fds s).

Lemma lift_try_accept now l s : try_accept now l (lift_server s) = lift_server (try_accept now l s).
Proof.
  revert s. induction l as [|i l IH]; intros s; cbn [try_accept]; [done|].
  destruct s as [a to cap [b|c] fds]; cbn; [|by rewrite <- IH].
  case_match; [by rewrite <- IH|]. rewrite <- IH. f_equal. unfold lift_server. simpl. by rewrite lift_connect.
Qed.

Lemma lift_on_client g1 g2 s :
  (forall c, g2 (lift_conn c) = lift_conn (g1 c)) -> on_client g2 (lift_server s) = lift_server (on_client g1 s).
Proof.
  intros Hg. destruct s as [a to cap [b|c]]; cbn; [done|]. unfold lift_server; simpl. by rewrite Hg.
Qed.

Lemma lift_drop now s : drop_connection_if_finished now (lift_server s) = lift_server (drop_connection_if_finished now s).
Proof.
  destruct s as [a to cap [b|c]]; [done|]. unfold drop_connection_if_finished. cbn [lift_server lift_link conn_].
  change (finished (lift_conn c)) with (finished c). case_match; [|done]. unfold close_client. cbn. by rewrite lift_disconnect.
Qed.

Lemma lift_poll_once now k s : poll_once now k (lift_server s) = lift_server (poll_once now k s).
Proof.
  assert (Hread : forall v, on_client (service_read (rand k) (at_read now)) (lift_server v)
                          = lift_server (on_client (service_read (rand k) (at_read now)) v))
    by (intros v; apply lift_on_client, lift_service_read).
  assert (Hwrite : forall v, on_client service_write (lift_server v) = lift_server (on_client service_write v))
    by (intros v; apply lift_on_client, lift_flush).
  unfold poll_once. case_match; [done|].
  assert (has_client (lift_server s) = has_client s) as -> by (by destruct s as [? ? ? []]).
  set (s1 := if listener_in k then _ else s).
  replace (if listener_in k then try_accept _ _ (lift_server s) else lift_server s) with (lift_server s1)
    by (subst s1; case_match; by rewrite ?lift_try_accept).
  set (s2 := if has_client s then _ else s1).
  match goal with |- (match conn_ ?x with Client _ => _ | NoClient _ => _ end) = _ =>
    replace x with (lift_server s2) end.
  2: { subst s2. repeat case_match; by rewrite ?Hread, ?Hwrite. }
  clearbody s2. revert s2. intros v. destruct v as [a to cap [b|c]].
  - cbn. by rewrite mor_poll.
  - change (conn_ (lift_server ?v)) with (lift_link (conn_ v)). cbn [conn_ lift_link].
    rewrite (lift_on_client (pump_backend (at_poll now)) (pump_backend (at_poll now))) by apply lift_pump.
    rewrite (lift_on_client (xr_connection.tick (at_tick now)) (xr_connection.tick (at_tick now)))
      by (intros c'; unfold xr_connection.tick; simpl; by rewrite lift_tick).
    rewrite Hwrite. apply lift_drop.
Qed.

Lemma lift_run ks s : run ks (lift_server s) = lift_server (run ks s).
Proof.
  revert s. induction ks as [|[now k] ks IH]; intros s; cbn [run]; [done|]. by rewrite lift_poll_once.
Qed.

Lemma lift_shutdown now s : shutdown now (lift_server s) = f (shutdown now s).
Proof. destruct s as [a to cap [b|c]]; [done|]. apply lift_disconnect. Qed.
End Backend.

(** ** Forgetting the records *)

Import backend_traffic.
#[local] Existing Instance loraham_backend.loraham_radio_backend.

#[export] Instance cur_morphism {T} `{!DaemonTransport T} : TransportMorphism (@cur T).
Proof.
  split; cbn [begin_connect poll_connect conf_send_some data_send_some conf_recv data_recv close
              conf_pending data_pending recorded_transport]; try done; intros; unfold through;
    repeat case_match; simpl in *; by simplify_eq/=.
Qed.

#[export] Instance inner_morphism {B} `{!RadioBackend B} : BackendMorphism (@inner B).
Proof.
  split; cbn [rb_set_sink rb_begin_configure rb_start rb_stop rb_ready rb_next_deadline_ms rb_submit_tx
              rb_abandon_pending_tx rb_poll audit_backend]; try done; intros;
    repeat case_match; simpl in *; by simplify_eq/=.
Qed.

#[export] Instance compose_morphism {B1 B2 B3} `{!RadioBackend B1} `{!RadioBackend B2} `{!RadioBackend B3}
    (f : B1 -> B2) (g : B2 -> B3) `{!BackendMorphism f} `{!BackendMorphism g} : BackendMorphism (g ∘ f).
Proof.
  split; intros; unfold compose;
    rewrite ?mor_set_sink, ?mor_begin_configure, ?mor_start, ?mor_stop, ?mor_ready, ?mor_next_deadline_ms,
      ?mor_submit_tx, ?mor_abandon_pending_tx, ?mor_poll; done || by destruct (_ : _ * _).
Qed.

(** The backend without its records. *)
Definition erase {T} (b : audit (loraham_backend.world (recorded T))) : loraham_backend.world T :=
  (over cur ∘ inner) b.

#[export] Instance erase_morphism {T} `{!DaemonTransport T} : BackendMorphism (@erase T).
Proof. apply compose_morphism; apply _. Qed.

(** The recorded bridge is the bridge, with records. *)
(** Recording starts with empty records. *)
Definition record {T} (w : loraham_backend.world T) : audit (loraham_backend.world (recorded T)) :=
  mkAudit (loraham_backend.mkWorld (loraham_backend.be w) (mkRecorded (loraham_backend.tr w) [] [])
             (loraham_backend.ev w) (loraham_backend.rf w)) [].

Lemma erased_run {T F} `{!DaemonTransport T} `{!auth.OpenSSL} `{!xr_connection.Socket F} cto dto (t : T) a to cap
    (ks : list (xr_server.instants * @xr_server.wakeup F)) :
  lift_server erase (xr_server.run ks (xr_server.make (fresh_audit cto dto t) a to cap))
  = xr_server.run ks (xr_server.make (backend_facts.fresh cto dto t) a to cap).
Proof. symmetry. apply (lift_run erase ks (xr_server.make (fresh_audit cto dto t) a to cap)). Qed.

(** ** Invariants of the transport

    The transports that satisfy an invariant are a transport themselves, and
    including them in all transports is a morphism: so whatever the backend
    does, its transport keeps the invariant. *)

Section Kept.
Context {T : Type} `{HT : !DaemonTransport T} (Q : T -> Prop) `{HQ : !TransportInvariant Q}.

Definition kept : Type := { t : T | Q t }.

Definition keep {A : Type} (call : T -> A * T) (H : forall t, Q t -> Q (call t).2) (t : kept) : A * kept :=
  ((call (`t)).1, exist _ (call (`t)).2 (H _ (proj2_sig t))).

#[export] Instance kept_transport : DaemonTransport kept := {|
  begin_connect band := keep (begin_connect band) (tinv_begin_connect band);
  poll_connect := keep poll_connect tinv_poll_connect;
  conf_send_some d := keep (conf_send_some d) (tinv_conf_send_some d);
  data_send_some d := keep (data_send_some d) (tinv_data_send_some d);
  conf_recv cap := keep (conf_recv cap) (tinv_conf_recv cap);
  data_recv cap := keep (data_recv cap) (tinv_data_recv cap);
  close t := exist _ (close (`t)) (tinv_close _ (proj2_sig t));
  conf_pending t := conf_pending (`t);
  data_pending t := data_pending (`t);
  data_sent t := data_sent (`t);
|}.

#[export] Instance kept_morphism : TransportMorphism (proj1_sig : kept -> T).
Proof. split; try done; intros; unfold prod_map; cbn; by destruct (_ : _ * _). Qed.

Lemma run_keeps_transport {F} `{!auth.OpenSSL} `{!xr_connection.Socket F} cto dto (t : T) a to cap now
    (ks : list (xr_server.instants * @xr_server.wakeup F)) :
  Q t ->
  Q (loraham_backend.tr (xr_server.shutdown now
       (xr_server.run ks (xr_server.make (backend_facts.fresh cto dto t) a to cap)))).
Proof.
  intros Ht. pose (t' := exist Q t Ht : kept). pose (s := xr_server.make (F := F) (backend_facts.fresh cto dto t') a to cap).
  change (xr_server.make (backend_facts.fresh cto dto t) a to cap)
    with (lift_server (over (proj1_sig : kept -> T)) s).
  rewrite (lift_run (over (proj1_sig : kept -> T))), (lift_shutdown (over (proj1_sig : kept -> T))).
  apply (proj2_sig (loraham_backend.tr (xr_server.shutdown now (xr_server.run ks s)))).
Qed.
End Kept.
End erasure.
