(* ===== verification/XrServerFacts.v ===== *)
(** Lemmas about the connection and the event loop: the session invariant holds
    of the active client at every iteration, a backend invariant holds of the
    shared backend, and the loops of a connection need no more fuel than given. *)

From S2P Require Import Prelude.
From S2P Require Import StreamLoop.
From S2P Require Import XrCodec.
From S2P Require Import HmacAuth.
From S2P Require Import RadioBackend.
From S2P Require Import XrSession.
From S2P Require Import XrServerSpec.
From S2P Require Import XrSessionFacts.
From S2P Require Import XrSessionProperties.
From S2P Require Import XrConnection.
From S2P Require Import XrServer.

Module xr_server_facts.
Import extradio auth radio_backend xr_session xr_server_spec xr_session_facts
  xr_session_properties xr_connection xr_server.

Section Facts.
Context {B F : Type} `{HB : !RadioBackend B} `{HS : !OpenSSL} `{HF : !Socket F} `{HFL : !SocketLaws F}.

(** The session invariant, for what this socket has been sent. *)
Definition conn_inv (a : AuthConfig) (cap : nat) (c : XrConnection B F) : Prop :=
  session_inv a cap (sock_sent (fd_ c)) (session_ c).

Lemma flush_loop_inv a cap fuel c : conn_inv a cap c -> conn_inv a cap (flush_loop fuel c).
Proof.
  revert c. induction fuel as [|fuel IH]; intros c Hi; cbn [flush_loop]; [done|].
  case_match; [done|].
  destruct (sock_send (out_data (session_ c)) (fd_ c)) as [r f] eqn:Es.
  apply sock_send_spec in Es. destruct r as [n| | |].
  - destruct Es as (Hn & Hs). apply IH. unfold conn_inv in *; simpl. rewrite Hs.
    by apply (do_op_inv a cap _ (OpTake n) (session_ c)).
  - unfold conn_inv in *; simpl. by rewrite Es.
  - apply IH. unfold conn_inv in *; simpl. by rewrite Es.
  - unfold conn_inv in *; simpl. by rewrite Es.
Qed.

Lemma read_loop_inv a cap fuel rd now c :
  rand_ok rd -> conn_inv a cap c -> conn_inv a cap (read_loop fuel rd now c).
Proof.
  intros Hr. revert c. induction fuel as [|fuel IH]; intros c Hi; cbn [read_loop]; [done|].
  destruct (sock_recv kReadBuf (fd_ c)) as [r f] eqn:Es.
  apply sock_recv_spec in Es as [Hs Hd]. destruct r as [d| | | |].
  - destruct Hd as (_ & _ & Hb).
    assert (Hi' : conn_inv a cap (c <| fd_ := f |> <| session_ := feed rd now d (session_ c) |>)).
    { unfold conn_inv in *; simpl. rewrite Hs. by apply feed_inv. }
    case_match; [done|]. case_match; [done|]. by apply IH.
  - unfold conn_inv in *; simpl. by rewrite Hs.
  - unfold conn_inv in *; simpl. by rewrite Hs.
  - apply IH. unfold conn_inv in *; simpl. by rewrite Hs.
  - unfold conn_inv in *; simpl. by rewrite Hs.
Qed.

Lemma service_read_inv a cap rd now c :
  rand_ok rd -> conn_inv a cap c -> conn_inv a cap (service_read rd now c).
Proof. intros Hr Hi. by apply flush_loop_inv, read_loop_inv. Qed.

Lemma events_inv a cap t now es (w : world B) :
  session_inv a cap t w -> session_inv a cap t (foldl (fun w e => on_event now e w) w es).
Proof.
  revert w. induction es as [|e es IH]; intros w Hw; simpl; [done|]. apply IH.
  destruct Hw as [Hw Hp]. split; [by apply on_event_sinv|]. by rewrite on_event_parser.
Qed.

Lemma pump_backend_inv a cap now c : conn_inv a cap c -> conn_inv a cap (pump_backend now c).
Proof.
  intros Hi. unfold pump_backend. destruct (rb_poll now (bk (session_ c))) as [b es].
  unfold conn_inv in *. simpl. apply events_inv.
  pose proof (do_op_inv a cap _ (OpBackend b) (session_ c) [] _ I Hi eq_refl) as H.
  by rewrite app_nil_r in H.
Qed.

Lemma tick_inv a cap now c : conn_inv a cap c -> conn_inv a cap (xr_connection.tick now c).
Proof.
  intros [Hw Hp]. unfold conn_inv; simpl. split; [by apply tick_sinv|]. by rewrite tick_parser.
Qed.

Lemma connect_inv a to cap now no fd b : sock_sent fd = [] -> conn_inv a cap (connect no fd b a now to cap).
Proof. intros Hs. unfold conn_inv; simpl. rewrite Hs. apply opened_inv. Qed.

(** A wakeup the kernel can produce: new sockets are unused. *)
Definition wakeup_ok (k : @wakeup F) : Prop :=
  rand_ok (rand k) /\ Forall (fun i => sock_sent (in_fd i) = []) (accepts k).

Definition server_inv (a : AuthConfig) (cap : nat) (s : @XrServer B F) : Prop :=
  xr_server.auth_ s = a /\ max_outbox_ s = cap /\
  match conn_ s with Client c => conn_inv a cap c | NoClient _ => True end.

Lemma on_client_inv a cap f s :
  (forall c, conn_inv a cap c -> conn_inv a cap (f c)) -> server_inv a cap s ->
  server_inv a cap (on_client f s).
Proof.
  intros Hf (Ha & Hc & Hi). unfold on_client. destruct (conn_ s) eqn:E; unfold server_inv; simpl;
    rewrite ?E; auto.
Qed.

Lemma try_accept_inv a cap now l s :
  Forall (fun i => sock_sent (in_fd i) = []) l -> server_inv a cap s ->
  server_inv a cap (try_accept now l s).
Proof.
  intros Hl. revert s. induction Hl as [|i l Hi _ IH]; intros s Hs; cbn [try_accept]; [done|].
  rewrite close_newcomer. destruct (conn_ _) eqn:E; [|by apply IH]. case_match; apply IH; [done|].
  destruct Hs as (Ha & Hc & _). unfold server_inv; simpl. split_and!; try done.
  rewrite Ha, Hc. by apply connect_inv.
Qed.

Lemma poll_once_inv a cap now k s :
  wakeup_ok k -> server_inv a cap s -> server_inv a cap (poll_once now k s).
Proof.
  intros [Hr Hl] Hs. unfold poll_once. destruct (poll_failed k); [done|].
  set (s1 := if listener_in k then _ else s).
  assert (H1 : server_inv a cap s1) by (subst s1; case_match; auto using try_accept_inv).
  set (s2 := if has_client s then _ else s1).
  assert (H2 : server_inv a cap s2).
  { subst s2. destruct (has_client s); [|done].
    assert (server_inv a cap (if conn_in k then on_client (service_read (rand k) (at_read now)) s1 else s1)).
    { case_match; [apply on_client_inv; [|done]; intros; by apply service_read_inv|done]. }
    destruct (conn_out k); [apply on_client_inv; [|done]; intros; by apply flush_loop_inv|done]. }
  clearbody s2. destruct (conn_ s2) eqn:E.
  - destruct H2 as (Ha & Hc & _). by unfold server_inv.
  - assert (H3 : server_inv a cap (on_client service_write
        (on_client (xr_connection.tick (at_tick now)) (on_client (pump_backend (at_poll now)) s2)))).
    { repeat (apply on_client_inv; [intros; first [by apply flush_loop_inv | by apply tick_inv
        | by apply pump_backend_inv]|]). done. }
    unfold drop_connection_if_finished.
    destruct (conn_ (on_client _ _)) as [|c'] eqn:E'; [done|]. case_match; [|done].
    destruct H3 as (Ha & Hc & _). by unfold server_inv.
Qed.

Lemma run_inv a cap ks s :
  Forall (fun k => wakeup_ok k.2) ks -> server_inv a cap s -> server_inv a cap (run ks s).
Proof.
  intros Hk. revert s. induction Hk as [|[now k] ks Hk _ IH]; intros s Hs; simpl; [done|].
  apply IH. by apply poll_once_inv.
Qed.

(** *** Fuel *)

Lemma flush_loop_fuel `{!SocketFinite F} f1 f2 (c : XrConnection B F) :
  (out_pending (fd_ c) < f1)%nat -> (out_pending (fd_ c) < f2)%nat ->
  flush_loop f1 c = flush_loop f2 c.
Proof.
  revert f2 c. induction f1 as [|f1 IH]; intros [|f2] c H1 H2; try lia. cbn [flush_loop].
  case_match; [done|].
  destruct (sock_send (out_data (session_ c)) (fd_ c)) as [r f] eqn:Es.
  apply sock_send_room in Es. destruct r as [n| | |]; try done; apply IH; simpl; lia.
Qed.

Lemma read_loop_fuel `{!SocketFinite F} f1 f2 rd now (c : XrConnection B F) :
  (in_pending (fd_ c) < f1)%nat -> (in_pending (fd_ c) < f2)%nat ->
  read_loop f1 rd now c = read_loop f2 rd now c.
Proof.
  revert f2 c. induction f1 as [|f1 IH]; intros [|f2] c H1 H2; try lia. cbn [read_loop].
  destruct (sock_recv kReadBuf (fd_ c)) as [r f] eqn:Es.
  apply sock_recv_arrived in Es. destruct r as [d| | | |]; try done.
  - case_match; [done|]. case_match; [done|]. apply IH; simpl; lia.
  - apply IH; simpl; lia.
Qed.
(** *** A client that does not read *)

(** A socket whose peer does not read: the send buffer is full. *)
Definition jammed (f : F) : Prop := forall d, sock_send d f = (SendAgain, f).

(** Closed by the bridge, with output the socket does not take. *)
Definition stuck_conn (c : XrConnection B F) : Prop :=
  jammed (fd_ c) /\
  closed (session_ c) = true /\ tx_in_flight_ (ses (session_ c)) = false /\
  out_size (session_ c) <> 0%nat /\ socket_error_ c = false.

Definition stuck (s : @XrServer B F) : Prop :=
  match conn_ s with Client c => stuck_conn c | NoClient _ => False end.

Definition client_data (s : @XrServer B F) : bytes :=
  match conn_ s with Client c => out_data (session_ c) | NoClient _ => [] end.

Lemma write_blocked (c : XrConnection B F) :
  jammed (fd_ c) -> service_write c = c.
Proof.
  intros Hb. unfold service_write, flush. cbn [flush_loop]. case_match; [done|].
  rewrite Hb. by destruct c.
Qed.

Lemma tick_stuck now (c : XrConnection B F) : stuck_conn c -> xr_connection.tick now c = c.
Proof.
  intros (_ & Hc & _). unfold xr_connection.tick, xr_session.tick. rewrite Hc. by destruct c.
Qed.

Lemma finished_stuck (c : XrConnection B F) : stuck_conn c -> finished c = false.
Proof.
  intros (_ & _ & _ & Ho & He). unfold finished. rewrite He, (proj2 (Nat.eqb_neq _ _)) by done.
  apply andb_false_r.
Qed.

Lemma closed_events now es (w : world B) :
  closed w = true -> tx_in_flight_ (ses w) = false ->
  foldl (fun w e => on_event now e w) w es = w.
Proof.
  intros Hc Htx. induction es as [|e es IH]; simpl; [done|].
  assert (on_event now e w = w) as ->; [|done].
  unfold closed in Hc. pose proof Hc as Hp. apply bool_decide_eq_true in Hp. destruct e; simpl.
  - unfold on_rx. by rewrite Hp.
  - unfold on_tx_complete. by rewrite Htx.
  - unfold on_backend_failure. by apply close_closed.
  - unfold on_configure_complete. by rewrite Hp.
Qed.

Lemma pump_stuck now (c : XrConnection B F) :
  stuck_conn c -> stuck_conn (pump_backend now c) /\
  out_data (session_ (pump_backend now c)) = out_data (session_ c).
Proof.
  intros (Hj & Hc & Htx & Ho & He). unfold pump_backend.
  destruct (rb_poll now (bk (session_ c))) as [b es].
  rewrite (closed_events now es ((session_ c) <| bk := b |>)) by done. done.
Qed.

Lemma on_client_eq (f : XrConnection B F -> XrConnection B F) (s : @XrServer B F) c :
  conn_ s = Client c -> on_client f s = s <| conn_ := Client (f c) |>.
Proof. intros E. unfold on_client. by rewrite E. Qed.

Lemma try_accept_client now l (s : @XrServer B F) c :
  conn_ s = Client c -> try_accept now l s = s.
Proof. intros Hc. induction l as [|i l IH]; cbn [try_accept]; [done|]. rewrite close_newcomer. simpl. by rewrite Hc. Qed.

Lemma stuck_once now k (s : @XrServer B F) :
  conn_in k = false -> stuck s ->
  stuck (poll_once now k s) /\ client_data (poll_once now k s) = client_data s.
Proof.
  intros Hk Hs. unfold stuck in Hs. destruct (conn_ s) as [|c] eqn:E; [done|].
  unfold poll_once. destruct (poll_failed k).
  { unfold stuck. by rewrite E. }
  unfold has_client. rewrite E, Hk, (try_accept_client _ _ _ _ E).
  assert ((if listener_in k then s else s) = s) as -> by (by destruct (listener_in k)).
  assert ((if conn_out k then on_client service_write s else s) = s) as ->.
  { destruct (conn_out k); [|done]. rewrite (on_client_eq _ _ _ E), write_blocked by apply Hs.
    destruct s; simpl in *. by rewrite E. }
  rewrite E, (on_client_eq _ _ _ E). destruct (pump_stuck (at_poll now) c Hs) as [Hs' Hd].
  set (c1 := pump_backend (at_poll now) c) in *.
  rewrite (on_client_eq _ (s <| conn_ := Client c1 |>) c1), tick_stuck by done.
  rewrite (on_client_eq _ _ c1), write_blocked by (done || apply Hs').
  unfold drop_connection_if_finished. simpl. rewrite finished_stuck by done.
  unfold stuck, client_data; simpl. by rewrite E.
Qed.
End Facts.

(** ** The descriptors of clients *)

Section Descriptors.
Context {B F : Type} `{HB : !RadioBackend B} `{HS : !OpenSSL} `{HF : !Socket F}.

Lemma flush_fd_no fuel (c : XrConnection B F) : fd_no_ (flush_loop fuel c) = fd_no_ c.
Proof.
  revert c. induction fuel as [|fuel IH]; intros c; cbn [flush_loop]; [done|].
  case_match; [done|]. case_match. case_match; rewrite ?IH; done.
Qed.

Lemma read_fd_no fuel rd now (c : XrConnection B F) : fd_no_ (read_loop fuel rd now c) = fd_no_ c.
Proof.
  revert c. induction fuel as [|fuel IH]; intros c; cbn [read_loop]; [done|].
  destruct (sock_recv kReadBuf (fd_ c)) as [[d| | | |] f]; rewrite ?IH; try done.
  case_match; [done|]. case_match; [done|]. by rewrite IH.
Qed.

Lemma pump_fd_no now (c : XrConnection B F) : fd_no_ (pump_backend now c) = fd_no_ c.
Proof. unfold pump_backend. by destruct (rb_poll now (bk (session_ c))). Qed.

(** Exactly the client's descriptor is open. *)
Definition fds_inv (s : @XrServer B F) : Prop :=
  client_fds s = match conn_ s with Client c => [fd_no_ c] | NoClient _ => [] end.

Lemma on_client_fds f s : (forall c, fd_no_ (f c) = fd_no_ c) -> fds_inv s -> fds_inv (on_client f s).
Proof.
  intros Hf Hs. unfold fds_inv, on_client in *. destruct (conn_ s) eqn:E; simpl; [by rewrite E|]. by rewrite Hf.
Qed.

Lemma try_accept_fds now l s : fds_inv s -> fds_inv (try_accept now l s).
Proof.
  revert s. induction l as [|i l IH]; intros s Hs; cbn [try_accept]; [done|].
  rewrite close_newcomer. destruct (conn_ _) eqn:E; [|by apply IH]. case_match; apply IH; [done|].
  unfold fds_inv in *. change (conn_ s = NoClient b) in E. rewrite E in Hs. simpl. by rewrite Hs.
Qed.

Lemma poll_once_fds now k s : fds_inv s -> fds_inv (poll_once now k s).
Proof.
  intros Hs. unfold poll_once. destruct (poll_failed k); [done|].
  set (s1 := if listener_in k then _ else s).
  assert (H1 : fds_inv s1) by (subst s1; case_match; auto using try_accept_fds).
  set (s2 := if has_client s then _ else s1).
  assert (H2 : fds_inv s2).
  { subst s2. destruct (has_client s); [|done]. case_match; [apply on_client_fds; [intros; apply flush_fd_no|]|];
      (case_match; [apply on_client_fds; [|done]; intros; unfold service_read, flush; by rewrite flush_fd_no, read_fd_no|done]). }
  clearbody s2. destruct (conn_ s2) eqn:E.
  - unfold fds_inv in *. rewrite E in H2. done.
  - set (s3 := on_client service_write _).
    assert (H3 : fds_inv s3) by (subst s3; repeat (apply on_client_fds;
      [intros; first [apply flush_fd_no | apply pump_fd_no | done]|]); done).
    clearbody s3. unfold drop_connection_if_finished. destruct (conn_ s3) as [|c3] eqn:E3; [done|].
    case_match; [|done]. unfold fds_inv in *. rewrite E3 in H3. unfold close_client. cbn -[close_fd].
    by rewrite H3, close_fd_newest.
Qed.

Lemma run_fds ks s : fds_inv s -> fds_inv (run ks s).
Proof.
  revert s. induction ks as [|[now k] ks IH]; intros s Hs; simpl; [done|]. by apply IH, poll_once_fds.
Qed.

(** The destructor leaves none. *)
Lemma shutdown_fds_nil s : fds_inv s -> shutdown_fds s = [].
Proof.
  unfold fds_inv, shutdown_fds. intros Hs. destruct (conn_ s); [done|]. rewrite Hs. apply close_fd_newest.
Qed.
End Descriptors.

(** ** Invariants of the event loop

    [W] is kept by the session while a client is there, [P] by the backend when
    there is none. *)

Class LoopInvariant {B : Type} `{!RadioBackend B} `{!OpenSSL} (W : world B -> Prop) (P : B -> Prop) := {
  loop_connect b a now to cap :
    P b -> W (open now (mkWorld (xr_session.make a to cap) (rb_set_sink true b) []));
  loop_feed rd now d w : W w -> W (feed rd now d w);
  loop_consume n w : W w -> W (out_consume n w);
  loop_pump now w : W w -> W (w <| bk := (rb_poll now (bk w)).1 |>);
  loop_event now e w : W w -> W (on_event now e w);
  loop_tick now w : W w -> W (xr_session.tick now w);
  loop_disconnect now w : W w -> P (rb_stop (rb_set_sink false (rb_abandon_pending_tx now (bk w))));
  loop_idle now b : P b -> P (rb_poll now b).1;
}.

Section Loop.
Context {B F : Type} `{HB : !RadioBackend B} `{HS : !OpenSSL} `{HF : !Socket F}.
Context (W : world B -> Prop) (P : B -> Prop) `{HW : !LoopInvariant W P}.

Definition conn_holds (c : XrConnection B F) : Prop := W (session_ c).

Definition server_holds (s : @XrServer B F) : Prop :=
  match conn_ s with Client c => W (session_ c) | NoClient b => P b end.

Lemma flush_holds fuel c : conn_holds c -> conn_holds (flush_loop fuel c).
Proof.
  revert c. induction fuel as [|fuel IH]; intros c Hc; cbn [flush_loop]; [done|].
  case_match; [done|]. case_match. case_match; try apply IH; try done. by apply loop_consume.
Qed.

Lemma read_loop_holds fuel rd now c : conn_holds c -> conn_holds (read_loop fuel rd now c).
Proof.
  revert c. induction fuel as [|fuel IH]; intros c Hc; cbn [read_loop]; [done|].
  destruct (sock_recv kReadBuf (fd_ c)) as [[d| | | |] f]; try (apply IH; done); try done.
  assert (Hf : W (feed rd now d (session_ c))) by (by apply loop_feed).
  case_match; [done|]. case_match; [done|]. by apply IH.
Qed.

Lemma events_hold now es w : W w -> W (foldl (fun w e => on_event now e w) w es).
Proof.
  revert w. induction es as [|e es IH]; intros w Hw; simpl; [done|]. by apply IH, loop_event.
Qed.

Lemma pump_holds now c : conn_holds c -> conn_holds (pump_backend now c).
Proof.
  intros Hc. unfold pump_backend. pose proof (loop_pump now (session_ c) Hc) as Hb.
  destruct (rb_poll now (bk (session_ c))) as [b es]. unfold conn_holds; simpl.
  by apply events_hold.
Qed.

Lemma on_client_holds f s :
  (forall c, conn_holds c -> conn_holds (f c)) -> server_holds s -> server_holds (on_client f s).
Proof.
  intros Hf Hs. unfold server_holds, on_client in *. destruct (conn_ s) eqn:E; simpl; [by rewrite E|].
  by apply (Hf c).
Qed.

Lemma try_accept_holds now l s : server_holds s -> server_holds (try_accept now l s).
Proof.
  revert s. induction l as [|i l IH]; intros s Hs; cbn [try_accept]; [done|].
  rewrite close_newcomer. destruct (conn_ _) eqn:E; [|by apply IH]. case_match; apply IH; [done|].
  unfold server_holds in *. change (conn_ s = NoClient b) in E. rewrite E in Hs. by apply loop_connect.
Qed.

Lemma drop_holds now s : server_holds s -> server_holds (drop_connection_if_finished now s).
Proof.
  intros Hs. unfold drop_connection_if_finished. destruct (conn_ s) as [b|c] eqn:E; [done|].
  case_match; [|done]. unfold server_holds in *. rewrite E in Hs. by apply loop_disconnect.
Qed.

Lemma poll_once_holds now k s : server_holds s -> server_holds (poll_once now k s).
Proof.
  intros Hs. unfold poll_once. destruct (poll_failed k); [done|].
  set (s1 := if listener_in k then _ else s).
  assert (H1 : server_holds s1) by (subst s1; case_match; auto using try_accept_holds).
  set (s2 := if has_client s then _ else s1).
  assert (H2 : server_holds s2).
  { subst s2. destruct (has_client s); [|done]. case_match; [apply on_client_holds; [intros; by apply flush_holds|]|];
      (case_match; [apply on_client_holds; [|done]; intros; by apply flush_holds, read_loop_holds|done]). }
  clearbody s2. destruct (conn_ s2) eqn:E.
  - unfold server_holds in H2. rewrite E in H2. by apply loop_idle.
  - set (s3 := on_client service_write _).
    assert (H3 : server_holds s3) by (subst s3; repeat (apply on_client_holds;
      [intros; first [by apply flush_holds | by apply loop_tick | by apply pump_holds]|]); done).
    clearbody s3. by apply drop_holds.
Qed.

Lemma run_server_holds ks s : server_holds s -> server_holds (run ks s).
Proof.
  revert s. induction ks as [|[now k] ks IH]; intros s Hs; simpl; [done|].
  by apply IH, poll_once_holds.
Qed.
End Loop.

(** ** Invariants of the backend *)

Section Transfer.
Context {B F : Type} `{HB : !RadioBackend B} `{HS : !OpenSSL} `{HF : !Socket F}.
Context (P : B -> Prop) `{HP : !BackendInvariant P}.

Definition holds (w : world B) : Prop := P (bk w).

Lemma close_holds r w : holds (close r w) <-> holds w.
Proof. unfold close. by case_match. Qed.

Lemma emit_holds ty sq pl n w : holds (emit ty sq pl n w).2 <-> holds w.
Proof.
  unfold emit. case_match; [|apply close_holds]. case_match. case_match; [done|apply close_holds].
Qed.

Lemma emit_then_holds ty sq pl n k w :
  (forall w, holds w -> holds (k w)) -> holds w -> holds (emit_then ty sq pl n k w).
Proof.
  intros Hk Hw. unfold emit_then. rewrite <- (emit_holds ty sq pl n w) in Hw.
  destruct (emit ty sq pl n w) as [[] w']; auto.
Qed.

Lemma handle_ready_holds now f w : holds w -> holds (handle_ready_frame now f w).
Proof.
  intros Hw. unfold handle_ready_frame. case_match.
  { case_match; [by apply close_holds|]. by case_match. }
  case_match; [|by apply close_holds]. case_match; [by apply close_holds|].
  pose proof (inv_submit_tx (payload f) (bk w) Hw) as Hb. simpl.
  destruct (rb_submit_tx (payload f) (bk w)) as [ok b]. destruct ok; [done|].
  by apply close_holds.
Qed.

Lemma handle_frame_holds rd now f w : holds w -> holds (handle_frame rd now f w).
Proof.
  intros Hw. unfold handle_frame. set (w0 := did (Recv f) w).
  assert (Hw0 : holds w0) by done. clearbody w0.
  case_match; [by apply close_holds|]. case_match; [by apply close_holds|].
  case_match; [by apply close_holds|].
  destruct (phase w0); try (case_match; [by apply close_holds|]).
  - apply emit_then_holds; [|done]. intros w1 Hw1. case_match; [|by apply emit_then_holds].
    case_match; [by apply emit_then_holds|by apply close_holds].
  - case_match; [by apply emit_then_holds|]. by apply close_holds, emit_holds.
  - destruct (decodeConfig f) as [cfg|]; [|by apply close_holds, emit_holds].
    case_match; [by apply close_holds, emit_holds|].
    pose proof (inv_begin_configure now cfg (bk w0) Hw0) as Hb.
    destruct (rb_begin_configure now cfg (bk w0)) as [tok b].
    case_match; [by apply close_holds, emit_holds | done].
  - by apply close_holds.
  - by apply handle_ready_holds.
  - done.
Qed.

Lemma feed_holds rd now d w : holds w -> holds (feed rd now d w).
Proof.
  intros Hw. unfold feed. case_match; [done|].
  destruct (stream_loop _ _ _ _ _) as [[e w'] p] eqn:E.
  apply (stream_loop_invariant _ _ holds) in E; [|intros; by apply handle_frame_holds|done].
  destruct e; [done|done|]. by apply close_holds.
Qed.

Lemma on_event_holds now e w : holds w -> holds (on_event now e w).
Proof.
  intros Hw. destruct e as [rx|o| |tok res]; simpl.
  - unfold on_rx. do 2 (case_match; [done|]). by apply emit_holds.
  - unfold on_tx_complete. case_match; [done|]. by apply emit_holds.
  - by apply close_holds.
  - unfold on_configure_complete. do 2 (case_match; [done|]).
    case_match; [by apply close_holds, emit_holds|]. by apply emit_then_holds.
Qed.

Lemma tick_holds now w : holds w -> holds (xr_session.tick now w).
Proof.
  intros Hw. unfold xr_session.tick. case_match; [done|]. case_match; [by apply close_holds|].
  case_match; [done|]. case_match.
  { apply close_holds. by apply inv_abandon_pending_tx. }
  case_match; [case_match; [by apply close_holds|done]|].
  case_match; [by apply emit_then_holds|done].
Qed.

(** The shared backend. *)
Definition backend_of (s : @XrServer B F) : B :=
  match conn_ s with Client c => bk (session_ c) | NoClient b => b end.

#[local] Instance holds_loop : LoopInvariant holds P.
Proof.
  split.
  - intros. by apply inv_start, inv_set_sink.
  - apply feed_holds.
  - done.
  - intros now w Hw. by apply inv_poll.
  - apply on_event_holds.
  - apply tick_holds.
  - intros now w Hw. by apply inv_stop, inv_set_sink, inv_abandon_pending_tx.
  - intros now b Hb. by apply inv_poll.
Qed.

Lemma run_holds ks (s : @XrServer B F) : P (backend_of s) -> P (backend_of (run ks s)).
Proof.
  assert (He : forall s, server_holds holds P s <-> P (backend_of s))
    by (intros [? ? ? []]; done).
  rewrite <- !He. apply (run_server_holds holds P).
Qed.
End Transfer.
End xr_server_facts.
