(* ===== verification/Deadlines.v ===== *)
(** The deadlines of session and backend are 64-bit values, whatever the clock
    and the timeouts are: every one is stored as a [uint64_t] sum.  Hence what
    the event loop computes from them does not depend on assumptions about the
    state it is in. *)

From S2P Require Import Prelude.
From S2P Require Import StreamLoop.
From S2P Require Import XrCodec.
From S2P Require Import HmacAuth.
From S2P Require Import RadioBackend.
From S2P Require Import DaemonTransport.
From S2P Require Import LorahamConfig.
From S2P Require Import LorahamBackend.
From S2P Require Import BackendSteps.
From S2P Require Import BackendFacts.
From S2P Require Import XrSession.
From S2P Require Import XrConnection.
From S2P Require Import XrServer.
From S2P Require Import XrServerFacts.

Module deadlines.
Import extradio auth radio_backend daemon_transport xr_session xr_connection xr_server xr_server_facts.

(** ** The session *)

Record timed (s : XrSession) : Prop := {
  timed_phase : is_u64 (deadline_at_ s);
  timed_tx : is_u64 (tx_deadline_at_ s);
  timed_ping : is_u64 (next_ping_at_ s);
  timed_pong : is_u64 (pong_deadline_at_ s)
}.

(** A session with the deadlines of another one, or new ones. *)
Ltac timed := by split; simpl; auto using u64_range, timed_phase, timed_tx, timed_ping, timed_pong.

Section Session.
Context {B : Type} `{HB : !RadioBackend B} `{HS : !OpenSSL}.

Definition on_time (w : world B) : Prop := timed (ses w).

Lemma close_timed r w : on_time w -> on_time (close r w).
Proof. unfold on_time, close. case_match; [done|]. intros Hw. timed. Qed.

Lemma emit_timed ty sq pl n w : on_time w -> on_time (emit ty sq pl n w).2.
Proof.
  intros H. unfold emit. case_match; [|by apply close_timed]. case_match. case_match; [|by apply close_timed].
  unfold on_time in *. timed.
Qed.

Lemma emit_then_timed ty sq pl n k w :
  (forall w, on_time w -> on_time (k w)) -> on_time w -> on_time (emit_then ty sq pl n k w).
Proof.
  intros Hk Hw. unfold emit_then. apply (emit_timed ty sq pl n) in Hw.
  destruct (emit ty sq pl n w) as [[] w']; auto.
Qed.

Lemma arm_timed now t r w : on_time w -> on_time (arm now t r w).
Proof. intros H. unfold on_time in *. timed. Qed.

Lemma set_phase_timed p w : on_time w -> on_time (set_phase p w).
Proof. intros H. unfold on_time in *. timed. Qed.

Lemma handle_ready_timed now f w : on_time w -> on_time (handle_ready_frame now f w).
Proof.
  intros H. unfold handle_ready_frame. case_match.
  { case_match; [by apply close_timed|]. unfold on_time in *. case_match; timed. }
  case_match; [|by apply close_timed]. case_match; [by apply close_timed|].
  destruct (rb_submit_tx _ _) as [[] b]; [|apply close_timed]; unfold on_time in *; timed.
Qed.

Lemma handle_frame_timed rd now f w : on_time w -> on_time (handle_frame rd now f w).
Proof.
  intros Hw. unfold handle_frame. set (w0 := did (Recv f) w).
  assert (Hw0 : on_time w0) by done. clearbody w0.
  do 3 (case_match; [by apply close_timed|]).
  destruct (phase w0); try (case_match; [by apply close_timed|]).
  - apply emit_then_timed; [|done]. intros w1 Hw1. case_match.
    + case_match; [|by apply close_timed].
      apply emit_then_timed; [intros; by apply arm_timed, set_phase_timed|]. unfold on_time in *. timed.
    + apply emit_then_timed; [|done]. intros. by apply arm_timed, set_phase_timed.
  - case_match; [|by apply close_timed, emit_timed].
    apply emit_then_timed; [|done]. intros. by apply arm_timed, set_phase_timed.
  - destruct (decodeConfig f) as [cfg|]; [|by apply close_timed, emit_timed].
    case_match; [by apply close_timed, emit_timed|].
    destruct (rb_begin_configure now cfg (bk w0)) as [tok b].
    case_match; [by apply close_timed, emit_timed|]. apply arm_timed, set_phase_timed. unfold on_time in *. timed.
  - by apply close_timed.
  - by apply handle_ready_timed.
  - done.
Qed.

Lemma set_parser_timed p w : on_time w -> on_time (set_parser p w).
Proof. intros H. unfold on_time in *. timed. Qed.

Lemma feed_timed rd now d w : on_time w -> on_time (feed rd now d w).
Proof.
  intros Hw. unfold feed. case_match; [done|].
  destruct (stream_loop _ _ _ _ _) as [[e w'] p] eqn:E.
  apply (stream_loop_invariant _ _ on_time) in E;
    [|intros; by apply handle_frame_timed|by apply set_parser_timed].
  destruct e; auto using set_parser_timed, close_timed.
Qed.

Lemma on_event_timed now e w : on_time w -> on_time (on_event now e w).
Proof.
  intros Hw. destruct e as [rx|o| |tok res]; simpl.
  - unfold on_rx. do 2 (case_match; [done|]). by apply emit_timed.
  - unfold on_tx_complete, map_and_send_tx_result. case_match; [done|]. apply emit_timed. unfold on_time in *. timed.
  - by apply close_timed.
  - unfold on_configure_complete. do 2 (case_match; [done|]).
    case_match; [by apply close_timed, emit_timed|]. apply emit_then_timed.
    + intros. unfold on_time in *. timed.
    + unfold on_time in *. timed.
Qed.

Lemma tick_timed now w : on_time w -> on_time (xr_session.tick now w).
Proof.
  intros Hw. unfold xr_session.tick. case_match; [done|]. case_match; [by apply close_timed|].
  case_match; [done|]. case_match; [by apply close_timed|].
  case_match; [case_match; [by apply close_timed|done]|].
  case_match; [|done]. apply emit_then_timed; [|done]. intros. unfold on_time in *. timed.
Qed.

Lemma next_deadline_u64 s : timed s -> is_u64 (next_deadline_ms s).
Proof.
  intros [H1 H2 H3 H4]. unfold next_deadline_ms.
  assert (is_u64 UINT64_MAX) by (unfold UINT64_MAX; unfold_ints; lia).
  repeat case_match; done.
Qed.
End Session.

(** ** The LoRaHAM backend *)

Section Backend.
Import loraham_config loraham_backend backend_steps backend_facts.
Context {T : Type} `{HT : !DaemonTransport T} `{HL : !DaemonTransportLaws T}.

Definition backend_times (b : LorahamBackend) : Z * Z := (config_deadline_at_ b, drain_deadline_at_ b).

Definition clocked (w : world T) : Prop :=
  owner_inv w /\ is_u64 (backend_times (be w)).1 /\ is_u64 (backend_times (be w)).2.

Lemma reset_times (w : world T) : backend_times (be (reset_link_unconfigured w)) = backend_times (be w).
Proof. done. Qed.

Lemma submit_times d (w : world T) : backend_times (be (submit_tx d w).2) = backend_times (be w).
Proof.
  unfold submit_tx. repeat (case_match; [done|]). case_match; [|done].
  unfold pump_tx_write. destruct (send_all _ _ _ _) as [[[] off] t]; done.
Qed.

#[export] Instance clocked_invariant : BackendInvariant clocked.
Proof.
  split.
  - intros on w (Hi & H). split; [exact (inv_set_sink (P := owner_inv) on w Hi)|done].
  - intros now cfg w (Hi & H1 & H2). split; [exact (inv_begin_configure (P := owner_inv) now cfg w Hi)|].
    cbn. unfold begin_configure. repeat case_match; try done; simpl; auto using u64_range.
  - intros w (Hi & H). split; [exact (inv_start (P := owner_inv) w Hi)|done].
  - intros w (Hi & H). split; [exact (inv_stop (P := owner_inv) w Hi)|]. cbn. unfold stop. by case_match.
  - intros d w (Hi & H). split; [exact (inv_submit_tx (P := owner_inv) d w Hi)|].
    pose proof (submit_times d w) as E. unfold clocked, backend_times in *. cbn in *. injection E as -> ->. done.
  - intros now w (Hi & H1 & H2). split; [exact (inv_abandon_pending_tx (P := owner_inv) now w Hi)|].
    cbn. unfold abandon_pending_tx. case_match; try done; simpl; auto using u64_range.
  - intros now w (Hi & H). split; [exact (inv_poll (P := owner_inv) now w Hi)|]. cbn.
    assert (Hi' : owner_inv (w <| ev := [] |>)) by exact Hi.
    pose proof (poll_statics now _ Hi') as Hs. unfold statics in Hs. unfold backend_times in *.
    injection Hs as _ _ -> -> _. done.
Qed.

Lemma clocked_deadline (w : world T) : clocked w -> is_u64 (rb_next_deadline_ms w).
Proof.
  intros (_ & H1 & H2). cbn. unfold next_deadline_ms.
  assert (is_u64 UINT64_MAX) by (unfold UINT64_MAX; unfold_ints; lia). by case_match.
Qed.
End Backend.

(** ** The event loop *)

Section Loop.
Context {B F : Type} `{HB : !RadioBackend B} `{HS : !OpenSSL} `{HF : !Socket F}.
Context (P : B -> Prop) `{HP : !BackendInvariant P}.

Definition punctual (w : world B) : Prop := on_time w /\ P (bk w).

#[export] Instance punctual_loop : LoopInvariant punctual P.
Proof.
  split.
  - intros b a now to cap Hb. split; [|by apply inv_start, inv_set_sink].
    split; simpl; auto using u64_range; unfold_ints; lia.
  - intros rd now d w [Hw Hb]. split; [by apply feed_timed|by apply (feed_holds P)].
  - intros n w [Hw Hb]. split; [|done]. unfold on_time in *. timed.
  - intros now w [Hw Hb]. split; [done|by apply inv_poll].
  - intros now e w [Hw Hb]. split; [by apply on_event_timed|by apply (on_event_holds P)].
  - intros now w [Hw Hb]. split; [by apply tick_timed|by apply (tick_holds P)].
  - intros now w [_ Hb]. by apply inv_stop, inv_set_sink, inv_abandon_pending_tx.
  - intros now b Hb. by apply inv_poll.
Qed.

(** Every deadline the event loop has to serve. *)
Definition deadlines (s : @XrServer B F) : list Z :=
  match conn_ s with
  | Client c => [rb_next_deadline_ms (bk (session_ c)); next_deadline_ms (ses (session_ c))]
  | NoClient b => [rb_next_deadline_ms b]
  end.

Lemma run_deadlines_u64 ks b a to cap :
  (forall b, P b -> is_u64 (rb_next_deadline_ms b)) -> P b ->
  Forall is_u64 (deadlines (run ks (xr_server.make b a to cap))).
Proof.
  intros Hd Hb. assert (H : server_holds punctual P (run ks (xr_server.make b a to cap)))
    by (apply (run_server_holds punctual P); exact Hb).
  unfold server_holds, deadlines in *. destruct (conn_ _) as [b'|c].
  - apply Forall_singleton. by apply Hd.
  - destruct H as [H1 H2]. apply Forall_cons. split; [by apply Hd|]. apply Forall_singleton.
    by apply next_deadline_u64.
Qed.
End Loop.
End deadlines.
