(* ===== verification/ScriptedSocket.v ===== *)
(** A scripted client socket on which the witnesses evaluate the server: the
    chunks the next reads return, and how many bytes each of the next sends
    accepts; when that is used up the send buffer is full. *)

From S2P Require Import Prelude.
From S2P Require Import XrConnection.

Module scripted_socket.
Import xr_connection.

Record socket := mkSocket { inq : list bytes; quota : list nat; outq : bytes }.

(** Bytes on the wire are bytes. *)
Definition peer_bytes (l : bytes) : bytes := (fun b => b mod 256) <$> l.

Lemma peer_bytes_typed l : is_bytes (peer_bytes l).
Proof.
  apply Forall_fmap. apply Forall_true. intros x. pose proof (Z.mod_pos_bound x 256). simpl. int_lia.
Qed.

Definition socket_recv (cap : nat) (s : socket) : recv_answer * socket :=
  match inq s with
  | [] => (RecvAgain, s)
  | d :: rest =>
      (if (0 <? length d)%nat && (length d <=? cap)%nat then RecvData (peer_bytes d) else RecvFail,
       mkSocket rest (quota s) (outq s))
  end.

Definition socket_send (d : bytes) (s : socket) : send_answer * socket :=
  match quota s, d with
  | [], _ | _, [] => (SendAgain, s)
  | n :: rest, _ =>
      let n := Nat.min (S n) (length d) in
      (SendN n, mkSocket (inq s) rest (outq s ++ take n d))
  end.

#[export] Instance scripted : Socket socket := {|
  sock_recv := socket_recv;
  sock_send := socket_send;
  in_pending s := length (inq s);
  out_pending s := length (quota s);
  sock_sent := outq;
|}.

#[export] Instance scripted_laws : SocketLaws socket.
Proof.
  split; simpl.
  - unfold socket_recv. intros cap s r f'. destruct (inq s) as [|d rest]; [by intros [= <- <-]|].
    intros [= <- <-]. split; [done|].
    destruct ((0 <? length d)%nat && (length d <=? cap)%nat) eqn:E; [|done].
    apply andb_true_iff in E as [E1 E2]. unfold peer_bytes. rewrite length_fmap.
    split; [by destruct d|]. split; [lia|apply peer_bytes_typed].
  - intros [|b d] [i [|n q] o] r f'; cbn [socket_send quota]; intros [= <- <-]; try done.
    cbn [sock_sent outq quota]. split; [simpl; lia|done].
Qed.

#[export] Instance scripted_finite : SocketFinite socket.
Proof.
  split; simpl.
  - unfold socket_recv. intros cap s r f'. destruct (inq s) as [|d rest]; [by intros [= <- <-]|].
    intros [= <- <-]. destruct (_ && _); simpl; [lia|done].
  - intros [|b d] [i [|n q] o] r f'; cbn [socket_send quota]; intros [= <- <-]; try done. simpl. lia.
Qed.

Lemma full_jammed i o d : sock_send d (mkSocket i [] o) = (SendAgain, mkSocket i [] o).
Proof. done. Qed.
End scripted_socket.
