(* ===== verification/XrServerProperties.v ===== *)
(** The properties of the connection and of the event loop.  The witnesses run
    the server on a scripted socket. *)

From S2P Require Import Prelude.
From S2P Require Import XrCodec.
From S2P Require Import HmacAuth.
From S2P Require Import RadioBackend.
From S2P Require Import DaemonTransport.
From S2P Require Import LorahamBackend.
From S2P Require Import BackendFacts.
From S2P Require Import BackendTraffic.
From S2P Require Import ScriptedTransport.
From S2P Require Import BackendProperties.
From S2P Require Import FakeBackend.
From S2P Require Import XrSession.
From S2P Require Import XrServerSpec.
From S2P Require Import XrSessionFacts.
From S2P Require Import XrSessionProperties.
From S2P Require Import XrConnection.
From S2P Require Import XrServer.
From S2P Require Import Erasure.
From S2P Require Import XrServerFacts.
From S2P Require Import Clock.
From S2P Require Import Deadlines.
From S2P Require Import ScriptedSocket.

Module xr_server_properties.
Import extradio auth radio_backend daemon_transport backend_facts backend_traffic xr_session xr_server_spec xr_session_facts
  xr_connection xr_server xr_server_facts erasure deadlines.

#[local] Existing Instance loraham_backend.loraham_radio_backend.

(** * Properties *)

Section Properties.
Context {B F : Type} `{HB : !RadioBackend B} `{HS : !OpenSSL} `{HF : !Socket F} `{HFL : !SocketLaws F}.

(** C5. The composed server keeps every session correct: after any number of
    event-loop iterations -- whatever the clients send, the backend reports and
    the kernel answers -- the active session's history is accepted by the server
    monitor of XR v1, and the bytes its client has been sent, followed by the
    bytes still queued, are exactly the frames of that history. *)
Theorem server_sessions_correct (b : B) (a : AuthConfig) (to : Timeouts) (cap : nat)
    (ks : list (instants * wakeup)) (c : XrConnection B F) :
  Forall (fun k => wakeup_ok k.2) ks ->
  conn_ (run ks (xr_server.make b a to cap)) = Client c ->
  mrun a (hist (session_ c)) = Some (quiet (session_ c)) /\
  sock_sent (fd_ c) ++ out_data (session_ c) = wire (hist (session_ c)) /\
  (out_size (session_ c) <= cap)%nat.
Proof.
  intros Hk Hc.
  assert (Hi : server_inv a cap (run ks (xr_server.make b a to cap))) by (by apply run_inv).
  destruct Hi as (_ & _ & Hi). rewrite Hc in Hi. destruct Hi as [Hi _].
  destruct (si_at _ _ _ _ Hi) as [Hr _ Hb Hcap Hw _]. split_and!; [done|done|].
  unfold out_size. rewrite <- Hcap. apply Hb.
Qed.

(** The poll timeout never oversleeps, for any state with 64-bit deadlines. *)
Lemma timeout_serves_deadlines (now : Z) (s : @XrServer B F) :
  0 <= now <= UINT64_MAX - 100 -> Forall is_u64 (deadlines s) ->
  let t := compute_timeout_ms now s in
  0 <= t <= 100 /\
  Forall (fun d => now < d -> now + t <= d) (deadlines s) /\
  (Exists (fun d => d <= now) (deadlines s) -> t = 0).
Proof.
  unfold compute_timeout_ms, deadlines, UINT64_MAX. intros Hn Hd. destruct (conn_ s) as [b|c].
  - apply Forall_singleton in Hd. rewrite Forall_singleton, Exists_cons, Exists_nil.
    repeat case_match; int_lia.
  - apply Forall_cons in Hd as [Hd1 Hd2]. apply Forall_singleton in Hd2.
    rewrite Forall_cons, Forall_singleton, !Exists_cons, Exists_nil.
    repeat case_match; int_lia.
Qed.

(** C17. A client that stops reading keeps its slot: once the bridge has closed a
    session whose output the peer's socket does not take, no iteration of the
    event loop drops the connection (as long as the peer sends nothing and stays
    connected), whatever else happens and however many newcomers are refused. *)
Theorem stuck_client_keeps_slot (s : @XrServer B F) (ks : list (instants * wakeup)) :
  Forall (fun k => conn_in k.2 = false) ks -> stuck s ->
  stuck (run ks s) /\ client_data (run ks s) = client_data s.
Proof.
  intros Hk. revert s. induction Hk as [|[now k] ks Hin _ IH]; intros s Hs; simpl; [done|].
  destruct (stuck_once now k s Hin Hs) as [H1 H2].
  destruct (IH _ H1) as [H3 H4]. split; [done|]. by rewrite H4.
Qed.

(** The fuel of a connection's loops is enough as long as a call meets finitely
    many answers: more of it changes neither a read nor a flush. *)
Theorem connection_loops_terminate `{!SocketFinite F} (fuel : nat) (rd : option bytes) (now : Z)
    (c : XrConnection B F) :
  ((in_pending (fd_ c) < fuel)%nat ->
   read_loop fuel rd now c = read_loop (S (in_pending (fd_ c))) rd now c) /\
  ((out_pending (fd_ c) < fuel)%nat -> flush_loop fuel c = flush c).
Proof. split; intros; [apply read_loop_fuel | apply flush_loop_fuel]; lia. Qed.
End Properties.

(** Ownership across the whole bridge: whatever the clients, the kernel and
    the daemon do -- clients that connect, time out, break the protocol or vanish
    at any moment, newcomers, lost links -- the bytes on the daemon's DATA socket
    agree with the backend's state: a packet the bridge still owns is at the
    daemon only as a strict prefix, one the daemon owns is there completely, and
    a ready backend is at a packet boundary. *)
Theorem bridge_ownership {T F : Type} `{HT : !DaemonTransport T} `{HTL : !DaemonTransportLaws T}
    `{HS : !OpenSSL} `{HF : !Socket F} (cto dto : Z) (t : T) (a : AuthConfig) (to : Timeouts)
    (cap : nat) (ks : list (instants * @wakeup F)) :
  bytes_agree (backend_of (run ks (xr_server.make (fresh cto dto t) a to cap))).
Proof. apply owner_bytes. by apply (run_holds owner_inv). Qed.

(** C16. The poll timeout never oversleeps: whatever has happened to the bridge,
    at whatever reading of the steady clock it is computed, it is between 0 and
    100 ms, it ends no later than any deadline of the session or the backend that
    lies ahead, and it is 0 as soon as one is due. *)
Theorem timeout_never_oversleeps {T F : Type} `{HT : !DaemonTransport T} `{HTL : !DaemonTransportLaws T}
    `{HS : !OpenSSL} `{HF : !Socket F} (cto dto : Z) (t : T) (a : AuthConfig) (to : Timeouts)
    (cap : nat) (ks : list (instants * @wakeup F)) (c : clock.SteadyClock) :
  let s := run ks (xr_server.make (fresh cto dto t) a to cap) in
  let now := clock.steady_now_ms c in
  let timeout := compute_timeout_ms now s in
  0 <= timeout <= 100 /\
  Forall (fun d => now < d -> now + timeout <= d) (deadlines s) /\
  (Exists (fun d => d <= now) (deadlines s) -> timeout = 0).
Proof.
  intros s now. apply timeout_serves_deadlines.
  - subst now. rewrite clock.steady_quot. pose proof (clock.steady_range c). unfold UINT64_MAX.
    Z.div_mod_to_equations. lia.
  - apply (run_deadlines_u64 clocked); [apply clocked_deadline|]. repeat split; unfold_ints; simpl; lia.
Qed.

Lemma backend_of_lift {B1 B2 F : Type} (f : B1 -> B2) (s : @XrServer B1 F) :
  backend_of (lift_server f s) = f (backend_of s).
Proof. by destruct s as [a to cap [b|c]]. Qed.

Lemma traffic_of_run {T F : Type} `{HT : !DaemonTransport T} `{HTL : !DaemonTransportLaws T}
    `{HS : !OpenSSL} `{HF : !Socket F} (cto dto : Z) (t : T) (a : AuthConfig) (to : Timeouts)
    (cap : nat) (ks : list (instants * @wakeup F)) :
  let b := backend_of (run ks (xr_server.make (fresh_audit cto dto t) a to cap)) in
  erase b = backend_of (run ks (xr_server.make (fresh cto dto t) a to cap)) /\
  handed_over (streams (loraham_backend.tr (inner b))) (accepted b).
Proof.
  cbv zeta. split; [by rewrite <- (erased_run cto dto t), backend_of_lift|]. apply traffic_handed.
  apply (run_holds audited ks (xr_server.make (fresh_audit cto dto t) a to cap)), fresh_audited.
Qed.

(** C3. Nothing is sent twice: over every run of the event loop -- any clients,
    any daemon, any number of lost links and reconnects -- the bytes on the
    daemon's DATA socket agree with the backend's state (a bridge-owned packet is
    there only as a strict prefix, a daemon-owned one completely, a ready backend
    is at a packet boundary), the DATA bytes of every connection to the daemon
    are whole TX packets followed at most by the beginning of one more, and all
    these packets together, in the order they were handed over, are a subsequence
    of the packets the backend accepted: no packet reaches the daemon completely
    unless it was accepted, none reaches it more often than it was accepted, none
    out of order.  The records of bytes and of accepted packets this speaks of
    are kept beside the run: without them it is the run of the bridge, call for
    call. *)
Theorem packets_at_most_once {T F : Type} `{HT : !DaemonTransport T} `{HTL : !DaemonTransportLaws T}
    `{HS : !OpenSSL} `{HF : !Socket F} (cto dto : Z) (t : T) (a : AuthConfig) (to : Timeouts)
    (cap : nat) (ks : list (instants * @wakeup F)) :
  let b := backend_of (run ks (xr_server.make (fresh_audit cto dto t) a to cap)) in
  erase b = backend_of (run ks (xr_server.make (fresh cto dto t) a to cap)) /\
  bytes_agree (erase b) /\
  handed_over (streams (loraham_backend.tr (inner b))) (accepted b).
Proof.
  destruct (traffic_of_run cto dto t a to cap ks) as [He Ht]. split; [exact He|]. split; [|exact Ht].
  rewrite He. apply bridge_ownership.
Qed.

(** Teardown preserves ownership: when a connection is destroyed while the
    daemon owns a packet, the LoRaHAM backend goes into draining with the frame
    kept and the daemon link untouched; a backend already draining or faulted
    keeps its state and its link; every other state ends disconnected.  In all
    cases the sink is detached. *)
Theorem teardown_keeps_ownership {T F : Type} `{!DaemonTransport T}
    (now : Z) (c : XrConnection (loraham_backend.world T) F) :
  let w := bk (session_ c) in
  let w' := disconnect now c in
  loraham_backend.sink_ (loraham_backend.be w') = false /\
  match loraham_backend.state w with
  | loraham_backend.TxPending =>
      loraham_backend.state w' = loraham_backend.Draining /\
      loraham_backend.tx_out_ (loraham_backend.be w') = loraham_backend.tx_out_ (loraham_backend.be w) /\
      loraham_backend.tr w' = loraham_backend.tr w
  | loraham_backend.Draining | loraham_backend.Faulted =>
      loraham_backend.state w' = loraham_backend.state w /\
      loraham_backend.tr w' = loraham_backend.tr w
  | _ => loraham_backend.state w' = loraham_backend.Disconnected
  end.
Proof.
  intros w w'. subst w'. unfold disconnect; simpl. fold w. clearbody w. clear c.
  unfold loraham_backend.abandon_pending_tx, loraham_backend.stop, loraham_backend.set_sink.
  destruct w as [be tr ev rf]. unfold loraham_backend.state; simpl.
  destruct be as [? ? ? ? st]; simpl. by destruct st.
Qed.

(** ** Witnesses *)

Module server_witnesses.
Import scripted_socket xr_session_properties.witnesses.

#[local] Existing Instance auth.toy_openssl.
#[local] Existing Instance fake_backend.fake_radio_backend.
#[local] Existing Instance scripted_transport.script_transport.
#[local] Existing Instance scripted_transport.script_transport_laws.

Definition quiet_wakeup : @wakeup socket := mkWakeup false false [] false false None.
Definition newcomer (s : socket) : @wakeup socket :=
  mkWakeup false true [mkIncoming 5 s true] false false None.
Definition readable : @wakeup socket := mkWakeup false false [] true true (Some nonce).

(** A client shakes hands over a socket that takes a few bytes at a time. *)
Definition client : socket := mkSocket [hello ++ proof ++ configure; request] [4; 9; 20; 100]%nat [].
Definition ks : list (instants * @wakeup socket) :=
  [(steady 0, newcomer client); (steady 10, readable); (steady 20, newcomer client); (steady 30, quiet_wakeup)].
Definition served := Eval vm_compute in
  xr_server.run ks (xr_server.make fake_backend.make pw default_timeouts 4096).
Definition active := Eval vm_compute in
  match conn_ served with
  | Client c => c
  | NoClient b => connect 5 client b pw 0 default_timeouts 4096
  end.

Lemma wakeups_ok : Forall (fun k => wakeup_ok k.2) ks.
Proof.
  assert (Hn : rand_ok None) by (intros n Hn; discriminate Hn).
  repeat (apply List.Forall_cons; [split;
    [first [exact Hn | intros n [= <-]; reflexivity]
    | repeat (apply List.Forall_cons; [reflexivity|]); apply List.Forall_nil]|]).
  apply List.Forall_nil.
Defined.

Lemma server_sessions_correct_witness :
  phase (session_ active) = Ready /\ mrun pw (hist (session_ active)) = Some (MReady None false).
Proof.
  split; [reflexivity|].
  refine (proj1 (server_sessions_correct fake_backend.make pw default_timeouts 4096 ks active
            wakeups_ok _)). vm_compute. reflexivity.
Defined.

Example served_timeouts :
  deadlines served = [UINT64_MAX; 15010] /\
  map (fun now => compute_timeout_ms now served) [40; 14950; 15009; 15010; 20000] = [100; 60; 1; 0; 0].
Proof. vm_compute. auto. Qed.

(** A client that breaks the protocol and does not read the answer. *)
Definition deaf : socket := mkSocket [hello ++ hello] [] [].
Definition jam := Eval vm_compute in
  xr_server.run [(steady 0, newcomer deaf); (steady 10, readable)]
    (xr_server.make fake_backend.make pw default_timeouts 4096).

Lemma stuck_client_keeps_slot_witness :
  has_client jam = true /\
  stuck (xr_server.run [(steady 1000, newcomer client); (steady 100000, newcomer client)] jam) /\
  client_data (xr_server.run [(steady 1000, newcomer client); (steady 100000, newcomer client)] jam) = client_data jam.
Proof.
  split; [reflexivity|].
  refine (stuck_client_keeps_slot jam [(steady 1000, newcomer client); (steady 100000, newcomer client)] _ _).
  - repeat (apply List.Forall_cons; [reflexivity|]). apply List.Forall_nil.
  - split; [intros d; apply full_jammed|]. vm_compute. repeat split. discriminate.
Defined.

Lemma connection_loops_terminate_witness :
  flush_loop 9 (connect 5 client fake_backend.make pw 0 default_timeouts 4096) =
  flush (connect 5 client fake_backend.make pw 0 default_timeouts 4096).
Proof.
  refine (proj2 (connection_loops_terminate 9 None 0
            (connect 5 client fake_backend.make pw 0 default_timeouts 4096)) _).
  vm_compute. repeat constructor.
Defined.

(** The whole bridge on a scripted daemon: the client hangs up while the daemon
    owns its packet. *)
Definition daemon : scripted_transport.script :=
  backend_properties.scenario.daemon [] [].
Definition leaver : socket := mkSocket [hello ++ proof ++ configure; request; []] [100; 100; 100]%nat [].
Definition ks_leave : list (instants * @wakeup socket) :=
  [(steady 0, newcomer leaver); (steady 10, readable); (steady 20, quiet_wakeup); (steady 30, readable); (steady 40, readable);
   (steady 50, newcomer client)].
Definition left_behind := Eval vm_compute in
  backend_of (xr_server.run ks_leave
    (xr_server.make (fresh 2000 30000 daemon) pw default_timeouts 4096)).

Definition audited_run := Eval vm_compute in
  backend_of (xr_server.run ks_leave (xr_server.make (fresh_audit 2000 30000 daemon) pw default_timeouts 4096)).

(** The packet of the client that left is at the daemon, once. *)
Lemma packets_at_most_once_witness :
  streams (loraham_backend.tr (inner audited_run)) = [[]; tx_frame [170; 187]] /\
  accepted audited_run = [[170; 187]] /\
  erase audited_run = left_behind /\ bytes_agree (erase audited_run) /\
  handed_over (streams (loraham_backend.tr (inner audited_run))) (accepted audited_run).
Proof.
  split; [vm_compute; reflexivity|]. split; [vm_compute; reflexivity|].
  assert (audited_run = backend_of (xr_server.run ks_leave
    (xr_server.make (fresh_audit 2000 30000 daemon) pw default_timeouts 4096))) as ->
    by (vm_compute; reflexivity).
  assert (left_behind = backend_of (xr_server.run ks_leave
    (xr_server.make (fresh 2000 30000 daemon) pw default_timeouts 4096))) as ->
    by (vm_compute; reflexivity).
  exact (packets_at_most_once 2000 30000 daemon pw default_timeouts 4096 ks_leave).
Defined.

(** A client has sent a packet; at 9.97 s it is 60 ms to the end of the wait for
    its result. *)
Definition pending : @XrServer (loraham_backend.world scripted_transport.script) socket :=
  xr_server.run (take 4 ks_leave) (xr_server.make (fresh 2000 30000 daemon) pw default_timeouts 4096).
Program Definition at_9970_ms : clock.SteadyClock := {| clock.steady_ns := 9970000000 |}.
Next Obligation. lia. Qed.

Lemma timeout_never_oversleeps_witness :
  deadlines pending = [UINT64_MAX; 10030] /\ compute_timeout_ms 9970 pending = 60 /\
  Forall (fun d => 9970 < d -> 9970 + compute_timeout_ms 9970 pending <= d) (deadlines pending).
Proof.
  split; [vm_compute; reflexivity|]. split; [vm_compute; reflexivity|].
  exact (proj1 (proj2 (timeout_never_oversleeps 2000 30000 daemon pw default_timeouts 4096
    (take 4 ks_leave) at_9970_ms))).
Defined.
End server_witnesses.
End xr_server_properties.
