(* ===== verification/RfLog.v ===== *)
(** The RF log: src/util/rflog.{h,cpp}.

    The formatting functions write into a caller's buffer of [cap] bytes; the
    buffer is a list of that length and a store outside it is [None], so that
    memory safety is a statement of the model ([rflog_line_exact]).  Retention
    works on the two files of the log, the live one and the previous segment;
    what the system calls of one write answer is an [env].

    The time stamp is computed from the answer of [clock_gettime] ([gmtime_r] in
    the proleptic Gregorian calendar); the text of [strerror] is an argument. *)

From S2P Require Import Prelude.
From S2P Require Import Printf.
From S2P Require Import Clock.

Module rflog.
Import printf clock.

Definition kMaxBytes : Z := 5 * 1024 * 1024.
Definition kLineMax : nat := 1024.

(** ** Stores into a buffer *)

Definition poke (i : nat) (v : Z) (b : bytes) : option bytes :=
  if (i <? length b)%nat then Some (<[i := v]> b) else None.

Fixpoint poke_all (i : nat) (l : bytes) (b : bytes) : option bytes :=
  match l with
  | [] => Some b
  | v :: l => b ← poke i v b; poke_all (S i) l b
  end.

(** [snprintf(out + pos, pos < cap ? cap - pos : 0, "%s", text)]. *)
Definition snprintf_at (b : bytes) (pos : nat) (text : bytes) : option bytes :=
  match (if (pos <? length b)%nat then length b - pos else 0)%nat with
  | O => Some b
  | S room =>
      let t := take room text in
      b ← poke_all pos t b; poke (pos + length t) 0 b
  end.

Definition put (b : bytes) (pos : nat) (text : bytes) : option (bytes * nat) :=
  b ← snprintf_at b pos text; Some (b, pos + length text)%nat.

(** ** The payload *)

Definition digit (d : Z) : Z := if d <? 10 then 48 + d else 87 + d.
Definition hex_pair (x : Z) : bytes := [digit (Z.shiftr x 4); digit (Z.land x 15)].
Definition printable (c : Z) : Z :=
  if (32 <=? c) && (c <? 127) && negb (c =? 34) && negb (c =? 92) then c else 46.

Fixpoint hex_loop (rf : bytes) (pos : nat) (b : bytes) : option (bytes * nat) :=
  match rf with
  | [] => Some (b, pos)
  | x :: rf =>
      if (pos + 2 <? length b)%nat then
        b ← poke pos (digit (Z.shiftr x 4)) b;
        b ← poke (S pos) (digit (Z.land x 15)) b;
        hex_loop rf (S (S pos)) b
      else Some (b, pos)
  end.

Fixpoint ascii_loop (rf : bytes) (pos : nat) (b : bytes) : option (bytes * nat) :=
  match rf with
  | [] => Some (b, pos)
  | x :: rf =>
      if (pos + 1 <? length b)%nat then
        b ← poke pos (printable x) b; ascii_loop rf (S pos) b
      else Some (b, pos)
  end.

(** The characters [" hex="], [" ascii="] and the quote. *)
Definition s_hex : bytes := str " hex=".
Definition s_ascii : bytes := str " ascii=" ++ [34].
Definition s_end : bytes := [34; LF].

(** The buffer and the returned length. *)
Definition append_payload (b : bytes) (pos : nat) (rf : bytes) : option (bytes * nat) :=
  let cap := length b in
  '(b, pos) ← put b pos s_hex;
  '(b, pos) ← hex_loop rf pos b;
  '(b, pos) ← put b pos s_ascii;
  '(b, pos) ← ascii_loop rf pos b;
  '(b, pos) ← put b pos s_end;
  if (cap <=? pos)%nat then
    b ← poke (cap - 2) LF b;
    b ← poke (cap - 1) 0 b;
    Some (b, cap - 1)%nat
  else
    b ← poke pos 0 b; Some (b, pos).

(** ** The lines *)

Definition head_rx (utc : option bytes) (rssi_cdbm snr_cdb : Z) (len : nat) : bytes :=
  default (str "-") utc ++ str " RX rssi=" ++ fmt_fixed_quot 2 rssi_cdbm 100 ++ str " snr=" ++
  fmt_fixed_quot 2 snr_cdb 100 ++ str " len=" ++ fmt_u (Z.of_nat len).

Definition head_tx (utc outcome : option bytes) (len : nat) : bytes :=
  default (str "-") utc ++ str " TX rssi=- snr=- len=" ++ fmt_u (Z.of_nat len) ++
  str " outcome=" ++ default (str "-") outcome.

(** A formatted head, then the payload; [None] for [out] is a null pointer. *)
Definition format_line (out : option bytes) (head rf : bytes) : option (option bytes * nat) :=
  match out with
  | None => Some (None, 0%nat)
  | Some b =>
      if (length b <? 8)%nat then Some (Some b, 0%nat) else
      let cap := length b in
      b ← snprintf_at b 0 head;
      let n := length head in
      let pos := if (n <? cap)%nat then n else (cap - 1)%nat in
      '(b, n) ← append_payload b pos rf; Some (Some b, n)
  end.

Definition format_rx (out : option bytes) (utc : option bytes) (rssi_cdbm snr_cdb : Z) (rf : bytes) :=
  format_line out (head_rx utc rssi_cdbm snr_cdb (length rf)) rf.

Definition format_tx (out : option bytes) (utc outcome : option bytes) (rf : bytes) :=
  format_line out (head_tx utc outcome (length rf)) rf.

(** ** The time stamp *)

(** [ts]: what [clock_gettime] answers, [None] for a failure. *)
Definition utc_now (ts : option (Z * Z)) : bytes :=
  let '(sec, nsec) := default (0, 0) ts in
  take 39 (strftime_iso sec ++ str "." ++ fmt_pad 3 (nsec / 1000000) ++ str "Z").

(** ** The files *)

Record state := mkState {
  g_fd : bool;            (* g_fd >= 0 *)
  g_path : bytes;
  g_max_bytes : Z;
  live : bytes;           (* the contents of g_path *)
  prev : bytes            (* the contents of g_path + ".1" *)
}.

#[export] Instance eta_state : Eta state := fun s =>
  {| g_fd := g_fd s; g_path := g_path s; g_max_bytes := g_max_bytes s; live := live s; prev := prev s |}.

(** The answer of a write: a count, EINTR, another error.  A used-up list of
    answers means that everything is written. *)
Inductive wrote := Wrote (n : nat) | WroteIntr | WroteErr.
(** The answer of [pread]: at most so many bytes, EINTR, another error. *)
Inductive red := Red (n : nat) | RedIntr | RedErr.

Record env := mkEnv {
  fstat_ok : bool;
  prev_open : bool;
  reads : list red;
  prev_writes : list wrote;
  truncate_ok : bool;
  writes : list wrote
}.

(** The write loop: the bytes written, success, the answers left. *)
Fixpoint write_loop (ws : list wrote) (rest : bytes) : bytes * bool * list wrote :=
  match rest, ws with
  | [], _ => ([], true, ws)
  | _, [] => (rest, true, [])
  | _, WroteIntr :: ws => write_loop ws rest
  | _, WroteErr :: ws => ([], false, ws)
  | _, Wrote n :: ws =>
      let '(out, ok, ws) := write_loop ws (drop n rest) in (take n rest ++ out, ok, ws)
  end.

Definition kChunk : nat := Z.to_nat 65536.

(** How many bytes a read returns at most. *)
Definition read_size (rs : list red) : nat :=
  match rs with Red n :: _ => Nat.min (S n) kChunk | _ => kChunk end.

(** Copy what is behind [off] of the live file: the bytes copied, success. *)
Fixpoint copy_loop (fuel : nat) (rs : list red) (ws : list wrote) (rest : bytes) : bytes * bool :=
  match fuel with
  | O => ([], false)
  | S fuel =>
      match rs with
      | RedIntr :: rs => copy_loop fuel rs ws rest
      | RedErr :: _ => ([], false)
      | _ =>
          match take (read_size rs) rest with
          | [] => ([], true)
          | chunk =>
              let '(out, ok, ws) := write_loop ws chunk in
              if negb ok then (out, false) else
              let '(out', ok) := copy_loop fuel (tail rs) ws (drop (length chunk) rest) in
              (out ++ out', ok)
          end
      end
  end.

(** The copy, and the previous segment behind it: opening it empties it. *)
Definition copy_to_previous (e : env) (s : state) : bool * state :=
  if negb (prev_open e) then (false, s) else
  let '(out, ok) := copy_loop (S (length (live s) + length (reads e))) (reads e) (prev_writes e) (live s) in
  (ok, s <| prev := out |>).

Definition write_line (e : env) (line : bytes) (s : state) : state :=
  let s :=
    if fstat_ok e && (g_max_bytes s <? zlen (live s) + zlen line) then
      let '(ok, s) := copy_to_previous e s in
      if ok && truncate_ok e then s <| live := [] |> else s
    else s in
  let '(out, _, _) := write_loop (writes e) line in
  s <| live := live s ++ out |>.

(** ** The interface *)

(** [opened]: the descriptor [open] returns, or the text of its error. *)
Definition open (path : bytes) (opened : bytes + unit) (content : bytes * bytes) (s : state)
    : (bool * bytes) * state :=
  match path with
  | 47 :: _ =>
      match opened with
      | inl why => ((false, str "cannot open RF log " ++ path ++ str ": " ++ why), s)
      | inr _ => ((true, []), s <| g_fd := true |> <| g_path := path |> <| live := content.1 |>
                                <| prev := content.2 |>)
      end
  | _ => ((false, str "--rflog-path must be an absolute path"), s)
  end.

Definition close (s : state) : state :=
  s <| g_fd := false |> <| g_path := [] |> <| g_max_bytes := kMaxBytes |>.

Definition active (s : state) : bool := g_fd s.

Definition set_max_bytes (max_bytes : Z) (s : state) : state := s <| g_max_bytes := max_bytes |>.

(** [junk]: the buffer before it is written. *)
Definition log_line (e : env) (junk : bytes) (format : option bytes -> option (option bytes * nat))
    (s : state) : option state :=
  if negb (g_fd s) then Some s else
  match format (Some junk) with
  | Some (Some b, n) => Some (write_line e (take n b) s)
  | _ => None
  end.

Definition rx (e : env) (ts : option (Z * Z)) (junk : bytes) (rssi_cdbm snr_cdb : Z) (rf : bytes)
    (s : state) : option state :=
  log_line e junk (fun out => format_rx out (Some (utc_now ts)) rssi_cdbm snr_cdb rf) s.

Definition tx (e : env) (ts : option (Z * Z)) (junk : bytes) (outcome rf : bytes) (s : state)
    : option state :=
  log_line e junk (fun out => format_tx out (Some (utc_now ts)) (Some outcome) rf) s.

(** ** Lemmas: a line in its buffer *)

(** The whole text of a line, and what a buffer of [cap] bytes makes of it. *)
Definition line_text (head rf : bytes) : bytes :=
  head ++ s_hex ++ concat (map hex_pair rf) ++ s_ascii ++ map printable rf ++ s_end.

Definition fitted (cap : nat) (text : bytes) : bytes :=
  if (length text <? cap)%nat then text else take (cap - 2) text ++ [LF].

(** [b] holds the text [T] as far as it fits before the last byte. *)
Definition holds (cap : nat) (T b : bytes) : Prop :=
  length b = cap /\ forall i, (i < cap - 1)%nat -> (i < length T)%nat -> b !! i = T !! i.

Lemma poke_spec i v b : (i < length b)%nat -> poke i v b = Some (<[i := v]> b).
Proof. intros H. unfold poke. by rewrite (proj2 (Nat.ltb_lt _ _) H). Qed.

Lemma poke_all_spec l i b :
  (i + length l <= length b)%nat ->
  exists b', poke_all i l b = Some b' /\ length b' = length b /\
    forall j, b' !! j = if decide (i <= j < i + length l)%nat then l !! (j - i)%nat else b !! j.
Proof.
  revert i b. induction l as [|v l IH]; cbn [poke_all length]; intros i b H.
  - exists b. split; [done|]. split; [done|]. intros j. by rewrite decide_False by lia.
  - rewrite poke_spec by lia. cbn [mbind option_bind].
    destruct (IH (S i) (<[i := v]> b)) as (b' & -> & Hl & Hb); [rewrite length_insert; lia|].
    exists b'. split; [done|]. split; [by rewrite Hl, length_insert|]. intros j. rewrite Hb.
    destruct (decide (j = i)) as [->|Hne].
    + rewrite decide_False, decide_True by lia. rewrite list_lookup_insert_eq by lia.
      by rewrite Nat.sub_diag.
    + destruct (decide (S i <= j < S i + length l)%nat).
      * rewrite decide_True by lia. by replace (j - i)%nat with (S (j - S i)) by lia.
      * rewrite decide_False by lia. by rewrite list_lookup_insert_ne.
Qed.

(** A store of the next character of the text. *)
Lemma holds_poke cap T b v :
  holds cap T b -> (length T < cap)%nat ->
  exists b', poke (length T) v b = Some b' /\ holds cap (T ++ [v]) b'.
Proof.
  intros [Hl Hb] H. rewrite poke_spec by lia. eexists. split; [done|].
  split; [by rewrite length_insert|]. intros i Hi. rewrite length_app. cbn [length]. intros Hi'.
  destruct (decide (i = length T)) as [->|].
  - by rewrite list_lookup_insert_eq, list_lookup_middle by lia.
  - rewrite list_lookup_insert_ne, lookup_app_l by lia. apply Hb; lia.
Qed.

(** The end of the buffer is not part of what it holds. *)
Lemma holds_beyond cap T b i v : holds cap T b -> (length T <= i \/ cap <= S i)%nat -> holds cap T (<[i := v]> b).
Proof.
  intros [Hl Hb] H. split; [by rewrite length_insert|]. intros j Hj1 Hj2.
  rewrite list_lookup_insert_ne by lia. by apply Hb.
Qed.

Lemma holds_snprintf cap T b text :
  holds cap T b -> exists b', snprintf_at b (length T) text = Some b' /\ holds cap (T ++ text) b'.
Proof.
  intros [Hl Hb]. unfold snprintf_at. rewrite Hl.
  destruct (Nat.ltb_spec (length T) cap) as [H|H].
  - destruct (cap - length T)%nat as [|room] eqn:Er; [lia|].
    pose proof (length_take text room) as Ht.
    destruct (poke_all_spec (take room text) (length T) b) as (b1 & -> & Hl1 & Hb1); [lia|].
    cbn [mbind option_bind]. rewrite poke_spec by lia. eexists. split; [done|].
    split; [by rewrite length_insert, Hl1|]. intros i Hi. rewrite length_app. intros Hi2.
    rewrite list_lookup_insert_ne by lia. rewrite Hb1.
    case_decide as Hd.
    + rewrite lookup_app_r, lookup_take by lia. by rewrite decide_True by lia.
    + rewrite lookup_app_l by lia. apply Hb; lia.
  - eexists. split; [done|]. split; [done|]. intros i Hi Hi2. rewrite lookup_app_l by lia.
    apply Hb; lia.
Qed.

Lemma holds_put cap T b text :
  holds cap T b ->
  exists b', put b (length T) text = Some (b', length (T ++ text)) /\ holds cap (T ++ text) b'.
Proof.
  intros H. destruct (holds_snprintf cap T b text H) as (b' & E & H'). exists b'.
  unfold put. rewrite E. cbn [mbind option_bind]. by rewrite length_app.
Qed.

(** The loops write the characters of a prefix of the payload, and of all of it
    unless the buffer is full. *)
Lemma hex_loop_holds cap rf T b :
  holds cap T b ->
  exists k b', let T' := T ++ concat (map hex_pair (take k rf)) in
    hex_loop rf (length T) b = Some (b', length T') /\ holds cap T' b' /\
    ((length rf <= k)%nat \/ (cap - 2 <= length T')%nat).
Proof.
  revert T b. induction rf as [|x rf IH]; intros T b H; cbn [hex_loop].
  { exists 0%nat, b. cbn. rewrite app_nil_r. auto. }
  rewrite (proj1 H). destruct (Nat.ltb_spec (length T + 2) cap) as [Hc|Hc].
  2:{ exists 0%nat, b. cbn. rewrite app_nil_r. repeat split; try apply H. right. lia. }
  destruct (holds_poke cap T b (digit (Z.shiftr x 4)) H) as (b1 & -> & H1); [lia|].
  cbn [mbind option_bind].
  destruct (holds_poke cap _ b1 (digit (Z.land x 15)) H1) as (b2 & E2 & H2);
    [rewrite length_app; cbn; lia|].
  rewrite length_app, Nat.add_1_r in E2. rewrite E2. cbn [mbind option_bind].
  destruct (IH _ _ H2) as (k & b3 & E3 & H3 & Hk). exists (S k), b3.
  rewrite !length_app in E3. cbn [length] in E3. rewrite !Nat.add_1_r in E3. rewrite E3.
  cbn [take map concat hex_pair app length]. rewrite <- !app_assoc in H3, Hk. cbn [app] in H3, Hk.
  split; [|split; [exact H3|]].
  - f_equal. f_equal. rewrite !length_app. cbn [length]. lia.
  - rewrite !length_app in Hk |- *. cbn [length] in *. lia.
Qed.

Lemma ascii_loop_holds cap rf T b :
  holds cap T b ->
  exists k b', let T' := T ++ map printable (take k rf) in
    ascii_loop rf (length T) b = Some (b', length T') /\ holds cap T' b' /\
    ((length rf <= k)%nat \/ (cap - 2 <= length T')%nat).
Proof.
  revert T b. induction rf as [|x rf IH]; intros T b H; cbn [ascii_loop].
  { exists 0%nat, b. cbn. rewrite app_nil_r. auto. }
  rewrite (proj1 H). destruct (Nat.ltb_spec (length T + 1) cap) as [Hc|Hc].
  2:{ exists 0%nat, b. cbn. rewrite app_nil_r. repeat split; try apply H. right. lia. }
  destruct (holds_poke cap T b (printable x) H) as (b1 & -> & H1); [lia|].
  cbn [mbind option_bind].
  destruct (IH _ _ H1) as (k & b3 & E3 & H3 & Hk). exists (S k), b3.
  rewrite length_app in E3. cbn [length] in E3. rewrite Nat.add_1_r in E3. rewrite E3.
  cbn [take map length]. rewrite <- !app_assoc in H3, Hk. cbn [app] in H3, Hk.
  split; [|split; [exact H3|]].
  - f_equal. f_equal. rewrite !length_app. cbn [length]. lia.
  - rewrite !length_app in Hk |- *. cbn [length] in *. lia.
Qed.

(** What was written is the text, or a text as long as the buffer that starts
    the same way. *)
Definition faithful (cap : nat) (T F : bytes) : Prop :=
  T = F \/ ((cap - 2 <= length T)%nat /\ (cap - 2 <= length F)%nat /\
            take (cap - 2) T = take (cap - 2) F).

Lemma faithful_app cap T F x : faithful cap T F -> faithful cap (T ++ x) (F ++ x).
Proof.
  intros [->|(H1 & H2 & E)]; [by left|]. right. rewrite !length_app, !take_app_le by lia.
  split; [lia|]. split; [lia|done].
Qed.

Lemma faithful_cut cap T F x y z :
  faithful cap T F -> y = x ++ z -> z = [] \/ (cap - 2 <= length (T ++ x))%nat ->
  faithful cap (T ++ x) (F ++ y).
Proof.
  intros [->|(H1 & H2 & E)] -> Hz.
  - destruct Hz as [->|Hz]; [left; by rewrite app_nil_r|]. right. rewrite app_assoc.
    split; [done|]. split; [rewrite length_app; lia|]. by rewrite (take_app_le (F ++ x) z).
  - right. rewrite !length_app, !take_app_le by lia. split; [lia|]. split; [lia|done].
Qed.

Lemma faithful_head cap head : (2 <= cap)%nat ->
  faithful cap (if (length head <? cap)%nat then head else take (cap - 1) head) head.
Proof.
  intros Hc. destruct (Nat.ltb_spec (length head) cap); [by left|]. right.
  rewrite length_take, take_take. split; [lia|]. split; [lia|]. f_equal. lia.
Qed.

Lemma faithful_hex cap T F rf k :
  faithful cap T F -> (length rf <= k)%nat \/ (cap - 2 <= length (T ++ concat (map hex_pair (take k rf))))%nat ->
  faithful cap (T ++ concat (map hex_pair (take k rf))) (F ++ concat (map hex_pair rf)).
Proof.
  intros H Hk. eapply (faithful_cut _ _ _ _ _ (concat (map hex_pair (drop k rf)))); [done| |].
  - by rewrite <- concat_app, <- map_app, take_drop.
  - destruct Hk as [Hk|Hk]; [left|by right]. by rewrite drop_ge.
Qed.

Lemma faithful_ascii cap T F rf k :
  faithful cap T F -> (length rf <= k)%nat \/ (cap - 2 <= length (T ++ map printable (take k rf)))%nat ->
  faithful cap (T ++ map printable (take k rf)) (F ++ map printable rf).
Proof.
  intros H Hk. eapply (faithful_cut _ _ _ _ _ (map printable (drop k rf))); [done| |].
  - by rewrite <- map_app, take_drop.
  - destruct Hk as [Hk|Hk]; [left|by right]. by rewrite drop_ge.
Qed.

Lemma holds_take cap T b n : holds cap T b -> (n <= length T)%nat -> (n <= cap - 1)%nat -> take n b = take n T.
Proof.
  intros [Hl Hb] H1 H2. apply list_eq. intros i. rewrite !lookup_take.
  case_decide; [|done]. apply Hb; lia.
Qed.

(** The end of the line: the terminated text, or the cut one. *)
Lemma finish_holds cap T F b :
  (8 <= cap)%nat -> holds cap (T ++ s_end) b -> faithful cap T F ->
  exists b' n,
    (if (cap <=? length (T ++ s_end))%nat then
       b ← poke (cap - 2) LF b; b ← poke (cap - 1) 0 b; Some (b, cap - 1)%nat
     else b ← poke (length (T ++ s_end)) 0 b; Some (b, length (T ++ s_end))) = Some (b', n) /\
    length b' = cap /\ (n < cap)%nat /\ take n b' = fitted cap (F ++ s_end) /\ b' !! n = Some 0.
Proof.
  intros Hc Hh Hf. unfold fitted. rewrite !length_app. cbn [length s_end].
  destruct (Nat.leb_spec cap (length T + 2)) as [Hp|Hp].
  - rewrite poke_spec by (rewrite (proj1 Hh); lia). cbn [mbind option_bind].
    rewrite poke_spec by (rewrite length_insert, (proj1 Hh); lia). cbn [mbind option_bind].
    eexists _, _. split; [done|]. rewrite !length_insert, (proj1 Hh). split; [done|]. split; [lia|].
    split; [|rewrite list_lookup_insert_eq by (rewrite length_insert, (proj1 Hh); lia); done].
    assert ((cap - 2 <= length F)%nat /\ take (cap - 2) T = take (cap - 2) F) as [HF HE].
    { destruct Hf as [->|(?&?&?)]; [split; [lia|done]|done]. }
    rewrite (proj2 (Nat.ltb_ge _ _)) by lia.
    rewrite take_insert_ge by lia. replace (cap - 1)%nat with (S (cap - 2)) by lia.
    rewrite (take_S_r _ _ LF) by (apply list_lookup_insert_eq; rewrite (proj1 Hh); lia).
    rewrite take_insert_ge by lia. f_equal.
    rewrite (holds_take _ _ _ _ Hh) by (rewrite ?length_app; cbn; lia).
    by rewrite !take_app_le by lia.
  - destruct Hf as [->|(?&?&?)]; [|lia]. rewrite poke_spec by (rewrite (proj1 Hh); lia).
    cbn [mbind option_bind]. eexists _, _. split; [done|].
    rewrite length_insert, (proj1 Hh). split; [done|]. split; [lia|].
    rewrite (proj2 (Nat.ltb_lt _ _)) by lia.
    split; [|rewrite list_lookup_insert_eq by (rewrite (proj1 Hh); lia); done].
    rewrite take_insert_ge by lia.
    rewrite (holds_take _ _ _ _ Hh) by (rewrite ?length_app; cbn; lia).
    apply take_ge. rewrite length_app. cbn. lia.
Qed.

Lemma holds_head cap head b :
  length b = cap -> (1 <= cap)%nat -> exists b', snprintf_at b 0 head = Some b' /\
    holds cap (if (length head <? cap)%nat then head else take (cap - 1) head) b'.
Proof.
  intros Hl Hc. destruct (holds_snprintf cap [] b head) as (b' & E & H); [split; [done|]; cbn; lia|].
  exists b'. split; [done|]. cbn [app] in H. destruct (Nat.ltb_spec (length head) cap); [done|].
  destruct H as [Hl' Hb]. split; [done|]. intros i Hi. rewrite length_take. intros Hi2.
  rewrite lookup_take, decide_True by lia. apply Hb; lia.
Qed.

Lemma format_line_exact (b head rf : bytes) :
  (8 <= length b)%nat ->
  exists b' n, format_line (Some b) head rf = Some (Some b', n) /\
    length b' = length b /\ (n < length b)%nat /\
    take n b' = fitted (length b) (line_text head rf) /\ b' !! n = Some 0.
Proof.
  intros Hc. unfold format_line. rewrite (proj2 (Nat.ltb_ge _ _)) by lia.
  destruct (holds_head (length b) head b) as (b1 & -> & H1); [done|lia|]. cbn [mbind option_bind].
  pose proof (faithful_head (length b) head ltac:(lia)) as F1.
  set (cap := length b) in *.
  assert (Hpos : (if (length head <? cap)%nat then length head else cap - 1)%nat =
    length (if (length head <? cap)%nat then head else take (cap - 1) head)).
  { destruct (Nat.ltb_spec (length head) cap); [done|]. rewrite length_take. lia. }
  rewrite Hpos. set (T := if (length head <? cap)%nat then head else take (cap - 1) head) in *.
  unfold append_payload. rewrite (proj1 H1).
  destruct (holds_put cap T b1 s_hex H1) as (b2 & -> & H2). cbn [mbind option_bind].
  destruct (hex_loop_holds cap rf _ b2 H2) as (k & b3 & -> & H3 & Hk). cbn [mbind option_bind].
  destruct (holds_put cap _ b3 s_ascii H3) as (b4 & -> & H4). cbn [mbind option_bind].
  destruct (ascii_loop_holds cap rf _ b4 H4) as (j & b5 & -> & H5 & Hj). cbn [mbind option_bind].
  destruct (holds_put cap _ b5 s_end H5) as (b6 & -> & H6). cbn [mbind option_bind].
  apply (faithful_app _ _ _ s_hex) in F1. apply (faithful_hex _ _ _ rf k) in F1; [|done].
  apply (faithful_app _ _ _ s_ascii) in F1. apply (faithful_ascii _ _ _ rf j) in F1; [|done].
  destruct (finish_holds cap _ _ b6 Hc H6 F1) as (b7 & n & -> & Hl & Hn & Ht & H0).
  cbn [mbind option_bind]. exists b7, n. split; [done|]. split; [done|]. split; [done|].
  split; [|done]. rewrite Ht. unfold line_text. by rewrite <- !app_assoc.
Qed.

(** ** Lemmas: what a line says *)

(** Text without spaces and control characters. *)
Definition word (l : bytes) : Prop := Forall (fun c => 32 < c) l.

Lemma fmt_u_word n : word (fmt_u n).
Proof. eapply Forall_impl; [apply fmt_u_digits|]. unfold is_digit. lia. Qed.

(** A signal value: hundredths of a unit, exactly. *)
Definition centi (a : Z) : bytes := fmt_u (a / 100) ++ [46] ++ fmt_pad 2 (a mod 100).

Lemma fmt_centi a : is_s16 a ->
  fmt_fixed_quot 2 a 100 = if a <? 0 then 45 :: centi (- a) else centi a.
Proof.
  intros Ha. pose proof (fmt_fixed_quot_exact 2) as H. change (10 ^ Z.of_nat 2) with 100 in H.
  destruct (Z.ltb_spec a 0).
  - unfold fmt_fixed_quot at 1. rewrite (proj2 (Z.ltb_lt _ _)) by done. f_equal.
    unfold centi. rewrite <- H by (unfold_ints; lia). unfold fmt_fixed_quot.
    by rewrite (proj2 (Z.ltb_ge _ _)) by lia.
  - apply H; unfold_ints; lia.
Qed.

Lemma centi_word a : word (centi a).
Proof.
  apply Forall_app. split; [apply fmt_u_word|]. constructor; [lia|].
  eapply Forall_impl; [apply fmt_pad_digits|]. unfold is_digit. lia.
Qed.

Lemma centi_inj a b : 0 <= a < 2 ^ 32 -> 0 <= b < 2 ^ 32 -> centi a = centi b -> a = b.
Proof.
  intros Ha Hb E. apply split_at_sep in E as [E1 E2];
    [|eapply Forall_not_In; [apply fmt_u_digits|unfold is_digit; lia]..].
  apply fmt_u_inj in E1; [|int_lia..].
  apply fmt_pad_inj in E2; [|change (10 ^ Z.of_nat 2) with 100; apply Z.mod_pos_bound; lia..].
  Z.div_mod_to_equations; lia.
Qed.

Lemma centi_first a x l : centi a = x :: l -> x <> 45.
Proof.
  unfold centi. pose proof (fmt_u_digits (a / 100)) as Hd. destruct (fmt_u (a / 100)) as [|d r].
  - by intros [= <- _].
  - intros [= <- _]. apply Forall_cons in Hd as [Hd _]. unfold is_digit in Hd. lia.
Qed.

Lemma signal_word a : is_s16 a -> word (fmt_fixed_quot 2 a 100).
Proof.
  intros Ha. rewrite fmt_centi by done. case_match; [|apply centi_word].
  constructor; [lia|apply centi_word].
Qed.

Lemma signal_inj a b :
  is_s16 a -> is_s16 b -> fmt_fixed_quot 2 a 100 = fmt_fixed_quot 2 b 100 -> a = b.
Proof.
  intros Ha Hb. rewrite !fmt_centi by done. unfold_ints.
  destruct (Z.ltb_spec a 0), (Z.ltb_spec b 0); intros E.
  - injection E as E%centi_inj; lia.
  - symmetry in E. by apply centi_first in E.
  - by apply centi_first in E.
  - apply centi_inj in E; lia.
Qed.

Lemma signal_length a : is_s16 a -> (length (fmt_fixed_quot 2 a 100) <= 7)%nat.
Proof.
  intros Ha. assert (Hc : forall x, 0 <= x <= 32768 -> (length (centi x) <= 6)%nat).
  { intros x Hx. unfold centi. rewrite length_app. cbn [app length]. rewrite fmt_pad_length.
    assert ((length (fmt_u (x / 100)) <= 3)%nat); [|lia].
    apply fmt_u_bound; [|lia]. change (10 ^ Z.of_nat 3) with 1000. Z.div_mod_to_equations; lia. }
  rewrite fmt_centi by done. unfold_ints. case_match; [cbn [length]|];
    [pose proof (Hc (- a))|pose proof (Hc a)]; lia.
Qed.

Lemma digit_range d : 0 <= d < 16 -> 48 <= digit d <= 102.
Proof. unfold digit. case_match; lia. Qed.

Lemma nibbles x : is_u8 x -> 0 <= Z.shiftr x 4 < 16 /\ 0 <= Z.land x 15 < 16 /\
  x = Z.shiftr x 4 * 16 + Z.land x 15.
Proof.
  intros Hx. rewrite shiftr_div by lia. change 15 with (Z.ones 4). rewrite Z.land_ones by lia.
  change (2 ^ 4) with 16. int_lia.
Qed.

Lemma digit_inj a b : 0 <= a < 16 -> 0 <= b < 16 -> digit a = digit b -> a = b.
Proof. unfold digit. repeat case_match; lia. Qed.

Lemma hex_word rf : is_bytes rf -> word (concat (map hex_pair rf)).
Proof.
  induction 1 as [|x rf Hx _ IH]; [constructor|]. destruct (nibbles x Hx) as (H1 & H2 & _).
  apply digit_range in H1, H2. cbn [map concat hex_pair app]. constructor; [lia|].
  constructor; [lia|]. exact IH.
Qed.

Lemma hex_inj r1 r2 :
  is_bytes r1 -> is_bytes r2 -> concat (map hex_pair r1) = concat (map hex_pair r2) -> r1 = r2.
Proof.
  intros H1. revert r2. induction H1 as [|x r1 Hx _ IH]; intros [|y r2] H2; try done.
  apply Forall_cons in H2 as [Hy H2]. cbn [map concat hex_pair app]. intros [= E1 E2 E].
  destruct (nibbles x Hx) as (? & ? & ->), (nibbles y Hy) as (? & ? & ->).
  apply digit_inj in E1, E2; [|done..]. rewrite E1, E2. f_equal. by apply IH.
Qed.

Lemma hex_length rf : length (concat (map hex_pair rf)) = (2 * length rf)%nat.
Proof. induction rf as [|x rf IH]; [done|]. cbn [map concat hex_pair app length]. lia. Qed.

(** Cut the next word off both sides of an equation of lines. *)
Ltac next_word H E :=
  match type of H with
  | ?a ++ ?s ++ ?x = ?b ++ ?s ++ ?y =>
      let r := eval cbv in (drop 1 s) in
      change (a ++ SP :: r ++ x = b ++ SP :: r ++ y) in H;
      apply split_at_sep in H as [E H];
        [apply app_inv_head in H
        |eapply (Forall_not_In (fun c => 32 < c));
           [first [eassumption | apply fmt_u_word | by apply signal_word | by apply hex_word] | unfold SP; lia]..]
  end.

Lemma head_rx_inj u1 u2 rssi1 rssi2 snr1 snr2 r1 r2 :
  word u1 -> word u2 -> is_s16 rssi1 -> is_s16 rssi2 -> is_s16 snr1 -> is_s16 snr2 ->
  is_bytes r1 -> is_bytes r2 ->
  line_text (head_rx (Some u1) rssi1 snr1 (length r1)) r1 =
  line_text (head_rx (Some u2) rssi2 snr2 (length r2)) r2 ->
  (u1, rssi1, snr1, r1) = (u2, rssi2, snr2, r2).
Proof.
  intros Hu1 Hu2 Hr1 Hr2 Hs1 Hs2 Hb1 Hb2 E. unfold line_text, head_rx in E.
  rewrite <- !app_assoc in E. unfold default in E. cbn [from_option id] in E.
  next_word E Eu. next_word E Er. next_word E Es. next_word E El. next_word E Eh.
  apply signal_inj in Er, Es; [|done..]. apply hex_inj in Eh; [|done..]. congruence.
Qed.

Lemma head_tx_inj u1 u2 o1 o2 r1 r2 :
  word u1 -> word u2 -> word o1 -> word o2 -> is_bytes r1 -> is_bytes r2 ->
  line_text (head_tx (Some u1) (Some o1) (length r1)) r1 =
  line_text (head_tx (Some u2) (Some o2) (length r2)) r2 ->
  (u1, o1, r1) = (u2, o2, r2).
Proof.
  intros Hu1 Hu2 Ho1 Ho2 Hb1 Hb2 E. unfold line_text, head_tx in E.
  rewrite <- !app_assoc in E. unfold default in E. cbn [from_option id] in E.
  next_word E Eu. next_word E El. next_word E Eo. next_word E Eh.
  apply hex_inj in Eh; [|done..]. congruence.
Qed.

(** ** Lemmas: the files *)

Lemma write_loop_prefix ws rest : (write_loop ws rest).1.1 `prefix_of` rest.
Proof.
  revert rest. induction ws as [|w ws IH]; intros [|x rest]; try apply prefix_nil; [done|].
  destruct w as [n| |]; cbn [write_loop]; [|apply IH|apply prefix_nil].
  specialize (IH (drop n (x :: rest))). destruct (write_loop ws _) as [[out ok] ws'].
  destruct IH as [l Hl]. exists l. cbn [fst] in *. by rewrite <- app_assoc, <- Hl, take_drop.
Qed.

Lemma write_loop_all ws rest : (write_loop ws rest).1.2 = true -> (write_loop ws rest).1.1 = rest.
Proof.
  revert rest. induction ws as [|w ws IH]; intros [|x rest]; try done.
  destruct w as [n| |]; cbn [write_loop]; [|apply IH|done].
  specialize (IH (drop n (x :: rest))). destruct (write_loop ws _) as [[out ok] ws'].
  cbn [fst snd] in *. intros H. by rewrite IH, take_drop.
Qed.

Lemma write_loop_ok ws rest : WroteErr ∉ ws ->
  (write_loop ws rest).1.2 = true /\ (WroteErr ∉ (write_loop ws rest).2).
Proof.
  revert rest. induction ws as [|w ws IH]; intros [|x rest] Hw; try done.
  rewrite not_elem_of_cons in Hw. destruct Hw as [Hw1 Hw2]. destruct w as [n| |]; cbn [write_loop].
  - specialize (IH (drop n (x :: rest)) Hw2). by destruct (write_loop ws _) as [[out ok] ws'].
  - by apply IH.
  - done.
Qed.

Lemma read_size_pos rs : (0 < read_size rs)%nat.
Proof.
  assert ((0 < kChunk)%nat) by (unfold kChunk; lia).
  unfold read_size. repeat case_match; lia.
Qed.

Lemma read_nothing rs (rest : bytes) : take (read_size rs) rest = [] -> rest = [].
Proof. pose proof (read_size_pos rs). destruct (read_size rs); [lia|]. by destruct rest. Qed.

(** The copy is a prefix, and complete when it reports success. *)
Lemma copy_loop_sound fuel rs ws rest :
  (copy_loop fuel rs ws rest).1 `prefix_of` rest /\
  ((copy_loop fuel rs ws rest).2 = true -> (copy_loop fuel rs ws rest).1 = rest).
Proof.
  revert rs ws rest. induction fuel as [|fuel IH]; intros rs ws rest; cbn [copy_loop].
  { split; [apply prefix_nil|done]. }
  assert (Hread : forall rs',
    let r := match take (read_size rs) rest with
             | [] => ([], true)
             | chunk => let '(out, ok, ws) := write_loop ws chunk in
                 if negb ok then (out, false) else
                 let '(out', ok) := copy_loop fuel rs' ws (drop (length chunk) rest) in (out ++ out', ok)
             end in r.1 `prefix_of` rest /\ (r.2 = true -> r.1 = rest)).
  { intros rs'. cbv zeta. destruct (take (read_size rs) rest) as [|x c] eqn:Et.
    { apply read_nothing in Et as ->. done. }
    assert (Er : rest = (x :: c) ++ drop (length (x :: c)) rest).
    { rewrite <- Et, length_take. destruct (Nat.le_gt_cases (read_size rs) (length rest)).
      - by rewrite Nat.min_l, take_drop by done.
      - rewrite Nat.min_r, drop_all, app_nil_r by lia. by rewrite take_ge by lia. }
    pose proof (write_loop_prefix ws (x :: c)) as Hp. pose proof (write_loop_all ws (x :: c)) as Ha.
    destruct (write_loop ws (x :: c)) as [[out ok] ws']. cbn [fst snd] in Hp, Ha.
    set (tl := drop (length (x :: c)) rest) in *. destruct ok; cbn [negb].
    - rewrite (Ha eq_refl). destruct (IH rs' ws' tl) as [IH1 IH2].
      destruct (copy_loop fuel rs' ws' tl) as [out' ok']. cbn [fst snd] in *. rewrite Er. split.
      + by apply prefix_app.
      + intros ->. by rewrite IH2.
    - split; [|done]. rewrite Er. by apply prefix_app_r. }
  destruct rs as [|[n| |] rs]; [apply Hread|apply Hread|apply IH|split; [apply prefix_nil|done]].
Qed.

Lemma not_elem_of_tail {A} (x : A) l : x ∉ l -> x ∉ tail l.
Proof. destruct l; [done|]. rewrite not_elem_of_cons. by intros []. Qed.

(** Without errors the copy succeeds; the fuel is enough: every round takes a
    byte of the file or an interrupted read. *)
Lemma copy_loop_complete fuel rs ws rest :
  RedErr ∉ rs -> WroteErr ∉ ws -> (length rest + length rs < fuel)%nat ->
  (copy_loop fuel rs ws rest).2 = true.
Proof.
  revert rs ws rest. induction fuel as [|fuel IH]; intros rs ws rest Hr Hw Hf; [lia|].
  cbn [copy_loop].
  assert (Hread :
    (match take (read_size rs) rest with
     | [] => ([], true)
     | chunk => let '(out, ok, ws) := write_loop ws chunk in
         if negb ok then (out, false) else
         let '(out', ok) := copy_loop fuel (tail rs) ws (drop (length chunk) rest) in (out ++ out', ok)
     end).2 = true).
  { destruct (take (read_size rs) rest) as [|x c] eqn:Et; [done|]. cbv zeta.
    destruct (write_loop_ok ws (x :: c) Hw) as [Ho Hw'].
    destruct (write_loop ws (x :: c)) as [[out ok] ws']. cbn [fst snd] in Ho, Hw'. subst ok.
    cbn [negb]. specialize (IH (tail rs) ws' (drop (length (x :: c)) rest)).
    destruct (copy_loop fuel _ _ _) as [out' ok']. apply IH; [by apply not_elem_of_tail|done|].
    assert ((length (x :: c) <= length rest)%nat) by (rewrite <- Et, length_take; lia).
    rewrite length_drop. cbn [length] in *. destruct rs; cbn [tail length] in *; lia. }
  destruct rs as [|[n| |] rs]; [exact Hread|exact Hread| |by destruct Hr; left].
  cbn [length] in Hf. apply not_elem_of_cons in Hr as [_ Hr]. apply IH; [done|done|lia].
Qed.

(** The environment of a write in which no call fails; short counts and
    interruptions are allowed. *)
Definition no_fault (e : env) : Prop :=
  fstat_ok e = true /\ prev_open e = true /\ truncate_ok e = true /\
  (RedErr ∉ reads e) /\ (WroteErr ∉ prev_writes e) /\ (WroteErr ∉ writes e).

Lemma write_line_no_fault e line s :
  no_fault e ->
  write_line e line s =
    if g_max_bytes s <? zlen (live s) + zlen line
    then s <| prev := live s |> <| live := line |>
    else s <| live := live s ++ line |>.
Proof.
  intros (H1 & H2 & H3 & H4 & H5 & H6). unfold write_line, copy_to_previous. rewrite H1, H2, H3.
  cbn [andb negb]. destruct (write_loop_ok (writes e) line H6) as [Hw _].
  pose proof (write_loop_all _ _ Hw) as Ha. destruct (write_loop (writes e) line) as [[out ok] ws].
  cbn [fst snd] in Hw, Ha. subst out. destruct (_ <? _); [|done].
  set (fuel := S (length (live s) + length (reads e))).
  pose proof (copy_loop_complete fuel _ _ (live s) H4 H5 ltac:(unfold fuel; lia)) as Hc.
  destruct (copy_loop_sound fuel (reads e) (prev_writes e) (live s)) as [_ Hs].
  specialize (Hs Hc). destruct (copy_loop fuel _ _ _) as [out' ok']. cbn [fst snd] in Hc, Hs. by subst.
Qed.

(** ** Calls of the log *)

Inductive entry := Heard (rssi_cdbm snr_cdb : Z) (rf : bytes) | Sent (outcome rf : bytes).
Record call := mkCall { c_env : env; c_ts : option (Z * Z); c_junk : bytes; c_what : entry }.

Definition log_call (c : call) (s : state) : option state :=
  match c_what c with
  | Heard rssi snr rf => rx (c_env c) (c_ts c) (c_junk c) rssi snr rf s
  | Sent outcome rf => tx (c_env c) (c_ts c) (c_junk c) outcome rf s
  end.

(** Between two calls another process may empty the live file (the controller's
    "Clear"): the descriptor is in append mode, so the next write starts over. *)
Inductive op := Call (c : call) | Clear.

Definition cleared (s : state) : state := s <| live := [] |>.

Fixpoint log_ops (ops : list op) (s : state) : option state :=
  match ops with
  | [] => Some s
  | Call c :: ops => s ← log_call c s; log_ops ops s
  | Clear :: ops => log_ops ops (cleared s)
  end.

Definition calls_of (ops : list op) : list call :=
  omap (fun o => match o with Call c => Some c | Clear => None end) ops.

(** The record of a call. *)
Definition call_line (c : call) : bytes :=
  fitted kLineMax
    match c_what c with
    | Heard rssi snr rf => line_text (head_rx (Some (utc_now (c_ts c))) rssi snr (length rf)) rf
    | Sent outcome rf => line_text (head_tx (Some (utc_now (c_ts c))) (Some outcome) (length rf)) rf
    end.

Definition call_ok (c : call) : Prop := length (c_junk c) = kLineMax /\ no_fault (c_env c).

Lemma log_line_fitted e junk head rf s :
  length junk = kLineMax -> g_fd s = true ->
  log_line e junk (fun out => format_line out head rf) s =
  Some (write_line e (fitted kLineMax (line_text head rf)) s).
Proof.
  intros Hj Hs. unfold log_line. rewrite Hs. cbn [negb].
  destruct (format_line_exact junk head rf) as (b & n & -> & _ & _ & Ht & _).
  { rewrite Hj. unfold kLineMax. lia. }
  by rewrite Ht, Hj.
Qed.

Lemma log_call_line c s :
  length (c_junk c) = kLineMax -> g_fd s = true ->
  log_call c s = Some (write_line (c_env c) (call_line c) s).
Proof.
  intros Hj Hs. unfold log_call, call_line, rx, tx. destruct (c_what c); by apply log_line_fitted.
Qed.

Lemma fitted_bound cap text : (2 <= cap)%nat -> (length (fitted cap text) < cap)%nat.
Proof.
  intros H. unfold fitted. destruct (Nat.ltb_spec (length text) cap); [done|].
  rewrite length_app, length_take. cbn [length]. lia.
Qed.

(** What is in the files when the log is opened counts as two records, in front
    of the lines of the calls. *)
Inductive record := Found (old : bytes) | Line (c : call).

Definition record_text (r : record) : bytes := match r with Found old => old | Line c => call_line c end.
Definition text (rs : list record) : bytes := concat (map record_text rs).

Definition records (s : state) (ops : list op) : list record :=
  Found (prev s) :: Found (live s) :: map Line (calls_of ops).

(** The files hold the last records, without those that were cleared. *)
Record retained (s0 : state) (past : list op) (s : state) : Prop := {
  ret_fd : g_fd s = true;
  ret_max : g_max_bytes s = g_max_bytes s0;
  ret_files : exists older mid lost new, records s0 past = older ++ mid ++ lost ++ new /\
    (forall past' c, past = past' ++ [Call c] -> new <> []) /\ (Clear ∉ past -> lost = []) /\
    prev s = text mid /\ live s = text new;
  ret_live : zlen (live s) <= g_max_bytes s0;
  ret_prev : zlen (prev s) <= g_max_bytes s0
}.

Lemma records_call s past c : records s (past ++ [Call c]) = records s past ++ [Line c].
Proof. unfold records, calls_of. by rewrite omap_app, map_app. Qed.

Lemma records_clear s past : records s (past ++ [Clear]) = records s past.
Proof. unfold records, calls_of. rewrite omap_app. cbn. by rewrite app_nil_r. Qed.

Lemma text_snoc rs r : text (rs ++ [r]) = text rs ++ record_text r.
Proof. unfold text. rewrite map_app, concat_app. cbn. by rewrite app_nil_r. Qed.

Lemma log_call_retained s0 past c s :
  Z.of_nat kLineMax <= g_max_bytes s0 -> call_ok c -> retained s0 past s ->
  exists s', log_call c s = Some s' /\ retained s0 (past ++ [Call c]) s'.
Proof.
  intros Hm [Hj Hn] [R1 R2 (older & mid & lost & new & Hp & Hne & Hlost & Hprev & Hlive) R4 R5].
  rewrite log_call_line by done. eexists. split; [done|]. rewrite write_line_no_fault by done.
  pose proof (fitted_bound kLineMax) as Hb.
  assert ((length (call_line c) < kLineMax)%nat) by (apply Hb; unfold kLineMax; lia).
  destruct (Z.ltb_spec (g_max_bytes s) (zlen (live s) + zlen (call_line c))).
  - split; try done; [|unfold zlen in *; simpl; lia].
    exists (older ++ mid ++ lost), new, [], [Line c]. rewrite records_call.
    split; [by rewrite Hp, <- !app_assoc|]. split; [done|].
    split; [done|]. split; [done|]. cbn. by rewrite app_nil_r.
  - split; try done; [|unfold zlen in *; simpl; rewrite length_app; lia].
    exists older, mid, lost, (new ++ [Line c]). rewrite records_call. split; [by rewrite Hp, <- !app_assoc|].
    split; [by destruct new|]. split; [intros Hc; apply Hlost; rewrite elem_of_app in Hc; tauto|].
    split; [done|]. rewrite text_snoc. simpl. by rewrite Hlive.
Qed.

Lemma cleared_retained s0 past s :
  0 <= g_max_bytes s0 -> retained s0 past s -> retained s0 (past ++ [Clear]) (cleared s).
Proof.
  intros Hm [R1 R2 (older & mid & lost & new & Hp & Hne & Hlost & Hprev & Hlive) R4 R5]. split; try done.
  exists older, mid, (lost ++ new), []. rewrite records_clear. split; [by rewrite Hp, app_nil_r|].
  split; [intros past' c E; by apply app_inj_tail in E as [_ ?]|].
  split; [|done]. intros Hc. destruct Hc. apply elem_of_app. right. constructor.
Qed.

Lemma log_ops_retained s0 ops past s :
  Z.of_nat kLineMax <= g_max_bytes s0 -> Forall call_ok (calls_of ops) -> retained s0 past s ->
  exists s', log_ops ops s = Some s' /\ retained s0 (past ++ ops) s'.
Proof.
  intros Hm. revert past s. induction ops as [|[c|] ops IH]; intros past s Hok R; cbn [log_ops].
  - exists s. by rewrite app_nil_r.
  - apply Forall_cons in Hok as [Hc Hok].
    destruct (log_call_retained _ past c s Hm Hc R) as (t & -> & R'). cbn [mbind option_bind].
    destruct (IH _ _ Hok R') as (s' & -> & Hs'). exists s'. by rewrite <- app_assoc in Hs'.
  - destruct (IH _ _ Hok (cleared_retained s0 past s ltac:(lia) R)) as (s' & -> & Hs').
    exists s'. by rewrite <- app_assoc in Hs'.
Qed.

(** An open log within its limit. *)
Definition log_open (s : state) : Prop :=
  g_fd s = true /\ Z.of_nat kLineMax <= g_max_bytes s /\
  zlen (live s) <= g_max_bytes s /\ zlen (prev s) <= g_max_bytes s.

Lemma open_retained s : log_open s -> retained s [] s.
Proof.
  intros (Hf & Hm & Hl & Hp). split; try done.
  exists [], [Found (prev s)], [], [Found (live s)]. unfold text. cbn. rewrite !app_nil_r. split_and!; try done.
Qed.

(** ** Lemmas: one record per line *)

Definition unbroken (l : bytes) : Prop := Forall (fun c => c <> LF) l.

Lemma word_unbroken l : word l -> unbroken l.
Proof. intros H. eapply Forall_impl; [exact H|]. cbn. unfold LF. lia. Qed.

Lemma unbroken_app a b : unbroken a -> unbroken b -> unbroken (a ++ b).
Proof. intros. by apply Forall_app. Qed.

Lemma unbroken_ascii rf : unbroken (map printable rf).
Proof.
  apply Forall_map, Forall_true. intros x. unfold printable, LF. cbn.
  destruct ((32 <=? x) && (x <? 127) && negb (x =? 34) && negb (x =? 92)) eqn:E; bool_hyps; lia.
Qed.

Lemma unbroken_dec l : forallb (fun c => negb (c =? LF)) l = true -> unbroken l.
Proof.
  intros H. apply List.Forall_forall. intros x Hx. pose proof (proj1 (forallb_forall _ _) H x Hx) as E.
  cbn beta in E. lia.
Qed.

Create HintDb rflog discriminated.
#[local] Hint Resolve unbroken_app unbroken_ascii : rflog.
#[local] Hint Extern 2 (unbroken [_]) => by apply unbroken_dec : rflog.
#[local] Hint Extern 2 (unbroken (str _)) => by apply unbroken_dec : rflog.
#[local] Hint Extern 2 (unbroken s_hex) => by apply unbroken_dec : rflog.
#[local] Hint Extern 2 (unbroken s_ascii) => by apply unbroken_dec : rflog.
#[local] Hint Extern 2 (unbroken (fmt_u _)) => apply word_unbroken, fmt_u_word : rflog.
#[local] Hint Extern 2 (unbroken (fmt_fixed_quot _ _ _)) => by apply word_unbroken, signal_word : rflog.
#[local] Hint Extern 2 (unbroken (concat _)) => by apply word_unbroken, hex_word : rflog.

Definition unbroken_opt (o : option bytes) : Prop := match o with Some l => unbroken l | None => True end.

Lemma unbroken_default o : unbroken_opt o -> unbroken (default (str "-") o).
Proof. destruct o; [done|]. intros _. by apply unbroken_dec. Qed.
#[local] Hint Resolve unbroken_default : rflog.

Lemma head_rx_unbroken utc rssi snr n :
  unbroken_opt utc -> is_s16 rssi -> is_s16 snr -> unbroken (head_rx utc rssi snr n).
Proof. intros. unfold head_rx. auto 20 with rflog. Qed.

Lemma head_tx_unbroken utc outcome n :
  unbroken_opt utc -> unbroken_opt outcome -> unbroken (head_tx utc outcome n).
Proof. intros. unfold head_tx. auto 20 with rflog. Qed.

(** A line is one record: its only line feed is its last byte. *)
Lemma fitted_record cap head rf :
  (8 <= cap)%nat -> unbroken head -> is_bytes rf ->
  exists body, fitted cap (line_text head rf) = body ++ [LF] /\ unbroken body.
Proof.
  intros Hc Hh Hr.
  assert (Ht : line_text head rf =
    (head ++ s_hex ++ concat (map hex_pair rf) ++ s_ascii ++ map printable rf ++ [34]) ++ [LF]).
  { unfold line_text, s_end. by rewrite <- !app_assoc. }
  set (body := head ++ _) in Ht.
  assert (Hb : unbroken body) by (unfold body; auto 20 with rflog).
  unfold fitted. rewrite Ht, length_app. cbn [length].
  destruct (Nat.ltb_spec (length body + 1) cap); [by exists body|].
  exists (take (cap - 2) body). rewrite take_app_le by lia. split; [done|]. by apply Forall_take.
Qed.

(** The result of a formatting call as the text the caller has. *)
Definition formatted (r : option (option bytes * nat)) : option bytes :=
  match r with Some (Some b, n) => Some (take n b) | _ => None end.

(** A call that stored the NUL-terminated [line] in a buffer of [cap] bytes. *)
Definition stored (cap : nat) (line : bytes) (r : option (option bytes * nat)) : Prop :=
  exists b n, r = Some (Some b, n) /\ length b = cap /\ (n < cap)%nat /\ take n b = line /\
              b !! n = Some 0.

Lemma format_stored b head rf :
  (8 <= length b)%nat -> stored (length b) (fitted (length b) (line_text head rf)) (format_line (Some b) head rf).
Proof.
  intros H. destruct (format_line_exact b head rf H) as (b' & n & -> & ?). by exists b', n.
Qed.

Lemma formatted_line b head rf :
  length b = kLineMax -> (length (line_text head rf) < kLineMax)%nat ->
  formatted (format_line (Some b) head rf) = Some (line_text head rf).
Proof.
  intros Hb Hl. destruct (format_stored b head rf) as (b' & n & -> & _ & _ & Ht & _).
  { rewrite Hb. unfold kLineMax. lia. }
  cbn. rewrite Ht, Hb. unfold fitted. by rewrite (proj2 (Nat.ltb_lt _ _)).
Qed.

(** What [clock_gettime] answers in the next thousand million years. *)
Definition clock_ok (ts : option (Z * Z)) : Prop :=
  match ts with Some (sec, nsec) => 0 <= sec < 2 ^ 55 /\ 0 <= nsec < 1000000000 | None => True end.

(** The instant in milliseconds; the epoch when the clock cannot be read. *)
Definition instant_ms (ts : option (Z * Z)) : Z :=
  let '(sec, nsec) := default (0, 0) ts in sec * 1000 + nsec / 1000000.

Lemma clock_ok_default ts :
  clock_ok ts -> 0 <= (default (0, 0) ts).1 < 2 ^ 55 /\ 0 <= (default (0, 0) ts).2 < 1000000000.
Proof. destruct ts as [[sec nsec]|]; [done|by cbn]. Qed.

(** The stamp of [char utc[40]] is never cut. *)
Lemma utc_now_text ts :
  clock_ok ts ->
  utc_now ts = strftime_iso (default (0, 0) ts).1 ++ str "." ++ fmt_pad 3 ((default (0, 0) ts).2 / 1000000) ++ str "Z".
Proof.
  intros [Hs Hn]%clock_ok_default. unfold utc_now. destruct (default (0, 0) ts) as [sec nsec]. cbn [fst snd] in *.
  apply take_ge. rewrite !length_app, fmt_pad_length. pose proof (strftime_iso_length sec Hs).
  cbv [str map String.list_ascii_of_string]. cbn [length]. lia.
Qed.

Lemma utc_now_word ts : word (utc_now ts) /\ (length (utc_now ts) <= 39)%nat.
Proof.
  unfold utc_now. destruct (default (0, 0) ts) as [sec nsec]. split.
  - apply Forall_take, Forall_app. split; [apply strftime_iso_printable|].
    constructor; [done|]. apply Forall_app. split; [|by repeat constructor].
    eapply Forall_impl; [apply fmt_pad_digits|]. unfold is_digit. lia.
  - rewrite length_take. lia.
Qed.

Lemma utc_now_inj ts1 ts2 :
  clock_ok ts1 -> clock_ok ts2 -> utc_now ts1 = utc_now ts2 -> instant_ms ts1 = instant_ms ts2.
Proof.
  intros H1 H2. rewrite !utc_now_text by done. unfold instant_ms.
  apply clock_ok_default in H1 as [? ?], H2 as [? ?].
  destruct (default (0, 0) ts1) as [s1 n1], (default (0, 0) ts2) as [s2 n2]. cbn [fst snd] in *.
  intros [-> E%app_inv_head]%strftime_iso_inj; [|done..].
  apply pad_app in E as [-> _]; [done|Z.div_mod_to_equations; lia..].
Qed.

(** What the bridge logs: a clock reading, an outcome, 16-bit signal values,
    an RF payload of at most 255 bytes. *)
Definition loggable (ts : option (Z * Z)) (outcome : bytes) (rssi snr : Z) (rf : bytes) : Prop :=
  clock_ok ts /\ word outcome /\ (length outcome <= 39)%nat /\
  is_s16 rssi /\ is_s16 snr /\ is_bytes rf /\ (length rf <= 255)%nat.

Lemma payload_text_length head rf :
  length (line_text head rf) = (length head + 3 * length rf + 15)%nat.
Proof.
  unfold line_text. rewrite !length_app, hex_length, length_map.
  change (length s_hex) with 5%nat. change (length s_ascii) with 8%nat.
  change (length s_end) with 2%nat. lia.
Qed.

Lemma len_digits n : (n <= 255)%nat -> (length (fmt_u (Z.of_nat n)) <= 3)%nat.
Proof. intros. apply fmt_u_bound; [change (10 ^ Z.of_nat 3) with 1000; lia|lia]. Qed.

Lemma rx_text_fits ts outcome rssi snr rf :
  loggable ts outcome rssi snr rf ->
  (length (line_text (head_rx (Some (utc_now ts)) rssi snr (length rf)) rf) < kLineMax)%nat.
Proof.
  intros (_ & _ & _ & Hr & Hs & _ & Hn). destruct (utc_now_word ts) as [_ Hu]. rewrite payload_text_length. unfold head_rx.
  apply signal_length in Hr, Hs. pose proof (len_digits _ Hn).
  rewrite !length_app. cbv [str map String.list_ascii_of_string]. cbn [length default from_option id].
  unfold kLineMax. lia.
Qed.

Lemma tx_text_fits ts outcome rssi snr rf :
  loggable ts outcome rssi snr rf ->
  (length (line_text (head_tx (Some (utc_now ts)) (Some outcome) (length rf)) rf) < kLineMax)%nat.
Proof.
  intros (_ & _ & Ho & _ & _ & _ & Hn). destruct (utc_now_word ts) as [_ Hu]. rewrite payload_text_length. unfold head_tx.
  pose proof (len_digits _ Hn).
  rewrite !length_app. cbv [str map String.list_ascii_of_string]. cbn [length default from_option id].
  unfold kLineMax. lia.
Qed.

(** * Properties *)

(** C35. A log line never leaves its buffer: for every buffer of at least 8 bytes,
    whatever it held and however long the fields and the payload are, the
    formatting functions store inside it only and leave a NUL-terminated line
    whose length they return; it is the whole text when that fits and otherwise
    its longest prefix with a line feed, and in both cases exactly one record:
    the only line feed is the last byte.  A smaller buffer is left alone. *)
Theorem rflog_line_exact (b : bytes) (utc outcome : option bytes) (rssi snr : Z) (rf : bytes) :
  unbroken_opt utc -> unbroken_opt outcome -> is_s16 rssi -> is_s16 snr -> is_bytes rf ->
  let rx_line := fitted (length b) (line_text (head_rx utc rssi snr (length rf)) rf) in
  let tx_line := fitted (length b) (line_text (head_tx utc outcome (length rf)) rf) in
  if (length b <? 8)%nat
  then format_rx (Some b) utc rssi snr rf = Some (Some b, 0%nat) /\
       format_tx (Some b) utc outcome rf = Some (Some b, 0%nat)
  else stored (length b) rx_line (format_rx (Some b) utc rssi snr rf) /\
       stored (length b) tx_line (format_tx (Some b) utc outcome rf) /\
       (exists body, rx_line = body ++ [LF] /\ unbroken body) /\
       (exists body, tx_line = body ++ [LF] /\ unbroken body).
Proof.
  intros Hu Ho Hr Hs Hb. cbv zeta. unfold format_rx, format_tx.
  destruct (Nat.ltb_spec (length b) 8) as [H|H].
  - unfold format_line. by rewrite (proj2 (Nat.ltb_lt _ _) H).
  - split; [by apply format_stored|]. split; [by apply format_stored|].
    split; (apply fitted_record; [done| |done]); [by apply head_rx_unbroken|by apply head_tx_unbroken].
Qed.

(** C36. The log says what happened: for everything the bridge logs (payloads up
    to 255 bytes) the line in the 1024-byte buffer is the whole text, and the
    line determines the millisecond the clock showed, the signal values to the
    hundredth, the outcome and the payload to the last byte. *)
Theorem rflog_line_roundtrip (b1 b2 o1 o2 : bytes) (ts1 ts2 : option (Z * Z))
    (rssi1 rssi2 snr1 snr2 : Z) (r1 r2 : bytes) :
  length b1 = kLineMax -> length b2 = kLineMax ->
  loggable ts1 o1 rssi1 snr1 r1 -> loggable ts2 o2 rssi2 snr2 r2 ->
  let u1 := utc_now ts1 in
  let u2 := utc_now ts2 in
  let rx1 := formatted (format_rx (Some b1) (Some u1) rssi1 snr1 r1) in
  let rx2 := formatted (format_rx (Some b2) (Some u2) rssi2 snr2 r2) in
  let tx1 := formatted (format_tx (Some b1) (Some u1) (Some o1) r1) in
  let tx2 := formatted (format_tx (Some b2) (Some u2) (Some o2) r2) in
  rx1 = Some (line_text (head_rx (Some u1) rssi1 snr1 (length r1)) r1) /\
  tx1 = Some (line_text (head_tx (Some u1) (Some o1) (length r1)) r1) /\
  (rx1 = rx2 -> (instant_ms ts1, rssi1, snr1, r1) = (instant_ms ts2, rssi2, snr2, r2)) /\
  (tx1 = tx2 -> (instant_ms ts1, o1, r1) = (instant_ms ts2, o2, r2)).
Proof.
  intros Hb1 Hb2 H1 H2. cbv zeta. unfold format_rx, format_tx.
  pose proof (rx_text_fits _ _ _ _ _ H1). pose proof (rx_text_fits _ _ _ _ _ H2).
  pose proof (tx_text_fits _ _ _ _ _ H1). pose proof (tx_text_fits _ _ _ _ _ H2).
  rewrite !formatted_line by done. split; [done|]. split; [done|].
  destruct H1 as (?&?&?&?&?&?&?), H2 as (?&?&?&?&?&?&?).
  pose proof (utc_now_word ts1) as [? _]. pose proof (utc_now_word ts2) as [? _]. split; intros E%(inj Some).
  - apply head_rx_inj in E as [= Eu -> -> ->]; [|done..]. by rewrite (utc_now_inj ts1 ts2).
  - apply head_tx_inj in E as [= Eu -> ->]; [|done..]. by rewrite (utc_now_inj ts1 ts2).
Qed.


(** C38. Failing system calls: whatever fails during one write, the live file is
    intact -- what it held is still there in front of what was written of the
    line, or was copied completely to the previous segment before it was
    emptied, which happens only past the size limit. *)
Theorem rflog_faults_keep_live (e : env) (line : bytes) (s : state) :
  exists written, written `prefix_of` line /\
    (live (write_line e line s) = live s ++ written \/
     (live (write_line e line s) = written /\ prev (write_line e line s) = live s /\
      g_max_bytes s < zlen (live s) + zlen line)).
Proof.
  unfold write_line, copy_to_previous. exists (write_loop (writes e) line).1.1.
  split; [apply write_loop_prefix|]. destruct (write_loop (writes e) line) as [[out ok] ws].
  cbn [fst]. destruct (fstat_ok e); [|by left]. cbn [andb].
  destruct (Z.ltb_spec (g_max_bytes s) (zlen (live s) + zlen line)); [|by left].
  destruct (prev_open e); [|by left]. cbn [negb].
  set (fuel := S _). destruct (copy_loop_sound fuel (reads e) (prev_writes e) (live s)) as [_ Hs].
  destruct (copy_loop fuel _ _ _) as [copy okc]. cbn [fst snd] in Hs.
  destruct okc; [|by left]. destruct (truncate_ok e); [|by left].
  right. cbn. by rewrite Hs.
Qed.

(** The previous segment, though, does not survive a failed copy: opening it
    empties it. *)
Example rflog_failed_copy_loses_previous :
  let s := mkState true (str "/log") 4 [1; 2; 3] [7; 8; 9] in
  let s' := write_line (mkEnv true true [RedErr] [] true []) [4; LF] s in
  prev s' = [] /\ live s' = [1; 2; 3; 4; LF].
Proof. split; reflexivity. Qed.

(** ** Witnesses *)

Module rflog_witnesses.

Definition utc : bytes := str "2026-01-02T03:04:05.678Z".
Definition payload : bytes := [1; 65; 34; 255].
Definition buffer : bytes := replicate kLineMax 170.


(** In 31 bytes the line is cut, in 1024 it is whole. *)
Lemma rflog_line_exact_witness :
  stored 31 (str "2026-01-02T03:04:05.678Z RX r" ++ [LF])
    (format_rx (Some (replicate 31 170)) (Some utc) (-8750) 525 payload) /\
  stored kLineMax
    (str "2026-01-02T03:04:05.678Z RX rssi=-87.50 snr=5.25 len=4 hex=014122ff ascii=" ++
     [34; 46; 65; 46; 46; 34; LF])
    (format_rx (Some buffer) (Some utc) (-8750) 525 payload).
Proof.
  assert (Hu : unbroken utc) by (by apply unbroken_dec).
  assert (Hp : is_bytes payload) by (repeat constructor; unfold_ints; lia).
  split.
  - refine (proj1 (rflog_line_exact (replicate 31 170) (Some utc) None (-8750) 525 payload Hu I _ _ Hp));
      unfold_ints; lia.
  - refine (proj1 (rflog_line_exact buffer (Some utc) None (-8750) 525 payload Hu I _ _ Hp));
      unfold_ints; lia.
Defined.

Lemma rflog_line_roundtrip_witness :
  formatted (format_tx (Some buffer) (Some utc) (Some (str "ok")) payload) =
  Some (line_text (head_tx (Some utc) (Some (str "ok")) 4) payload).
Proof.
  pose (ts := Some (1767323045, 678901234)).
  assert (Hl : loggable ts (str "ok") (-8750) 525 payload).
  { repeat split; try (unfold_ints; lia); try (cbn; lia); repeat constructor; unfold_ints; lia. }
  exact (proj1 (proj2 (rflog_line_roundtrip buffer buffer (str "ok") (str "ok") ts ts (-8750) (-8750)
    525 525 payload payload eq_refl eq_refl Hl Hl))).
Defined.

(** Twenty-one calls with short reads and writes and interruptions, and room for
    twelve lines. *)
Definition bumpy : env :=
  mkEnv true true [Red 100; RedIntr; Red 7] [Wrote 3; WroteIntr; Wrote 0] true [WroteIntr; Wrote 5].
Definition calls : list call :=
  replicate 20 (mkCall bumpy (Some (1767323045, 678000000)) buffer (Heard (-8750) 525 payload)) ++
  [mkCall bumpy None buffer (Sent (str "ok") payload)].
(** The controller clears the log after five lines. *)
Definition ops : list op := map Call (take 5 calls) ++ [Clear] ++ map Call (drop 5 calls).
Definition opened : state := mkState true (str "/var/log/rf.log") 1024 (str "an older line" ++ [LF]) [].

End rflog_witnesses.
End rflog.
