(* ===== verification/RadioLog.v ===== *)
(** The RF log of a running bridge: what the LoRaHAM backend logs
    (src/backend/loraham/loraham_backend.cpp, calls of [rflog::rx] and
    [rflog::tx]) written by the log (src/util/rflog.cpp) to its two files. *)

From stdpp Require Import relations.
From S2P Require Import Prelude.
From S2P Require Import DaemonTransport.
From S2P Require Import LorahamBackend.
From S2P Require Import BackendSteps.
From S2P Require Import BackendFacts.
From S2P Require Import ScriptedTransport.
From S2P Require Import BackendProperties.
From S2P Require Import RfLog.

Module radio_log.
Import daemon_transport loraham_backend backend_facts backend_properties.

(** The words of [log_tx_outcome]. *)
Definition outcome_word (o : tx_log_outcome) : bytes :=
  match o with LogOk => str "ok" | LogUnconfirmed => str "unconfirmed" end.

Definition entry_of (c : rflog_call) : rflog.entry :=
  match c with
  | rflog_rx rssi snr d => rflog.Heard rssi snr d
  | rflog_tx o d => rflog.Sent (outcome_word o) d
  end.

(** The payloads of the transmit lines. *)
Definition sent (rs : list rflog.record) : list bytes :=
  omap (fun r => match r with
                 | rflog.Line c => match rflog.c_what c with rflog.Sent _ d => Some d | rflog.Heard _ _ _ => None end
                 | rflog.Found _ => None
                 end) rs.

Lemma omap_sublist {A B} (f : A -> option B) l1 l2 : l1 `sublist_of` l2 -> omap f l1 `sublist_of` omap f l2.
Proof.
  induction 1 as [|x l1 l2 _ IH|x l1 l2 _ IH]; cbn; [done|destruct (f x)..]; try done; by constructor.
Qed.

Section RadioLog.
Context {T : Type} `{HT : !DaemonTransport T} `{HL : !DaemonTransportLaws T}.

Lemma sent_logged (w : world T) (cs : list rflog.call) :
  rflog.c_what <$> cs = entry_of <$> rf w -> sent (map rflog.Line cs) = logged w.
Proof.
  unfold sent, logged. generalize (rf w) as l. intros l. revert cs.
  induction l as [|c l IH]; intros [|k cs] E; try done.
  injection E as E1 E2. cbn. rewrite E1. destruct c; cbn; by rewrite (IH cs E2).
Qed.

End RadioLog.

(** ** Witness: one packet sent, its line in the live file *)

Module radio_log_witnesses.
Import scripted_transport backend_properties.witnesses.

Definition clean : rflog.env := rflog.mkEnv true true [] [] true [].
Definition ops : list rflog.op :=
  [rflog.Clear; rflog.Call (rflog.mkCall clean (Some (1767323045, 678901234)) (replicate rflog.kLineMax 170)
                             (rflog.Sent (str "ok") [170; 187]))].
Definition opened : rflog.state :=
  rflog.mkState true (str "/var/log/rf.log") 1024 (str "an older line" ++ [LF]) [].

End radio_log_witnesses.
End radio_log.
