(* ===== verification/Cli.v ===== *)
(** The command line: option parsing of src/main.cpp.

    An argument is the list of its bytes (without NUL).  The parsing loop either
    stops the process with an exit code and its output, or yields the options;
    [strtoul] is written out as the C standard defines it, on the 64-bit
    [unsigned long]: leading white space and a sign are accepted, a minus sign
    negates modulo 2^64, a value that does not fit sets [errno]. *)

From S2P Require Import Prelude.
From S2P Require Import Printf.
From S2P Require Import PosixTransport.
From S2P Require Import XrSession.

Module cli.
Import printf posix_transport xr_session.

(** ** strtoul, base 10 *)

Definition isspace (c : Z) : bool := (c =? 32) || ((9 <=? c) && (c <=? 13)).
Definition isdigit (c : Z) : bool := (48 <=? c) && (c <=? 57).

Fixpoint skip_space (s : bytes) : bytes :=
  match s with
  | c :: s' => if isspace c then skip_space s' else s
  | [] => []
  end.

Fixpoint span_digits (s : bytes) : bytes * bytes :=
  match s with
  | c :: s' => if isdigit c then let '(ds, rest) := span_digits s' in (c :: ds, rest) else ([], s)
  | [] => ([], [])
  end.

Definition ULONG_MAX : Z := 18446744073709551615.

(** The value, what is left behind the end pointer, and whether [errno] is set;
    without a digit the end pointer is the start. *)
Definition strtoul (v : bytes) : Z * bytes * bool :=
  let s := skip_space v in
  let '(neg, s) := match s with 45 :: r => (true, r) | 43 :: r => (false, r) | _ => (false, s) end in
  let '(ds, rest) := span_digits s in
  match ds with
  | [] => (0, v, false)
  | _ => let n := dec_value ds in
         if ULONG_MAX <? n then (ULONG_MAX, rest, true)
         else (if neg : bool then u64 (- n) else n, rest, false)
  end.

(** [end == v || *end != '\0' || errno != 0]: no number. *)
Definition number (v : bytes) : option Z :=
  let '(p, rest, range) := strtoul v in
  if (length rest =? length v)%nat || negb (length rest =? 0)%nat || range then None else Some p.

(** ** Options *)

Record Options := mkOptions {
  bind_addr : bytes;
  port : Z;
  password_file : bytes;
  backend_name : bytes;
  rflog_on : bool;
  rflog_path : bytes;
  data_socket : bytes;
  conf_socket : bytes;
  timeouts : Timeouts
}.

#[export] Instance eta_Options : Eta Options := fun o => {|
  bind_addr := bind_addr o;
  port := port o;
  password_file := password_file o;
  backend_name := backend_name o;
  rflog_on := rflog_on o;
  rflog_path := rflog_path o;
  data_socket := data_socket o;
  conf_socket := conf_socket o;
  timeouts := timeouts o
|}.

#[export] Instance eta_Timeouts : Eta Timeouts := fun t => {|
  handshake_ms := handshake_ms t;
  auth_ms := auth_ms t;
  config_ms := config_ms t;
  tx_ms := tx_ms t;
  ping_interval_ms := ping_interval_ms t;
  pong_timeout_ms := pong_timeout_ms t
|}.

Definition default_options : Options := {|
  bind_addr := str "127.0.0.1";
  port := 7000;
  password_file := [];
  backend_name := str "fake";
  rflog_on := false;
  rflog_path := [];
  data_socket := [];
  conf_socket := [];
  timeouts := default_timeouts
|}.

(** What the process writes: a log line, the usage text, the version. *)
Inductive output := Log (text : bytes) | Usage | Version.

(** The process stops with an exit code. *)
Record stop := mkStop { code : Z; out : list output }.

(** ** The loop *)

Definition ms_value (name v : bytes) : stop + Z :=
  match number v with
  | Some p => if (p <? 1) || (3600000 <? p)
              then inl (mkStop 2 [Log (str "error: " ++ name ++ str " must be an integer in [1, 3600000]" ++ [LF]); Usage])
              else inr p
  | None => inl (mkStop 2 [Log (str "error: " ++ name ++ str " must be an integer in [1, 3600000]" ++ [LF]); Usage])
  end.

Definition port_value (v : bytes) : stop + Z :=
  match number v with
  | Some p => if 65535 <? p
              then inl (mkStop 2 [Log (str "error: --port must be an integer in [0, 65535]" ++ [LF])])
              else inr (u16 p)
  | None => inl (mkStop 2 [Log (str "error: --port must be an integer in [0, 65535]" ++ [LF])])
  end.

Definition socket_value (a v : bytes) : stop + bytes :=
  let why := socket_path_error v in
  if negb (length why =? 0)%nat
  then inl (mkStop 2 [Log (str "error: " ++ a ++ str " " ++ why ++ [LF])])
  else inr v.

Definition named (a : bytes) (s : string) : bool := bytes_eqb a (str s).

Definition map_value {A B : Type} (f : A -> B) (x : stop + A) : stop + B :=
  match x with inl e => inl e | inr v => inr (f v) end.

(** An option with a value: what the value does to the options; [None] for an
    option without one. *)
Definition set_option (a : bytes) (o : Options) : option (bytes -> stop + Options) :=
  if named a "--bind" then Some (fun v => inr (o <| bind_addr := v |>))
  else if named a "--port" then Some (fun v => map_value (fun p => o <| port := p |>) (port_value v))
  else if named a "--password-file" then Some (fun v => inr (o <| password_file := v |>))
  else if named a "--backend" then Some (fun v => inr (o <| backend_name := v |>))
  else if named a "--rflog" then Some (fun v =>
    if negb (named v "on") && negb (named v "off")
    then inl (mkStop 2 [Log (str "error: --rflog must be 'on' or 'off'" ++ [LF])])
    else inr (o <| rflog_on := named v "on" |>))
  else if named a "--rflog-path" then Some (fun v => inr (o <| rflog_path := v |>))
  else if named a "--data-socket" || named a "--conf-socket" then Some (fun v =>
    map_value (fun v => if named a "--data-socket" then o <| data_socket := v |> else o <| conf_socket := v |>)
              (socket_value a v))
  else if named a "--ping-interval-ms" then Some (fun v =>
    map_value (fun p => o <| timeouts := (timeouts o) <| ping_interval_ms := p |> |>) (ms_value a v))
  else if named a "--pong-timeout-ms" then Some (fun v =>
    map_value (fun p => o <| timeouts := (timeouts o) <| pong_timeout_ms := p |> |>) (ms_value a v))
  else None.

Fixpoint parse_args (args : list bytes) (o : Options) : stop + Options :=
  match args with
  | [] => inr o
  | a :: rest =>
      match set_option a o with
      | Some set =>
          match rest with
          | [] => inl (mkStop 2 [Log (str "error: " ++ a ++ str " requires a value" ++ [LF])])
          | v :: rest => match set v with inl e => inl e | inr o => parse_args rest o end
          end
      | None =>
          if named a "-v" || named a "--version" then inl (mkStop 0 [Version])
          else if named a "-h" || named a "--help" then inl (mkStop 0 [Usage])
          else inl (mkStop 2 [Log (str "error: unknown argument '" ++ a ++ str "'" ++ [LF]); Usage])
      end
  end.

(** ** Lemmas *)

(** What the parsed options satisfy, whatever the command line was. *)
Definition socket_ok (p : bytes) : Prop := p = [] \/ socket_path_error p = [].

Record options_ok (o : Options) : Prop := {
  ok_port : is_u16 (port o);
  ok_ping : 1 <= ping_interval_ms (timeouts o) <= 3600000;
  ok_pong : 1 <= pong_timeout_ms (timeouts o) <= 3600000;
  ok_data : socket_ok (data_socket o);
  ok_conf : socket_ok (conf_socket o);
  (** The other deadlines cannot be set. *)
  ok_fixed : timeouts o = default_timeouts <| ping_interval_ms := ping_interval_ms (timeouts o) |>
                                           <| pong_timeout_ms := pong_timeout_ms (timeouts o) |>
}.


Lemma span_digits_all ds rest : Forall is_digit ds -> (forall c r, rest = c :: r -> isdigit c = false) ->
  span_digits (ds ++ rest) = (ds, rest).
Proof.
  intros Hd Hr. induction Hd as [|c ds Hc _ IH]; cbn [app span_digits].
  - destruct rest as [|c r]; [done|]. cbn [span_digits]. by rewrite (Hr c r eq_refl).
  - unfold is_digit in Hc. assert (isdigit c = true) as -> by (unfold isdigit; lia). by rewrite IH.
Qed.

Lemma span_digits_digits s : Forall is_digit (span_digits s).1.
Proof.
  induction s as [|c s IH]; cbn [span_digits]; [constructor|].
  destruct (isdigit c) eqn:E; [|constructor]. destruct (span_digits s) as [ds rest].
  constructor; [unfold isdigit, is_digit in *; lia|done].
Qed.

Lemma dec_value_nonneg ds : Forall is_digit ds -> 0 <= dec_value ds.
Proof.
  intros H. unfold dec_value. assert (Hg : forall v, 0 <= v -> 0 <= fold_left (fun v c => v * 10 + (c - 48)) ds v).
  { induction H as [|c ds Hc _ IH]; intros v Hv; cbn [fold_left]; [done|]. apply IH.
    unfold is_digit in Hc. lia. }
  by apply Hg.
Qed.

(** [strtoul] returns an [unsigned long]. *)
Lemma strtoul_range v : 0 <= (strtoul v).1.1 <= ULONG_MAX.
Proof.
  unfold strtoul.
  destruct (match skip_space v with 45 :: r => (true, r) | 43 :: r => (false, r) | _ => (false, skip_space v) end)
    as [neg s].
  pose proof (span_digits_digits s) as Hd. destruct (span_digits s) as [ds rest]. cbn [fst] in Hd.
  apply dec_value_nonneg in Hd. unfold ULONG_MAX in *. destruct ds as [|d ds]; [cbn; lia|].
  destruct (Z.ltb_spec 18446744073709551615 (dec_value (d :: ds))); [cbn; lia|].
  destruct neg; cbn [fst]; [|lia]. pose proof (u64_range (- dec_value (d :: ds))). unfold_ints. lia.
Qed.

Lemma number_range v p : number v = Some p -> 0 <= p <= ULONG_MAX.
Proof.
  unfold number. pose proof (strtoul_range v) as H. destruct (strtoul v) as [[q rest] range].
  cbn [fst] in H. case_match; [done|]. by intros [= <-].
Qed.

(** A printed number is read back. *)
Lemma number_fmt_u n : is_u64 n -> number (fmt_u n) = Some n.
Proof.
  intros Hn. pose proof (fmt_u_digits n) as Hd. pose proof (dec_value_fmt_u n Hn) as Hv.
  assert (Hne : fmt_u n <> []). { intros E. rewrite E in Hv. cbn in Hv. subst n. discriminate E. }
  destruct (fmt_u n) as [|c ds] eqn:E; [done|]. pose proof (Forall_inv Hd) as Hc. unfold is_digit in Hc.
  assert (Hs : strtoul (c :: ds) = (n, [], false)).
  { unfold strtoul. cbn [skip_space]. assert (isspace c = false) as -> by (unfold isspace; lia).
    assert (Hm : (match c :: ds with 45 :: r => (true, r) | 43 :: r => (false, r) | _ => (false, c :: ds) end)
                 = (false, c :: ds)).
    { assert (Hneq : c <> 45 /\ c <> 43) by lia. clear -Hneq. destruct c as [|c|c]; try done.
      do 6 (destruct c as [c|c|]; try done); lia. }
    rewrite Hm. pose proof (span_digits_all (c :: ds) [] Hd) as Hsp. rewrite app_nil_r in Hsp.
    rewrite Hsp by done. rewrite Hv. unfold ULONG_MAX. unfold_ints.
    by rewrite (proj2 (Z.ltb_ge _ _)) by lia. }
  unfold number. rewrite Hs. done.
Qed.

Lemma port_value_ok v p : port_value v = inr p -> is_u16 p.
Proof. unfold port_value. repeat case_match; intros; simplify_eq; auto with bridge. Qed.

Lemma ms_value_ok name v p : ms_value name v = inr p -> 1 <= p <= 3600000.
Proof.
  unfold ms_value. destruct (number v) as [q|]; [|done].
  destruct ((q <? 1) || (3600000 <? q)) eqn:E; [done|]. intros [= <-]. lia.
Qed.

Lemma socket_value_ok a v p : socket_value a v = inr p -> p = v /\ socket_path_error p = [].
Proof.
  unfold socket_value. destruct (socket_path_error v) eqn:E; [|done]. cbn. by intros [= <-].
Qed.

Lemma map_value_inr {A B} (f : A -> B) x b : map_value f x = inr b -> exists a, x = inr a /\ b = f a.
Proof. destruct x; cbn; intros; simplify_eq. eauto. Qed.

Lemma options_ok_ping o p :
  options_ok o -> 1 <= p <= 3600000 -> options_ok (o <| timeouts := (timeouts o) <| ping_interval_ms := p |> |>).
Proof.
  intros [H1 H2 H3 H4 H5 H6] Hp. split; [exact H1|exact Hp|exact H3|exact H4|exact H5|].
  simpl. by rewrite H6.
Qed.

Lemma options_ok_pong o p :
  options_ok o -> 1 <= p <= 3600000 -> options_ok (o <| timeouts := (timeouts o) <| pong_timeout_ms := p |> |>).
Proof.
  intros [H1 H2 H3 H4 H5 H6] Hp. split; [exact H1|exact H2|exact Hp|exact H4|exact H5|].
  simpl. by rewrite H6.
Qed.

(** The other fields do not matter. *)
Lemma options_ok_ext o o' :
  port o' = port o -> timeouts o' = timeouts o -> data_socket o' = data_socket o ->
  conf_socket o' = conf_socket o -> options_ok o -> options_ok o'.
Proof. intros E1 E2 E3 E4 []. split; rewrite ?E1, ?E2, ?E3, ?E4; assumption. Qed.

Lemma options_ok_port o p : is_u16 p -> options_ok o -> options_ok (o <| port := p |>).
Proof. intros Hp [H1 H2 H3 H4 H5 H6]. split; [exact Hp|exact H2|exact H3|exact H4|exact H5|exact H6]. Qed.

Lemma options_ok_data o p : socket_path_error p = [] -> options_ok o -> options_ok (o <| data_socket := p |>).
Proof.
  intros Hp [H1 H2 H3 H4 H5 H6].
  split; [exact H1|exact H2|exact H3|right; exact Hp|exact H5|exact H6].
Qed.

Lemma options_ok_conf o p : socket_path_error p = [] -> options_ok o -> options_ok (o <| conf_socket := p |>).
Proof.
  intros Hp [H1 H2 H3 H4 H5 H6].
  split; [exact H1|exact H2|exact H3|exact H4|right; exact Hp|exact H6].
Qed.

Lemma set_option_ok a o set v o' :
  set_option a o = Some set -> set v = inr o' -> options_ok o -> options_ok o'.
Proof.
  unfold set_option. intros Hs Hv Ho.
  destruct (named a "--bind"); [injection Hs as <-; injection Hv as <-; by apply (options_ok_ext o)|].
  destruct (named a "--port").
  { injection Hs as <-. apply map_value_inr in Hv as (p & Hp%port_value_ok & ->). by apply options_ok_port. }
  destruct (named a "--password-file"); [injection Hs as <-; injection Hv as <-; by apply (options_ok_ext o)|].
  destruct (named a "--backend"); [injection Hs as <-; injection Hv as <-; by apply (options_ok_ext o)|].
  destruct (named a "--rflog").
  { injection Hs as <-. case_match; [done|]. injection Hv as <-. by apply (options_ok_ext o). }
  destruct (named a "--rflog-path"); [injection Hs as <-; injection Hv as <-; by apply (options_ok_ext o)|].
  destruct (named a "--data-socket"); cbn [orb] in Hs.
  { injection Hs as <-. apply map_value_inr in Hv as (p & [-> Hp]%socket_value_ok & ->).
    by apply options_ok_data. }
  destruct (named a "--conf-socket").
  { injection Hs as <-. apply map_value_inr in Hv as (p & [-> Hp]%socket_value_ok & ->).
    by apply options_ok_conf. }
  destruct (named a "--ping-interval-ms").
  { injection Hs as <-. apply map_value_inr in Hv as (p & Hp%ms_value_ok & ->). by apply options_ok_ping. }
  destruct (named a "--pong-timeout-ms"); [|done].
  injection Hs as <-. apply map_value_inr in Hv as (p & Hp%ms_value_ok & ->). by apply options_ok_pong.
Qed.

(** Values only stop the process with exit code 2. *)
(** A refusal: the exit code, and one log line that says why, with the usage
    text after it or not. *)
Definition refused (c : Z) (e : stop) : Prop :=
  code e = c /\ exists why tail, out e = Log (str "error: " ++ why) :: tail /\ (tail = [] \/ tail = [Usage]).

Ltac refusal := split; [reflexivity|]; eexists _, _; split; [reflexivity|]; auto.

Lemma port_value_stop v e : port_value v = inl e -> refused 2 e.
Proof.
  unfold port_value. destruct (number v) as [p|]; [destruct (65535 <? p)|]; intros [= <-]; refusal.
Qed.

Lemma ms_value_stop name v e : ms_value name v = inl e -> refused 2 e.
Proof.
  unfold ms_value. destruct (number v) as [p|]; [destruct (_ || _)|]; intros [= <-]; refusal.
Qed.

Lemma socket_value_stop a v e : socket_value a v = inl e -> refused 2 e.
Proof. unfold socket_value. destruct (negb _); intros [= <-]; refusal. Qed.

Lemma map_value_inl {A B} (f : A -> B) x e : map_value f x = inl e -> x = inl e.
Proof. destruct x; [|done]. by intros [= <-]. Qed.

Lemma set_option_stop a o set v e : set_option a o = Some set -> set v = inl e -> refused 2 e.
Proof.
  unfold set_option. intros Hs Hv.
  repeat match type of Hs with
         | (if ?b then _ else _) = _ => destruct b
         | None = _ => discriminate Hs
         end; injection Hs as <-;
    first [discriminate Hv
          |apply map_value_inl in Hv;
           first [exact (port_value_stop _ _ Hv)|exact (ms_value_stop _ _ _ Hv)|exact (socket_value_stop _ _ _ Hv)]
          |destruct (negb _ && negb _); [injection Hv as <-; refusal|discriminate Hv]].
Qed.

(** An induction over the command line, two arguments at a time. *)
Lemma args_ind (P : list bytes -> Prop) :
  P [] -> (forall a, P [a]) -> (forall a v rest, P rest -> P (a :: v :: rest)) -> forall args, P args.
Proof.
  intros H0 H1 H2. fix IH 1. intros [|a [|v rest]]; [done|apply H1|]. apply H2, IH.
Qed.

Lemma parse_args_ok args o o' : parse_args args o = inr o' -> options_ok o -> options_ok o'.
Proof.
  revert o. induction args as [|a|a v rest IH] using args_ind; intros o H Ho; cbn [parse_args] in H.
  - by simplify_eq.
  - repeat case_match; simplify_eq.
  - destruct (set_option a o) as [set|] eqn:Es; [|repeat case_match; simplify_eq].
    destruct (set v) as [e|o1] eqn:Ev; [done|]. apply (IH o1 H). by eapply set_option_ok.
Qed.

Lemma default_options_ok : options_ok default_options.
Proof. split; cbn; unfold_ints; try lia; try (by left); done. Qed.

(** The command line that asks for given options. *)
Definition render (o : Options) : list bytes :=
  [str "--bind"; bind_addr o; str "--port"; fmt_u (port o); str "--password-file"; password_file o;
   str "--backend"; backend_name o; str "--rflog"; if rflog_on o then str "on" else str "off";
   str "--rflog-path"; rflog_path o;
   str "--ping-interval-ms"; fmt_u (ping_interval_ms (timeouts o));
   str "--pong-timeout-ms"; fmt_u (pong_timeout_ms (timeouts o))] ++
  (if (length (data_socket o) =? 0)%nat then [] else [str "--data-socket"; data_socket o]) ++
  (if (length (conf_socket o) =? 0)%nat then [] else [str "--conf-socket"; conf_socket o]).

Lemma socket_value_good a p : socket_path_error p = [] -> socket_value a p = inr p.
Proof. intros H. unfold socket_value. by rewrite H. Qed.

Lemma port_value_fmt p : is_u16 p -> port_value (fmt_u p) = inr p.
Proof.
  intros Hp. unfold port_value. rewrite number_fmt_u by (unfold_ints; lia).
  unfold_ints. rewrite (proj2 (Z.ltb_ge _ _)) by lia. f_equal. apply Z.mod_small. lia.
Qed.

Lemma ms_value_fmt name p : 1 <= p <= 3600000 -> ms_value name (fmt_u p) = inr p.
Proof.
  intros Hp. unfold ms_value. rewrite number_fmt_u by (unfold_ints; lia).
  by rewrite !(proj2 (Z.ltb_ge _ _)) by lia.
Qed.

(** One option with its value. *)
Lemma parse_step a v rest o set :
  set_option a o = Some set ->
  parse_args (a :: v :: rest) o = match set v with inl e => inl e | inr o => parse_args rest o end.
Proof. intros H. cbn [parse_args]. by rewrite H. Qed.

(** Take the next option off the command line. *)
Ltac next_option := erewrite parse_step by reflexivity; cbn beta iota.

Lemma parse_data_socket p rest o :
  socket_ok p -> data_socket o = [] ->
  parse_args ((if (length p =? 0)%nat then [] else [str "--data-socket"; p]) ++ rest) o =
  parse_args rest (o <| data_socket := p |>).
Proof.
  intros [->|Hp] Ho; [cbn [length Nat.eqb app]; f_equal; destruct o; simpl in *; by subst|].
  destruct (Nat.eqb_spec (length p) 0) as [E|E]; [by apply nil_length_inv in E as ->|].
  cbn [app]. next_option. by rewrite socket_value_good.
Qed.

Lemma parse_conf_socket p o :
  socket_ok p -> conf_socket o = [] ->
  parse_args (if (length p =? 0)%nat then [] else [str "--conf-socket"; p]) o = inr (o <| conf_socket := p |>).
Proof.
  intros [->|Hp] Ho; [cbn [length Nat.eqb parse_args]; f_equal; destruct o; simpl in *; by subst|].
  destruct (Nat.eqb_spec (length p) 0) as [E|E]; [by apply nil_length_inv in E as ->|].
  next_option. by rewrite socket_value_good.
Qed.

(** A stop of the loop: exit code 0 for the version and the help, 2 for the rest. *)
Definition informs (a : bytes) : bool :=
  named a "-v" || named a "--version" || named a "-h" || named a "--help".

Lemma parse_args_stop args o e :
  parse_args args o = inl e ->
  refused 2 e \/ (code e = 0 /\ Exists (fun a => informs a = true) args /\ (out e = [Version] \/ out e = [Usage])).
Proof.
  revert o. induction args as [|a|a v rest IH] using args_ind; intros o H; cbn [parse_args] in H; [done| |];
    destruct (set_option a o) as [set|] eqn:Es.
  - simplify_eq. left. refusal.
  - unfold informs. repeat case_match; simplify_eq; [right|right|left; refusal]; cbn; repeat split; auto;
      apply Exists_cons_hd; cbn; destruct (named a "-v"), (named a "--version"), (named a "-h"), (named a "--help"); done.
  - destruct (set v) as [e'|o1] eqn:Ev; [simplify_eq; left; by eapply set_option_stop|].
    destruct (IH o1 H) as [?|(? & ? & ?)]; [by left|]. right. repeat split; try done. by do 2 constructor.
  - unfold informs. repeat case_match; simplify_eq; [right|right|left; refusal]; cbn; repeat split; auto;
      apply Exists_cons_hd; cbn; destruct (named a "-v"), (named a "--version"), (named a "-h"), (named a "--help"); done.
Qed.

(** Every well-formed set of options is what its rendering parses to. *)
Lemma render_parses (o : Options) :
  options_ok o -> parse_args (render o) default_options = inr o.
Proof.
  intros [H1 H2 H3 H4 H5 H6]. unfold render. cbn [app].
  next_option.
  next_option. rewrite port_value_fmt by done. cbn [map_value].
  next_option.
  next_option.
  next_option.
  assert (Hon : forall x b, (if negb (named (if b : bool then str "on" else str "off") "on") &&
      negb (named (if b then str "on" else str "off") "off")
    then inl (mkStop 2 [Log (str "error: --rflog must be 'on' or 'off'" ++ [LF])])
    else inr (x <| rflog_on := named (if b then str "on" else str "off") "on" |>)) = inr (x <| rflog_on := b |>))
    by (intros x []; reflexivity).
  rewrite Hon.
  next_option.
  next_option. rewrite ms_value_fmt by done. cbn [map_value].
  next_option. rewrite ms_value_fmt by done. cbn [map_value].
  rewrite (parse_data_socket _ _ _ H4); [|reflexivity].
  rewrite (parse_conf_socket _ _ H5); [|reflexivity].
  f_equal. destruct o as [? ? ? ? ? ? ? ? t]. simpl in *. by rewrite H6.
Qed.

(** * Properties *)


(** ** Witnesses and examples *)

Definition asked : Options :=
  mkOptions (str "0.0.0.0") 0 [] (str "loraham") true (str "/var/log/rf.log")
    (str "/run/a.sock") (str "/run/b.sock") (mkTimeouts 5000 5000 5000 10000 3600000 1).

Lemma asked_ok : options_ok asked.
Proof. split; cbn; unfold_ints; try lia; try (by right); done. Qed.


(** The check of a number is not as strict as its comment says: white space
    before it, and a negative number that wraps into the range, are accepted. *)
Example port_with_space : port_value (str "  7000") = inr 7000.
Proof. reflexivity. Qed.
Example port_negative : port_value (str "-18446744073709544616") = inr 7000.
Proof. reflexivity. Qed.
Example port_rejected :
  Forall (fun v => exists e, port_value (str v) = inl e) ["7000x"; ""; "65536"; "-1"; "99999999999999999999"; "0x10"]%string.
Proof. repeat constructor; by eexists. Qed.

End cli.
