(* ===== verification/ProcessLog.v ===== *)
(** What the process writes: the time-stamped log on [stderr]
    (src/util/log.{h,cpp}), and the usage text and version of src/main.cpp.

    [localtime_r] is an argument, the function from a time in seconds since the
    epoch to the same count of the local clock (the offset of the time zone
    added).  Formatting the message itself ([vfprintf]) is done where the
    message is built, so [logf] takes its text. *)

From S2P Require Import Prelude.
From S2P Require Import Printf.
From S2P Require Import Clock.
From S2P Require Import RfLog.
From S2P Require Import Cli.

Module process_log.
Import printf clock cli.

(** ** [logf] *)

(** The buffer of the time stamp; [strftime] stores the text and its NUL, or
    nothing that could be relied on. *)
Definition kStampMax : nat := 32.

Definition logf (ts : option (Z * Z)) (local : Z -> Z) (text : bytes) : option bytes :=
  let '(sec, nsec) := default (0, 0) ts in
  let stamp := strftime_iso (local sec) in
  if (length stamp <? kStampMax)%nat
  then Some (stamp ++ str "." ++ fmt_pad 3 (Z.quot nsec 1000000) ++ str " " ++ text)
  else None.

(** ** Usage and version *)

Definition line (s : string) : bytes := str s ++ [LF].

Definition usage_text : bytes :=
  line " [--bind ADDR] [--port N] [--password-file PATH] [--backend NAME]" ++
  line "          [--rflog on|off --rflog-path PATH]" ++
  line "          [--data-socket PATH] [--conf-socket PATH]" ++
  line "  --bind ADDR           bind address (default 127.0.0.1)" ++
  line "  --port N              TCP port (default 7000; 0 = ephemeral)" ++
  line "  --password-file PATH  enable one-way HMAC auth using the file contents" ++
  line "                        as the password (passwords are never taken on argv)" ++
  line "  --backend NAME        radio backend: 'fake' (default) or 'loraham'" ++
  line "                        (loraham connects to the local LoRaHAM daemon sockets)" ++
  line "  --rflog on|off        RF log: one line per frame the radio received or" ++
  line "                        sent (default off); 'on' needs --rflog-path" ++
  line "  --rflog-path PATH     absolute path of the RF log file" ++
  line "  --data-socket PATH    with --backend loraham: the radio's framed DATA socket" ++
  line "  --conf-socket PATH    with --backend loraham: the radio's CONF socket" ++
  line "                        (both together; the pair serves either band;" ++
  line "                        without them the per-band default sockets are used)" ++
  line "  --ping-interval-ms N  keepalive PING interval, ms (default 15000)" ++
  line "  --pong-timeout-ms N   max wait for a PONG after a PING, ms (default 10000)" ++
  line "                        (raise both for slow/emulated guests, e.g. QEMU/TCG," ++
  line "                        where the defaults flap with pong timeouts)" ++
  line "  -v, --version         print version and exit".

Definition usage (argv0 : bytes) : bytes := str "Usage: " ++ argv0 ++ usage_text.

Definition version_line (version : bytes) : bytes := str "meshcom-loraham-bridge " ++ version ++ [LF].

(** ** The console *)

(** [MEBRIDGE_VERSION], [argv[0]] and the time zone of the process. *)
Record process := mkProcess { version : bytes; argv0 : bytes; local : Z -> Z }.

Record console := mkConsole { stdout : bytes; stderr : bytes }.

(** Each output in turn; a log line takes the next reading of the clock. *)
Fixpoint printed (p : process) (clock : list (option (Z * Z))) (outs : list output) (c : console) : option console :=
  match outs with
  | [] => Some c
  | Log text :: outs =>
      match clock with
      | [] => None
      | ts :: clock => l ← logf ts (local p) text; printed p clock outs (mkConsole (stdout c) (stderr c ++ l))
      end
  | Usage :: outs => printed p clock outs (mkConsole (stdout c) (stderr c ++ usage (argv0 p)))
  | Version :: outs => printed p clock outs (mkConsole (stdout c ++ version_line (version p)) (stderr c))
  end.

(** ** Lemmas *)

Definition zone_ok (local : Z -> Z) (ts : option (Z * Z)) : Prop :=
  rflog.clock_ok ts /\ 0 <= local (default (0, 0) ts).1 < 2 ^ 55.

(** The stamp always fits its buffer, and a line determines the local second,
    the millisecond and the message. *)
Lemma logf_text ts local text :
  zone_ok local ts ->
  logf ts local text =
  Some (strftime_iso (local (default (0, 0) ts).1) ++ str "." ++
        fmt_pad 3 ((default (0, 0) ts).2 / 1000000) ++ str " " ++ text).
Proof.
  intros [[_ Hn]%rflog.clock_ok_default Hz]. unfold logf. destruct (default (0, 0) ts) as [sec nsec]. cbn [fst snd] in *.
  pose proof (strftime_iso_length (local sec) Hz). unfold kStampMax.
  rewrite (proj2 (Nat.ltb_lt _ _)) by lia. by rewrite Z.quot_div_nonneg by lia.
Qed.

Lemma logf_inj ts1 ts2 local text1 text2 :
  zone_ok local ts1 -> zone_ok local ts2 -> logf ts1 local text1 = logf ts2 local text2 ->
  local (default (0, 0) ts1).1 = local (default (0, 0) ts2).1 /\
  (default (0, 0) ts1).2 / 1000000 = (default (0, 0) ts2).2 / 1000000 /\ text1 = text2.
Proof.
  intros H1 H2. rewrite !logf_text by done.
  destruct H1 as [[_ Hn1]%rflog.clock_ok_default Hz1], H2 as [[_ Hn2]%rflog.clock_ok_default Hz2].
  intros [E1 E%app_inv_head]%(inj Some)%strftime_iso_inj; [|done..].
  apply pad_app in E as [E2 E%app_inv_head]; [done|Z.div_mod_to_equations; lia..].
Qed.

(** The options with a value. *)
Definition value_options : list string :=
  ["--bind"; "--port"; "--password-file"; "--backend"; "--rflog"; "--rflog-path"; "--data-socket";
   "--conf-socket"; "--ping-interval-ms"; "--pong-timeout-ms"]%string.

Fixpoint occurs (a t : bytes) : bool :=
  bool_decide (a `prefix_of` t) || match t with [] => false | _ :: t => occurs a t end.

Lemma occurs_spec a t : occurs a t = true -> exists x y, t = x ++ a ++ y.
Proof.
  induction t as [|c t IH]; cbn [occurs]; intros [H|H]%orb_prop.
  - apply bool_decide_eq_true in H as [y ->]. by exists [], y.
  - done.
  - apply bool_decide_eq_true in H as [y ->]. by exists [], y.
  - destruct (IH H) as (x & y & ->). by exists (c :: x), y.
Qed.

Lemma named_In a o : is_Some (set_option a o) <-> a ∈ map str value_options.
Proof.
  assert (Hn : forall s, named a s = true <-> a = str s) by (intros s; apply bytes_eqb_eq).
  unfold set_option. cbn [map value_options]. rewrite !elem_of_cons, elem_of_nil, <- !Hn.
  repeat case_match; bool_hyps; split; intros H'; try (by eexists); try (by destruct H'); tauto || naive_solver congruence.
Qed.

Lemma usage_text_announces :
  Forall (fun s => occurs (LF :: str "  " ++ str s ++ str " ") usage_text = true) value_options.
Proof. repeat constructor; vm_compute; reflexivity. Qed.

(** Every option with a value is announced on a line of the usage text,
    whatever [argv[0]] is. *)
Lemma usage_announces a o argv0 :
  is_Some (set_option a o) -> exists x y, usage argv0 = x ++ (LF :: str "  " ++ a ++ str " ") ++ y.
Proof.
  rewrite named_In. intros Ha. apply list_elem_of_fmap in Ha as (s & -> & Hs).
  pose proof (proj1 (Forall_forall _ _) usage_text_announces s Hs) as (x & y & E)%occurs_spec.
  exists (str "Usage: " ++ argv0 ++ x), y. unfold usage. rewrite E. by rewrite <- !app_assoc.
Qed.

(** The help options are the ones the text leaves out. *)
Example help_unannounced : occurs (str "--help") usage_text = false /\ occurs (str "-h") usage_text = false.
Proof. vm_compute. auto. Qed.
End process_log.
