(* ===== verification/Main.v ===== *)
(** The start of the process: [main] of src/main.cpp, from the command line to
    the event loop.

    The host is what the process finds: the password file behind a path, the
    answer to opening the RF log, the kernel.  [start] either stops with an exit
    code or yields the running bridge: the server on the chosen backend -- the
    LoRaHAM one on the production transport over the same kernel -- with its
    listener and the state of the RF log.  The event loop itself is
    [xr_server.run]; [main] returns 0 behind it, with the log closed. *)

From stdpp Require Import gmap.
From S2P Require Import Prelude.
From S2P Require Import XrCodec.
From S2P Require Import HmacAuth.
From S2P Require Import RadioBackend.
From S2P Require Import DaemonTransport.
From S2P Require Import PosixTransport.
From S2P Require Import LorahamBackend.
From S2P Require Import BackendFacts.
From S2P Require Import FakeBackend.
From S2P Require Import XrSession.
From S2P Require Import XrServerSpec.
From S2P Require Import XrSessionFacts.
From S2P Require Import XrConnection.
From S2P Require Import XrServer.
From S2P Require Import BackendTraffic.
From S2P Require Import Erasure.
From S2P Require Import XrServerFacts.
From S2P Require Import ScriptedSocket.
From S2P Require Import XrSessionProperties.
From S2P Require Import XrServerProperties.
From S2P Require Import Listener.
From S2P Require Import RfLog.
From S2P Require Import Printf.
From S2P Require Import Cli.
From S2P Require Import ProcessLog.

Module bridge_main.
Import auth radio_backend daemon_transport posix_transport backend_facts xr_session xr_server_spec
  xr_session_facts xr_connection xr_server xr_server_facts listener cli.

#[local] Existing Instance loraham_backend.loraham_radio_backend.
#[local] Existing Instance fake_backend.fake_radio_backend.

Definition kDefaultMaxOutbox : nat := 64 * 1024.

(** Defaults of the backend's constructor. *)
Definition kConfigTimeoutMs : Z := 2000.
Definition kDrainTimeoutMs : Z := 30000.

Definition password_error_text (e : password_error) : bytes :=
  match e with
  | CannotOpen => str "cannot open password file"
  | TooLarge => str "password file too large"
  | ReadError => str "error reading password file"
  | Empty => str "password file is empty"
  end.

Definition error_line (text : bytes) : list output := [Log (str "error: " ++ text ++ [LF])].

#[local] Existing Instances backend_traffic.audit_backend backend_traffic.recorded_transport.

Section Main.
Context {K F : Type} `{HK : !Kernel K} `{HN : !NetKernel K} `{HL : !KernelLaws K} `{HS : !OpenSSL} `{HF : !Socket F}.

Record host := mkHost {
  password_files : bytes -> option file;
  (** The error text of a failed [open], or the contents of the log and of its
      previous segment. *)
  rflog_file : bytes -> bytes + bytes * bytes;
  host_kernel : K
}.

Lemma make_distinct paths k : distinct (posix_transport.make paths k : @PosixDaemonTransport K).
Proof. unfold distinct. simpl. lia. Qed.

(** The transport as constructed: no system call yet. *)
Definition transport (paths : DaemonPaths) (k : K) : @posix K :=
  exist _ (posix_transport.make paths k) (make_distinct paths k).

Inductive bridge :=
  | FakeBridge (s : @XrServer fake_backend.FakeBackend F)
  | LorahamBridge (s : @XrServer (loraham_backend.world (@posix K)) F).

Record running := mkRunning {
  r_bridge : bridge;
  r_listener : Listener;
  r_rflog : rflog.state;
  r_kernel : K
}.

Definition rflog_idle : rflog.state := rflog.mkState false [] rflog.kMaxBytes [] [].

(** The authentication: open without a password file. *)
Definition load_auth (o : Options) (h : host) : stop + AuthConfig :=
  if (length (password_file o) =? 0)%nat then inr {| password_ := [] |} else
  match from_password_file (password_files h (password_file o)) with
  | inl e => inl (mkStop 1 (error_line (password_error_text e)))
  | inr a => inr a
  end.

Definition open_rflog (o : Options) (h : host) : stop + rflog.state :=
  if negb (rflog_on o) then inr rflog_idle else
  if (length (rflog_path o) =? 0)%nat
  then inl (mkStop 2 (error_line (str "--rflog on needs --rflog-path <absolute path>"))) else
  let answer := rflog_file h (rflog_path o) in
  let opened := match answer with inl why => inl why | inr _ => inr tt end in
  let content := match answer with inl _ => ([], []) | inr c => c end in
  let '((ok, err), s) := rflog.open (rflog_path o) opened content rflog_idle in
  if ok : bool then inr s else inl (mkStop 1 (error_line err)).

(** The two socket options name one radio and come together. *)
Definition check_sockets (o : Options) : option stop :=
  let no_data := (length (data_socket o) =? 0)%nat in
  let no_conf := (length (conf_socket o) =? 0)%nat in
  if negb (Bool.eqb no_data no_conf) then
    Some (mkStop 2 (error_line
      ((if no_data then str "--conf-socket" else str "--data-socket") ++ str " needs " ++
       (if no_data then str "--data-socket" else str "--conf-socket") ++
       str " (both name one radio's sockets)")))
  else if (negb no_data || negb no_conf) && negb (named (backend_name o) "loraham") then
    Some (mkStop 2 (error_line (str "--data-socket/--conf-socket need --backend loraham")))
  else None.

(** The backend: the server on it, once the listener is there. *)
Definition make_backend (o : Options) (a : AuthConfig) (k : K) : stop + (K -> bridge) :=
  if named (backend_name o) "fake" then
    inr (fun _ => FakeBridge (xr_server.make fake_backend.make a (timeouts o) kDefaultMaxOutbox))
  else if named (backend_name o) "loraham" then
    let paths := instance_daemon_paths (data_socket o) (conf_socket o) k in
    inr (fun k => LorahamBridge (xr_server.make
           (fresh kConfigTimeoutMs kDrainTimeoutMs (transport paths k)) a (timeouts o) kDefaultMaxOutbox))
  else inl (mkStop 2 (error_line (str "unknown backend '" ++ backend_name o ++
                                  str "' (use 'fake' or 'loraham')"))).

Definition start (o : Options) (h : host) : stop + running :=
  match check_sockets o with
  | Some e => inl e
  | None =>
  match load_auth o h with
  | inl e => inl e
  | inr a =>
  match open_rflog o h with
  | inl e => inl e
  | inr log =>
  match make_backend o a (host_kernel h) with
  | inl e => inl e
  | inr mk =>
  match listen (bind_addr o) (port o) unbound (host_kernel h) with
  | (Some why, _, _) => inl (mkStop 1 (error_line (str "listen failed: " ++ why)))
  | (None, l, k) => inr (mkRunning (mk k) l log k)
  end end end end end.

Definition main (args : list bytes) (h : host) : stop + running :=
  match parse_args args default_options with
  | inl e => inl e
  | inr o => start o h
  end.

(** What is logged around the event loop. *)
Definition banner (o : Options) (r : running) : bytes :=
  str "meshcom-loraham-bridge: listening on " ++ bind_addr o ++ str ":" ++
  printf.fmt_u (bound_port_ (r_listener r)) ++ str ", auth=" ++
  (if (length (password_file o) =? 0)%nat then str "open" else str "password") ++ str ", backend=" ++
  backend_name o ++ str ", rflog=" ++
  (if rflog.active (r_rflog r) then rflog_path o else str "off") ++ [LF].

(** The process from its arguments to its exit, the event loop (which logs
    lines of its own) in between: what [main] itself writes, and the code. *)
Definition exit_status (args : list bytes) (h : host) : stop :=
  match parse_args args default_options with
  | inl e => e
  | inr o =>
      match start o h with
      | inl e => e
      | inr r => mkStop 0 [Log (banner o r); Log (str "meshcom-loraham-bridge: shutting down" ++ [LF])]
      end
  end.

(** The handler of SIGINT and SIGTERM: [g_stop.store(true)]. *)
Definition on_signal (g_stop : bool) : bool := true.

(** What the loads of [g_stop] return, given whether a signal arrived before each. *)
Fixpoint loads {A} (g_stop : bool) (arrivals : list (bool * A)) : list (bool * A) :=
  match arrivals with
  | [] => []
  | (signal, x) :: arrivals =>
      let g_stop := if signal then on_signal g_stop else g_stop in
      (g_stop, x) :: loads g_stop arrivals
  end.

Lemma loads_signalled {A} g (arrivals : list (bool * A)) :
  existsb fst arrivals = true -> existsb fst (loads g arrivals) = true.
Proof. revert g. induction arrivals as [|[[] x] arr IH]; intros g; simpl; [done|done|]. intros Hs. rewrite IH by done. apply orb_true_r. Qed.

(** What is left of the process: the descriptors of listener and transport are
    in the kernel's table, those of clients and of the RF log beside it. *)
Record ended := mkEnded {
  e_kernel : K;
  e_clients : list nat;
  e_rflog : rflog.state
}.

(** The end of [main]: the RF log is closed, then the locals are destroyed in
    reverse order -- the server (its connection, then the listener), the backend,
    the transport. *)
Definition destroy (now : Z) (s : @XrServer (loraham_backend.world (@posix K)) F) (l : Listener)
    (log : rflog.state) : ended :=
  let log := rflog.close log in
  let p := proj1_sig (loraham_backend.tr (shutdown now s)) in
  let p := posix_transport.close (p <| kern := close_listener l (kern p) |>) in
  mkEnded (kern p) (shutdown_fds s) log.

(** Every error of the start-up is a refusal that says why. *)
Lemma error_line_refused c why : refused c (mkStop c (error_line why)).
Proof. unfold error_line. refusal. Qed.

#[local] Hint Resolve error_line_refused : core.

(** ** What decides *)

(** The command line asks for something inconsistent. *)
Definition sockets_inconsistent (o : Options) : Prop :=
  (data_socket o = [] /\ conf_socket o <> []) \/ (data_socket o <> [] /\ conf_socket o = []) \/
  (data_socket o <> [] /\ backend_name o <> str "loraham").
Definition rflog_unnamed (o : Options) : Prop := rflog_on o = true /\ rflog_path o = [].
Definition backend_unknown (o : Options) : Prop :=
  backend_name o <> str "fake" /\ backend_name o <> str "loraham".

(** The host does not provide what was asked for. *)
Definition password_unusable (o : Options) (h : host) : Prop :=
  password_file o <> [] /\ exists e, from_password_file (password_files h (password_file o)) = inl e.
Definition rflog_relative (o : Options) : Prop :=
  rflog_on o = true /\ rflog_path o <> [] /\ forall p, rflog_path o <> 47 :: p.
Definition rflog_unopened (o : Options) (h : host) : Prop :=
  rflog_on o = true /\ (exists p, rflog_path o = 47 :: p) /\ exists why, rflog_file h (rflog_path o) = inl why.
Definition cannot_listen (o : Options) (h : host) : Prop :=
  exists why l k, listen (bind_addr o) (port o) unbound (host_kernel h) = (Some why, l, k).

(** The reasons to stop, in the order in which they are looked for, each with
    its exit code. *)
Definition checks (o : Options) (h : host) : list (Z * Prop) :=
  [(2, sockets_inconsistent o); (1, password_unusable o h); (2, rflog_unnamed o); (1, rflog_relative o);
   (1, rflog_unopened o h); (2, backend_unknown o); (1, cannot_listen o h)].

(** The code of the first reason that is there. *)
Fixpoint first_failed (cs : list (Z * Prop)) (c : Z) : Prop :=
  match cs with
  | [] => False
  | (d, P) :: cs => (P /\ c = d) \/ (~ P /\ first_failed cs c)
  end.

(** The configured password. *)
Definition configured_auth (o : Options) (h : host) (a : AuthConfig) : Prop :=
  if decide (password_file o = []) then a = {| password_ := [] |}
  else from_password_file (password_files h (password_file o)) = inr a.

(** The bridge that runs is the one that was asked for. *)
Definition as_asked (o : Options) (h : host) (r : running) : Prop :=
  (exists a, configured_auth o h a /\
   match r_bridge r with
   | FakeBridge s =>
       backend_name o = str "fake" /\
       s = xr_server.make fake_backend.make a (timeouts o) kDefaultMaxOutbox
   | LorahamBridge s =>
       backend_name o = str "loraham" /\
       s = xr_server.make (fresh kConfigTimeoutMs kDrainTimeoutMs
             (transport (instance_daemon_paths (data_socket o) (conf_socket o) (host_kernel h)) (r_kernel r)))
             a (timeouts o) kDefaultMaxOutbox
   end) /\
  rflog.active (r_rflog r) = rflog_on o /\
  (rflog_on o = true -> rflog.g_path (r_rflog r) = rflog_path o) /\
  listen (bind_addr o) (port o) unbound (host_kernel h) = (None, r_listener r, r_kernel r).

Lemma named_spec a s : reflect (a = str s) (named a s).
Proof. apply iff_reflect. symmetry. apply bytes_eqb_eq. Qed.

Lemma nil_spec {A} (l : list A) : reflect (l = []) (length l =? 0)%nat.
Proof. apply iff_reflect. by destruct l. Qed.

Lemma check_sockets_spec o :
  match check_sockets o with
  | Some e => refused 2 e /\ sockets_inconsistent o
  | None => ~ sockets_inconsistent o
  end.
Proof.
  unfold check_sockets, sockets_inconsistent.
  destruct (nil_spec (data_socket o)) as [Hd|Hd], (nil_spec (conf_socket o)) as [Hc|Hc];
    cbn [Bool.eqb negb orb andb]; [naive_solver|by auto|by auto|].
  destruct (named_spec (backend_name o) "loraham"); cbn [negb]; naive_solver.
Qed.

Lemma load_auth_spec o h :
  match load_auth o h with
  | inl e => refused 1 e /\ password_unusable o h
  | inr a => ~ password_unusable o h /\ configured_auth o h a
  end.
Proof.
  unfold load_auth, password_unusable, configured_auth.
  destruct (nil_spec (password_file o)) as [Hp|Hp]; [rewrite decide_True by done; naive_solver|].
  destruct (from_password_file _) as [e|a] eqn:E; [naive_solver|]. rewrite decide_False by done. naive_solver.
Qed.

Lemma open_rflog_spec o h :
  match open_rflog o h with
  | inl e => refused (code e) e /\
             first_failed [(2, rflog_unnamed o); (1, rflog_relative o); (1, rflog_unopened o h)] (code e)
  | inr s => ~ rflog_unnamed o /\ ~ rflog_relative o /\ ~ rflog_unopened o h /\
             rflog.active s = rflog_on o /\ (rflog_on o = true -> rflog.g_path s = rflog_path o)
  end.
Proof.
  unfold open_rflog, rflog_unnamed, rflog_relative, rflog_unopened.
  destruct (rflog_on o); cbn [negb]; [|naive_solver].
  destruct (nil_spec (rflog_path o)) as [Hp|Hp]; [split; [done|by left]|].
  unfold rflog.open. destruct (rflog_path o) as [|c p] eqn:Ep; [done|].
  destruct (Z.eq_dec c 47) as [->|Hc].
  - destruct (rflog_file h (47 :: p)) as [why|[c1 c2]] eqn:Ef; cbn [fst snd].
    + split; [done|]. simpl. right. split; [naive_solver|]. right. split; [naive_solver|]. left. naive_solver.
    + simpl. naive_solver.
  - assert (Hm : forall A (x y : A), match c with 47 => x | _ => y end = y).
    { clear -Hc. intros A x y. destruct c as [|c|c]; try done. do 6 (destruct c as [c|c|]; try done). }
    rewrite Hm. split; [done|]. simpl. right. split; [naive_solver|]. left. naive_solver.
Qed.

Lemma make_backend_spec o a k :
  match make_backend o a k with
  | inl e => refused 2 e /\ backend_unknown o
  | inr mk => ~ backend_unknown o /\ forall k',
      match mk k' with
      | FakeBridge s => backend_name o = str "fake" /\
          s = xr_server.make fake_backend.make a (timeouts o) kDefaultMaxOutbox
      | LorahamBridge s => backend_name o = str "loraham" /\
          s = xr_server.make (fresh kConfigTimeoutMs kDrainTimeoutMs
                (transport (instance_daemon_paths (data_socket o) (conf_socket o) k) k'))
                a (timeouts o) kDefaultMaxOutbox
      end
  end.
Proof.
  unfold make_backend, backend_unknown.
  destruct (named_spec (backend_name o) "fake") as [Hf|Hf]; [by split; [intros []|]|].
  destruct (named_spec (backend_name o) "loraham") as [Hl|Hl]; [by split; [intros []|]|].
  by split.
Qed.

Lemma start_spec o h :
  match start o h with
  | inl e => refused (code e) e /\ first_failed (checks o h) (code e)
  | inr r => Forall (fun ch => ~ ch.2) (checks o h) /\ as_asked o h r
  end.
Proof.
  unfold start, checks, as_asked. cbn [first_failed].
  pose proof (check_sockets_spec o) as Hc. destruct (check_sockets o) as [e|].
  { destruct Hc as [Hr Hc]. rewrite (proj1 Hr). auto. }
  pose proof (load_auth_spec o h) as Ha. destruct (load_auth o h) as [e|a].
  { destruct Ha as [Hr Ha]. rewrite (proj1 Hr). auto 7. }
  pose proof (open_rflog_spec o h) as Hr. destruct (open_rflog o h) as [e|log].
  { destruct Hr as [Hr Hf], Ha as [Ha _]. cbn [first_failed] in Hf. split; [done|]. right. split; [done|]. right.
    split; [done|]. naive_solver. }
  destruct Ha as [Ha1 Ha2], Hr as (Hr1 & Hr2 & Hr3 & Hr4 & Hr5).
  pose proof (make_backend_spec o a (host_kernel h)) as Hb. destruct (make_backend o a (host_kernel h)) as [e|mk].
  { destruct Hb as [Hr Hb]. rewrite (proj1 Hr). split; [done|]. do 5 (right; split; [done|]). by left. }
  destruct Hb as [Hb1 Hb2]. unfold cannot_listen. destruct (listen _ _ _ _) as [[[why|] l] k].
  { split; [done|]. simpl. do 6 (right; split; [done|]). left. split; [by eexists _, _, _|done]. }
  split; [repeat constructor; try done; by intros (? & ? & ? & ?)|].
  split; [exists a; split; [done|apply Hb2]|]. done.
Qed.

(** Only two codes refuse. *)
Lemma first_failed_code o h c : first_failed (checks o h) c -> c = 1 \/ c = 2.
Proof. simpl. naive_solver. Qed.

(** The whole process ends with 0, or refuses with 1 or 2. *)
Lemma exit_status_cases args h :
  let e := exit_status args h in
  refused 1 e \/ refused 2 e \/
  code e = 0 /\ (out e = [Version] \/ out e = [Usage] \/ exists l1 l2, out e = [Log l1; Log l2]).
Proof.
  cbv zeta. unfold exit_status. destruct (parse_args args default_options) as [e|o] eqn:E.
  - apply parse_args_stop in E as [?|(? & _ & ?)]; naive_solver.
  - pose proof (start_spec o h) as Hs. destruct (start o h) as [e|r].
    { destruct Hs as [Hr Hf]. destruct (first_failed_code o h _ Hf) as [Hc|Hc]; rewrite Hc in Hr; auto. }
    right. right. split; [reflexivity|]. right. right. by eexists _, _.
Qed.

(** What [main] writes is always written: with two readings of the clock every
    line has its stamp.  A refusal is one stamped line "error: ..." on [stderr],
    and [stdout] has nothing but the version. *)
Theorem console_says_why (args : list bytes) (h : host) (p : process_log.process) (ts1 ts2 : option (Z * Z)) :
  process_log.zone_ok (process_log.local p) ts1 -> process_log.zone_ok (process_log.local p) ts2 ->
  let e := exit_status args h in
  exists c, process_log.printed p [ts1; ts2] (out e) (process_log.mkConsole [] []) = Some c /\
    (process_log.stdout c = [] \/
     process_log.stdout c = process_log.version_line (process_log.version p) /\ code e = 0) /\
    (code e <> 0 -> exists why tail l, process_log.stderr c = l ++ tail /\
       process_log.logf ts1 (process_log.local p) (str "error: " ++ why) = Some l).
Proof.
  intros H1 H2 e. pose proof (exit_status_cases args h) as He. fold e in He. clearbody e.
  assert (Hr : forall c, c <> 0 -> refused c e -> exists cs,
    process_log.printed p [ts1; ts2] (out e) (process_log.mkConsole [] []) = Some cs /\
    process_log.stdout cs = [] /\ exists why tail l, process_log.stderr cs = l ++ tail /\
       process_log.logf ts1 (process_log.local p) (str "error: " ++ why) = Some l).
  { intros c Hc (_ & why & tail & -> & Ht). cbn [process_log.printed].
    rewrite process_log.logf_text by done. cbn [mbind option_bind process_log.stdout process_log.stderr app].
    destruct Ht as [->| ->]; cbn [process_log.printed process_log.stdout process_log.stderr]; eexists;
      (split; [done|]); (split; [done|]); eexists why, _, _; cbn [process_log.stderr]; rewrite process_log.logf_text by done;
      split; [|done| |done]; [by rewrite app_nil_r|done]. }
  destruct He as [He|[He|(Hc & [Ho|[Ho|(l1 & l2 & Ho)]])]].
  - destruct (Hr 1 ltac:(lia) He) as (c & ? & ? & ?). exists c. split_and!; auto.
  - destruct (Hr 2 ltac:(lia) He) as (c & ? & ? & ?). exists c. split_and!; auto.
  - rewrite Ho. eexists. split; [reflexivity|]. split; [auto|done].
  - rewrite Ho. eexists. split; [reflexivity|]. split; [auto|done].
  - rewrite Ho. cbn [process_log.printed]. rewrite !process_log.logf_text by done. eexists. split; [reflexivity|]. split; [auto|done].
Qed.

(** * Properties *)

(** C22. Start-up succeeds or fails for a reason, and the exit code tells which:
    the loop over the arguments stops with 0 only for the version or the help and
    otherwise with 2.  After it seven reasons to stop are looked for in a fixed
    order, and the code is that of the first one there is: sockets that do not go
    together (2), a password file that cannot be used (1), a log without a path
    (2), with a relative path (1) or that cannot be opened (1), an unknown backend
    (2), no listener (1); every refusal comes with one log line that says why.
    The event loop is entered exactly when none of them is there, and the server
    has the backend, the password, the timeouts, the log and the listener the
    options name. *)
Theorem main_exit_codes (args : list bytes) (h : host) :
  match parse_args args default_options with
  | inl e => main args h = inl e /\
             (refused 2 e \/ (code e = 0 /\ Exists (fun a => informs a = true) args))
  | inr o =>
      match main args h with
      | inl e => refused (code e) e /\ first_failed (checks o h) (code e)
      | inr r => Forall (fun ch => ~ ch.2) (checks o h) /\ as_asked o h r
      end
  end.
Proof.
  unfold main. destruct (parse_args args default_options) as [e|o] eqn:E; [|apply start_spec].
  split; [done|]. apply parse_args_stop in E as [?|(? & ? & _)]; auto.
Qed.

(** C4. The production bridge: whatever started it with the LoRaHAM backend,
    over every run of its event loop on the POSIX transport -- whatever the
    clients, the kernel and the daemon do -- the bytes written to the daemon's
    DATA descriptor agree with the ownership of the packet in flight; when the
    same run is recorded from its start -- what crosses the DATA descriptor of
    every connection to the daemon, and which packets the backend accepts -- the
    packets handed over are a subsequence of the accepted ones, so none is handed
    over twice or unaccepted; and the session of the active client follows the XR
    protocol with the password that was configured, its output being exactly
    the frames of that session. *)
Theorem production_bridge `{HFL : !SocketLaws F} (args : list bytes) (h : host) (r : running)
    (s : @XrServer (loraham_backend.world (@posix K)) F) (ks : list (instants * @wakeup F)) :
  main args h = inr r -> r_bridge r = LorahamBridge s -> Forall (fun k => wakeup_ok k.2) ks ->
  bytes_agree (backend_of (run ks s)) /\
  (let b := backend_of (run ks (erasure.lift_server erasure.record s)) in
   erasure.erase b = backend_of (run ks s) /\
   backend_traffic.handed_over (backend_traffic.streams (loraham_backend.tr (backend_traffic.inner b)))
     (backend_traffic.accepted b)) /\
  exists o a, parse_args args default_options = inr o /\ configured_auth o h a /\
    forall c, conn_ (run ks s) = Client c ->
      mrun a (hist (session_ c)) = Some (quiet (session_ c)) /\
      sock_sent (fd_ c) ++ out_data (session_ c) = wire (hist (session_ c)).
Proof.
  intros Hm Hb Hk. unfold main in Hm. destruct (parse_args args default_options) as [e|o]; [done|].
  pose proof (start_spec o h) as Hs. rewrite Hm in Hs. destruct Hs as (_ & (a & Ha & Hw) & _).
  rewrite Hb in Hw. destruct Hw as [_ ->]. split.
  { apply owner_bytes. by apply (run_holds owner_inv). }
  split; [apply (xr_server_properties.traffic_of_run kConfigTimeoutMs kDrainTimeoutMs)|].
  exists o, a. split; [done|]. split; [done|]. intros c Hc.
  set (w := fresh kConfigTimeoutMs kDrainTimeoutMs _) in *.
  assert (Hi : server_inv a kDefaultMaxOutbox (run ks (xr_server.make w a (timeouts o) kDefaultMaxOutbox)))
    by (by apply run_inv).
  destruct Hi as (_ & _ & Hi). rewrite Hc in Hi. destruct Hi as [Hi _].
  by destruct (si_at _ _ _ _ Hi) as [Hr _ _ _ Hwi _].
Qed.

(** After the destructors the descriptors of the bridge are closed, however it ran. *)
Lemma destroyed_opened `{HNL : !NetKernelLaws K} (args : list bytes) (h : host) (r : running)
    (s : @XrServer (loraham_backend.world (@posix K)) F) (ks : list (instants * @wakeup F)) (now : Z)
    (log : rflog.state) :
  main args h = inr r -> r_bridge r = LorahamBridge s ->
  let e := destroy now (run ks s) (r_listener r) log in
  opened (e_kernel e) = opened (host_kernel h) /\ e_clients e = [] /\ rflog.active (e_rflog e) = false.
Proof.
  intros Hm Hb. cbv zeta. unfold main in Hm. destruct (parse_args args default_options) as [stop|o]; [done|].
  pose proof (start_spec o h) as Hs. rewrite Hm in Hs. destruct Hs as (_ & (a & Ha & Hw) & _ & _ & Hl).
  rewrite Hb in Hw. destruct Hw as [_ ->]. apply listen_spec in Hl as (H0 & Hn & Ho & _).
  set (t := transport _ _).
  assert (Hin : beside (opened (r_kernel r)) t) by (eexists; apply posix_make_inv).
  apply (erasure.run_keeps_transport (beside (opened (r_kernel r))) kConfigTimeoutMs kDrainTimeoutMs t a (timeouts o)
    kDefaultMaxOutbox now ks) in Hin as [acc Hin].
  split; [|by split; [apply shutdown_fds_nil, run_fds|]].
  unfold destroy. cbn [e_kernel]. set (p := proj1_sig _) in *. clearbody p. destruct Hin as [_ H2 H3 _]. cbn [fst snd] in *.
  unfold posix_transport.close. simpl. rewrite !close_fd_opened. unfold close_listener.
  rewrite (proj2 (Z.leb_le _ _)) by done. rewrite (proj1 (sys_close_spec _ _)), H2, Ho.
  rewrite Ho in H3. unfold owned in *. set_solver.
Qed.

(** C39. A signal ends the bridge cleanly: whatever started it with the LoRaHAM
    backend and whatever happens while it runs, once SIGINT or SIGTERM has
    arrived the event loop returns; and in whatever state the client and the
    daemon links are then, after the destructors every descriptor the bridge
    opened is closed again: the listener's and the daemon transport's (the
    kernel's table is that of the host), every one [accept] ever returned --
    served, refused or not usable --, and the RF log's.  While it runs, the only
    descriptor from [accept] that is open is the active client's. *)
Theorem clean_exit `{HNL : !NetKernelLaws K} (args : list bytes) (h : host) (r : running)
    (s : @XrServer (loraham_backend.world (@posix K)) F)
    (ks : list (bool * (instants * @wakeup F))) (now : Z) (log : rflog.state) :
  main args h = inr r -> r_bridge r = LorahamBridge s -> existsb fst ks = true ->
  exists s', run_until (loads false ks) s = Some s' /\
    client_fds s' = (if conn_ s' is Client c then [fd_no_ c] else []) /\
    let e := destroy now s' (r_listener r) log in
    opened (e_kernel e) = opened (host_kernel h) /\ e_clients e = [] /\ rflog.active (e_rflog e) = false.
Proof.
  intros Hm Hb Hk. apply (loads_signalled false), (run_until_run _ s) in Hk as (pre & k & post & _ & _ & ->).
  eexists. split; [done|]. split; [|by apply (destroyed_opened args h)].
  apply run_fds. unfold main in Hm. destruct (parse_args args default_options) as [e|o]; [done|].
  pose proof (start_spec o h) as Hs. rewrite Hm in Hs. destruct Hs as (_ & (a & Ha & Hw) & _).
  rewrite Hb in Hw. by destruct Hw as [_ ->].
Qed.
End Main.

(** ** Witnesses: the bridge on a small host *)

Module main_witnesses.
Import posix_witnesses scripted_socket xr_session_properties.witnesses
  xr_server_properties.server_witnesses.

#[local] Existing Instance auth.toy_openssl.

#[export] Instance toy_net : NetKernel toy := {|
  sys_socket_inet := toy_socket;
  sys_reuseaddr _ k := k;
  sys_inet_pton a := if bytes_eqb a (str "127.0.0.1") then Some 2130706433 else None;
  sys_bind _ _ _ k := (true, k);
  sys_listen _ _ k := (true, k);
  sys_getsockname _ _ := Some 7000;
|}.

#[export] Instance toy_net_laws : NetKernelLaws toy.
Proof.
  split; try done.
  - intros k r k' E. pose proof (sys_socket_spec k r k' E) as H. destruct r; [|by destruct H].
    by destruct H as (? & ? & ? & _).
  - intros fd k p [= <-]. unfold_ints. lia.
Qed.

Definition small_host : @host toy :=
  mkHost (fun p => if bytes_eqb p (str "/etc/pw") then Some {| content := password_ pw ++ [LF]; read_error := false |} else None)
    (fun _ => inl (str "Permission denied"))
    (mkToy [0; 1; 2] (fun _ => []) [] []).

Definition args : list bytes := [str "--backend"; str "loraham"; str "--password-file"; str "/etc/pw"].
Definition log_args : list bytes := [str "--rflog"; str "on"; str "--rflog-path"; str "/x"].
Definition log_options : Options := Eval vm_compute in
  default_options <| rflog_on := true |> <| rflog_path := str "/x" |>.

(** The log cannot be opened: exit code 1. *)
Lemma main_exit_codes_witness :
  exists e, main (F := socket) log_args small_host = inl e /\ code e = 1 /\ refused (code e) e /\
    first_failed (checks log_options small_host) (code e).
Proof.
  pose proof (main_exit_codes (F := socket) log_args small_host) as H.
  assert (Hp : parse_args log_args default_options = inr log_options) by (vm_compute; reflexivity).
  rewrite Hp in H. destruct (main log_args small_host) as [e|r] eqn:Em.
  - exists e. split; [reflexivity|]. split; [|exact H]. vm_compute in Em. by injection Em as <-.
  - exfalso. vm_compute in Em. discriminate Em.
Defined.

(** Two mistakes on the command line that do not end with 2: an unknown backend
    behind a password file that is missing, and a relative log path. *)
Definition exit_of (args : list bytes) : option Z :=
  match main (F := socket) args small_host with inl e => Some (code e) | inr _ => None end.
Example argument_errors_with_1 :
  exit_of [str "--backend"; str "bogus"; str "--password-file"; str "/missing"] = Some 1 /\
  exit_of [str "--rflog"; str "on"; str "--rflog-path"; str "rf.log"] = Some 1 /\
  exit_of [str "--backend"; str "bogus"] = Some 2.
Proof. vm_compute. auto. Qed.

(** A client authenticates and configures the bridge over the small host. *)
Definition idle : @XrServer (loraham_backend.world (@posix toy)) socket :=
  xr_server.make (fresh kConfigTimeoutMs kDrainTimeoutMs
    (transport (default_daemon_paths (host_kernel small_host)) (host_kernel small_host))) pw default_timeouts 0.
Definition started : @running toy socket :=
  match main args small_host with
  | inr r => r
  | inl _ => mkRunning (LorahamBridge idle) unbound rflog_idle (host_kernel small_host)
  end.
Definition server : @XrServer (loraham_backend.world (@posix toy)) socket :=
  match r_bridge started with LorahamBridge s => s | FakeBridge _ => idle end.

Lemma production_bridge_witness :
  has_client (xr_server.run ks server) = true /\ bound_port_ (r_listener started) = 7000 /\
  bytes_agree (backend_of (xr_server.run ks server)) /\
  let b := backend_of (xr_server.run ks (erasure.lift_server erasure.record server)) in
  erasure.erase b = backend_of (xr_server.run ks server) /\
  backend_traffic.handed_over (backend_traffic.streams (loraham_backend.tr (backend_traffic.inner b)))
    (backend_traffic.accepted b).
Proof.
  split; [vm_compute; reflexivity|]. split; [vm_compute; reflexivity|].
  assert (Hm : match main (F := socket) args small_host with inr _ => true | inl _ => false end = true) by (vm_compute; reflexivity).
  assert (Hb : match r_bridge started with LorahamBridge _ => true | FakeBridge _ => false end = true) by (vm_compute; reflexivity).
  assert (H1 : main args small_host = inr started).
  { unfold started. destruct (main args small_host); [discriminate Hm|reflexivity]. }
  assert (H2 : r_bridge started = LorahamBridge server).
  { unfold server. destruct (r_bridge started); [discriminate Hb|reflexivity]. }
  destruct (production_bridge args small_host started server ks H1 H2 wakeups_ok) as (H3 & H4 & _).
  split; [exact H3|exact H4].
Defined.

(** The signal arrives after all of the scheduled iterations but the last; the
    listener was a fourth descriptor. *)
Definition signalled : list (bool * (instants * @wakeup socket)) :=
  ((false,.) <$> take (length ks - 1) ks) ++ ((true,.) <$> drop (length ks - 1) ks).

Lemma clean_exit_witness :
  bool_decide (opened (r_kernel started) = {[ 0; 1; 2 ]}) = false /\
  exists s', xr_server.run_until (loads false signalled) server = Some s' /\
    client_fds s' = (if conn_ s' is Client c then [fd_no_ c] else []) /\
    let e := destroy 100 s' (r_listener started) (r_rflog started) in
    opened (e_kernel e) = opened (host_kernel small_host) /\ e_clients e = [] /\ rflog.active (e_rflog e) = false.
Proof.
  split; [vm_compute; reflexivity|].
  assert (Hm : match main (F := socket) args small_host with inr _ => true | inl _ => false end = true) by (vm_compute; reflexivity).
  assert (Hb : match r_bridge started with LorahamBridge _ => true | FakeBridge _ => false end = true) by (vm_compute; reflexivity).
  apply (clean_exit args small_host started server signalled 100 (r_rflog started)).
  - unfold started. destruct (main args small_host); [discriminate Hm|reflexivity].
  - unfold server. destruct (r_bridge started); [discriminate Hb|reflexivity].
  - vm_compute; reflexivity.
Defined.
End main_witnesses.
End bridge_main.
